(** * Battleship server: a shallow embedding of [server/server.js]

    The development follows the source file top to bottom: constants and
    grid helpers, the per-socket rate limiter, the opponent-board mask,
    the fleet sanitizer, and the message handler of the WebSocket server.
    JavaScript numbers that the code only ever uses as integers are [Z];
    arrays are lists read with stdpp's lookup and written with its insert;
    the room registry ([new Map()]) is a [gmap]; the [players] object of a
    room is an association list, because [Object.keys] order matters. *)

From Stdlib Require Import ZArith Lia List Bool Ascii String Sorting.Sorted.
From stdpp Require Import gmap strings list sorting.
Import ListNotations.
Local Open Scope Z_scope.

(** ** Constants and helpers *)

Definition SIZE : Z := 10.
Definition EMPTY : Z := 0.

(** [clamp = (n, lo, hi) => Math.max(lo, Math.min(hi, n))] *)
Definition clamp (n lo hi : Z) : Z := Z.max lo (Z.min hi n).

(** [~~x] on a number: ToInt32, written out as wrap-around modulo 2^32
    into the signed range.  The argument is the integer part of the
    number ([NaN], [undefined] and the like are 0). *)
Definition toInt32 (x : Z) : Z := (x + 2^31) mod 2^32 - 2^31.

(** ** Per-socket rate limiter *)

Module RateLimit.

Definition RATE_LIMIT_WINDOW_MS : Z := 1000.
Definition RATE_LIMIT_MAX : Z := 15.

(** The two variables captured by the closure [ok]. *)
Record Limiter := mkLimiter { windowStart : Z; count : Z }.

(** [rateLimiter()], where [t0] is the value of [now()] at creation. *)
Definition rateLimiter (t0 : Z) : Limiter :=
  {| windowStart := t0; count := 0 |}.

(** One call of [ok()], where [t] is the value of [now()] at the call:
    the new closure state and the returned boolean. *)
Definition ok (t : Z) (l : Limiter) : Limiter * bool :=
  let l1 := if RATE_LIMIT_WINDOW_MS <? t - windowStart l
            then {| windowStart := t; count := 0 |} else l in
  let l2 := {| windowStart := windowStart l1; count := count l1 + 1 |} in
  (l2, count l2 <=? RATE_LIMIT_MAX).

(** A socket receiving messages at times [ts]: for each message the time,
    the window it was counted in, and whether it passed the limiter. *)
Fixpoint feed (l : Limiter) (ts : list Z) : list (Z * Z * bool) :=
  match ts with
  | [] => []
  | t :: ts' =>
      let '(l', b) := ok t l in (t, windowStart l', b) :: feed l' ts'
  end.

(** Number of accepted messages whose timestamp lies in [lo, hi]. *)
Definition accepted_in (lo hi : Z) (tr : list (Z * Z * bool)) : nat :=
  length (List.filter (fun e => (lo <=? e.1.1) && (e.1.1 <=? hi) && e.2) tr).

(** Number of accepted messages counted in the window opened at [w]. *)
Definition accepted_of_window (w : Z) (tr : list (Z * Z * bool)) : nat :=
  length (List.filter (fun e => (e.1.2 =? w) && e.2) tr).

(** What is left of the current window's allowance. *)
Definition allowance (l : Limiter) : nat := Z.to_nat (RATE_LIMIT_MAX - count l).

(** Fifteen messages at 1000 ms and fifteen more one millisecond later. *)
Definition burst : list Z := replicate 15 1000 ++ replicate 15 1001.

End RateLimit.

(** ** Grids

    Boards, marks grids and the sanitizer's [visited] table are arrays of
    arrays.  Coordinates are [Z], as the code computes [cc-1] and [rr-1]
    before testing them with [inb]. *)

Module Grid.

Definition lookup2 {A} (g : list (list A)) (r c : Z) : option A :=
  if (r <? 0) || (c <? 0) then None
  else row ← g !! Z.to_nat r; row !! Z.to_nat c.

(** [g[r][c] = v] for a cell that exists.  JavaScript throws when the row
    is missing and grows the row when the column is; both leave the grids
    of this program, and are [None] here. *)
Definition store2 {A} (g : list (list A)) (r c : Z) (v : A) : option (list (list A)) :=
  match lookup2 g r c with
  | None => None
  | Some _ => Some (alter (<[Z.to_nat c := v]>) (Z.to_nat r) g)
  end.

(** Reads and writes at coordinates the code has already tested with
    [inb] on a grid it has validated or built itself: the default and the
    silent out-of-range write are never reached there. *)
Definition rd {A} (d : A) (g : list (list A)) (r c : Z) : A :=
  default d (lookup2 g r c).

Definition wr {A} (g : list (list A)) (r c : Z) (v : A) : list (list A) :=
  alter (<[Z.to_nat c := v]>) (Z.to_nat r) g.

(** [Array.from({length: SIZE}, () => Array(SIZE).fill(v))] *)
Definition fill {A} (v : A) : list (list A) :=
  replicate (Z.to_nat SIZE) (replicate (Z.to_nat SIZE) v).

(** The loop header [for (let i = 0; i < SIZE; i++)]. *)
Definition range : list Z := Eval cbv in map Z.of_nat (seq 0 (Z.to_nat SIZE)).

(** A 10×10 grid, the shape of every board and marks grid of the data model. *)
Definition shaped {A} (g : list (list A)) : Prop :=
  length g = Z.to_nat SIZE ∧ Forall (fun row => length row = Z.to_nat SIZE) g.

End Grid.

Abbreviation Board := (list (list Z)).

Definition emptyBoard : Board := Grid.fill EMPTY.

(** [inb = (rr,cc) => rr>=0 && rr<SIZE && cc>=0 && cc<SIZE] *)
Definition inb (rr cc : Z) : bool :=
  (0 <=? rr) && (rr <? SIZE) && (0 <=? cc) && (cc <? SIZE).

(** A loop body that may leave the function ([return {}], a thrown
    exception): [None] stops the loop. *)
Fixpoint for_each {S} (body : Z → S → option S) (idx : list Z) (st : S) : option S :=
  match idx with
  | [] => Some st
  | i :: idx' => st' ← body i st; for_each body idx' st'
  end.

(** ** Mask opponent board *)

Module Mask.

(** [myMarks && myMarks[r][c] === 2]; a missing row [myMarks[r]] throws. *)
Definition seenHit (myMarks : option Board) (r c : Z) : option bool :=
  match myMarks with
  | None => Some false
  | Some m =>
      row ← m !! Z.to_nat r;
      Some (bool_decide (row !! Z.to_nat c = Some 2))
  end.

(** One iteration of the inner loop of [maskOpponentBoard]. *)
Definition mask_cell (myMarks : option Board) (r c : Z) (out : Board) : option Board :=
  hit ← seenHit myMarks r c;
  if hit : bool then Some out else Grid.store2 out r c EMPTY.

(** [maskOpponentBoard(board, myMarks)].  The outer option is the
    abnormal exit described at [Grid.store2]; the inner one is the
    [null] returned for a missing board. *)
Definition maskOpponentBoard (board myMarks : option Board) : option (option Board) :=
  match board with
  | None => Some None
  | Some b =>
      out ← for_each (fun r => for_each (fun c => mask_cell myMarks r c) Grid.range)
                     Grid.range b;
      Some (Some out)
  end.

(** The requester has a confirmed hit recorded at [(r, c)]. *)
Definition confirmed_hit (myMarks : option Board) (r c : Z) : bool :=
  match myMarks with
  | Some m => bool_decide (Grid.lookup2 m r c = Some 2)
  | None => false
  end.

(** A marks grid that is absent or has the 10×10 shape. *)
Definition marks_ok (myMarks : option Board) : Prop :=
  match myMarks with Some m => Grid.shaped m | None => True end.

(** [out'] is [out] with every cell selected by [P] zeroed, unless the
    requester has a confirmed hit there. *)
Definition masked_by (myMarks : option Board) (P : Z → Z → Prop)
    `{∀ r c, Decision (P r c)} (out out' : Board) : Prop :=
  Grid.shaped out' ∧
  ∀ r c, 0 ≤ r → 0 ≤ c →
    Grid.lookup2 out' r c =
      if decide (P r c ∧ confirmed_hit myMarks r c = false)
      then Some EMPTY else Grid.lookup2 out r c.

End Mask.

(** ** Ships *)

(** [{ id, length, cells, hits }].  A hit is stored by the code as the
    string [`${r},${c}`]; the pair [(r, c)] stands for that key. *)
Record Ship := mkShip {
  sid : Z;
  slength : nat;
  scells : list (Z * Z);
  shits : list (Z * Z)
}.

(** ** Fleet sanitizer *)

Module Sanitizer.

(** [payload.board] when [payload] is an object whose [board] is an array
    of arrays of integers; [None] for any other payload. *)
Record Payload := mkPayload { board : option Board }.

(** The shape and number validation: ten rows of ten non-negative cells. *)
Definition valid_row (row : list Z) : bool :=
  (length row =? Z.to_nat SIZE)%nat && forallb (fun v => 0 <=? v) row.

Definition valid_board (b : Board) : bool :=
  (length b =? Z.to_nat SIZE)%nat && forallb valid_row b.

Inductive Orient := OH | OV | OS.

(** Decide orientation. *)
Definition orient_of (b : Board) (r c id : Z) : Orient :=
  if inb r (c+1) && (Grid.rd 0 b r (c+1) =? id) then OH
  else if inb (r+1) c && (Grid.rd 0 b (r+1) c =? id) then OV
  else OS.

(** The two [while] loops.  Each turn moves one cell right (down), so the
    test [inb] fails after at most [SIZE] turns; [fuel] is never the
    reason the loop stops (lemmas [walkH_fuel] and [walkV_fuel]). *)
Fixpoint walkH (fuel : nat) (b : Board) (id r cc : Z) (visited : list (list bool))
  : list (list bool) * list (Z * Z) :=
  match fuel with
  | O => (visited, [])
  | S fuel' =>
      if inb r cc && (Grid.rd 0 b r cc =? id) && negb (Grid.rd false visited r cc)
      then let '(v, cells) := walkH fuel' b id r (cc+1) (Grid.wr visited r cc true) in
           (v, (r, cc) :: cells)
      else (visited, [])
  end.

Fixpoint walkV (fuel : nat) (b : Board) (id rr c : Z) (visited : list (list bool))
  : list (list bool) * list (Z * Z) :=
  match fuel with
  | O => (visited, [])
  | S fuel' =>
      if inb rr c && (Grid.rd 0 b rr c =? id) && negb (Grid.rd false visited rr c)
      then let '(v, cells) := walkV fuel' b id (rr+1) c (Grid.wr visited rr c true) in
           (v, (rr, c) :: cells)
      else (visited, [])
  end.

(** Both loops at once: the walk in the direction [(dr, dc)]. *)
Fixpoint walk (dr dc : Z) (fuel : nat) (b : Board) (id r c : Z)
    (visited : list (list bool)) : list (list bool) * list (Z * Z) :=
  match fuel with
  | O => (visited, [])
  | S fuel' =>
      if inb r c && (Grid.rd 0 b r c =? id) && negb (Grid.rd false visited r c)
      then let '(v, cells) :=
             walk dr dc fuel' b id (r + dr) (c + dc) (Grid.wr visited r c true) in
           (v, (r, c) :: cells)
      else (visited, [])
  end.

(** The [n] cells from [(r, c)] in the direction [(dr, dc)]. *)
Definition line (dr dc : Z) (n : nat) (r c : Z) : list (Z * Z) :=
  map (fun i => (r + Z.of_nat i * dr, c + Z.of_nat i * dc)) (seq 0 n).

Definition walk_fuel : nat := S (Z.to_nat SIZE).

(** The run collected from the unvisited non-empty cell [(r, c)]. *)
Definition trace (b : Board) (r c id : Z) (visited : list (list bool))
  : list (list bool) * list (Z * Z) :=
  match orient_of b r c id with
  | OH => walkH walk_fuel b id r c visited
  | OV => walkV walk_fuel b id r c visited
  | OS => (Grid.wr visited r c true, [(r, c)])
  end.

(** No branches. *)
Definition nbrs (rr cc : Z) : list (Z * Z) :=
  [(rr, cc-1); (rr, cc+1); (rr-1, cc); (rr+1, cc)].

Definition is_member (cells : list (Z * Z)) (nr nc : Z) : bool :=
  existsb (fun x => (x.1 =? nr) && (x.2 =? nc)) cells.

Definition has_branch (b : Board) (id : Z) (cells : list (Z * Z)) : bool :=
  existsb (fun p =>
    existsb (fun n => inb n.1 n.2 && (Grid.rd 0 b n.1 n.2 =? id)
                      && negb (is_member cells n.1 n.2))
            (nbrs p.1 p.2))
    cells.

(** The body of the double loop over [(r, c)]: skip an empty or visited
    cell, otherwise collect the run, test it for branches and push the
    ship.  [None] is the [return {}] of the branch test. *)
Definition visit (b : Board) (r c : Z)
    (st : list (list bool) * list Ship) : option (list (list bool) * list Ship) :=
  let id := Grid.rd 0 b r c in
  if (id =? EMPTY) || Grid.rd false st.1 r c then Some st
  else
    let '(visited, cells) := trace b r c id st.1 in
    if has_branch b id cells then None
    else Some (visited,
               st.2 ++ [{| sid := id; slength := length cells;
                           scells := cells; shits := [] |}]).

Definition scan (b : Board) : option (list (list bool) * list Ship) :=
  for_each (fun r => for_each (fun c => visit b r c) Grid.range) Grid.range
           (Grid.fill false, []).

(** The same loop without the branch test: it never gives up, and names
    the runs that the scan extracts from a grid. *)
Definition visit_unchecked (b : Board) (r c : Z)
    (st : list (list bool) * list Ship) : option (list (list bool) * list Ship) :=
  let id := Grid.rd 0 b r c in
  if (id =? EMPTY) || Grid.rd false st.1 r c then Some st
  else
    let '(visited, cells) := trace b r c id st.1 in
    Some (visited,
          st.2 ++ [{| sid := id; slength := length cells;
                      scells := cells; shits := [] |}]).

Definition scan_unchecked (b : Board) : option (list (list bool) * list Ship) :=
  for_each (fun r => for_each (fun c => visit_unchecked b r c) Grid.range) Grid.range
           (Grid.fill false, []).

(** The runs extracted from [b], in scan order. *)
Definition runs (b : Board) : list Ship :=
  match scan_unchecked b with Some st => st.2 | None => [] end.

(** [Array.prototype.sort] with a comparator is a stable sort; [le x y]
    says that the comparator does not put [y] before [x]. *)
Fixpoint insert_by {A} (le : A → A → bool) (x : A) (l : list A) : list A :=
  match l with
  | [] => [x]
  | y :: l' => if le x y then x :: y :: l' else y :: insert_by le x l'
  end.

Definition sort_by {A} (le : A → A → bool) (l : list A) : list A :=
  foldr (insert_by le) [] l.

(** [.sort((a,b)=>b-a)] on lengths *)
Definition sort_desc : list nat → list nat := sort_by (fun a b => (b <=? a)%nat).

(** [.sort((a,b)=>a.id-b.id)] on ships *)
Definition sort_ships : list Ship → list Ship := sort_by (fun a b => sid a <=? sid b).

(** [String(n)] for a length [n]: its decimal digits.  The fuel [S n]
    is more than the number of digits. *)
Definition digit (n : nat) : ascii := ascii_of_nat (48 + n).

Fixpoint decimal_go (fuel n : nat) (acc : string) : string :=
  match fuel with
  | O => acc
  | S fuel' =>
      let acc' := String (digit (n mod 10)) acc in
      if (n <? 10)%nat then acc' else decimal_go fuel' (n / 10) acc'
  end.

Definition decimal (n : nat) : string := decimal_go (S n) n "".

Definition is_digit (a : ascii) : bool :=
  let n := nat_of_ascii a in ((48 <=? n) && (n <=? 57))%nat.

(** [a.join(',')] *)
Fixpoint join (a : list string) : string :=
  match a with
  | [] => ""
  | [x] => x
  | x :: a' => x +:+ "," +:+ join a'
  end.

(** Validate fleet lengths: the two strings the code compares. *)
Definition wanted : string := join (map decimal (sort_desc [5; 4; 3; 3; 2]%nat)).
Definition got (ships : list Ship) : string :=
  join (map decimal (sort_desc (map slength ships))).

(** [forEach((s, i) => s.id = i+1)] *)
Definition renumber (ships : list Ship) : list Ship :=
  imap (fun i s => {| sid := Z.of_nat i + 1; slength := slength s;
                      scells := scells s; shits := shits s |}) ships.

(** [for (const s of ships) for (const [rr,cc] of s.cells) normBoard[rr][cc] = s.id] *)
Definition paint (ships : list Ship) (normBoard : Board) : Board :=
  foldl (fun nb s => foldl (fun nb' p => Grid.wr nb' p.1 p.2 (sid s)) nb (scells s))
        normBoard ships.

(** [sanitizeFleet(payload)]: [None] is the empty object [{}]. *)
Definition sanitizeFleet (payload : option Payload) : option (Board * list Ship) :=
  p ← payload;
  b ← board p;
  if negb (valid_board b) then None
  else
    st ← scan b;
    let ships := st.2 in
    if negb (String.eqb (got ships) wanted) then None
    else
      let ships' := renumber (sort_ships ships) in
      Some (paint ships' emptyBoard, ships').

(** No run extracted so far has a branch. *)
Definition straight (b : Board) (st : list (list bool) * list Ship) : bool :=
  forallb (fun s => negb (has_branch b (sid s) (scells s))) st.2.

(** Cells that lie in one row or in one column. *)
Definition one_line (cells : list (Z * Z)) : Prop :=
  (∃ r, ∀ x, x ∈ cells → x.1 = r) ∨ (∃ c, ∀ x, x ∈ cells → x.2 = c).

(** The cells handled before the double loop reaches [(r, c)]. *)
Definition before (r c r' c' : Z) : Prop := r' < r ∨ (r' = r ∧ c' < c).

(** The state of the extraction, on any grid, once the cells selected by
    [D] are handled: every non-empty one is visited, a visited cell lies
    in an extracted run that carries its identifier, and every run lies
    in one row or one column. *)
Definition extracted (b : Board) (D : Z → Z → Prop)
    (st : list (list bool) * list Ship) : Prop :=
  Grid.shaped st.1
  ∧ (∀ r c, 0 ≤ r < SIZE → 0 ≤ c < SIZE → D r c → Grid.rd 0 b r c ≠ EMPTY →
       Grid.lookup2 st.1 r c = Some true)
  ∧ (∀ r c, 0 ≤ r < SIZE → 0 ≤ c < SIZE → Grid.lookup2 st.1 r c = Some true →
       ∃ s, s ∈ st.2 ∧ (r, c) ∈ scells s ∧ sid s = Grid.rd 0 b r c)
  ∧ (∀ s, s ∈ st.2 → one_line (scells s)).

End Sanitizer.

(** ** Sample submissions *)

Module Demo.

(** A regular fleet with identifiers 7, 3, 9, 4 and 1. *)
Definition fleet_board : Board :=
 [[7;7;7;7;7;0;0;0;0;0];
  [0;0;0;0;0;0;0;0;0;0];
  [3;0;9;9;9;0;0;0;0;0];
  [3;0;0;0;0;0;0;0;0;0];
  [3;0;0;0;0;0;4;4;0;0];
  [3;0;0;0;0;0;0;0;0;0];
  [0;0;0;0;0;0;0;0;0;0];
  [0;0;0;0;0;0;0;0;0;0];
  [0;0;0;0;0;0;0;0;0;0];
  [0;0;0;0;0;0;0;1;1;1]].

(** The same layout with the identifier 1 in every ship: five disjoint
    straight runs that share one identifier. *)
Definition same_id_board : Board :=
 [[1;1;1;1;1;0;0;0;0;0];
  [0;0;0;0;0;0;0;0;0;0];
  [1;0;1;1;1;0;0;0;0;0];
  [1;0;0;0;0;0;0;0;0;0];
  [1;0;0;0;0;0;1;1;0;0];
  [1;0;0;0;0;0;0;0;0;0];
  [0;0;0;0;0;0;0;0;0;0];
  [0;0;0;0;0;0;0;0;0;0];
  [0;0;0;0;0;0;0;0;0;0];
  [0;0;0;0;0;0;0;1;1;1]].

(** The fleet of [fleet_board] with one more run of identifier 1, far
    from the other: a sixth run. *)
Definition sixth_run_board : Board :=
 [[7;7;7;7;7;0;0;0;0;0];
  [0;0;0;0;0;0;0;0;0;0];
  [3;0;9;9;9;0;0;0;0;0];
  [3;0;0;0;0;0;0;0;0;0];
  [3;0;0;0;0;0;4;4;0;0];
  [3;0;0;0;0;0;0;0;0;0];
  [0;0;0;0;0;0;0;0;0;0];
  [1;1;1;0;0;0;0;0;0;0];
  [0;0;0;0;0;0;0;0;0;0];
  [0;0;0;0;0;0;0;1;1;1]].

(** The ship 3 of [fleet_board] bent into an L. *)
Definition l_shape_board : Board :=
 [[7;7;7;7;7;0;0;0;0;0];
  [0;0;0;0;0;0;0;0;0;0];
  [3;3;9;9;9;0;0;0;0;0];
  [3;0;0;0;0;0;0;0;0;0];
  [3;0;0;0;0;0;4;4;0;0];
  [0;0;0;0;0;0;0;0;0;0];
  [0;0;0;0;0;0;0;0;0;0];
  [0;0;0;0;0;0;0;0;0;0];
  [0;0;0;0;0;0;0;0;0;0];
  [0;0;0;0;0;0;0;1;1;1]].

(** A marks grid with two hits, on ships 7 and 3 of [fleet_board], and
    one miss. *)
Definition some_marks : Board :=
 [[2;0;0;0;0;0;0;0;0;0];
  [0;3;0;0;0;0;0;0;0;0];
  [2;0;0;0;0;0;0;0;0;0];
  [0;0;0;0;0;0;0;0;0;0];
  [0;0;0;0;0;0;0;0;0;0];
  [0;0;0;0;0;0;0;0;0;0];
  [0;0;0;0;0;0;0;0;0;0];
  [0;0;0;0;0;0;0;0;0;0];
  [0;0;0;0;0;0;0;0;0;0];
  [0;0;0;0;0;0;0;0;0;0]].

(** A grid with nine rows. *)
Definition nine_rows : Board := replicate 9 (replicate 10 0).

End Demo.

(** ** Valid placements

    The submissions the sanitizer is meant to accept, described
    independently of it: five straight ships with distinct positive
    identifiers, inside the grid, not overlapping, of lengths 5, 4, 3, 3
    and 2, and a board that holds exactly these ships. *)

Module Placement.

Record Placed := mkPlaced {
  p_id : Z;          (* the identifier written in the submitted grid *)
  p_row : Z;         (* top-left cell *)
  p_col : Z;
  p_len : nat;
  p_horiz : bool
}.

Definition cell_at (p : Placed) (i : Z) : Z * Z :=
  if p_horiz p then (p_row p, p_col p + i) else (p_row p + i, p_col p).

Definition cells_of (p : Placed) : list (Z * Z) :=
  map (fun i => cell_at p (Z.of_nat i)) (seq 0 (p_len p)).

Definition inside (p : Placed) : Prop :=
  0 ≤ p_row p ∧ 0 ≤ p_col p ∧
  if p_horiz p then p_row p < SIZE ∧ p_col p + Z.of_nat (p_len p) ≤ SIZE
  else p_col p < SIZE ∧ p_row p + Z.of_nat (p_len p) ≤ SIZE.

Definition valid_fleet (fl : list Placed) : Prop :=
  map p_len fl ≡ₚ [5; 4; 3; 3; 2]%nat
  ∧ NoDup (map p_id fl)
  ∧ (∀ p, p ∈ fl → 0 < p_id p)
  ∧ (∀ p, p ∈ fl → inside p)
  ∧ (∀ p q x, p ∈ fl → q ∈ fl → x ∈ cells_of p → x ∈ cells_of q → p = q).

(** The grid [b] shows the fleet [fl] and nothing else. *)
Definition encodes (fl : list Placed) (b : Board) : Prop :=
  Grid.shaped b
  ∧ (∀ p x, p ∈ fl → x ∈ cells_of p → Grid.lookup2 b x.1 x.2 = Some (p_id p))
  ∧ (∀ r c, 0 ≤ r < SIZE → 0 ≤ c < SIZE →
       (∀ p, p ∈ fl → (r, c) ∉ cells_of p) → Grid.lookup2 b r c = Some EMPTY).

(** The ship record the sanitizer builds for a placed ship. *)
Definition to_ship (p : Placed) : Ship :=
  {| sid := p_id p; slength := p_len p; scells := cells_of p; shits := [] |}.

(** The record returned for the ship that comes [i]-th by identifier. *)
Definition numbered (i : nat) (p : Placed) : Ship :=
  {| sid := Z.of_nat i + 1; slength := p_len p; scells := cells_of p; shits := [] |}.

(** The fleet shown by [Demo.fleet_board]. *)
Definition demo_fleet : list Placed :=
  [ {| p_id := 7; p_row := 0; p_col := 0; p_len := 5; p_horiz := true |};
    {| p_id := 3; p_row := 2; p_col := 0; p_len := 4; p_horiz := false |};
    {| p_id := 9; p_row := 2; p_col := 2; p_len := 3; p_horiz := true |};
    {| p_id := 4; p_row := 4; p_col := 6; p_len := 2; p_horiz := true |};
    {| p_id := 1; p_row := 9; p_col := 7; p_len := 3; p_horiz := true |} ].

(** The state of the scan once the cells selected by [D] are handled:
    the ships whose first cell is among them are extracted and their
    cells, and no others, are visited. *)
Definition scanned (fl : list Placed) (D : Z → Z → Prop)
    (st : list (list bool) * list Ship) : Prop :=
  Grid.shaped st.1
  ∧ (∀ r c, 0 ≤ r < SIZE → 0 ≤ c < SIZE →
       (Grid.lookup2 st.1 r c = Some true ↔
        ∃ p, p ∈ fl ∧ D (p_row p) (p_col p) ∧ (r, c) ∈ cells_of p))
  ∧ ∃ ps, st.2 = map to_ship ps ∧ NoDup ps
          ∧ ∀ p, p ∈ ps ↔ p ∈ fl ∧ D (p_row p) (p_col p).

End Placement.

(** ** The runs of an arbitrary grid

    What the extraction yields on any grid, valid placement or not: runs
    that lie in the grid, carry one identifier each and share no cell. *)

Module Extraction.
Import Placement.

(** The grid [b] holds the run [p]: at least one cell, inside the grid,
    the identifier of [p], which is not [EMPTY], on every cell. *)
Definition shown (b : Board) (p : Placed) : Prop :=
  (1 ≤ p_len p)%nat ∧ inside p ∧ p_id p ≠ EMPTY
  ∧ ∀ x, x ∈ cells_of p → Grid.lookup2 b x.1 x.2 = Some (p_id p).

(** Runs that are pairwise different and share no cell. *)
Definition apart (ps : list Placed) : Prop :=
  NoDup ps
  ∧ ∀ p q x, p ∈ ps → q ∈ ps → x ∈ cells_of p → x ∈ cells_of q → p = q.

(** The state of the extraction once the cells selected by [D] are
    handled: every non-empty one is visited, and the visited cells are
    exactly the cells of the runs extracted so far. *)
Definition parted (b : Board) (D : Z → Z → Prop)
    (st : list (list bool) * list Ship) : Prop :=
  Grid.shaped st.1
  ∧ (∀ r c, 0 ≤ r < SIZE → 0 ≤ c < SIZE → D r c → Grid.rd 0 b r c ≠ EMPTY →
       Grid.lookup2 st.1 r c = Some true)
  ∧ ∃ ps, st.2 = map to_ship ps
          ∧ (∀ p, p ∈ ps → shown b p)
          ∧ apart ps
          ∧ ∀ r c, 0 ≤ r < SIZE → 0 ≤ c < SIZE →
              (Grid.lookup2 st.1 r c = Some true ↔ ∃ p, p ∈ ps ∧ (r, c) ∈ cells_of p).

(** The run [p] under the identifier it gets when it comes [i]-th. *)
Definition renamed (i : nat) (p : Placed) : Placed :=
  {| p_id := Z.of_nat i + 1; p_row := p_row p; p_col := p_col p;
     p_len := p_len p; p_horiz := p_horiz p |}.

End Extraction.

(** ** More sample submissions *)

Module Samples.

(** What the sanitizer returns for [Demo.fleet_board]. *)
Definition fleet_clean : Board * list Ship :=
  default ([], [])
    (Sanitizer.sanitizeFleet (Some {| Sanitizer.board := Some Demo.fleet_board |})).

(** The fleet of [Demo.fleet_board] and a ship of one cell. *)
Definition lone_board : Board :=
 [[7;7;7;7;7;0;0;0;0;0];
  [0;0;0;0;0;0;0;0;0;0];
  [3;0;9;9;9;0;0;0;0;0];
  [3;0;0;0;0;0;0;0;0;0];
  [3;0;0;0;0;0;4;4;0;0];
  [3;0;0;0;0;0;0;0;0;0];
  [0;0;0;0;0;0;0;0;0;0];
  [0;0;0;8;0;0;0;0;0;0];
  [0;0;0;0;0;0;0;0;0;0];
  [0;0;0;0;0;0;0;1;1;1]].

End Samples.

(** ** Rooms, players and sockets *)

Inductive Phase := placing | battle | gameover.

#[global] Instance Phase_eq_dec : EqDecision Phase.
Proof. solve_decision. Defined.

(** Player identifiers are the strings of [randomUUID()]. *)
Record Player := mkPlayer {
  id : string;
  board : Board;
  ships : list Ship;
  marks : Board;
  ready : bool
}.

(** [players] is a plain object: [Object.keys] lists its keys in the
    order they were first assigned, so it is an association list. *)
Record Room := mkRoom {
  createdAt : Z;
  phase : Phase;
  turn : option string;
  winner : option string;
  players : list (string * Player)
}.

(** The fields the server keeps on a socket [ws].  [ws.id] and
    [ws.isAlive] play no part in message handling and are left out. *)
Record Conn := mkConn {
  room : option string;
  playerId : option string;
  okRate : RateLimit.Limiter
}.

(** [rooms] and [wss.clients]; a socket is named by a handle, and
    [clients] keeps sockets in connection order, as the [Set] does. *)
Record Server := mkServer {
  rooms : gmap string Room;
  clients : list (nat * Conn)
}.

(** *** The [players] object *)

(** [players[k]] *)
Fixpoint pget (k : string) (ps : list (string * Player)) : option Player :=
  match ps with
  | [] => None
  | (k', p) :: ps' => if String.eqb k' k then Some p else pget k ps'
  end.

(** [players[k] = p]: an existing key keeps its place, a new one goes last. *)
Fixpoint pset (k : string) (p : Player) (ps : list (string * Player))
  : list (string * Player) :=
  match ps with
  | [] => [(k, p)]
  | (k', p') :: ps' =>
      if String.eqb k' k then (k, p) :: ps' else (k', p') :: pset k p ps'
  end.

(** [Object.keys(players)] *)
Definition keys (ps : list (string * Player)) : list string := map fst ps.

(** [x || null] on a string: the empty string is falsy. *)
Definition truthy (x : option string) : option string :=
  match x with
  | Some s => if String.eqb s "" then None else Some s
  | None => None
  end.

(** [id !== pid], where [pid] may be [null]. *)
Definition differs (pid : option string) (k : string) : bool :=
  match pid with
  | Some p => negb (String.eqb k p)
  | None => true
  end.

(** [otherPlayerId(room, pid)] *)
Definition otherPlayerId (rm : Room) (pid : option string) : option string :=
  truthy (List.find (differs pid) (keys (players rm))).

(** *** Sockets *)

Fixpoint cget (h : nat) (cs : list (nat * Conn)) : option Conn :=
  match cs with
  | [] => None
  | (h', c) :: cs' => if Nat.eqb h' h then Some c else cget h cs'
  end.

Fixpoint cset (h : nat) (c : Conn) (cs : list (nat * Conn)) : list (nat * Conn) :=
  match cs with
  | [] => [(h, c)]
  | (h', c') :: cs' =>
      if Nat.eqb h' h then (h, c) :: cs' else (h', c') :: cset h c cs'
  end.

Definition cdel (h : nat) (cs : list (nat * Conn)) : list (nat * Conn) :=
  List.filter (fun e => negb (Nat.eqb e.1 h)) cs.

(** [getRoom(ws)] *)
Definition getRoom (s : Server) (ws : Conn) : option Room :=
  code ← truthy (room ws); rooms s !! code.

(** ** Outbound messages *)

Inductive Err := NO_SUCH_ROOM | ROOM_FULL | BAD_FLEET.

(** [{ id: s.id, length: s.length, hits: s.hits || [] }] *)
Record ShipSummary := mkSummary {
  sum_id : Z; sum_length : nat; sum_hits : list (Z * Z)
}.

Record PlayerView := mkPlayerView {
  v_id : string;
  v_board : option Board;
  v_marks : Board;
  v_ships : list ShipSummary;
  v_ready : bool
}.

Record RoomState := mkRoomState {
  st_code : option string;
  st_phase : Phase;
  st_turn : option string;
  st_winner : option string;
  st_me : option PlayerView;
  st_opp : option PlayerView
}.

Inductive Out :=
  | ROOM_CREATED (code : string)
  | JOINED (code : string) (playerId : string)
  | ERROR (error : Err)
  | ROOM_STATE (state : RoomState).

Definition summary (s : Ship) : ShipSummary :=
  {| sum_id := sid s; sum_length := slength s; sum_hits := shits s |}.

(** [roomStateFor(ws, room)]; [None] when [maskOpponentBoard] exits
    abnormally. *)
Definition roomStateFor (ws : Conn) (rm : Room) : option RoomState :=
  let meId := playerId ws in
  let oppId := otherPlayerId rm meId in
  let me := k ← truthy meId; pget k (players rm) in
  let opp := k ← oppId; pget k (players rm) in
  safeOppBoard ← match opp with
                 | Some o => Mask.maskOpponentBoard (Some (board o)) (marks <$> me)
                 | None => Some None
                 end;
  Some {| st_code := truthy (room ws);
          st_phase := phase rm;
          st_turn := turn rm;
          st_winner := winner rm;
          st_me := (fun m => {| v_id := default "" meId; v_board := Some (board m);
                                v_marks := marks m;
                                v_ships := map summary (ships m);
                                v_ready := ready m |}) <$> me;
          st_opp := (fun o => {| v_id := default "" oppId; v_board := safeOppBoard;
                                 v_marks := marks o;
                                 v_ships := map summary (ships o);
                                 v_ready := ready o |}) <$> opp |}.

(** [broadcastRoom(code)]: one [ROOM_STATE] per socket bound to [code]. *)
Fixpoint send_states (code : string) (rm : Room) (cs : list (nat * Conn))
  : option (list (nat * Out)) :=
  match cs with
  | [] => Some []
  | (h, ws) :: cs' =>
      if bool_decide (room ws = Some code)
      then st ← roomStateFor ws rm;
           rest ← send_states code rm cs';
           Some ((h, ROOM_STATE st) :: rest)
      else send_states code rm cs'
  end.

Definition broadcastRoom (s : Server) (code : option string) : option (list (nat * Out)) :=
  match code with
  | None => Some []
  | Some k =>
      match rooms s !! k with
      | None => Some []
      | Some rm => send_states k rm (clients s)
      end
  end.

(** [[...wss.clients].some(ws => ws.room === code)] *)
Definition hasClient (cs : list (nat * Conn)) (code : string) : bool :=
  existsb (fun e => bool_decide (room e.2 = Some code)) cs.

(** [cleanupRooms()]: drop every room no socket is bound to. *)
Definition cleanupRooms (s : Server) : Server :=
  {| rooms := filter (fun kv => hasClient (clients s) kv.1 = true) (rooms s);
     clients := clients s |}.

(** ** Inbound messages *)

(** The parsed message, by its [type].  A string is held as its UTF-8
    bytes.  [JOIN_ROOM] carries [msg.code || ''] when that is a string,
    [PLACE_FLEET] carries [msg.payload] and [!!msg.ready], [FIRE] carries
    the integer parts of the numbers that [msg.r] and [msg.c] convert to.
    The last three are the messages on which the handler throws:
    - [JOIN_ROOM_THROWS]: [msg.code] is truthy and no string (a number,
      [true], an array, an object), so that [(msg.code || '').trim] is
      not a function;
    - [FIRE_THROWS]: the conversion of [msg.r] or [msg.c] to a number
      throws (for instance an object whose own [toString] is not
      callable), so that [~~r] or [~~c] throws;
    - [NULL]: the message is [null], so that [msg.type] throws. *)
Inductive Msg :=
  | CREATE_ROOM
  | JOIN_ROOM (code : string)
  | PLACE_FLEET (payload : option Sanitizer.Payload) (ready : bool)
  | FIRE (r c : Z)
  | REQUEST_STATE
  | UNKNOWN
  | JOIN_ROOM_THROWS
  | FIRE_THROWS
  | NULL.

(** The three messages on which the handler can throw. *)
Definition throwing (m : Msg) : bool :=
  match m with
  | JOIN_ROOM_THROWS | FIRE_THROWS | NULL => true
  | _ => false
  end.

(** What one handler run reads from outside: the clock and the random
    sources.  [coin] is [Math.floor(Math.random() * 2)], 0 or 1. *)
Record Env := mkEnv {
  now : Z;
  code6 : string;
  randomUUID : string;
  coin : bool
}.

(** [String.prototype.trim] strips the white space and the line
    terminators of ECMAScript.  In UTF-8 they take one, two or three
    bytes. *)

(** U+0009 to U+000D and U+0020. *)
Definition is_space (a : ascii) : bool :=
  let n := nat_of_ascii a in
  ((9 <=? n) && (n <=? 13) || (n =? 32))%nat.

(** U+00A0, the bytes C2 A0. *)
Definition is_space2 (a b : ascii) : bool :=
  ((nat_of_ascii a =? 194) && (nat_of_ascii b =? 160))%nat.

(** U+1680 (E1 9A 80); U+2000 to U+200A, U+2028, U+2029 and U+202F
    (E2 80 80 to E2 80 8A, E2 80 A8, E2 80 A9, E2 80 AF); U+205F
    (E2 81 9F); U+3000 (E3 80 80); U+FEFF (EF BB BF). *)
Definition is_space3 (a b c : ascii) : bool :=
  let n := nat_of_ascii a in
  let m := nat_of_ascii b in
  let k := nat_of_ascii c in
  ((n =? 225) && (m =? 154) && (k =? 128)
   || (n =? 226) && (m =? 128)
      && ((128 <=? k) && (k <=? 138) || (k =? 168) || (k =? 169) || (k =? 175))
   || (n =? 226) && (m =? 129) && (k =? 159)
   || (n =? 227) && (m =? 128) && (k =? 128)
   || (n =? 239) && (m =? 187) && (k =? 191))%nat.

(** A byte that continues a character begun before it. *)
Definition continues (a : ascii) : bool :=
  ((128 <=? nat_of_ascii a) && (nat_of_ascii a <=? 191))%nat.

Fixpoint trim_start (s : string) : string :=
  match s with
  | String a s1 =>
      if is_space a then trim_start s1
      else match s1 with
           | String b s2 =>
               if is_space2 a b then trim_start s2
               else match s2 with
                    | String c s3 => if is_space3 a b c then trim_start s3 else s
                    | EmptyString => s
                    end
           | EmptyString => s
           end
  | EmptyString => EmptyString
  end.

(** The string is white space and nothing else. *)
Definition all_space (s : string) : bool := String.eqb (trim_start s) "".

(** What is left of [s] without the white space at its end: the bytes
    before the first place from which on all is white space. *)
Fixpoint trim_end (s : string) : string :=
  match s with
  | String a s' => if all_space s then EmptyString else String a (trim_end s')
  | EmptyString => EmptyString
  end.

Definition trim (s : string) : string := trim_end (trim_start s).

Definition set_room (s : Server) (code : string) (rm : Room) : Server :=
  {| rooms := <[code := rm]> (rooms s); clients := clients s |}.

Definition set_players (rm : Room) (ps : list (string * Player)) : Room :=
  {| createdAt := createdAt rm; phase := phase rm; turn := turn rm;
     winner := winner rm; players := ps |}.

(** *** CREATE_ROOM *)
Definition handle_create (env : Env) (h : nat) (s : Server)
  : option (Server * list (nat * Out)) :=
  let code := code6 env in
  Some (set_room s code {| createdAt := now env; phase := placing; turn := None;
                           winner := None; players := [] |},
        [(h, ROOM_CREATED code)]).

(** *** JOIN_ROOM *)
Definition handle_join (env : Env) (h : nat) (ws : Conn) (msg_code : string) (s : Server)
  : option (Server * list (nat * Out)) :=
  let code := trim msg_code in
  match rooms s !! code with
  | None => Some (s, [(h, ERROR NO_SUCH_ROOM)])
  | Some rm =>
      let ids := keys (players rm) in
      if (2 <=? length ids)%nat then Some (s, [(h, ERROR ROOM_FULL)])
      else
        let pid := randomUUID env in
        let rm' := set_players rm
                     (pset pid {| id := pid; board := emptyBoard; ships := [];
                                  marks := emptyBoard; ready := false |} (players rm)) in
        let ws' := {| room := Some code; playerId := Some pid; okRate := okRate ws |} in
        let s' := {| rooms := <[code := rm']> (rooms s);
                     clients := cset h ws' (clients s) |} in
        outs ← broadcastRoom s' (Some code);
        Some (s', (h, JOINED code pid) :: outs)
  end.

(** *** PLACE_FLEET *)
Definition all_ready (rm : Room) : bool :=
  let ids := keys (players rm) in
  (length ids =? 2)%nat
  && forallb (fun k => match pget k (players rm) with
                       | Some p => ready p | None => false end) ids.

Definition handle_place (env : Env) (h : nat) (ws : Conn)
    (payload : option Sanitizer.Payload) (msg_ready : bool) (s : Server)
  : option (Server * list (nat * Out)) :=
  match truthy (room ws), getRoom s ws with
  | Some code, Some rm =>
      if negb (bool_decide (phase rm = placing)) then Some (s, [])
      else
        match playerId ws ≫= (fun k => (k,.) <$> pget k (players rm)) with
        | None => Some (s, [])
        | Some (k, p) =>
            match Sanitizer.sanitizeFleet payload with
            | None => Some (s, [(h, ERROR BAD_FLEET)])
            | Some (cb, cs) =>
                let p' := {| id := id p; board := cb; ships := cs;
                             marks := marks p; ready := msg_ready |} in
                let rm1 := set_players rm (pset k p' (players rm)) in
                let s1 := set_room s code rm1 in
                outs1 ← broadcastRoom s1 (room ws);
                if all_ready rm1 then
                  let ids := keys (players rm1) in
                  let rm2 := {| createdAt := createdAt rm1; phase := battle;
                                turn := ids !! (if coin env then 1 else 0)%nat;
                                winner := winner rm1; players := players rm1 |} in
                  let s2 := set_room s code rm2 in
                  outs2 ← broadcastRoom s2 (room ws);
                  Some (s2, outs1 ++ outs2)
                else Some (s1, outs1)
            end
        end
  | _, _ => Some (s, [])
  end.

(** *** FIRE *)

(** [ship.hits.includes(key)] then [push]. *)
Definition add_hit (r c : Z) (s : Ship) : Ship :=
  {| sid := sid s; slength := slength s; scells := scells s;
     shits := if existsb (fun k => (k.1 =? r) && (k.2 =? c)) (shits s)
              then shits s else shits s ++ [(r, c)] |}.

(** [opp.ships.find(s => s.id === cellId)], with the found ship replaced
    by its update; [None] when no ship has that identifier (the code then
    reads [ship.hits] of [undefined] and throws). *)
Fixpoint hit_ship (cellId r c : Z) (ss : list Ship) : option (list Ship) :=
  match ss with
  | [] => None
  | s :: ss' =>
      if sid s =? cellId then Some (add_hit r c s :: ss')
      else (s ::.) <$> hit_ship cellId r c ss'
  end.

(** [isSunk]: [(s.hits || []).length === s.length] *)
Definition sunk (s : Ship) : bool := (length (shits s) =? slength s)%nat.

Definition set_marks (p : Player) (m : Board) : Player :=
  {| id := id p; board := board p; ships := ships p; marks := m; ready := ready p |}.

Definition set_ships (p : Player) (ss : list Ship) : Player :=
  {| id := id p; board := board p; ships := ss; marks := marks p; ready := ready p |}.

Definition handle_fire (h : nat) (ws : Conn) (msg_r msg_c : Z) (s : Server)
  : option (Server * list (nat * Out)) :=
  match truthy (room ws), getRoom s ws with
  | Some code, Some rm =>
      if negb (bool_decide (phase rm = battle)) then Some (s, [])
      else if negb (bool_decide (turn rm = playerId ws)) then Some (s, [])
      else
        match playerId ws ≫= (fun k => (k,.) <$> pget k (players rm)),
              otherPlayerId rm (playerId ws) with
        | Some (k, me), Some oppId =>
            opp ← pget oppId (players rm);
            let r := clamp (toInt32 msg_r) 0 (SIZE - 1) in
            let c := clamp (toInt32 msg_c) 0 (SIZE - 1) in
            mark ← Grid.lookup2 (marks me) r c;
            if (mark =? 2) || (mark =? 3) then Some (s, [])   (* already fired here *)
            else
              cellId ← Grid.lookup2 (board opp) r c;
              rm' ←
                (if cellId =? EMPTY then
                   m ← Grid.store2 (marks me) r c 3;             (* miss *)
                   Some {| createdAt := createdAt rm; phase := phase rm;
                           turn := Some oppId;                   (* switch turn *)
                           winner := winner rm;
                           players := pset k (set_marks me m) (players rm) |}
                 else
                   m ← Grid.store2 (marks me) r c 2;             (* hit *)
                   ss ← hit_ship cellId r c (ships opp);
                   let ps := pset oppId (set_ships opp ss)
                               (pset k (set_marks me m) (players rm)) in
                   (* win check *)
                   if forallb sunk ss then
                     Some {| createdAt := createdAt rm; phase := gameover;
                             turn := turn rm; winner := playerId ws; players := ps |}
                   else
                     Some {| createdAt := createdAt rm; phase := phase rm;
                             turn := Some oppId; winner := winner rm; players := ps |});
              let s' := set_room s code rm' in
              outs ← broadcastRoom s' (room ws);
              Some (s', outs)
        | _, _ => Some (s, [])
        end
  | _, _ => Some (s, [])
  end.

(** The FIRE case for coordinates that cannot be converted: the four
    guards, then the exception of [~~r] or [~~c], before anything is
    written. *)
Definition handle_fire_throws (ws : Conn) (s : Server)
  : option (Server * list (nat * Out)) :=
  match truthy (room ws), getRoom s ws with
  | Some code, Some rm =>
      if negb (bool_decide (phase rm = battle)) then Some (s, [])
      else if negb (bool_decide (turn rm = playerId ws)) then Some (s, [])
      else
        match playerId ws ≫= (fun k => (k,.) <$> pget k (players rm)),
              otherPlayerId rm (playerId ws) with
        | Some _, Some _ => None
        | _, _ => Some (s, [])
        end
  | _, _ => Some (s, [])
  end.

(** *** REQUEST_STATE *)
Definition handle_request (h : nat) (ws : Conn) (s : Server)
  : option (Server * list (nat * Out)) :=
  match getRoom s ws with
  | None => Some (s, [])
  | Some rm => st ← roomStateFor ws rm; Some (s, [(h, ROOM_STATE st)])
  end.

(** The [switch (msg.type)]. *)
Definition handle (env : Env) (h : nat) (ws : Conn) (msg : Msg) (s : Server)
  : option (Server * list (nat * Out)) :=
  match msg with
  | CREATE_ROOM => handle_create env h s
  | JOIN_ROOM code => handle_join env h ws code s
  | PLACE_FLEET payload rdy => handle_place env h ws payload rdy s
  | FIRE r c => handle_fire h ws r c s
  | REQUEST_STATE => handle_request h ws s
  | UNKNOWN => Some (s, [])
  | JOIN_ROOM_THROWS => None
  | FIRE_THROWS => handle_fire_throws ws s
  | NULL => None
  end.

(** [ws.on('message', ...)] for the socket [h], whose fields are [ws];
    [msg] is [None] when [JSON.parse] throws.  The result is [None] when
    the handler exits abnormally. *)
Definition on_message (env : Env) (h : nat) (ws : Conn) (msg : option Msg) (s : Server)
  : option (Server * list (nat * Out)) :=
  let '(lim, pass) := RateLimit.ok (now env) (okRate ws) in
  let ws1 := {| room := room ws; playerId := playerId ws; okRate := lim |} in
  let s1 := {| rooms := rooms s; clients := cset h ws1 (clients s) |} in
  if negb pass then Some (s1, [])
  else match msg with
       | None => Some (s1, [])
       | Some m => handle env h ws1 m s1
       end.

(** [wss.on('connection', ...)] *)
Definition on_connection (env : Env) (h : nat) (s : Server) : Server :=
  {| rooms := rooms s;
     clients := clients s ++ [(h, {| room := None; playerId := None;
                                     okRate := RateLimit.rateLimiter (now env) |})] |}.

(** [ws.on('close', ...)]: the socket has left [wss.clients] when
    [cleanupRooms] runs. *)
Definition on_close (h : nat) (s : Server) : Server :=
  cleanupRooms {| rooms := rooms s; clients := cdel h (clients s) |}.

Inductive Event :=
  | Connection (h : nat)
  | Message (h : nat) (msg : option Msg)
  | Close (h : nat).

(** One event handled to completion. *)
Inductive step : Server → Event → Server → Prop :=
  | step_connection env h s :
      cget h (clients s) = None →
      step s (Connection h) (on_connection env h s)
  | step_message env h ws msg s s' outs :
      cget h (clients s) = Some ws →
      on_message env h ws msg s = Some (s', outs) →
      step s (Message h msg) s'
  | step_close h ws s :
      cget h (clients s) = Some ws →
      step s (Close h) (on_close h s).

Definition initial : Server := {| rooms := ∅; clients := [] |}.

Inductive reachable : Server → Prop :=
  | reach_initial : reachable initial
  | reach_step s ev s' : reachable s → step s ev s' → reachable s'.

(** ** Running the server on a script of events *)

(** [step] as a function: [None] when the event cannot happen in [s] or
    the handler exits abnormally. *)
Definition exec (env : Env) (ev : Event) (s : Server) : option Server :=
  match ev with
  | Connection h =>
      match cget h (clients s) with
      | None => Some (on_connection env h s)
      | Some _ => None
      end
  | Message h msg =>
      ws ← cget h (clients s); fst <$> on_message env h ws msg s
  | Close h =>
      ws ← cget h (clients s); Some (on_close h s)
  end.

Fixpoint run (script : list (Env * Event)) (s : Server) : option Server :=
  match script with
  | [] => Some s
  | (env, ev) :: script' => s' ← exec env ev s; run script' s'
  end.

(** Boards and marks grids of a room all have the 10×10 shape. *)
Definition wf_room (rm : Room) : Prop :=
  Forall (fun kp => Grid.shaped (board kp.2) ∧ Grid.shaped (marks kp.2)) (players rm).

(** The room invariant on phase, turn and winner. *)
Definition room_inv (rm : Room) : Prop :=
  match phase rm with
  | placing => turn rm = None ∧ winner rm = None
  | battle => is_Some (turn rm) ∧ winner rm = None
  | gameover => is_Some (winner rm) ∧ turn rm = winner rm
  end.

Definition rooms_wf (m : gmap string Room) : Prop :=
  ∀ code rm, m !! code = Some rm → wf_room rm.

Definition rooms_inv (m : gmap string Room) : Prop :=
  ∀ code rm, m !! code = Some rm → room_inv rm.

(** *** A complete game

    Two sockets, one room, the same fleet on both sides; player A moves
    first and shoots the seventeen ship cells in order, player B answers
    each shot with the same shot.  Every message comes two seconds after
    the previous one. *)
Module Game.

Definition at_time (n : Z) (uuid : string) : Env :=
  {| now := 2000 * n; code6 := "123456"; randomUUID := uuid; coin := false |}.

Definition fleet_payload : option Sanitizer.Payload :=
  Some {| Sanitizer.board := Some Demo.fleet_board |}.

Definition setup : list (Env * Event) :=
  [ (at_time 0 "", Connection 1);
    (at_time 0 "", Connection 2);
    (at_time 1 "", Message 1 (Some CREATE_ROOM));
    (at_time 2 "A", Message 1 (Some (JOIN_ROOM "123456")));
    (at_time 3 "B", Message 2 (Some (JOIN_ROOM "123456")));
    (at_time 4 "", Message 1 (Some (PLACE_FLEET fleet_payload true)));
    (at_time 5 "", Message 2 (Some (PLACE_FLEET fleet_payload true))) ].

Definition targets : list (Z * Z) :=
  [ (0,0); (0,1); (0,2); (0,3); (0,4);
    (2,0); (3,0); (4,0); (5,0);
    (2,2); (2,3); (2,4);
    (4,6); (4,7);
    (9,7); (9,8); (9,9) ].

(** A shoots [t], then B shoots [t]. *)
Fixpoint volleys (n : Z) (ts : list (Z * Z)) : list (Env * Event) :=
  match ts with
  | [] => []
  | t :: ts' =>
      (at_time n "", Message 1 (Some (FIRE t.1 t.2)))
      :: (at_time (n + 1) "", Message 2 (Some (FIRE t.1 t.2)))
      :: volleys (n + 2) ts'
  end.

(** Everything up to A's last shot, and that shot. *)
Definition opening : list (Env * Event) := setup ++ volleys 6 (removelast targets).
Definition last_shot : Env * Event := (at_time 38 "", Message 1 (Some (FIRE 9 9))).

(** The room with player A alone, and with both players, before any
    fleet is placed. *)
Definition alone : Server := default initial (run (take 4 setup) initial).
Definition joined : Server := default initial (run (take 5 setup) initial).

Definition before_last : Server := default initial (run opening initial).
Definition final : Server := default initial (run [last_shot] before_last).

(** The socket [h] and the room of the game in a state of the script. *)
Definition socket (h : nat) (s : Server) : Conn :=
  default {| room := None; playerId := None; okRate := RateLimit.rateLimiter 0 |}
          (cget h (clients s)).

Definition the_room (s : Server) : Room :=
  default {| createdAt := 0; phase := placing; turn := None; winner := None;
             players := [] |}
          (rooms s !! "123456"%string).

Definition player (k : string) (s : Server) : Player :=
  default {| id := ""; board := []; ships := []; marks := []; ready := false |}
          (pget k (players (the_room s))).

End Game.

(** ** The rules of the game, room by room

    What the message handler does to one room, without sockets and
    broadcasts: a player joins, a player places a fleet, the battle
    starts, the player whose turn it is shoots. *)

Module Rules.

(** The room of [CREATE_ROOM] and the player of [JOIN_ROOM]. *)
Definition fresh_room (t : Z) : Room :=
  {| createdAt := t; phase := placing; turn := None; winner := None; players := [] |}.

Definition fresh_player (pid : string) : Player :=
  {| id := pid; board := emptyBoard; ships := []; marks := emptyBoard; ready := false |}.

Inductive room_step : Room → Room → Prop :=
  | room_join rm pid :
      (length (keys (players rm)) < 2)%nat →
      room_step rm (set_players rm (pset pid (fresh_player pid) (players rm)))
  | room_place rm k p payload cb cs rdy :
      phase rm = placing → pget k (players rm) = Some p →
      Sanitizer.sanitizeFleet payload = Some (cb, cs) →
      room_step rm
        (set_players rm
           (pset k {| id := id p; board := cb; ships := cs; marks := marks p;
                      ready := rdy |} (players rm)))
  | room_start rm n :
      phase rm = placing → all_ready rm = true → (n < 2)%nat →
      room_step rm
        {| createdAt := createdAt rm; phase := battle;
           turn := keys (players rm) !! n; winner := winner rm;
           players := players rm |}
  | room_miss rm k me oppId opp r c mark m :
      phase rm = battle → turn rm = Some k → pget k (players rm) = Some me →
      otherPlayerId rm (Some k) = Some oppId → pget oppId (players rm) = Some opp →
      0 ≤ r < SIZE → 0 ≤ c < SIZE →
      Grid.lookup2 (marks me) r c = Some mark → mark ≠ 2 → mark ≠ 3 →
      Grid.lookup2 (board opp) r c = Some EMPTY →
      Grid.store2 (marks me) r c 3 = Some m →
      room_step rm
        {| createdAt := createdAt rm; phase := phase rm; turn := Some oppId;
           winner := winner rm;
           players := pset k (set_marks me m) (players rm) |}
  | room_hit rm k me oppId opp r c mark cellId m ss :
      phase rm = battle → turn rm = Some k → pget k (players rm) = Some me →
      otherPlayerId rm (Some k) = Some oppId → pget oppId (players rm) = Some opp →
      0 ≤ r < SIZE → 0 ≤ c < SIZE →
      Grid.lookup2 (marks me) r c = Some mark → mark ≠ 2 → mark ≠ 3 →
      Grid.lookup2 (board opp) r c = Some cellId → cellId ≠ EMPTY →
      Grid.store2 (marks me) r c 2 = Some m →
      hit_ship cellId r c (ships opp) = Some ss →
      room_step rm
        (if forallb sunk ss then
           {| createdAt := createdAt rm; phase := gameover; turn := turn rm;
              winner := Some k;
              players := pset oppId (set_ships opp ss)
                           (pset k (set_marks me m) (players rm)) |}
         else
           {| createdAt := createdAt rm; phase := phase rm; turn := Some oppId;
              winner := winner rm;
              players := pset oppId (set_ships opp ss)
                           (pset k (set_marks me m) (players rm)) |}).

Inductive room_reachable : Room → Prop :=
  | room_fresh t : room_reachable (fresh_room t)
  | room_next rm rm' : room_reachable rm → room_step rm rm' → room_reachable rm'.

(** *** What holds of every room *)

(** The ship records [ss] are the placed ships [fl], hits apart. *)
Definition carries (ss : list Ship) (fl : list Placement.Placed) : Prop :=
  Forall2 (fun s q => sid s = Placement.p_id q ∧ slength s = Placement.p_len q
                      ∧ scells s = Placement.cells_of q) ss fl.

(** The ship records [ss'] are the records [ss], hits apart. *)
Definition same_ships (ss' ss : list Ship) : Prop :=
  Forall2 (fun s' s => sid s' = sid s ∧ slength s' = slength s ∧ scells s' = scells s)
          ss' ss.

(** A player's board and ships: nothing yet, or a valid placement under
    the identifiers 1 to 5; a player who is ready has placed. *)
Definition fleet_ok (p : Player) : Prop :=
  ∃ fl, carries (ships p) fl
        ∧ Placement.encodes fl (board p)
        ∧ (fl = [] ∨ (Placement.valid_fleet fl ∧ map Placement.p_id fl = [1; 2; 3; 4; 5]))
        ∧ (ready p = true → fl ≠ []).

(** The marks grid [m] of a player against the board [b] of the other:
    a hit is marked on ship cells only, a miss on empty cells only. *)
Definition marks_on (m b : Board) : Prop :=
  ∀ r c, 0 ≤ r < SIZE → 0 ≤ c < SIZE →
    ∃ v w, Grid.lookup2 m r c = Some v ∧ Grid.lookup2 b r c = Some w
           ∧ (v = 0 ∨ (v = 2 ∧ w ≠ EMPTY) ∨ (v = 3 ∧ w = EMPTY)).

(** The hits recorded on the ships [ss] against the marks grid [m] of the
    other player: each ship lists, once, its cells that are marked hit. *)
Definition hits_on (m : Board) (ss : list Ship) : Prop :=
  ∀ s, s ∈ ss →
    NoDup (shits s)
    ∧ ∀ x, x ∈ shits s ↔ x ∈ scells s ∧ Grid.lookup2 m x.1 x.2 = Some 2.

(** Nothing is marked and nothing is hit. *)
Definition untouched (p : Player) : Prop :=
  marks p = emptyBoard ∧ Forall (fun s => shits s = []) (ships p).

Definition game_inv (rm : Room) : Prop :=
  wf_room rm
  ∧ NoDup (keys (players rm))
  ∧ (length (players rm) ≤ 2)%nat
  ∧ (∀ k p, (k, p) ∈ players rm → fleet_ok p)
  ∧ (phase rm = placing →
       turn rm = None ∧ winner rm = None ∧ ∀ k p, (k, p) ∈ players rm → untouched p)
  ∧ (phase rm ≠ placing →
       length (players rm) = 2%nat
       ∧ (∀ k p, (k, p) ∈ players rm → ready p = true)
       ∧ (∃ k, turn rm = Some k ∧ k ∈ keys (players rm))
       ∧ ∀ k p k' p', (k, p) ∈ players rm → (k', p') ∈ players rm → k ≠ k' →
           marks_on (marks p) (board p') ∧ hits_on (marks p) (ships p'))
  ∧ (phase rm = battle → winner rm = None)
  ∧ (phase rm = gameover →
       ∃ w l pl, winner rm = Some w ∧ w ∈ keys (players rm)
                 ∧ (l, pl) ∈ players rm ∧ l ≠ w ∧ forallb sunk (ships pl) = true).

End Rules.

(** ** What a [ROOM_STATE] message shows *)


(** ** More of the sample game *)

Module Scenes.

(** Player B asks for the state before the last shot of the game. *)
Definition asked : option (Server * list (nat * Out)) :=
  on_message (Game.at_time 38 "") 2 (Game.socket 2 Game.before_last)
             (Some REQUEST_STATE) Game.before_last.

Definition asked_server : Server := (default (initial, []) asked).1.

Definition asked_state : RoomState :=
  default {| st_code := None; st_phase := placing; st_turn := None; st_winner := None;
             st_me := None; st_opp := None |}
          (roomStateFor (Game.socket 2 Game.before_last) (Game.the_room Game.before_last)).







End Scenes.

(** ** Traffic through the rate limiter *)

Module Traffic.
Import RateLimit.

(** The entries of a trace that passed the limiter, and their times. *)
Definition passed (tr : list (Z * Z * bool)) : list (Z * Z * bool) :=
  List.filter (fun e => e.2) tr.

Definition times (tr : list (Z * Z * bool)) : list Z := map (fun e => e.1.1) tr.

(** Number of messages sent at a time between [a] and [a + 1000]. *)
Definition sent_in (a : Z) (ts : list Z) : nat :=
  length (List.filter (fun t => (a <=? t) && (t <=? a + RATE_LIMIT_WINDOW_MS)) ts).

(** Three messages, half a second and more apart. *)
Definition slow : list Z := [0; 500; 2000].

End Traffic.

(** ** The room a message speaks of *)

Definition addressed (env : Env) (ws : Conn) (msg : Msg) : option string :=
  match msg with
  | CREATE_ROOM => Some (code6 env)
  | JOIN_ROOM code => Some (trim code)
  | PLACE_FLEET _ _ | FIRE _ _ => truthy (room ws)
  | REQUEST_STATE | UNKNOWN | JOIN_ROOM_THROWS | FIRE_THROWS | NULL => None
  end.

(** ** White space around a room code *)

(** A no-break space and a tab; an em space and a line feed. *)
Definition pad_before : string :=
  String (ascii_of_nat 194) (String (ascii_of_nat 160) (String (ascii_of_nat 9) "")).

Definition pad_after : string :=
  String (ascii_of_nat 226) (String (ascii_of_nat 128) (String (ascii_of_nat 131)
    (String (ascii_of_nat 10) ""))).

(** ** The static file server

    The request handler of [createServer].  Strings are strings of bytes,
    as a request line is; [path.join], [path.extname], [toLowerCase] and
    [fs.readFile] belong to the platform and are parameters. *)

Module Http.

Definition is_dot (a : ascii) : bool := Ascii.eqb a ".".
Definition is_sep (a : ascii) : bool := Ascii.eqb a "/" || Ascii.eqb a "\".

(** [raw.replace(/\.\.(\/|\\)?/g, '')]: from left to right, two dots and
    the slash or backslash after them, if there is one, are removed, and
    the search goes on behind what was removed. *)
Fixpoint strip (s : string) : string :=
  match s with
  | String a rest =>
      match rest with
      | String b rest2 =>
          if is_dot a && is_dot b then
            match rest2 with
            | String c rest3 => if is_sep c then strip rest3 else strip rest2
            | EmptyString => EmptyString
            end
          else String a (strip rest)
      | EmptyString => String a EmptyString
      end
  | EmptyString => EmptyString
  end.

(** [s.split('?')[0]] *)
Fixpoint before_query (s : string) : string :=
  match s with
  | String a rest =>
      if Ascii.eqb a "?" then EmptyString else String a (before_query rest)
  | EmptyString => EmptyString
  end.

(** Two dots in a row somewhere in [s]. *)
Fixpoint has_dotdot (s : string) : bool :=
  match s with
  | String a rest =>
      match rest with
      | String b _ => (is_dot a && is_dot b) || has_dotdot rest
      | EmptyString => false
      end
  | EmptyString => false
  end.

(** The MIME map. *)
Definition MIME : list (string * string) :=
  [ (".html", "text/html"); (".css", "text/css"); (".js", "text/javascript");
    (".png", "image/png"); (".jpg", "image/jpeg"); (".jpeg", "image/jpeg");
    (".gif", "image/gif"); (".svg", "image/svg+xml"); (".webp", "image/webp");
    (".ico", "image/x-icon"); (".mp3", "audio/mpeg"); (".wav", "audio/wav");
    (".ogg", "audio/ogg") ]%string.

(** [MIME[ext]], for an [ext] that is empty or starts with a dot, as
    [path.extname] returns it. *)
Fixpoint lookup_mime (ext : string) (m : list (string * string)) : option string :=
  match m with
  | [] => None
  | (k, v) :: m' => if String.eqb k ext then Some v else lookup_mime ext m'
  end.

Record Response := mkResponse {
  status : Z;
  content_type : string;
  payload : string
}.

(** What the handler asks the file system for, below [PUBLIC]. *)
Definition target (url : option string) : string :=
  let raw := before_query (match url with
                           | Some u => if String.eqb u "" then "/" else u
                           | None => "/"
                           end) in
  let safe := strip raw in
  if String.eqb safe "/" then "index.html"%string else safe.

Section Handler.
Variable path_join : string → string → string.
Variable path_extname : string → string.
Variable to_lower : string → string.
(** [fs.readFile]: [None] when the callback gets an error. *)
Variable read_file : string → option string.
Variable PUBLIC : string.

Definition serve (url : option string) : Response :=
  if bool_decide (url = Some "/healthz"%string) then
    {| status := 200; content_type := "text/plain"; payload := "ok" |}
  else
    let filepath := path_join PUBLIC (target url) in
    match read_file filepath with
    | None => {| status := 404; content_type := "text/plain"; payload := "Not found" |}
    | Some data =>
        let ext := to_lower (path_extname filepath) in
        {| status := 200;
           content_type := default "application/octet-stream"%string (lookup_mime ext MIME);
           payload := data |}
    end.

End Handler.

End Http.

(** ** The client's fleet placement

    The placement helpers of [app.js] and the handlers of the placement
    buttons, on the part of the client state they read and write:
    [state.me.board], [state.me.ships] and [placing].  Calls that only
    render ([paint], [setStatus], the preview) are left out. *)

Module Client.
Import Placement.

Definition SHIPS : list nat := [5; 4; 3; 3; 2]%nat.

(** An element of [state.me.ships]: [{id, length, cells}] as [placeShip]
    pushes it, [{id, length, hits}] as a [ROOM_STATE] brings it. *)
Record LocalShip := mkLocal {
  l_id : Z;
  l_length : nat;
  l_cells : option (list (Z * Z));
  l_hits : option (list (Z * Z))
}.

(** [rr = r + (h ? 0 : i), cc = c + (h ? i : 0)] *)
Definition at_step (r c : Z) (h : bool) (i : Z) : Z * Z :=
  (r + (if h then 0 else i), c + (if h then i else 0)).

(** The loop of [canPlace] from [i] on, with [n] rounds to go.  Outside
    the rows [board[rr]] is [undefined] and [board[rr][cc]] throws
    ([None]); outside a row [board[rr][cc]] is [undefined], which is not
    [EMPTY]. *)
Fixpoint all_empty (b : Board) (r c : Z) (h : bool) (i : Z) (n : nat) : option bool :=
  match n with
  | O => Some true
  | S n' =>
      row ← (if (at_step r c h i).1 <? 0 then None
             else b !! Z.to_nat (at_step r c h i).1);
      match (if (at_step r c h i).2 <? 0 then None
             else row !! Z.to_nat (at_step r c h i).2) with
      | Some v => if v =? EMPTY then all_empty b r c h (i + 1) n' else Some false
      | None => Some false
      end
  end.

(** [canPlace(board, r, c, len, h)] *)
Definition canPlace (b : Board) (r c : Z) (len : nat) (h : bool) : option bool :=
  if h && (SIZE <? c + Z.of_nat len) then Some false
  else if negb h && (SIZE <? r + Z.of_nat len) then Some false
  else all_empty b r c h 0 len.

(** The loop of [placeShip] from [i] on: [board[rr][cc] = id;
    cells.push([rr, cc])]. *)
Fixpoint put (id r c : Z) (h : bool) (i : Z) (n : nat) (b : Board)
    (cells : list (Z * Z)) : option (Board * list (Z * Z)) :=
  match n with
  | O => Some (b, cells)
  | S n' =>
      b' ← Grid.store2 b (at_step r c h i).1 (at_step r c h i).2 id;
      put id r c h (i + 1) n' b' (cells ++ [at_step r c h i])
  end.

(** [placeShip(board, ships, r, c, len, h)], on the pair of the board and
    the ships it updates. *)
Definition placeShip (st : Board * list LocalShip) (r c : Z) (len : nat) (h : bool)
  : option (Board * list LocalShip) :=
  let id := Z.of_nat (length st.2) + 1 in
  '(b', cells) ← put id r c h 0 len st.1 [];
  Some (b', st.2 ++ [{| l_id := id; l_length := len;
                        l_cells := Some cells; l_hits := None |}]).

(** [placeRandomShip(board, ships, length)]: [rnd k] is the [k]-th triple
    [h = Math.random() < .5], [r = (Math.random()*SIZE)|0],
    [c = (Math.random()*SIZE)|0] drawn, and the count of the triples
    drawn is returned with the state. *)
Fixpoint placeRandomShip (rnd : nat → bool * Z * Z) (tries k : nat)
    (st : Board * list LocalShip) (len : nat)
  : option (nat * (Board * list LocalShip)) :=
  match tries with
  | O => Some (k, st)
  | S t =>
      match canPlace st.1 (rnd k).1.2 (rnd k).2 len (rnd k).1.1 with
      | None => None
      | Some true =>
          st' ← placeShip st (rnd k).1.2 (rnd k).2 len (rnd k).1.1;
          Some (S k, st')
      | Some false => placeRandomShip rnd t (S k) st len
      end
  end.

(** [for (const len of lens) placeRandomShip(board, ships, len)] *)
Fixpoint place_all (rnd : nat → bool * Z * Z) (k : nat)
    (st : Board * list LocalShip) (lens : list nat)
  : option (nat * (Board * list LocalShip)) :=
  match lens with
  | [] => Some (k, st)
  | len :: lens' =>
      '(k', st') ← placeRandomShip rnd 2000 k st len;
      place_all rnd k' st' lens'
  end.

(** [autoFleet()] *)
Definition autoFleet (rnd : nat → bool * Z * Z) : option (Board * list LocalShip) :=
  snd <$> place_all rnd 0 (emptyBoard, []) SHIPS.

(** What [(Math.random()*SIZE)|0] can be. *)
Definition in_grid (d : bool * Z * Z) : Prop :=
  0 ≤ d.1.2 < SIZE ∧ 0 ≤ d.2 < SIZE.

(** The entry of [ships] for the placed ship [p]. *)
Definition local (p : Placed) : LocalShip :=
  {| l_id := p_id p; l_length := p_len p;
     l_cells := Some (cells_of p); l_hits := None |}.

(** The entry of [ships] that a ship record of the server corresponds to. *)
Definition local_of (s : Ship) : LocalShip :=
  {| l_id := sid s; l_length := slength s;
     l_cells := Some (scells s); l_hits := None |}.

(** The ship at [(r, c)] under the identifier [id]. *)
Definition placed_at (id r c : Z) (len : nat) (h : bool) : Placed :=
  {| p_id := id; p_row := r; p_col := c; p_len := len; p_horiz := h |}.

(** The board and the ships hold ships of the lengths [lens], placed in
    this order by [placeShip] on cells that [canPlace] found free. *)
Definition built (lens : list nat) (st : Board * list LocalShip) : Prop :=
  ∃ fl, st.2 = map local fl
      ∧ map p_len fl = lens
      ∧ (∀ i p, fl !! i = Some p → p_id p = Z.of_nat i + 1)
      ∧ (∀ p, p ∈ fl → (1 ≤ p_len p)%nat ∧ inside p)
      ∧ (∀ p q x, p ∈ fl → q ∈ fl → x ∈ cells_of p → x ∈ cells_of q → p = q)
      ∧ encodes fl st.1.

(** A sequence of draws that places the five ships at their first try. *)
Definition rows_first (k : nat) : bool * Z * Z := (true, Z.of_nat (k mod 10), 0).

(** *** The placement buttons

    [placing] and the two fields of [state.me] that the placement reads
    and writes.  [placing.queue] is [[5,4,3,3,2]] wherever it is
    assigned; [dir_h] is [placing.dir === "H"]; a board that is [null]
    is [None]. *)






















End Client.

(** ** Turns *)

Module Turns.

(** The shots a player has fired: the cells of the marks grid that hold
    a mark. *)
Definition shots (m : Board) : nat := length (filter (fun v => v ≠ 0) (concat m)).

(** The player to move is not ahead, and is at most one shot behind; the
    winner fired last. *)
Definition fair (rm : Room) : Prop :=
  ∀ k p k' p', (k, p) ∈ players rm → (k', p') ∈ players rm → k ≠ k' →
    (phase rm = battle → turn rm = Some k →
       (shots (marks p) ≤ shots (marks p') ≤ S (shots (marks p)))%nat)
    ∧ (phase rm = gameover → winner rm = Some k →
       (shots (marks p') ≤ shots (marks p) ≤ S (shots (marks p')))%nat).

End Turns.

(** * Facts about grids *)

Module GridFacts.
Import Grid.

Section Lookup.
Context {A : Type}.
Implicit Types (g : list (list A)) (r c : Z) (v : A).

Lemma lookup2_wr_same g r c v x :
  lookup2 g r c = Some x → lookup2 (wr g r c v) r c = Some v.
Proof.
  unfold lookup2, wr. destruct ((r <? 0) || (c <? 0)); [discriminate|].
  rewrite list_lookup_alter_eq. destruct (g !! Z.to_nat r) as [row|]; [|discriminate].
  simpl. intros Hx. apply list_lookup_insert_eq. eapply lookup_lt_Some, Hx.
Qed.

Lemma lookup2_wr_other g r c v r' c' :
  0 ≤ r → 0 ≤ c → (r', c') ≠ (r, c) →
  lookup2 (wr g r c v) r' c' = lookup2 g r' c'.
Proof.
  intros Hr Hc Hne. unfold lookup2, wr.
  destruct (Z.ltb_spec r' 0); [reflexivity|].
  destruct (Z.ltb_spec c' 0); [reflexivity|]. simpl.
  destruct (decide (Z.to_nat r = Z.to_nat r')) as [Heq|Hneq].
  - rewrite <- Heq, list_lookup_alter_eq.
    destruct (g !! Z.to_nat r) as [row|]; [|reflexivity]. simpl.
    apply list_lookup_insert_ne. intros Hcc. apply Hne. f_equal; lia.
  - rewrite list_lookup_alter_ne by exact Hneq. reflexivity.
Qed.

Lemma shaped_wr g r c v : shaped g → shaped (wr g r c v).
Proof.
  intros [Hl Hrows]. unfold wr. split; [by rewrite length_alter|].
  apply Forall_alter; [exact Hrows|]. intros row _ Hrow. by rewrite length_insert.
Qed.

Lemma shaped_lookup2 g r c :
  shaped g → 0 ≤ r < SIZE → 0 ≤ c < SIZE → is_Some (lookup2 g r c).
Proof.
  intros [Hl Hrows] Hr Hc. unfold lookup2, SIZE in *.
  replace (r <? 0) with false by (symmetry; apply Z.ltb_ge; lia).
  replace (c <? 0) with false by (symmetry; apply Z.ltb_ge; lia). simpl.
  destruct (lookup_lt_is_Some_2 g (Z.to_nat r)) as [row Hrow]; [lia|].
  rewrite Hrow. simpl. apply lookup_lt_is_Some_2.
  rewrite Forall_forall in Hrows. rewrite (Hrows row); [lia|].
  eapply list_elem_of_lookup_2, Hrow.
Qed.

Lemma store2_wr g r c v x :
  lookup2 g r c = Some x → store2 g r c v = Some (wr g r c v).
Proof. intros H. unfold store2. by rewrite H. Qed.

Lemma shaped_fill v : shaped (fill v).
Proof.
  unfold fill. split; [by rewrite length_replicate|].
  apply Forall_replicate. by rewrite length_replicate.
Qed.

Lemma lookup2_fill v r c :
  0 ≤ r < SIZE → 0 ≤ c < SIZE → lookup2 (fill v) r c = Some v.
Proof.
  intros Hr Hc. unfold lookup2, fill, SIZE in *.
  replace (r <? 0) with false by (symmetry; apply Z.ltb_ge; lia).
  replace (c <? 0) with false by (symmetry; apply Z.ltb_ge; lia). cbn [orb].
  rewrite lookup_replicate_2 by lia. cbn [mbind option_bind]. apply lookup_replicate_2. lia.
Qed.

Lemma rd_lookup2 d g r c x : lookup2 g r c = Some x → rd d g r c = x.
Proof. intros H. unfold rd. by rewrite H. Qed.

End Lookup.

Lemma range_spec i : i ∈ range ↔ 0 ≤ i < SIZE.
Proof. unfold range, SIZE. rewrite !elem_of_cons, elem_of_nil. lia. Qed.

End GridFacts.

(** * Facts about the rate limiter *)

Module RateLimitFacts.
Import RateLimit.


Lemma accepted_in_cons lo hi e tr :
  accepted_in lo hi (e :: tr) =
  Nat.add (if (lo <=? e.1.1) && (e.1.1 <=? hi) && e.2 then 1%nat else 0%nat)
          (accepted_in lo hi tr).
Proof. unfold accepted_in. simpl. destruct (_ && _ && _); reflexivity. Qed.

Lemma feed_cons l t ts :
  feed l (t :: ts) = (t, windowStart (ok t l).1, (ok t l).2) :: feed (ok t l).1 ts.
Proof. simpl. destruct (ok t l); reflexivity. Qed.

Lemma accepted_late a l ts :
  Forall (fun t => a + RATE_LIMIT_WINDOW_MS < t) ts ->
  accepted_in a (a + RATE_LIMIT_WINDOW_MS) (feed l ts) = 0%nat.
Proof.
  intros H. revert l. induction H as [|t ts Ht _ IH]; intros l; [reflexivity|].
  rewrite feed_cons, accepted_in_cons, IH. simpl.
  replace (t <=? a + RATE_LIMIT_WINDOW_MS) with false by (symmetry; apply Z.leb_gt; lia).
  rewrite andb_false_r. reflexivity.
Qed.

Lemma accepted_inside a ts : forall l,
  Sorted Z.le ts -> Forall (fun t => a <= t) ts ->
  a <= windowStart l -> 0 <= count l ->
  (accepted_in a (a + RATE_LIMIT_WINDOW_MS) (feed l ts) <= allowance l)%nat.
Proof.
  induction ts as [|t ts IH]; intros l Hs Hge Hw Hc; [simpl; unfold accepted_in; simpl; lia|].
  rewrite feed_cons, accepted_in_cons.
  apply Sorted_StronglySorted in Hs; [|intros x y z; lia].
  inversion Hs as [|? ? Hs' Hall]; subst. inversion Hge as [|? ? Ht Hge']; subst.
  unfold ok. cbn [fst snd].
  destruct (Z.ltb_spec RATE_LIMIT_WINDOW_MS (t - windowStart l)) as [Hreset|Hstay].
  - cbn [windowStart count].
    rewrite accepted_late.
    + replace (t <=? a + RATE_LIMIT_WINDOW_MS) with false by (symmetry; apply Z.leb_gt; lia).
      rewrite andb_false_r. simpl. lia.
    + eapply List.Forall_impl; [|exact Hall]. simpl. intros; lia.
  - cbn [windowStart count].
    specialize (IH {| windowStart := windowStart l; count := count l + 1 |}
                  (StronglySorted_Sorted Hs') Hge' Hw ltac:(simpl; lia)).
    unfold allowance in *. cbn [count] in IH.
    destruct (Z.leb_spec (count l + 1) RATE_LIMIT_MAX);
      rewrite ?andb_false_r, ?andb_true_r;
      try destruct (_ && _); simpl; unfold RATE_LIMIT_MAX in *; lia.
Qed.

Lemma accepted_from a ts : forall l,
  Sorted Z.le ts -> Forall (fun t => a <= t) ts -> 0 <= count l ->
  (accepted_in a (a + RATE_LIMIT_WINDOW_MS) (feed l ts) <= allowance l + 15)%nat.
Proof.
  induction ts as [|t ts IH]; intros l Hs Hge Hc; [unfold accepted_in; simpl; lia|].
  rewrite feed_cons, accepted_in_cons.
  pose proof Hs as Hs0.
  apply Sorted_StronglySorted in Hs; [|intros x y z; lia].
  inversion Hs as [|? ? Hs' Hall]; subst. inversion Hge as [|? ? Ht Hge']; subst.
  unfold ok. cbn [fst snd].
  destruct (Z.ltb_spec RATE_LIMIT_WINDOW_MS (t - windowStart l)) as [Hreset|Hstay].
  - cbn [windowStart count].
    pose proof (accepted_inside a ts {| windowStart := t; count := 0 + 1 |}
                  (StronglySorted_Sorted Hs') Hge' Ht ltac:(simpl; lia)) as Hin.
    unfold allowance in *. cbn [count] in Hin.
    destruct (_ && _); simpl; unfold RATE_LIMIT_MAX in *; lia.
  - cbn [windowStart count].
    specialize (IH {| windowStart := windowStart l; count := count l + 1 |}
                  (StronglySorted_Sorted Hs') Hge' ltac:(simpl; lia)).
    unfold allowance in *. cbn [count] in IH.
    destruct (Z.leb_spec (count l + 1) RATE_LIMIT_MAX);
      rewrite ?andb_false_r, ?andb_true_r;
      try destruct (_ && _); simpl; unfold RATE_LIMIT_MAX in *; lia.
Qed.

Lemma accepted_rolling a ts : forall l,
  Sorted Z.le ts -> 0 <= count l ->
  (accepted_in a (a + RATE_LIMIT_WINDOW_MS) (feed l ts) <= 30)%nat.
Proof.
  induction ts as [|t ts IH]; intros l Hs Hc; [unfold accepted_in; simpl; lia|].
  destruct (Z.le_gt_cases a t) as [Hat|Hta].
  - pose proof (accepted_from a (t :: ts) l Hs) as H.
    assert (Hall : Forall (fun x => a <= x) (t :: ts)).
    { apply Sorted_StronglySorted in Hs; [|intros x y z; lia].
      inversion Hs as [|? ? _ Hall]; subst. constructor; [exact Hat|].
      eapply List.Forall_impl; [|exact Hall]. simpl; intros; lia. }
    specialize (H Hall Hc). unfold allowance, RATE_LIMIT_MAX in H. lia.
  - rewrite feed_cons, accepted_in_cons. cbn [fst snd].
    replace (a <=? t) with false by (symmetry; apply Z.leb_gt; lia).
    simpl. apply IH.
    + inversion Hs; assumption.
    + unfold ok; cbn [fst snd]. destruct (_ <? _); simpl; lia.
Qed.


Lemma accepted_of_window_cons w e tr :
  accepted_of_window w (e :: tr) =
  Nat.add (if (e.1.2 =? w) && e.2 then 1%nat else 0%nat) (accepted_of_window w tr).
Proof. unfold accepted_of_window. simpl. destruct (_ && _); reflexivity. Qed.

Lemma ok_window_mono t l : windowStart l <= windowStart (ok t l).1.
Proof.
  unfold ok; cbn [fst snd].
  destruct (Z.ltb_spec RATE_LIMIT_WINDOW_MS (t - windowStart l));
    simpl; unfold RATE_LIMIT_WINDOW_MS in *; lia.
Qed.

Lemma ok_count_pos t l : 0 <= count l -> 0 <= count (ok t l).1.
Proof. unfold ok; cbn [fst snd]. destruct (_ <? _); simpl; lia. Qed.

Lemma window_after w ts : forall l,
  w < windowStart l -> accepted_of_window w (feed l ts) = 0%nat.
Proof.
  induction ts as [|t ts IH]; intros l Hw; [reflexivity|].
  rewrite feed_cons, accepted_of_window_cons. cbn [fst snd].
  pose proof (ok_window_mono t l) as Hm.
  replace (windowStart (ok t l).1 =? w) with false by (symmetry; apply Z.eqb_neq; lia).
  cbn [andb Nat.add]. apply IH. lia.
Qed.

Lemma window_current w ts : forall l,
  windowStart l = w -> 0 <= count l ->
  (accepted_of_window w (feed l ts) <= allowance l)%nat.
Proof.
  induction ts as [|t ts IH]; intros l Hw Hc; [unfold accepted_of_window; simpl; lia|].
  rewrite feed_cons, accepted_of_window_cons. cbn [fst snd].
  unfold ok in *. cbn [fst snd].
  destruct (Z.ltb_spec RATE_LIMIT_WINDOW_MS (t - windowStart l)) as [Hreset|Hstay].
  - cbn [windowStart count].
    replace (t =? w) with false
      by (symmetry; apply Z.eqb_neq; unfold RATE_LIMIT_WINDOW_MS in *; lia).
    rewrite window_after; [simpl; lia|].
    simpl. unfold RATE_LIMIT_WINDOW_MS in *; lia.
  - cbn [windowStart count].
    specialize (IH {| windowStart := windowStart l; count := count l + 1 |}
                  Hw ltac:(simpl; lia)).
    unfold allowance in *. cbn [count] in IH.
    destruct (Z.leb_spec (count l + 1) RATE_LIMIT_MAX);
      rewrite ?andb_false_r, ?andb_true_r;
      try destruct (_ =? _); simpl; unfold RATE_LIMIT_MAX in *; lia.
Qed.

Lemma window_any w ts : forall l,
  0 <= count l -> (accepted_of_window w (feed l ts) <= 15)%nat.
Proof.
  induction ts as [|t ts IH]; intros l Hc; [unfold accepted_of_window; simpl; lia|].
  destruct (Z.lt_trichotomy w (windowStart l)) as [Hlt|[Heq|Hgt]].
  - rewrite window_after; [lia|exact Hlt].
  - pose proof (window_current w (t :: ts) l (eq_sym Heq) Hc) as H.
    unfold allowance, RATE_LIMIT_MAX in H. lia.
  - rewrite feed_cons, accepted_of_window_cons. cbn [fst snd].
    destruct (Z.eqb_spec (windowStart (ok t l).1) w) as [He|Hne].
    + (* the window opens at this very message *)
      pose proof (window_current w ts (ok t l).1 He (ok_count_pos t l Hc)) as H.
      assert (Hcnt : count (ok t l).1 = 1).
      { unfold ok in He |- *; cbn [fst snd] in He |- *.
        destruct (RATE_LIMIT_WINDOW_MS <? t - windowStart l); simpl in *; lia. }
      unfold allowance in H. rewrite Hcnt in H. unfold RATE_LIMIT_MAX in H.
      destruct ((ok t l).2); cbn [andb Nat.add]; lia.
    + cbn [andb Nat.add]. apply IH, ok_count_pos, Hc.
Qed.

(** The limiter is a fixed window, not a rolling one: thirty messages
    pass within two milliseconds when they straddle a window boundary. *)
Example burst_all_pass :
  map snd (feed (rateLimiter 0) burst) = replicate 30 true.
Proof. reflexivity. Qed.

(** C8, as stated, fails: a socket opened at time 0 that receives
    fifteen messages at 1000 ms and fifteen at 1001 ms has all thirty
    accepted, inside the one-second interval starting at 1000. *)
Lemma rolling_window_exceeded :
  ¬ (∀ (t0 : Z) (ts : list Z) (a : Z),
       Sorted Z.le ts →
       (accepted_in a (a + RATE_LIMIT_WINDOW_MS) (feed (rateLimiter t0) ts) <= 15)%nat).
Proof.
  intros H. specialize (H 0 burst 1000).
  assert (Hs : Sorted Z.le burst).
  { unfold burst. simpl. repeat (constructor; try lia). }
  apply H in Hs. vm_compute in Hs. lia.
Qed.

(** C8, amended: for non-decreasing timestamps the limiter accepts at
    most 15 messages per window it opens, and so at most 30 in any
    interval of 1000 ms.  A message beyond the allowance is dropped, not
    queued or delayed: the handler run ends at once, no room changes,
    nothing is sent, and the state keeps nothing of the message but the
    limiter's count; a message within the allowance is handled in the
    same run. *)
Theorem fixed_window_bound (t0 : Z) (ts : list Z) :
  Sorted Z.le ts →
  (∀ w, (accepted_of_window w (feed (rateLimiter t0) ts) <= 15)%nat) ∧
  (∀ a, (accepted_in a (a + RATE_LIMIT_WINDOW_MS) (feed (rateLimiter t0) ts) <= 30)%nat) ∧
  (∀ (env : Env) (h : nat) (ws : Conn) (msg : option Msg) (s : Server),
     let ws' := {| room := room ws; playerId := playerId ws;
                   okRate := (ok (now env) (okRate ws)).1 |} in
     let s' := {| rooms := rooms s; clients := cset h ws' (clients s) |} in
     ((ok (now env) (okRate ws)).2 = false →
      on_message env h ws msg s = Some (s', []))
     ∧ ((ok (now env) (okRate ws)).2 = true →
        on_message env h ws msg s =
        match msg with
        | Some m => handle env h ws' m s'
        | None => Some (s', [])
        end)).
Proof.
  intros Hs. split; [|split].
  - intros w. apply window_any. simpl. lia.
  - intros a. apply accepted_rolling; [exact Hs | simpl; lia].
  - intros env h ws msg s. cbv zeta. unfold on_message.
    destruct (ok (now env) (okRate ws)) as [lim pass]. cbn [fst snd].
    split; intros ->; cbn [negb]; reflexivity.
Qed.

Lemma fixed_window_bound_witness :
  Sorted Z.le burst ∧
  (∀ w, (accepted_of_window w (feed (rateLimiter 0) burst) <= 15)%nat) ∧
  (∀ a, (accepted_in a (a + RATE_LIMIT_WINDOW_MS) (feed (rateLimiter 0) burst) <= 30)%nat) ∧
  (∀ (env : Env) (h : nat) (ws : Conn) (msg : option Msg) (s : Server),
     let ws' := {| room := room ws; playerId := playerId ws;
                   okRate := (ok (now env) (okRate ws)).1 |} in
     let s' := {| rooms := rooms s; clients := cset h ws' (clients s) |} in
     ((ok (now env) (okRate ws)).2 = false →
      on_message env h ws msg s = Some (s', []))
     ∧ ((ok (now env) (okRate ws)).2 = true →
        on_message env h ws msg s =
        match msg with
        | Some m => handle env h ws' m s'
        | None => Some (s', [])
        end)).
Proof.
  assert (Hs : Sorted Z.le burst).
  { unfold burst. simpl. repeat (constructor; try lia). }
  split; [exact Hs | exact (fixed_window_bound 0 burst Hs)].
Defined.

End RateLimitFacts.

(** * Facts about the opponent-board mask *)

Module MaskFacts.
Import Grid GridFacts Mask.

Lemma for_each_cons {S} (body : Z → S → option S) i idx st :
  for_each body (i :: idx) st = body i st ≫= for_each body idx.
Proof. reflexivity. Qed.

Lemma mask_cell_spec (myMarks : option Board) (out : Board) r c o :
  marks_ok myMarks → 0 ≤ r < SIZE → 0 ≤ c < SIZE → lookup2 out r c = Some o →
  mask_cell myMarks r c out
  = Some (if confirmed_hit myMarks r c then out else wr out r c EMPTY).
Proof.
  intros HM Hr Hc Ho. unfold mask_cell, seenHit, confirmed_hit.
  destruct myMarks as [M|]; cbn [mbind option_bind].
  - destruct (shaped_lookup2 M r c HM Hr Hc) as [m Hm]. rewrite Hm.
    unfold lookup2 in Hm. destruct ((r <? 0) || (c <? 0)); [discriminate|].
    destruct (M !! Z.to_nat r) as [row|]; [|discriminate].
    simpl in *. rewrite Hm.
    destruct (bool_decide (Some m = Some 2)); [reflexivity|].
    apply (store2_wr _ _ _ _ o Ho).
  - apply (store2_wr _ _ _ _ o Ho).
Qed.

Section Loops.
Variable myMarks : option Board.
Hypothesis marks_shaped : marks_ok myMarks.

(** The inner loop over the columns [cs] of row [r]. *)
Lemma mask_row (r : Z) (cs : list Z) : ∀ out : Board,
  shaped out → 0 ≤ r < SIZE → Forall (fun c => 0 ≤ c < SIZE) cs →
  ∃ out', for_each (fun c => mask_cell myMarks r c) cs out = Some out'
          ∧ masked_by myMarks (fun r' c' => r' = r ∧ c' ∈ cs) out out'.
Proof.
  induction cs as [|c cs IH]; intros out Hout Hr Hcs.
  - exists out. split; [reflexivity|]. split; [exact Hout|].
    intros r' c' _ _. case_decide as H; [|reflexivity].
    destruct H as ((_ & H) & _). by apply elem_of_nil in H.
  - inversion Hcs as [|? ? Hc Hcs']; subst.
    destruct (shaped_lookup2 out r c Hout Hr Hc) as [o Ho].
    rewrite for_each_cons, (mask_cell_spec myMarks out r c o marks_shaped Hr Hc Ho).
    cbn [mbind option_bind].
    destruct (confirmed_hit myMarks r c) eqn:Hhit.
    + destruct (IH out Hout Hr Hcs') as (out' & Hrun & Hsh & Hget).
      exists out'. split; [exact Hrun|]. split; [exact Hsh|].
      intros r' c' Hr' Hc'. rewrite Hget by assumption.
      destruct (decide ((r' = r ∧ c' ∈ cs) ∧ confirmed_hit myMarks r' c' = false)) as [HP|HP];
        destruct (decide ((r' = r ∧ c' ∈ c :: cs) ∧ confirmed_hit myMarks r' c' = false)) as [HQ|HQ];
        try reflexivity; exfalso; rewrite elem_of_cons in HQ.
      * tauto.
      * destruct HQ as ((-> & [->|?]) & ?); [congruence | tauto].
    + destruct (IH (wr out r c EMPTY) (shaped_wr _ _ _ _ Hout) Hr Hcs')
        as (out' & Hrun & Hsh & Hget).
      exists out'. split; [exact Hrun|]. split; [exact Hsh|].
      intros r' c' Hr' Hc'. rewrite Hget by assumption.
      destruct (decide ((r', c') = (r, c))) as [Heq|Hne].
      * inversion Heq; subst. rewrite (lookup2_wr_same out r c EMPTY o Ho).
        rewrite (decide_True (P := (r = r ∧ c ∈ c :: cs) ∧ _)).
        -- by case_decide.
        -- rewrite elem_of_cons. split; [split; [reflexivity | by left] | exact Hhit].
      * rewrite lookup2_wr_other by (try lia; exact Hne).
        destruct (decide ((r' = r ∧ c' ∈ cs) ∧ confirmed_hit myMarks r' c' = false)) as [HP|HP];
          destruct (decide ((r' = r ∧ c' ∈ c :: cs) ∧ confirmed_hit myMarks r' c' = false)) as [HQ|HQ];
          try reflexivity; exfalso; rewrite elem_of_cons in HQ.
        -- tauto.
        -- destruct HQ as ((-> & [->|?]) & ?); [congruence | tauto].
Qed.

(** The outer loop over the rows [rs]. *)
Lemma mask_rows (rs : list Z) : ∀ out : Board,
  shaped out → Forall (fun r => 0 ≤ r < SIZE) rs →
  ∃ out', for_each (fun r => for_each (fun c => mask_cell myMarks r c) range) rs out
          = Some out'
          ∧ masked_by myMarks (fun r' c' => r' ∈ rs ∧ c' ∈ range) out out'.
Proof.
  induction rs as [|r rs IH]; intros out Hout Hrs.
  - exists out. split; [reflexivity|]. split; [exact Hout|].
    intros r' c' _ _. case_decide as H; [|reflexivity].
    destruct H as ((H & _) & _). by apply elem_of_nil in H.
  - inversion Hrs as [|? ? Hr Hrs']; subst.
    destruct (mask_row r range out Hout Hr) as (out1 & Hrun1 & Hsh1 & Hget1).
    { apply Forall_forall. intros c. apply range_spec. }
    destruct (IH out1 Hsh1 Hrs') as (out' & Hrun & Hsh & Hget).
    exists out'. rewrite for_each_cons, Hrun1. cbn [mbind option_bind].
    split; [exact Hrun|]. split; [exact Hsh|].
    intros r' c' Hr' Hc'. rewrite Hget, Hget1 by assumption.
    destruct (decide ((r' ∈ rs ∧ c' ∈ range) ∧ confirmed_hit myMarks r' c' = false)) as [HP|HP];
      destruct (decide ((r' = r ∧ c' ∈ range) ∧ confirmed_hit myMarks r' c' = false)) as [HR|HR];
      destruct (decide ((r' ∈ r :: rs ∧ c' ∈ range) ∧ confirmed_hit myMarks r' c' = false)) as [HQ|HQ];
      try reflexivity; exfalso; rewrite elem_of_cons in HQ; tauto.
Qed.

End Loops.

Lemma mask_total (B : Board) (myMarks : option Board) :
  shaped B → marks_ok myMarks →
  ∃ out, maskOpponentBoard (Some B) myMarks = Some (Some out)
         ∧ shaped out
         ∧ ∀ r c, 0 ≤ r < SIZE → 0 ≤ c < SIZE →
             lookup2 out r c =
               if confirmed_hit myMarks r c then lookup2 B r c else Some EMPTY.
Proof.
  intros HB HM.
  destruct (mask_rows myMarks HM range B HB) as (out & Hrun & Hsh & Hget).
  { apply Forall_forall. intros r. apply range_spec. }
  exists out. unfold maskOpponentBoard. rewrite Hrun. split; [reflexivity|].
  split; [exact Hsh|]. intros r c Hr Hc. rewrite Hget by lia.
  destruct (confirmed_hit myMarks r c).
  - rewrite decide_False; [reflexivity|]. intros [_ ?]. discriminate.
  - rewrite decide_True; [reflexivity|]. rewrite !range_spec. tauto.
Qed.

(** For a requester with marks grid [M] and an opponent board [B] (both
    10×10), [maskOpponentBoard] returns a 10×10 grid whose cell [(r, c)]
    is [B[r][c]] where [M[r][c]] is 2 and is 0 everywhere else. *)
Theorem mask_shows_confirmed_hits_only (B M : Board) :
  shaped B → shaped M →
  ∃ out, maskOpponentBoard (Some B) (Some M) = Some (Some out)
         ∧ shaped out
         ∧ ∀ r c, 0 ≤ r < SIZE → 0 ≤ c < SIZE →
             (lookup2 M r c = Some 2 → lookup2 out r c = lookup2 B r c)
             ∧ (lookup2 M r c ≠ Some 2 → lookup2 out r c = Some EMPTY)
             ∧ (lookup2 B r c ≠ Some EMPTY →
                (lookup2 out r c = lookup2 B r c ↔ lookup2 M r c = Some 2)).
Proof.
  intros HB HM.
  destruct (mask_total B (Some M) HB HM) as (out & Hrun & Hsh & Hget).
  exists out. split; [exact Hrun|]. split; [exact Hsh|].
  intros r c Hr Hc. specialize (Hget r c Hr Hc). unfold confirmed_hit in Hget.
  destruct (bool_decide_reflect (lookup2 M r c = Some 2)) as [Hhit|Hhit].
  - split; [done|]. split; [done|]. intros _. by split.
  - split; [done|]. split; [done|]. intros Hship. split; [congruence|done].
Qed.

Example mask_sample :
  maskOpponentBoard (Some Demo.fleet_board) (Some Demo.some_marks)
  = Some (Some [[7;0;0;0;0;0;0;0;0;0];
                [0;0;0;0;0;0;0;0;0;0];
                [3;0;0;0;0;0;0;0;0;0];
                [0;0;0;0;0;0;0;0;0;0];
                [0;0;0;0;0;0;0;0;0;0];
                [0;0;0;0;0;0;0;0;0;0];
                [0;0;0;0;0;0;0;0;0;0];
                [0;0;0;0;0;0;0;0;0;0];
                [0;0;0;0;0;0;0;0;0;0];
                [0;0;0;0;0;0;0;0;0;0]]).
Proof. reflexivity. Qed.

End MaskFacts.

(** * The comparison of the joined lengths *)

Module JoinFacts.
Import Sanitizer.

Lemma nat_of_digit n : (n < 10)%nat → nat_of_ascii (digit n) = (48 + n)%nat.
Proof. intros Hn. unfold digit. apply nat_ascii_embedding. lia. Qed.

Lemma is_digit_digit n : (n < 10)%nat → is_digit (digit n) = true.
Proof.
  intros Hn. unfold is_digit. rewrite (nat_of_digit n Hn).
  apply andb_true_iff. rewrite !Nat.leb_le. lia.
Qed.

Lemma digit_inj n m : (n < 10)%nat → (m < 10)%nat → digit n = digit m → n = m.
Proof.
  intros Hn Hm Heq. apply (f_equal nat_of_ascii) in Heq.
  rewrite !nat_of_digit in Heq by assumption. lia.
Qed.

Lemma comma_not_digit : is_digit "," = false.
Proof. reflexivity. Qed.

Lemma append_cons x a b : String x a +:+ b = String x (a +:+ b).
Proof. reflexivity. Qed.

Lemma append_nil b : "" +:+ b = b.
Proof. reflexivity. Qed.

Lemma append_assoc (a b c : string) : (a +:+ b) +:+ c = a +:+ (b +:+ c).
Proof.
  induction a as [|x a IH]; [reflexivity|]. rewrite !append_cons. f_equal. exact IH.
Qed.

(** The digits of [n] are put in front of [acc]: one digit below ten, at
    least two from ten on. *)
Lemma decimal_go_shape : ∀ (fuel n : nat) (acc : string),
  (n < fuel)%nat →
  ∃ d s, decimal_go fuel n acc = String d (s +:+ acc)
         ∧ ((n < 10)%nat → d = digit n ∧ s = ""%string)
         ∧ ((10 ≤ n)%nat → ∃ d' s', s +:+ acc = String d' s' ∧ is_digit d' = true).
Proof.
  induction fuel as [|fuel IH]; intros n acc Hfuel; [lia|]. cbn [decimal_go].
  destruct (Nat.ltb_spec n 10) as [Hlt|Hge].
  - exists (digit (n mod 10)), ""%string. split; [reflexivity|].
    split; [|lia]. intros _. by rewrite Nat.mod_small.
  - assert (Hdiv : (n / 10 < fuel)%nat).
    { pose proof (Nat.div_lt n 10). lia. }
    destruct (IH (n / 10)%nat (String (digit (n mod 10)) acc) Hdiv)
      as (d & s & Hgo & Hsmall & Hbig).
    exists d, (s +:+ String (digit (n mod 10)) ""). rewrite Hgo.
    split; [by rewrite append_assoc|]. split; [lia|]. intros _.
    rewrite append_assoc, append_cons, append_nil.
    destruct (Nat.lt_ge_cases (n / 10) 10) as [Hq|Hq].
    + destruct (Hsmall Hq) as [_ ->]. rewrite append_nil.
      eexists _, _. split; [reflexivity|].
      apply is_digit_digit. apply Nat.mod_upper_bound. lia.
    + exact (Hbig Hq).
Qed.

Lemma decimal_small n : (n < 10)%nat → decimal n = String (digit n) "".
Proof.
  intros Hn. unfold decimal. cbn [decimal_go].
  replace (n <? 10)%nat with true by (symmetry; by apply Nat.ltb_lt).
  by rewrite Nat.mod_small.
Qed.

Lemma decimal_big n :
  (10 ≤ n)%nat → ∃ d d' s, decimal n = String d (String d' s) ∧ is_digit d' = true.
Proof.
  intros Hn. destruct (decimal_go_shape (S n) n "" ltac:(lia)) as (d & s & Hgo & _ & Hbig).
  destruct (Hbig Hn) as (d' & s' & Hs & Hd'). exists d, d', s'.
  unfold decimal. by rewrite Hgo, Hs.
Qed.

(** Reading one number off the front of a joined string. *)
Lemma join_head (x : nat) (l : list nat) (d : ascii) (rest : string) :
  join (map decimal (x :: l)) = String d rest →
  rest = ""%string ∨ (∃ rest', rest = String "," rest') →
  (x < 10)%nat ∧ d = digit x
  ∧ ((l = [] ∧ rest = ""%string)
     ∨ (l ≠ [] ∧ ∃ rest', rest = String "," rest' ∧ join (map decimal l) = rest')).
Proof.
  intros Hjoin Hrest. destruct (Nat.lt_ge_cases x 10) as [Hlt|Hge].
  - split; [exact Hlt|]. cbn [map join] in Hjoin. rewrite (decimal_small x Hlt) in Hjoin.
    destruct l as [|y l]; cbn [map] in Hjoin.
    + inversion Hjoin; subst. split; [reflexivity|]. by left.
    + rewrite append_cons, append_nil, append_cons, append_nil in Hjoin.
      inversion Hjoin; subst. split; [reflexivity|]. right.
      split; [discriminate|]. eexists. split; reflexivity.
  - exfalso. destruct (decimal_big x Hge) as (d1 & d2 & s & Hdec & Hd2).
    assert (Hhead : ∃ t, join (map decimal (x :: l)) = String d1 (String d2 t)).
    { cbn [map join]. rewrite Hdec. destruct (map decimal l); [eauto|].
      rewrite !append_cons. eauto. }
    destruct Hhead as [t Ht]. rewrite Ht in Hjoin. inversion Hjoin; subst.
    destruct Hrest as [Hr|[rest' Hr]]; [discriminate|].
    inversion Hr; subst. by rewrite comma_not_digit in Hd2.
Qed.

(** Only the list 5, 4, 3, 3, 2 is joined to ["5,4,3,3,2"]. *)
Lemma join_wanted (l : list nat) :
  join (map decimal l) = wanted ↔ l = [5; 4; 3; 3; 2]%nat.
Proof.
  split; [|by intros ->].
  change wanted with "5,4,3,3,2"%string. intros H.
  destruct l as [|x1 l]; [discriminate|].
  destruct (join_head x1 l _ _ H) as (H1 & Hd1 & [[_ Hbad]|(_ & r1 & Hr1 & H')]);
    [right; eauto|discriminate|].
  injection Hr1 as Hr1. clear H. rewrite <- Hr1 in H'. clear Hr1 r1.
  destruct l as [|x2 l]; [discriminate|].
  destruct (join_head x2 l _ _ H') as (H2 & Hd2 & [[_ Hbad]|(_ & r2 & Hr2 & H)]);
    [right; eauto|discriminate|].
  injection Hr2 as Hr2. clear H'. rewrite <- Hr2 in H. clear Hr2 r2.
  destruct l as [|x3 l]; [discriminate|].
  destruct (join_head x3 l _ _ H) as (H3 & Hd3 & [[_ Hbad]|(_ & r3 & Hr3 & H')]);
    [right; eauto|discriminate|].
  injection Hr3 as Hr3. clear H. rewrite <- Hr3 in H'. clear Hr3 r3.
  destruct l as [|x4 l]; [discriminate|].
  destruct (join_head x4 l _ _ H') as (H4 & Hd4 & [[_ Hbad]|(_ & r4 & Hr4 & H)]);
    [right; eauto|discriminate|].
  injection Hr4 as Hr4. clear H'. rewrite <- Hr4 in H. clear Hr4 r4.
  destruct l as [|x5 l]; [discriminate|].
  destruct (join_head x5 l _ _ H) as (H5 & Hd5 & [[-> _]|(_ & r5 & Hr5 & _)]);
    [by left| |discriminate].
  rewrite <- (digit_inj 5 x1), <- (digit_inj 4 x2), <- (digit_inj 3 x3),
    <- (digit_inj 3 x4), <- (digit_inj 2 x5); (reflexivity || lia || assumption).
Qed.

(** The test [got !== wanted] compares the sorted lengths with 5, 4, 3, 3, 2. *)
Lemma got_wanted (ships : list Ship) :
  String.eqb (got ships) wanted
  = bool_decide (sort_desc (map slength ships) = [5; 4; 3; 3; 2]%nat).
Proof.
  unfold got. destruct (String.eqb_spec (join (map decimal (sort_desc (map slength ships))))
                          wanted) as [Heq|Hne].
  - apply join_wanted in Heq. by rewrite bool_decide_true.
  - rewrite bool_decide_false; [reflexivity|]. intros Heq. apply Hne. by apply join_wanted.
Qed.

End JoinFacts.

(** * The scan of the sanitizer, with and without the branch test *)

Module ScanFacts.
Import Grid GridFacts Sanitizer JoinFacts.

Lemma for_each_step {S} (body : Z → S → option S) i idx st :
  for_each body (i :: idx) st = body i st ≫= for_each body idx.
Proof. reflexivity. Qed.

(** Two loops whose bodies agree until the tested one gives up. *)
Section Lockstep.
Context {S : Type} (good : S → bool) (F T : Z → S → option S).
Hypothesis F_total : ∀ i st, is_Some (F i st).
Hypothesis F_bad : ∀ i st st', F i st = Some st' → good st = false → good st' = false.
Hypothesis T_F : ∀ i st st', good st = true → F i st = Some st' →
  T i st = if good st' then Some st' else None.

Lemma for_each_total idx : ∀ st, is_Some (for_each F idx st).
Proof.
  induction idx as [|i idx IH]; intros st; [by eexists|].
  rewrite for_each_step. destruct (F_total i st) as [st' ->]. apply IH.
Qed.

Lemma for_each_bad idx : ∀ st st',
  for_each F idx st = Some st' → good st = false → good st' = false.
Proof.
  induction idx as [|i idx IH]; intros st st' Hrun Hbad.
  - by inversion Hrun; subst.
  - rewrite for_each_step in Hrun. destruct (F i st) as [st1|] eqn:HF; [|discriminate].
    eapply IH; [exact Hrun|]. eapply F_bad; eassumption.
Qed.

Lemma for_each_lockstep idx : ∀ st st',
  good st = true → for_each F idx st = Some st' →
  for_each T idx st = if good st' then Some st' else None.
Proof.
  induction idx as [|i idx IH]; intros st st' Hgood Hrun.
  - inversion Hrun; subst. cbn. by rewrite Hgood.
  - rewrite for_each_step in Hrun |- *.
    destruct (F i st) as [st1|] eqn:HF; [|discriminate]. cbn in Hrun.
    rewrite (T_F i st st1 Hgood HF).
    destruct (good st1) eqn:Hg1.
    + cbn. by apply IH.
    + by rewrite (for_each_bad idx st1 st' Hrun Hg1).
Qed.

End Lockstep.

Lemma visit_total b r c st : is_Some (visit_unchecked b r c st).
Proof.
  unfold visit_unchecked. destruct (_ || _); [by eexists|].
  destruct (trace _ _ _ _ _) as [v cells]. by eexists.
Qed.

Lemma visit_bad b r c st st' :
  visit_unchecked b r c st = Some st' → straight b st = false → straight b st' = false.
Proof.
  unfold visit_unchecked, straight. destruct (_ || _); [by intros [= <-]|].
  destruct (trace _ _ _ _ _) as [v cells]. intros [= <-] Hbad. cbn [fst snd].
  by rewrite forallb_app, Hbad.
Qed.

Lemma visit_lockstep b r c st st' :
  straight b st = true → visit_unchecked b r c st = Some st' →
  visit b r c st = if straight b st' then Some st' else None.
Proof.
  unfold visit, visit_unchecked, straight. destruct (_ || _); [intros Hg [= <-]; by rewrite Hg|].
  destruct (trace _ _ _ _ _) as [v cells]. intros Hgood [= <-]. cbn [fst snd].
  rewrite forallb_app, Hgood. cbn [forallb andb sid scells].
  by destruct (has_branch _ _ _).
Qed.

Lemma scan_unchecked_total b : is_Some (scan_unchecked b).
Proof.
  apply for_each_total. intros r st. apply for_each_total. intros c st'.
  apply visit_total.
Qed.

Lemma scan_runs b : scan_unchecked b = Some ((default (fill false, []) (scan_unchecked b)).1, runs b).
Proof.
  unfold runs. destruct (scan_unchecked_total b) as [[v ss] ->]. reflexivity.
Qed.

(** The scan of the code is the extraction of the runs, given up as soon
    as one of them has a branch. *)
Lemma scan_checked b :
  scan b =
  if forallb (fun s => negb (has_branch b (sid s) (scells s))) (runs b)
  then scan_unchecked b else None.
Proof.
  destruct (scan_unchecked_total b) as [st Hst].
  unfold runs. rewrite Hst. unfold scan in *.
  rewrite (for_each_lockstep (straight b)
             (fun r => for_each (fun c => visit_unchecked b r c) range)
             (fun r => for_each (fun c => visit b r c) range)) with (st' := st).
  - reflexivity.
  - intros r s1 s2. apply for_each_bad. intros c. apply visit_bad.
  - intros r s1 s2. apply for_each_lockstep.
    + intros c. apply visit_bad.
    + intros c. apply visit_lockstep.
  - reflexivity.
  - exact Hst.
Qed.

Lemma sanitizeFleet_unfold b :
  sanitizeFleet (Some {| Sanitizer.board := Some b |}) =
  if valid_board b
     && forallb (fun s => negb (has_branch b (sid s) (scells s))) (runs b)
     && bool_decide (sort_desc (map slength (runs b)) = [5; 4; 3; 3; 2]%nat)
  then Some (paint (renumber (sort_ships (runs b))) emptyBoard,
             renumber (sort_ships (runs b)))
  else None.
Proof.
  unfold sanitizeFleet. cbn [mbind option_bind Sanitizer.board].
  destruct (valid_board b); [|reflexivity]. cbn [negb andb].
  rewrite scan_checked. destruct (forallb _ (runs b)); [|reflexivity].
  rewrite (scan_runs b). cbn [mbind option_bind snd andb].
  rewrite got_wanted. by destruct (bool_decide _).
Qed.

Lemma has_branch_true b k cells :
  has_branch b k cells = true ↔
  ∃ p n, p ∈ cells ∧ n ∈ nbrs p.1 p.2 ∧ inb n.1 n.2 = true
         ∧ rd 0 b n.1 n.2 = k ∧ n ∉ cells.
Proof.
  unfold has_branch. rewrite existsb_exists. split.
  - intros (p & Hp & H). apply existsb_exists in H as (n & Hn & H).
    apply andb_true_iff in H as [H Hmem]. apply andb_true_iff in H as [Hin Hk].
    exists p, n. rewrite <- !list_elem_of_In in *.
    split; [exact Hp|]. split; [exact Hn|]. split; [exact Hin|]. split; [lia|].
    intros Hc. apply negb_true_iff in Hmem.
    assert (is_member cells n.1 n.2 = true); [|congruence].
    unfold is_member. apply existsb_exists. exists n.
    rewrite <- list_elem_of_In. split; [exact Hc|]. lia.
  - intros (p & n & Hp & Hn & Hin & Hk & Hmem).
    exists p. rewrite <- list_elem_of_In. split; [exact Hp|].
    apply existsb_exists. exists n. rewrite <- list_elem_of_In. split; [exact Hn|].
    rewrite Hin, Hk, Z.eqb_refl. cbn. apply negb_true_iff.
    destruct (is_member cells n.1 n.2) eqn:E; [|reflexivity]. exfalso. apply Hmem.
    apply existsb_exists in E as (x & Hx & E). rewrite <- list_elem_of_In in Hx.
    destruct x as [xr xc], n as [nr nc]. cbn in E.
    assert (xr = nr ∧ xc = nc) as [-> ->] by lia. exact Hx.
Qed.

(** A run with a branch makes the sanitizer give up. *)
Lemma rejected_by_branch (b : Board) (s : Ship) :
  s ∈ runs b → has_branch b (sid s) (scells s) = true →
  sanitizeFleet (Some {| Sanitizer.board := Some b |}) = None.
Proof.
  intros Hs Hbr. rewrite sanitizeFleet_unfold.
  assert (Hb : forallb (fun s => negb (has_branch b (sid s) (scells s))) (runs b) = false).
  { apply not_true_is_false. intros Hall. rewrite forallb_forall in Hall.
    specialize (Hall s). rewrite <- list_elem_of_In in Hall. specialize (Hall Hs).
    rewrite Hbr in Hall. discriminate. }
  rewrite Hb, andb_false_r. reflexivity.
Qed.

End ScanFacts.

(** * What the sanitizer rejects *)

Module RejectFacts.
Import Grid GridFacts Sanitizer ScanFacts.

Example l_shape_runs :
  runs Demo.l_shape_board !! 1%nat
  = Some {| sid := 3; slength := 2; scells := [(2, 0); (2, 1)]; shits := [] |}.
Proof. reflexivity. Qed.

Example l_shape_rejected :
  sanitizeFleet (Some {| board := Some Demo.l_shape_board |}) = None.
Proof. reflexivity. Qed.

Example fleet_accepted :
  (snd <$> sanitizeFleet (Some {| board := Some Demo.fleet_board |}))
  = Some [ {| sid := 1; slength := 3; scells := [(9, 7); (9, 8); (9, 9)]; shits := [] |};
           {| sid := 2; slength := 4; scells := [(2, 0); (3, 0); (4, 0); (5, 0)]; shits := [] |};
           {| sid := 3; slength := 2; scells := [(4, 6); (4, 7)]; shits := [] |};
           {| sid := 4; slength := 5; scells := [(0, 0); (0, 1); (0, 2); (0, 3); (0, 4)]; shits := [] |};
           {| sid := 5; slength := 3; scells := [(2, 2); (2, 3); (2, 4)]; shits := [] |} ].
Proof. reflexivity. Qed.

(** C3: if a run extracted by the scan has a cell [p] with an
    orthogonal neighbour [n] inside the grid that carries the run's
    identifier and is not a cell of the run, the submission is rejected. *)
Theorem branch_rejected (b : Board) (s : Ship) (p n : Z * Z) :
  s ∈ runs b → p ∈ scells s → n ∈ nbrs p.1 p.2 → inb n.1 n.2 = true →
  lookup2 b n.1 n.2 = Some (sid s) → n ∉ scells s →
  sanitizeFleet (Some {| board := Some b |}) = None.
Proof.
  intros Hs Hp Hn Hin Hid Hout. apply (rejected_by_branch b s Hs).
  apply has_branch_true. exists p, n. repeat split; try assumption.
  by apply rd_lookup2.
Qed.

Lemma branch_rejected_witness :
  sanitizeFleet (Some {| board := Some Demo.l_shape_board |}) = None.
Proof.
  apply (branch_rejected Demo.l_shape_board
           {| sid := 3; slength := 2; scells := [(2, 0); (2, 1)]; shits := [] |}
           (2, 0) (3, 0)).
  - vm_compute. do 1 constructor. constructor.
  - vm_compute. constructor.
  - vm_compute. do 3 constructor. constructor.
  - reflexivity.
  - reflexivity.
  - vm_compute. intros H. inversion H as [|? ? ? H']; subst.
    inversion H' as [|? ? ? H'']; subst. inversion H''.
Defined.

(** C4, as stated, fails: [Demo.same_id_board] carries the identifier
    1 in five disjoint straight runs and is accepted. *)
Lemma same_id_runs_accepted :
  ¬ (∀ (b : Board) (i j : nat) (s1 s2 : Ship),
       valid_board b = true →
       runs b !! i = Some s1 → runs b !! j = Some s2 → i ≠ j →
       sid s1 = sid s2 → sid s1 ≠ EMPTY →
       sanitizeFleet (Some {| board := Some b |}) = None).
Proof.
  intros H.
  specialize (H Demo.same_id_board 0%nat 1%nat
                {| sid := 1; slength := 5;
                   scells := [(0, 0); (0, 1); (0, 2); (0, 3); (0, 4)]; shits := [] |}
                {| sid := 1; slength := 4;
                   scells := [(2, 0); (3, 0); (4, 0); (5, 0)]; shits := [] |}).
  cut (sanitizeFleet (Some {| board := Some Demo.same_id_board |}) ≠ None).
  - intros Hne. apply Hne, H; try reflexivity; try lia. discriminate.
  - vm_compute. discriminate.
Qed.

(** C4, amended: a valid-shaped grid in which two different extracted
    runs share an identifier is rejected exactly when some extracted run
    has a same-identifier orthogonal neighbour outside it, or the lengths
    of all extracted runs, sorted, are not 5, 4, 3, 3, 2.  Otherwise it is
    accepted and the runs are renumbered as separate ships. *)
Theorem same_id_runs_rejected_iff (b : Board) (i j : nat) (s1 s2 : Ship) :
  valid_board b = true →
  runs b !! i = Some s1 → runs b !! j = Some s2 → i ≠ j → sid s1 = sid s2 →
  (sanitizeFleet (Some {| board := Some b |}) = None
   ↔ (∃ s, s ∈ runs b ∧ has_branch b (sid s) (scells s) = true)
     ∨ sort_desc (map slength (runs b)) ≠ [5; 4; 3; 3; 2]%nat)
  ∧ (sanitizeFleet (Some {| board := Some b |}) ≠ None →
     sanitizeFleet (Some {| board := Some b |})
     = Some (paint (renumber (sort_ships (runs b))) emptyBoard,
             renumber (sort_ships (runs b)))).
Proof.
  intros Hvalid _ _ _ _. rewrite sanitizeFleet_unfold, Hvalid. cbn [andb].
  destruct (forallb _ (runs b)) eqn:Hall; cbn [andb].
  - destruct (bool_decide_reflect (sort_desc (map slength (runs b)) = [5; 4; 3; 3; 2]%nat))
      as [Hlen|Hlen].
    + split; [|reflexivity]. split; [discriminate|].
      intros [(s & Hs & Hbr)|Hne]; [|contradiction].
      rewrite forallb_forall in Hall. specialize (Hall s).
      rewrite <- list_elem_of_In in Hall. specialize (Hall Hs).
      rewrite Hbr in Hall. discriminate.
    + split; [|congruence]. split; [by right|reflexivity].
  - split; [|congruence]. split; [|reflexivity]. intros _. left.
    apply not_true_iff_false in Hall.
    destruct (existsb (fun s => has_branch b (sid s) (scells s)) (runs b)) eqn:Hex.
    + apply existsb_exists in Hex as (s & Hs & Hbr). exists s.
      by rewrite list_elem_of_In.
    + exfalso. apply Hall. apply forallb_forall. intros s Hs.
      apply negb_true_iff. apply not_true_is_false. intros Hbr.
      assert (existsb (fun s => has_branch b (sid s) (scells s)) (runs b) = true);
        [|congruence].
      apply existsb_exists. eauto.
Qed.

Lemma same_id_runs_rejected_iff_witness :
  sanitizeFleet (Some {| board := Some Demo.sixth_run_board |}) = None.
Proof.
  apply (same_id_runs_rejected_iff Demo.sixth_run_board 4%nat 5%nat
           {| sid := 1; slength := 3; scells := [(7, 0); (7, 1); (7, 2)]; shits := [] |}
           {| sid := 1; slength := 3; scells := [(9, 7); (9, 8); (9, 9)]; shits := [] |});
    try reflexivity; try lia.
  right. vm_compute. discriminate.
Defined.

End RejectFacts.

(** * Facts about the stable sort *)

Module SortFacts.
Import Sanitizer.

Section SortBy.
Context {A : Type} (le : A → A → bool).

Lemma insert_by_perm x l : insert_by le x l ≡ₚ x :: l.
Proof.
  induction l as [|y l IH]; [reflexivity|]. cbn.
  destruct (le x y); [reflexivity|]. rewrite IH. apply Permutation_swap.
Qed.

Lemma sort_by_perm l : sort_by le l ≡ₚ l.
Proof.
  induction l as [|x l IH]; [reflexivity|]. cbn.
  fold (sort_by le l). by rewrite insert_by_perm, IH.
Qed.

Context (R : A → A → Prop).
Hypothesis R_le : ∀ x y, le x y = true → R x y.
Hypothesis R_gt : ∀ x y, le x y = false → R y x.
Hypothesis R_trans : ∀ x y z, R x y → R y z → R x z.

Lemma insert_by_sorted x l :
  StronglySorted R l → StronglySorted R (insert_by le x l).
Proof.
  induction 1 as [|y l Hs IH Hall]; cbn.
  - repeat constructor.
  - destruct (le x y) eqn:Hxy.
    + constructor; [by constructor|]. constructor; [by apply R_le|].
      eapply List.Forall_impl; [|exact Hall]. intros z. apply R_trans. by apply R_le.
    + constructor; [exact IH|].
      rewrite (insert_by_perm x l). constructor; [|exact Hall]. by apply R_gt.
Qed.

Lemma sort_by_sorted l : StronglySorted R (sort_by le l).
Proof.
  induction l as [|x l IH]; [constructor|]. cbn. by apply insert_by_sorted.
Qed.

End SortBy.

Lemma insert_by_map {A B} (f : A → B) (le : B → B → bool) x l :
  insert_by le (f x) (map f l) = map f (insert_by (fun a b => le (f a) (f b)) x l).
Proof.
  induction l as [|y l IH]; [reflexivity|]. cbn.
  destruct (le (f x) (f y)); [reflexivity|]. cbn. by rewrite IH.
Qed.

Lemma sort_by_map {A B} (f : A → B) (le : B → B → bool) l :
  sort_by le (map f l) = map f (sort_by (fun a b => le (f a) (f b)) l).
Proof.
  induction l as [|x l IH]; [reflexivity|]. cbn.
  fold (sort_by le (map f l)). rewrite IH. apply insert_by_map.
Qed.

Lemma sort_desc_sorted l : StronglySorted ge (sort_desc l).
Proof.
  apply sort_by_sorted.
  - intros x y H. apply Nat.leb_le in H. lia.
  - intros x y H. apply Nat.leb_gt in H. lia.
  - intros x y z. lia.
Qed.

Lemma sort_ships_sorted l :
  StronglySorted (fun a b => sid a ≤ sid b) (sort_ships l).
Proof.
  apply sort_by_sorted.
  - intros x y H. by apply Z.leb_le in H.
  - intros x y H. apply Z.leb_gt in H. lia.
  - intros x y z. lia.
Qed.

(** The sorted list of lengths depends only on the multiset of lengths. *)
Lemma sort_desc_perm l l' : l ≡ₚ l' → sort_desc l = sort_desc l'.
Proof.
  intros Hp.
  assert (Hanti : AntiSymm eq ge) by (intros x y; lia).
  apply (StronglySorted_unique ge); try apply sort_desc_sorted.
  unfold sort_desc. by rewrite !sort_by_perm.
Qed.

End SortFacts.

(** * The sanitizer on valid placements *)

Module FleetFacts.
Import Grid GridFacts Sanitizer ScanFacts SortFacts Placement.

Lemma walkH_walk fuel b k r c v : walkH fuel b k r c v = walk 0 1 fuel b k r c v.
Proof.
  revert c v. induction fuel as [|fuel IH]; intros c v; [reflexivity|].
  cbn. rewrite IH, Z.add_0_r. reflexivity.
Qed.

Lemma walkV_walk fuel b k r c v : walkV fuel b k r c v = walk 1 0 fuel b k r c v.
Proof.
  revert r v. induction fuel as [|fuel IH]; intros r v; [reflexivity|].
  cbn. rewrite IH, Z.add_0_r. reflexivity.
Qed.

Lemma inb_true r c : inb r c = true ↔ 0 ≤ r < SIZE ∧ 0 ≤ c < SIZE.
Proof. unfold inb, SIZE. rewrite !andb_true_iff, !Z.leb_le, !Z.ltb_lt. lia. Qed.

Lemma inb_false r c : inb r c = false ↔ ¬ (0 ≤ r < SIZE ∧ 0 ≤ c < SIZE).
Proof. rewrite <- inb_true. by destruct (inb r c). Qed.

(** The walks stop by their own test: more fuel changes nothing. *)
Lemma walk_fuel_enough (b : Board) (k dr dc : Z) :
  (dr = 0 ∧ dc = 1) ∨ (dr = 1 ∧ dc = 0) →
  ∀ (f1 f2 : nat) (r c : Z) (visited : list (list bool)),
    (Z.to_nat (dr * (SIZE - r) + dc * (SIZE - c)) < f1)%nat →
    (Z.to_nat (dr * (SIZE - r) + dc * (SIZE - c)) < f2)%nat →
    walk dr dc f1 b k r c visited = walk dr dc f2 b k r c visited.
Proof.
  intros Hdir. induction f1 as [|f1 IH]; intros f2 r c visited H1 H2; [lia|].
  destruct f2 as [|f2]; [lia|]. cbn [walk].
  destruct (inb r c) eqn:Hin; [|reflexivity]. apply inb_true in Hin.
  destruct (_ && _ && _); [|reflexivity].
  rewrite (IH f2); [reflexivity| |]; unfold SIZE in *; lia.
Qed.

Lemma walkH_fuel (b : Board) (k r c : Z) (visited : list (list bool)) (n : nat) :
  0 ≤ c → walkH (walk_fuel + n) b k r c visited = walkH walk_fuel b k r c visited.
Proof.
  intros Hc. rewrite !walkH_walk. apply walk_fuel_enough; [by left| |];
    unfold walk_fuel, SIZE; lia.
Qed.

Lemma walkV_fuel (b : Board) (k r c : Z) (visited : list (list bool)) (n : nat) :
  0 ≤ r → walkV (walk_fuel + n) b k r c visited = walkV walk_fuel b k r c visited.
Proof.
  intros Hr. rewrite !walkV_walk. apply walk_fuel_enough; [by right| |];
    unfold walk_fuel, SIZE; lia.
Qed.

Lemma line_S dr dc n r c :
  line dr dc (S n) r c = (r, c) :: line dr dc n (r + dr) (c + dc).
Proof.
  unfold line. cbn [seq map]. f_equal; [f_equal; lia|].
  rewrite <- seq_shift, map_map. apply map_ext. intros i. f_equal; lia.
Qed.

Lemma elem_of_line dr dc n r c x :
  x ∈ line dr dc n r c ↔
  ∃ i : nat, (i < n)%nat ∧ x = (r + Z.of_nat i * dr, c + Z.of_nat i * dc).
Proof.
  unfold line. rewrite list_elem_of_In, in_map_iff. split.
  - intros (i & <- & Hi). apply in_seq in Hi. exists i. split; [lia|reflexivity].
  - intros (i & Hi & ->). exists i. split; [reflexivity|]. apply in_seq. lia.
Qed.

(** The cells of a walk of [n] steps from [(r, c)]. *)
Lemma walk_spec (b : Board) (k dr dc : Z) :
  (dr = 0 ∧ dc = 1) ∨ (dr = 1 ∧ dc = 0) →
  ∀ (n fuel : nat) (r c : Z) (visited : list (list bool)),
    (n < fuel)%nat → 0 ≤ r → 0 ≤ c → shaped visited →
    (∀ x, x ∈ line dr dc n r c →
       inb x.1 x.2 = true ∧ rd 0 b x.1 x.2 = k ∧ lookup2 visited x.1 x.2 = Some false) →
    (inb (r + Z.of_nat n * dr) (c + Z.of_nat n * dc) = false
     ∨ rd 0 b (r + Z.of_nat n * dr) (c + Z.of_nat n * dc) ≠ k) →
    ∃ visited',
      walk dr dc fuel b k r c visited = (visited', line dr dc n r c)
      ∧ shaped visited'
      ∧ ∀ r' c', 0 ≤ r' → 0 ≤ c' →
          lookup2 visited' r' c' =
            if decide ((r', c') ∈ line dr dc n r c)
            then Some true else lookup2 visited r' c'.
Proof.
  intros Hdir. induction n as [|n IH]; intros fuel r c visited Hfuel Hr Hc Hsh Hrun Hstop.
  - exists visited. destruct fuel as [|fuel]; [lia|]. cbn [walk].
    rewrite Z.mul_0_l, !Z.add_0_r in Hstop.
    assert (Hcond : inb r c && (rd 0 b r c =? k) && negb (rd false visited r c) = false).
    { destruct Hstop as [->|Hne]; [reflexivity|].
      apply Z.eqb_neq in Hne. rewrite Hne. by rewrite andb_false_r. }
    rewrite Hcond. split; [reflexivity|]. split; [exact Hsh|].
    intros r' c' _ _. rewrite decide_False; [reflexivity|]. intros H. inversion H.
  - destruct fuel as [|fuel]; [lia|]. cbn [walk]. rewrite line_S in Hrun |- *.
    destruct (Hrun (r, c)) as (Hin0 & Hk0 & Hv0); [by left|]. cbn [fst snd] in *.
    rewrite Hin0, Hk0, Z.eqb_refl, (rd_lookup2 false visited r c false Hv0). cbn [andb negb].
    destruct (IH fuel (r + dr) (c + dc) (wr visited r c true)) as (v' & Hwalk & Hsh' & Hget).
    + lia.
    + lia.
    + lia.
    + by apply shaped_wr.
    + intros x Hx. destruct (Hrun x) as (Hin & Hk & Hv); [by right|].
      split; [exact Hin|]. split; [exact Hk|].
      rewrite lookup2_wr_other; [exact Hv|lia|lia|].
      apply elem_of_line in Hx as (i & Hi & ->). cbn. intros [=]. lia.
    + replace (r + dr + Z.of_nat n * dr) with (r + Z.of_nat (S n) * dr) by lia.
      replace (c + dc + Z.of_nat n * dc) with (c + Z.of_nat (S n) * dc) by lia.
      exact Hstop.
    + exists v'. rewrite Hwalk. split; [reflexivity|].
      split; [exact Hsh'|]. intros r' c' Hr' Hc'. rewrite Hget by assumption.
      destruct (decide ((r', c') = (r, c))) as [Heq|Hne].
      * inversion Heq; subst. rewrite (lookup2_wr_same visited r c true false Hv0).
        rewrite (decide_True (P := (r, c) ∈ (r, c) :: _)) by (by left).
        by case_decide.
      * rewrite lookup2_wr_other by (try lia; exact Hne).
        destruct (decide ((r', c') ∈ line dr dc n (r + dr) (c + dc))) as [HP|HP];
          destruct (decide ((r', c') ∈ (r, c) :: line dr dc n (r + dr) (c + dc))) as [HQ|HQ];
          try reflexivity; exfalso.
        -- apply HQ. by right.
        -- apply elem_of_cons in HQ as [HQ|HQ]; [by apply Hne|by apply HP].
Qed.

Lemma cells_of_line p :
  cells_of p = line (if p_horiz p then 0 else 1) (if p_horiz p then 1 else 0)
                    (p_len p) (p_row p) (p_col p).
Proof.
  unfold cells_of, line, cell_at. apply map_ext. intros i.
  destruct (p_horiz p); f_equal; lia.
Qed.

Lemma elem_of_cells p x :
  x ∈ cells_of p ↔ ∃ i : nat, (i < p_len p)%nat ∧ x = cell_at p (Z.of_nat i).
Proof.
  unfold cells_of. rewrite list_elem_of_In, in_map_iff. split.
  - intros (i & <- & Hi). apply in_seq in Hi. exists i. split; [lia|reflexivity].
  - intros (i & Hi & ->). exists i. split; [reflexivity|]. apply in_seq. lia.
Qed.

Lemma length_cells p : length (cells_of p) = p_len p.
Proof. unfold cells_of. by rewrite length_map, length_seq. Qed.

Lemma nodup_ids_inj (l : list Placed) p q :
  NoDup (map p_id l) → p ∈ l → q ∈ l → p_id p = p_id q → p = q.
Proof.
  induction l as [|a l IH]; intros Hnd Hp Hq Heq; [by apply elem_of_nil in Hp|].
  cbn in Hnd. apply NoDup_cons in Hnd as [Ha Hnd].
  apply elem_of_cons in Hp as [->|Hp]; apply elem_of_cons in Hq as [Hqa|Hq].
  - by symmetry.
  - exfalso. apply Ha. rewrite Heq. by apply list_elem_of_fmap_2.
  - subst. exfalso. apply Ha. rewrite <- Heq. by apply list_elem_of_fmap_2.
  - by apply IH.
Qed.

(** *** Painting the normalized board *)

Lemma paint_cells (k : Z) (cells : list (Z * Z)) : ∀ nb : Board,
  shaped nb →
  shaped (foldl (fun nb' x => wr nb' x.1 x.2 k) nb cells)
  ∧ ∀ r c, 0 ≤ r → 0 ≤ c →
      (∀ x, x ∈ cells → is_Some (lookup2 nb x.1 x.2)) →
      lookup2 (foldl (fun nb' x => wr nb' x.1 x.2 k) nb cells) r c =
        if decide ((r, c) ∈ cells) then Some k else lookup2 nb r c.
Proof.
  induction cells as [|[xr xc] cells IH]; intros nb Hsh.
  - split; [exact Hsh|]. intros r c _ _ _. rewrite decide_False; [reflexivity|].
    intros H. inversion H.
  - cbn [foldl fst snd]. destruct (IH (wr nb xr xc k)) as [Hsh' Hget]; [by apply shaped_wr|].
    split; [exact Hsh'|]. intros r c Hr Hc Hin.
    destruct (Hin (xr, xc)) as [v Hv]; [by left|]. cbn [fst snd] in Hv.
    assert (0 ≤ xr ∧ 0 ≤ xc) as [Hxr Hxc].
    { unfold lookup2 in Hv. destruct (Z.ltb_spec xr 0); [discriminate|].
      destruct (Z.ltb_spec xc 0); [discriminate|]. lia. }
    rewrite Hget; [|lia|lia|].
    2:{ intros [yr yc] Hy. cbn [fst snd].
        destruct (decide ((yr, yc) = (xr, xc))) as [[= -> ->]|Hne].
        - rewrite (lookup2_wr_same nb xr xc k v Hv). by eexists.
        - rewrite lookup2_wr_other by (try lia; exact Hne). apply (Hin (yr, yc)). by right. }
    destruct (decide ((r, c) = (xr, xc))) as [[= -> ->]|Hne].
    + rewrite (lookup2_wr_same nb xr xc k v Hv).
      rewrite (decide_True (P := (xr, xc) ∈ (xr, xc) :: cells)) by (by left).
      by case_decide.
    + rewrite lookup2_wr_other by (try lia; exact Hne).
      destruct (decide ((r, c) ∈ cells)) as [HP|HP];
        destruct (decide ((r, c) ∈ (xr, xc) :: cells)) as [HQ|HQ];
        try reflexivity; exfalso.
      * apply HQ. by right.
      * apply elem_of_cons in HQ as [HQ|HQ]; [by apply Hne|by apply HP].
Qed.

(** The board after [paint]: each ship writes its identifier over its
    cells, later ships over earlier ones. *)
Lemma paint_lookup (ss : list Ship) : ∀ nb : Board,
  shaped nb →
  (∀ s x, s ∈ ss → x ∈ scells s → 0 ≤ x.1 < SIZE ∧ 0 ≤ x.2 < SIZE) →
  shaped (paint ss nb)
  ∧ ∀ r c, 0 ≤ r → 0 ≤ c →
      lookup2 (paint ss nb) r c =
        foldl (fun acc s => if decide ((r, c) ∈ scells s) then Some (sid s) else acc)
              (lookup2 nb r c) ss.
Proof.
  induction ss as [|s ss IH]; intros nb Hsh Hin.
  - split; [exact Hsh|]. reflexivity.
  - unfold paint. cbn [foldl]. fold (paint ss).
    destruct (paint_cells (sid s) (scells s) nb Hsh) as [Hsh1 Hget1].
    destruct (IH _ Hsh1) as [Hsh' Hget].
    { intros s' x Hs'. apply Hin. by right. }
    split; [exact Hsh'|]. intros r c Hr Hc. rewrite Hget by assumption.
    f_equal. apply Hget1; [exact Hr|exact Hc|].
    intros x Hx. apply shaped_lookup2; [exact Hsh| |]; by apply (Hin s x); [left|].
Qed.

Lemma paint_fold_none (x : Z * Z) (ss : list Ship) : ∀ acc,
  (∀ s, s ∈ ss → x ∉ scells s) →
  foldl (fun acc s => if decide (x ∈ scells s) then Some (sid s) else acc) acc ss = acc.
Proof.
  induction ss as [|s ss IH]; intros acc Hno; [reflexivity|]. cbn [foldl].
  rewrite decide_False by (apply Hno; by left). apply IH. intros s' Hs'. apply Hno. by right.
Qed.

Lemma paint_fold_some (x : Z * Z) (k : Z) (ss : list Ship) : ∀ acc,
  (∃ s, s ∈ ss ∧ x ∈ scells s) →
  (∀ s, s ∈ ss → x ∈ scells s → sid s = k) →
  foldl (fun acc s => if decide (x ∈ scells s) then Some (sid s) else acc) acc ss = Some k.
Proof.
  induction ss as [|s ss IH]; intros acc (s0 & Hs0 & Hx0) Hall; [inversion Hs0|]. cbn [foldl].
  destruct (decide (Exists (fun s => x ∈ scells s) ss)) as [Hex|Hno].
  - apply IH.
    + apply Exists_exists in Hex. exact Hex.
    + intros s' Hs'. apply Hall. by right.
  - rewrite paint_fold_none.
    + apply elem_of_cons in Hs0 as [->|Hs0].
      * rewrite decide_True by exact Hx0. f_equal. apply Hall; [by left|exact Hx0].
      * exfalso. apply Hno. apply Exists_exists. eauto.
    + intros s' Hs' Hx'. apply Hno. apply Exists_exists. eauto.
Qed.

(** *** Sorting by identifier and renumbering *)

Lemma sorted_ids_strict (l : list Placed) :
  StronglySorted (fun p q => p_id p ≤ p_id q) l → NoDup (map p_id l) →
  StronglySorted (fun p q => p_id p < p_id q) l.
Proof.
  induction 1 as [|a l Hs IH Hall]; intros Hnd; [constructor|].
  cbn in Hnd. apply NoDup_cons in Hnd as [Ha Hnd]. constructor; [by apply IH|].
  rewrite Forall_forall in Hall |- *. intros q Hq. specialize (Hall q Hq).
  assert (p_id a ≠ p_id q); [|lia]. intros Heq. apply Ha. rewrite Heq.
  by apply list_elem_of_fmap_2.
Qed.

Lemma renumber_to_ship (l : list Placed) :
  renumber (map to_ship l) = imap numbered l.
Proof.
  unfold renumber. change (map to_ship l) with (to_ship <$> l).
  rewrite imap_fmap. by apply imap_ext.
Qed.

Lemma numbered_ids (l : list Placed) :
  map sid (imap numbered l) = map (fun i => Z.of_nat i + 1) (seq 0 (length l)).
Proof.
  change (sid <$> imap numbered l = (fun i => Z.of_nat i + 1) <$> seq 0 (length l)).
  rewrite <- (imap_seq_0 l (fun i => Z.of_nat i + 1)), fmap_imap. by apply imap_ext.
Qed.

Section Valid.
Variables (fl : list Placed) (b : Board).
Hypothesis Hfl : valid_fleet fl.
Hypothesis Henc : encodes fl b.

Lemma fleet_len p : p ∈ fl → (2 ≤ p_len p ≤ 5)%nat.
Proof.
  intros Hp. destruct Hfl as (Hperm & _).
  assert (Hin : p_len p ∈ map p_len fl) by (by apply list_elem_of_fmap_2).
  rewrite Hperm in Hin. rewrite !elem_of_cons, elem_of_nil in Hin. lia.
Qed.

Lemma fleet_nodup : NoDup fl.
Proof. destruct Hfl as (_ & Hnd & _). by apply NoDup_fmap_1 in Hnd. Qed.

Lemma fleet_same_id p q : p ∈ fl → q ∈ fl → p_id p = p_id q → p = q.
Proof. destruct Hfl as (_ & Hnd & _). by apply nodup_ids_inj. Qed.

Lemma cells_in_range p x :
  p ∈ fl → x ∈ cells_of p → 0 ≤ x.1 < SIZE ∧ 0 ≤ x.2 < SIZE.
Proof.
  intros Hp Hx. destruct Hfl as (_ & _ & _ & Hin & _). specialize (Hin p Hp).
  apply elem_of_cells in Hx as (i & Hi & ->). unfold inside, cell_at in *.
  destruct (p_horiz p); cbn; lia.
Qed.

Lemma head_in_cells p : p ∈ fl → (p_row p, p_col p) ∈ cells_of p.
Proof.
  intros Hp. apply elem_of_cells. exists 0%nat. pose proof (fleet_len p Hp).
  split; [lia|]. unfold cell_at. destruct (p_horiz p); f_equal; lia.
Qed.

Lemma board_cases r c :
  0 ≤ r < SIZE → 0 ≤ c < SIZE →
  (∃ p, p ∈ fl ∧ (r, c) ∈ cells_of p ∧ lookup2 b r c = Some (p_id p))
  ∨ ((∀ p, p ∈ fl → (r, c) ∉ cells_of p) ∧ lookup2 b r c = Some EMPTY).
Proof.
  intros Hr Hc. destruct Henc as (_ & Hship & Hfree).
  destruct (decide (Exists (fun p => (r, c) ∈ cells_of p) fl)) as [Hex|Hno].
  - left. apply Exists_exists in Hex as (p & Hp & Hin). exists p.
    split; [exact Hp|]. split; [exact Hin|]. apply (Hship p (r, c) Hp Hin).
  - right. assert (Hnone : ∀ p, p ∈ fl → (r, c) ∉ cells_of p).
    { intros p Hp Hin. apply Hno. apply Exists_exists. eauto. }
    split; [exact Hnone|]. by apply Hfree.
Qed.

Lemma board_cell p r c :
  p ∈ fl → 0 ≤ r < SIZE → 0 ≤ c < SIZE →
  rd 0 b r c = p_id p ↔ (r, c) ∈ cells_of p.
Proof.
  intros Hp Hr Hc. destruct Hfl as (_ & _ & Hpos & _ & Hdisj). split.
  - intros Hrd. destruct (board_cases r c Hr Hc) as [(q & Hq & Hin & Hget)|(_ & Hget)].
    + rewrite (rd_lookup2 _ _ _ _ _ Hget) in Hrd.
      by rewrite (fleet_same_id p q Hp Hq (eq_sym Hrd)).
    + rewrite (rd_lookup2 _ _ _ _ _ Hget) in Hrd. specialize (Hpos p Hp).
      unfold EMPTY in Hrd. lia.
  - intros Hin. destruct Henc as (_ & Hship & _).
    apply (rd_lookup2 0 b r c). apply (Hship p (r, c) Hp Hin).
Qed.

Lemma board_valid : valid_board b = true.
Proof.
  destruct Henc as ((Hlen & Hrows) & _). destruct Hfl as (_ & _ & Hpos & _).
  unfold valid_board. rewrite Hlen, Nat.eqb_refl. cbn [andb].
  apply forallb_forall. intros row Hrow. rewrite <- list_elem_of_In in Hrow.
  unfold valid_row. rewrite Forall_forall in Hrows. rewrite (Hrows row Hrow), Nat.eqb_refl.
  cbn [andb]. apply forallb_forall. intros v Hv. rewrite <- list_elem_of_In in Hv.
  apply list_elem_of_lookup in Hrow as [i Hi]. apply list_elem_of_lookup in Hv as [j Hj].
  pose proof (lookup_lt_Some _ _ _ Hi) as Hi'. pose proof (lookup_lt_Some _ _ _ Hj) as Hj'.
  rewrite (Hrows row) in Hj' by (eapply list_elem_of_lookup_2, Hi).
  assert (Hget : lookup2 b (Z.of_nat i) (Z.of_nat j) = Some v).
  { unfold lookup2. replace (Z.of_nat i <? 0) with false by (symmetry; apply Z.ltb_ge; lia).
    replace (Z.of_nat j <? 0) with false by (symmetry; apply Z.ltb_ge; lia).
    cbn [orb]. rewrite !Nat2Z.id, Hi. cbn. exact Hj. }
  apply Z.leb_le.
  assert (Hri : 0 ≤ Z.of_nat i < SIZE) by (unfold SIZE in *; lia).
  assert (Hrj : 0 ≤ Z.of_nat j < SIZE) by (unfold SIZE in *; lia).
  destruct (board_cases (Z.of_nat i) (Z.of_nat j) Hri Hrj)
    as [(q & Hq & _ & Hget')|(_ & Hget')];
    rewrite Hget in Hget'; inversion Hget'; subst.
  - specialize (Hpos q Hq). lia.
  - unfold EMPTY. lia.
Qed.

Lemma not_in_cells_rd p r c :
  p ∈ fl → (r, c) ∉ cells_of p → inb r c = false ∨ rd 0 b r c ≠ p_id p.
Proof.
  intros Hp Hout. destruct (inb r c) eqn:Hin; [right|by left].
  apply inb_true in Hin as [Hr Hc]. by rewrite board_cell.
Qed.

(** From the first cell of a ship none of whose cells is visited, the
    code collects exactly the cells of that ship. *)
Lemma trace_head p visited :
  p ∈ fl → shaped visited →
  (∀ x, x ∈ cells_of p → lookup2 visited x.1 x.2 = Some false) →
  ∃ visited',
    trace b (p_row p) (p_col p) (p_id p) visited = (visited', cells_of p)
    ∧ shaped visited'
    ∧ ∀ r' c', 0 ≤ r' → 0 ≤ c' →
        lookup2 visited' r' c' =
          if decide ((r', c') ∈ cells_of p) then Some true else lookup2 visited r' c'.
Proof.
  intros Hp Hsh Hfresh. pose proof (fleet_len p Hp) as Hlen.
  destruct Hfl as (_ & _ & _ & Hins & _). specialize (Hins p Hp).
  assert (Hsecond : cell_at p 1 ∈ cells_of p).
  { apply elem_of_cells. exists 1%nat. split; [lia|reflexivity]. }
  assert (Hcell : ∀ x, x ∈ cells_of p →
            inb x.1 x.2 = true ∧ rd 0 b x.1 x.2 = p_id p
            ∧ lookup2 visited x.1 x.2 = Some false).
  { intros [r c] Hx. pose proof (cells_in_range p _ Hp Hx) as [Hr Hc].
    split; [by apply inb_true|]. split; [by apply board_cell|by apply Hfresh]. }
  unfold trace, orient_of. rewrite (cells_of_line p) in *. unfold cell_at, inside in *.
  destruct (p_horiz p) eqn:Hh.
  - destruct (Hcell _ Hsecond) as (Hin1 & Hrd1 & _). cbn [fst snd] in Hin1, Hrd1.
    rewrite Hin1, Hrd1, Z.eqb_refl. cbn [andb]. rewrite walkH_walk.
    apply walk_spec; try tauto; try lia.
    + unfold walk_fuel, SIZE. lia.
    + apply not_in_cells_rd; [exact Hp|]. rewrite (cells_of_line p), Hh.
      intros Hin. apply elem_of_line in Hin as (i & Hi & [= Hrow Hcol]). lia.
  - assert (Hright : inb (p_row p) (p_col p + 1)
                     && (rd 0 b (p_row p) (p_col p + 1) =? p_id p) = false).
    { destruct (not_in_cells_rd p (p_row p) (p_col p + 1) Hp) as [->|Hne]; [|reflexivity|].
      - rewrite (cells_of_line p), Hh. intros Hin.
        apply elem_of_line in Hin as (i & Hi & [= Hrow Hcol]). lia.
      - apply Z.eqb_neq in Hne. by rewrite Hne, andb_false_r. }
    rewrite Hright.
    destruct (Hcell _ Hsecond) as (Hin1 & Hrd1 & _). cbn [fst snd] in Hin1, Hrd1.
    rewrite Hin1, Hrd1, Z.eqb_refl. cbn [andb]. rewrite walkV_walk.
    apply walk_spec; try tauto; try lia.
    + unfold walk_fuel, SIZE. lia.
    + apply not_in_cells_rd; [exact Hp|]. rewrite (cells_of_line p), Hh.
      intros Hin. apply elem_of_line in Hin as (i & Hi & [= Hrow Hcol]). lia.
Qed.

Lemma before_succ r c r' c' :
  before r (c + 1) r' c' ↔ before r c r' c' ∨ (r' = r ∧ c' = c).
Proof. unfold before. lia. Qed.

Lemma scanned_ext (D D' : Z → Z → Prop) st :
  (∀ p, p ∈ fl → D (p_row p) (p_col p) ↔ D' (p_row p) (p_col p)) →
  scanned fl D st → scanned fl D' st.
Proof.
  intros Hext (Hsh & Hvis & ps & Hships & Hnd & Hps).
  split; [exact Hsh|]. split.
  - intros r c Hr Hc. rewrite (Hvis r c Hr Hc).
    split; intros (p & Hp & HD & Hin); exists p; (split; [exact Hp|]);
      (split; [by apply (Hext p Hp)|exact Hin]).
  - exists ps. split; [exact Hships|]. split; [exact Hnd|].
    intros p. rewrite (Hps p). split; intros [Hp HD]; (split; [exact Hp|]);
      by apply (Hext p Hp).
Qed.

(** A ship of the fleet that covers [(r, c)] is the only one. *)
Lemma owner_unique p q x : p ∈ fl → q ∈ fl → x ∈ cells_of p → x ∈ cells_of q → p = q.
Proof. destruct Hfl as (_ & _ & _ & _ & Hdisj). intros. by eapply Hdisj. Qed.

(** A cell of a ship other than its first comes after the first. *)
Lemma head_before p r c :
  p ∈ fl → (r, c) ∈ cells_of p → (p_row p, p_col p) ≠ (r, c) →
  before r c (p_row p) (p_col p).
Proof.
  intros Hp Hin Hne. apply elem_of_cells in Hin as (i & Hi & Heq).
  unfold cell_at, before in *. destruct (p_horiz p); inversion Heq; subst.
  - right. split; [reflexivity|]. destruct i; [exfalso; apply Hne; f_equal; lia|lia].
  - left. destruct i; [exfalso; apply Hne; f_equal; lia|lia].
Qed.

(** One turn of the inner loop. *)
Lemma visit_step r c st :
  0 ≤ r < SIZE → 0 ≤ c < SIZE → scanned fl (before r c) st →
  ∃ st', visit_unchecked b r c st = Some st' ∧ scanned fl (before r (c + 1)) st'.
Proof.
  intros Hr Hc Hst. pose proof Hst as (Hsh & Hvis & ps & Hships & Hnd & Hps).
  assert (Hskip : (∀ q, q ∈ fl → (p_row q, p_col q) ≠ (r, c)) →
                  scanned fl (before r (c + 1)) st).
  { intros Hnohead. eapply scanned_ext; [|exact Hst]. intros q Hq.
    rewrite before_succ. specialize (Hnohead q Hq). split; [tauto|].
    intros [H|[? ?]]; [exact H|]. exfalso. apply Hnohead. by f_equal. }
  unfold visit_unchecked.
  destruct (board_cases r c Hr Hc) as [(p & Hp & Hin & Hget)|(Hnone & Hget)].
  2:{ rewrite (rd_lookup2 0 b r c EMPTY Hget), Z.eqb_refl. cbn [orb].
      exists st. split; [reflexivity|]. apply Hskip. intros q Hq Hhead.
      apply (Hnone q Hq). rewrite <- Hhead. by apply head_in_cells. }
  rewrite (rd_lookup2 0 b r c _ Hget).
  assert (Hpos : (p_id p =? EMPTY) = false).
  { destruct Hfl as (_ & _ & Hpos & _). specialize (Hpos p Hp).
    apply Z.eqb_neq. unfold EMPTY. lia. }
  rewrite Hpos. cbn [orb].
  destruct (decide ((p_row p, p_col p) = (r, c))) as [Hhead|Hnot].
  - (* the first cell of [p] *)
    inversion Hhead; subst r c.
    assert (Hnew : ¬ before (p_row p) (p_col p) (p_row p) (p_col p)).
    { unfold before. lia. }
    assert (Hfresh : ∀ x, x ∈ cells_of p → lookup2 st.1 x.1 x.2 = Some false).
    { intros [xr xc] Hx. pose proof (cells_in_range p _ Hp Hx) as [Hxr Hxc].
      cbn [fst snd] in *.
      destruct (shaped_lookup2 st.1 xr xc Hsh Hxr Hxc) as [[|] Hv]; [|exact Hv].
      exfalso. apply (Hvis xr xc Hxr Hxc) in Hv as (q & Hq & HD & Hxq).
      rewrite (owner_unique q p (xr, xc) Hq Hp Hxq Hx) in HD. by apply Hnew. }
    rewrite (rd_lookup2 false st.1 (p_row p) (p_col p) false (Hfresh _ Hin)).
    destruct (trace_head p st.1 Hp Hsh Hfresh) as (v' & Htr & Hsh' & Hget').
    rewrite Htr. cbn [andb]. eexists. split; [reflexivity|].
    split; [exact Hsh'|]. split.
    + intros xr xc Hxr Hxc. cbn [fst]. rewrite Hget' by lia.
      destruct (decide ((xr, xc) ∈ cells_of p)) as [Hx|Hx].
      * split; [intros _|reflexivity]. exists p. split; [exact Hp|].
        split; [apply before_succ; by right|exact Hx].
      * rewrite (Hvis xr xc Hxr Hxc).
        split; intros (q & Hq & HD & Hxq); exists q; (split; [exact Hq|]);
          (split; [|exact Hxq]).
        -- apply before_succ. by left.
        -- apply before_succ in HD as [HD|[Hqr Hqc]]; [exact HD|].
           exfalso. apply Hx.
           assert (q = p); [|by subst].
           apply (owner_unique q p (p_row p, p_col p) Hq Hp); [|exact Hin].
           rewrite <- Hqr, <- Hqc. by apply head_in_cells.
    + exists (ps ++ [p]). cbn [snd]. split.
      { rewrite map_app, Hships. cbn. unfold to_ship. by rewrite length_cells. }
      split.
      { apply NoDup_app. split; [exact Hnd|]. split; [|apply NoDup_singleton].
        intros q Hq Hq'. apply list_elem_of_singleton in Hq'. subst q.
        apply Hps in Hq as [_ HD]. by apply Hnew. }
      intros q. rewrite elem_of_app, list_elem_of_singleton, (Hps q), before_succ.
      split.
      * intros [[Hq HD]| ->]; [tauto|]. split; [exact Hp|]. by right.
      * intros [Hq [HD|[Hqr Hqc]]]; [tauto|]. right.
        apply (owner_unique q p (p_row p, p_col p) Hq Hp); [|exact Hin].
        rewrite <- Hqr, <- Hqc. by apply head_in_cells.
  - (* a later cell of [p], already visited *)
    assert (Hv : lookup2 st.1 r c = Some true).
    { apply (Hvis r c Hr Hc). exists p. split; [exact Hp|].
      split; [by apply head_before|exact Hin]. }
    rewrite (rd_lookup2 false st.1 r c true Hv). exists st. split; [reflexivity|].
    apply Hskip. intros q Hq Hhead. apply Hnot.
    assert (q = p); [|by subst].
    apply (owner_unique q p (r, c) Hq Hp); [|exact Hin].
    rewrite <- Hhead. by apply head_in_cells.
Qed.

Lemma head_in_range p : p ∈ fl → 0 ≤ p_row p < SIZE ∧ 0 ≤ p_col p < SIZE.
Proof. intros Hp. apply (cells_in_range p (p_row p, p_col p) Hp), head_in_cells, Hp. Qed.

(** The inner loop, from column [k] on. *)
Lemma row_loop r : 0 ≤ r < SIZE →
  ∀ (n k : nat), (k + n = 10)%nat → ∀ st,
    scanned fl (before r (Z.of_nat k)) st →
    ∃ st', for_each (fun c => visit_unchecked b r c) (map Z.of_nat (seq k n)) st = Some st'
           ∧ scanned fl (before r SIZE) st'.
Proof.
  intros Hr. induction n as [|n IH]; intros k Hk st Hst.
  - exists st. split; [reflexivity|]. replace SIZE with (Z.of_nat k); [exact Hst|].
    unfold SIZE. lia.
  - cbn [seq map]. rewrite for_each_step.
    destruct (visit_step r (Z.of_nat k) st Hr) as (st1 & Hv & Hst1);
      [unfold SIZE; lia|exact Hst|].
    rewrite Hv. cbn [mbind option_bind]. apply IH; [lia|].
    by replace (Z.of_nat (S k)) with (Z.of_nat k + 1) by lia.
Qed.

(** The outer loop, from row [k] on. *)
Lemma rows_loop :
  ∀ (n k : nat), (k + n = 10)%nat → ∀ st,
    scanned fl (before (Z.of_nat k) 0) st →
    ∃ st', for_each (fun r => for_each (fun c => visit_unchecked b r c) range)
                    (map Z.of_nat (seq k n)) st = Some st'
           ∧ scanned fl (before SIZE 0) st'.
Proof.
  induction n as [|n IH]; intros k Hk st Hst.
  - exists st. split; [reflexivity|]. replace SIZE with (Z.of_nat k); [exact Hst|].
    unfold SIZE. lia.
  - cbn [seq map]. rewrite for_each_step.
    destruct (row_loop (Z.of_nat k) ltac:(unfold SIZE; lia) 10%nat 0%nat eq_refl st Hst)
      as (st1 & Hrow & Hst1).
    change (map Z.of_nat (seq 0 10)) with range in Hrow.
    rewrite Hrow. cbn [mbind option_bind]. apply IH; [lia|].
    eapply scanned_ext; [|exact Hst1]. intros p Hp.
    pose proof (head_in_range p Hp). unfold before, SIZE in *. lia.
Qed.

(** On a valid placement the scan extracts the ships of the fleet, each
    with its own cells, in the order of their first cells. *)
Lemma scan_valid :
  ∃ ps, runs b = map to_ship ps ∧ ps ≡ₚ fl.
Proof.
  destruct (rows_loop 10%nat 0%nat eq_refl (fill false, [])) as (st & Hrun & Hst).
  - split; [apply shaped_fill|]. split.
    + intros r c Hr Hc. cbn [fst]. rewrite lookup2_fill by assumption.
      split; [discriminate|]. intros (p & Hp & HD & _).
      pose proof (head_in_range p Hp). unfold before in HD. lia.
    + exists []. split; [reflexivity|]. split; [constructor|].
      intros p. split; [intros H; inversion H|]. intros [Hp HD].
      pose proof (head_in_range p Hp). unfold before in HD. lia.
  - destruct Hst as (_ & _ & ps & Hships & Hnd & Hps).
    exists ps. unfold runs, scan_unchecked.
    change (map Z.of_nat (seq 0 10)) with range in Hrun. rewrite Hrun.
    split; [exact Hships|]. apply NoDup_Permutation; [exact Hnd|apply fleet_nodup|].
    intros p. rewrite (Hps p). split; [tauto|]. intros Hp. split; [exact Hp|].
    pose proof (head_in_range p Hp). unfold before, SIZE in *. lia.
Qed.

(** No ship of a valid placement has a branch. *)
Lemma fleet_no_branch p : p ∈ fl → has_branch b (p_id p) (cells_of p) = false.
Proof.
  intros Hp. apply not_true_is_false. intros Hbr.
  apply has_branch_true in Hbr as (x & n & Hx & Hn & Hin & Hid & Hout).
  apply inb_true in Hin as [Hr Hc]. apply Hout.
  destruct n as [nr nc]. by apply board_cell.
Qed.

End Valid.

(** C2: a grid that encodes a valid placement is accepted; the ships
    returned are the placed ships in ascending order of their submitted
    identifiers, numbered 1 to 5 in that order, each with its own cells;
    the returned board holds the new identifier of a ship exactly on the
    cells of that ship and 0 on every other cell. *)
Theorem valid_placement_accepted (fl : list Placed) (b : Board) :
  valid_fleet fl → encodes fl b →
  ∃ (sorted : list Placed) (nb : Board),
    sanitizeFleet (Some {| Sanitizer.board := Some b |})
      = Some (nb, imap numbered sorted)
    ∧ sorted ≡ₚ fl
    ∧ StronglySorted (fun p q => p_id p < p_id q) sorted
    ∧ map sid (imap numbered sorted) = [1; 2; 3; 4; 5]
    ∧ shaped nb
    ∧ ∀ r c, 0 ≤ r < SIZE → 0 ≤ c < SIZE →
        (∀ s, s ∈ imap numbered sorted →
           lookup2 nb r c = Some (sid s) ↔ (r, c) ∈ scells s)
        ∧ ((∀ s, s ∈ imap numbered sorted → (r, c) ∉ scells s) →
           lookup2 nb r c = Some EMPTY).
Proof.
  intros Hfl Henc.
  destruct (scan_valid fl b Hfl Henc) as (ps & Hruns & Hperm).
  set (sorted := sort_by (fun p q => p_id p <=? p_id q) ps).
  assert (Hsp : sorted ≡ₚ fl) by (unfold sorted; by rewrite sort_by_perm).
  assert (Hships : renumber (sort_ships (runs b)) = imap numbered sorted).
  { rewrite Hruns. unfold sort_ships. rewrite sort_by_map. apply renumber_to_ship. }
  assert (Hlen5 : length sorted = 5%nat).
  { destruct Hfl as (Hlens & _). rewrite Hsp, <- (length_map p_len), Hlens. reflexivity. }
  assert (Hnd : NoDup (map p_id sorted)).
  { destruct Hfl as (_ & Hnd & _). by rewrite Hsp. }
  assert (Hinj : ∀ i j p, sorted !! i = Some p → sorted !! j = Some p → i = j).
  { intros i j p Hi Hj. apply NoDup_fmap_1 in Hnd. eapply NoDup_lookup; eassumption. }
  assert (Hmem : ∀ p, p ∈ sorted ↔ p ∈ fl) by (intros p; by rewrite Hsp).
  exists sorted, (paint (imap numbered sorted) emptyBoard).
  split.
  { rewrite sanitizeFleet_unfold, (board_valid fl b Hfl Henc), Hships. cbn [andb].
    assert (Hstraight : forallb (fun s => negb (has_branch b (sid s) (scells s))) (runs b)
                        = true).
    { apply forallb_forall. intros s Hs. rewrite Hruns in Hs. apply in_map_iff in Hs
        as (p & <- & Hp). rewrite <- list_elem_of_In, Hperm in Hp.
      cbn [to_ship sid scells]. by rewrite (fleet_no_branch fl b Hfl Henc p Hp). }
    rewrite Hstraight. cbn [andb].
    rewrite bool_decide_true; [reflexivity|].
    rewrite Hruns, map_map. cbn [to_ship slength].
    change [5; 4; 3; 3; 2]%nat with (sort_desc [5; 4; 3; 3; 2]%nat).
    apply sort_desc_perm. destruct Hfl as (Hlens & _). rewrite <- Hlens.
    change (p_len <$> ps ≡ₚ p_len <$> fl). by rewrite Hperm. }
  split; [exact Hsp|]. split.
  { apply sorted_ids_strict; [|exact Hnd]. unfold sorted.
    apply sort_by_sorted.
    - intros x y H. by apply Z.leb_le in H.
    - intros x y H. apply Z.leb_gt in H. lia.
    - intros x y z. lia. }
  split; [by rewrite numbered_ids, Hlen5|].
  assert (Hrange : ∀ s x, s ∈ imap numbered sorted → x ∈ scells s →
            0 ≤ x.1 < SIZE ∧ 0 ≤ x.2 < SIZE).
  { intros s x Hs Hx. apply elem_of_lookup_imap in Hs as (i & p & -> & Hi).
    apply (cells_in_range fl Hfl p x); [|exact Hx].
    apply Hmem. eapply list_elem_of_lookup_2, Hi. }
  destruct (paint_lookup (imap numbered sorted) emptyBoard (shaped_fill EMPTY) Hrange)
    as [Hsh Hget].
  split; [exact Hsh|]. intros r c Hr Hc. rewrite Hget by lia.
  unfold emptyBoard. rewrite lookup2_fill by assumption.
  assert (Hsame : ∀ s s', s ∈ imap numbered sorted → s' ∈ imap numbered sorted →
            (r, c) ∈ scells s → (r, c) ∈ scells s' → s = s').
  { intros s s' Hs Hs' Hx Hx'.
    apply elem_of_lookup_imap in Hs as (i & p & -> & Hi).
    apply elem_of_lookup_imap in Hs' as (i' & p' & -> & Hi').
    cbn [numbered scells] in Hx, Hx'.
    assert (p = p').
    { destruct Hfl as (_ & _ & _ & _ & Hdisj). apply (Hdisj p p' (r, c)); try assumption;
        apply Hmem; eapply list_elem_of_lookup_2; eassumption. }
    subst p'. by rewrite (Hinj i i' p Hi Hi'). }
  split.
  - intros s Hs. split.
    + intros Hk.
      destruct (decide (Exists (fun s' => (r, c) ∈ scells s') (imap numbered sorted)))
        as [Hex|Hno].
      * apply Exists_exists in Hex as (s' & Hs' & Hx').
        rewrite (paint_fold_some (r, c) (sid s')) in Hk.
        -- assert (s = s'); [|by subst].
           apply elem_of_lookup_imap in Hs as (i & p & -> & Hi).
           apply elem_of_lookup_imap in Hs' as (i' & p' & -> & Hi').
           cbn [numbered sid] in Hk. assert (i = i') by (inversion Hk; lia). subst i'.
           rewrite Hi in Hi'. by inversion Hi'.
        -- eauto.
        -- intros s'' Hs'' Hx''. by rewrite (Hsame s'' s' Hs'' Hs' Hx'' Hx').
      * rewrite paint_fold_none in Hk.
        -- apply elem_of_lookup_imap in Hs as (i & p & -> & Hi).
           cbn [numbered sid] in Hk. unfold EMPTY in Hk. inversion Hk. lia.
        -- intros s' Hs' Hx'. apply Hno. apply Exists_exists. eauto.
    + intros Hx. apply paint_fold_some; [eauto|].
      intros s' Hs' Hx'. by rewrite (Hsame s' s Hs' Hs Hx' Hx).
  - intros Hno. by apply paint_fold_none.
Qed.

(** Ships that the board shows under distinct identifiers cannot overlap. *)
Lemma encoded_disjoint (fl : list Placed) (b : Board) p q x :
  NoDup (map p_id fl) →
  (∀ p x, p ∈ fl → x ∈ cells_of p → lookup2 b x.1 x.2 = Some (p_id p)) →
  p ∈ fl → q ∈ fl → x ∈ cells_of p → x ∈ cells_of q → p = q.
Proof.
  intros Hnd Hshow Hp Hq Hxp Hxq. apply (nodup_ids_inj fl p q Hnd Hp Hq).
  pose proof (Hshow p x Hp Hxp) as H1. pose proof (Hshow q x Hq Hxq) as H2.
  rewrite H1 in H2. by inversion H2.
Qed.

Lemma demo_fleet_shown p x :
  p ∈ demo_fleet → x ∈ cells_of p → lookup2 Demo.fleet_board x.1 x.2 = Some (p_id p).
Proof.
  intros Hp Hx. unfold demo_fleet in Hp.
  repeat (apply elem_of_cons in Hp as [->|Hp]);
    try (vm_compute in Hx;
         repeat (apply elem_of_cons in Hx as [->|Hx]; [reflexivity|]);
         by apply elem_of_nil in Hx).
  by apply elem_of_nil in Hp.
Qed.

Lemma demo_fleet_valid : valid_fleet demo_fleet.
Proof.
  assert (Hnd : NoDup (map p_id demo_fleet)).
  { cbn. repeat (apply NoDup_cons; split;
                 [rewrite ?elem_of_cons, elem_of_nil; lia|]). apply NoDup_nil_2. }
  split; [|split; [exact Hnd|split; [|split]]].
  - cbn. do 3 apply perm_skip. apply perm_swap.
  - intros p Hp. unfold demo_fleet in Hp.
    repeat (apply elem_of_cons in Hp as [->|Hp]; [cbn; lia|]). by apply elem_of_nil in Hp.
  - intros p Hp. unfold demo_fleet in Hp.
    repeat (apply elem_of_cons in Hp as [->|Hp]; [vm_compute; intuition discriminate|]).
    by apply elem_of_nil in Hp.
  - intros p q x. apply (encoded_disjoint demo_fleet Demo.fleet_board p q x Hnd).
    apply demo_fleet_shown.
Qed.

Lemma demo_fleet_encoded : encodes demo_fleet Demo.fleet_board.
Proof.
  split; [split; [reflexivity|repeat constructor]|]. split; [apply demo_fleet_shown|].
  intros r c Hr Hc Hfree.
  assert (Hcells : Forall (fun p => Forall (fun x => x ≠ (r, c)) (cells_of p)) demo_fleet).
  { apply Forall_forall. intros p Hp. apply Forall_forall. intros x Hx ->.
    by apply (Hfree p Hp). }
  vm_compute in Hcells.
  repeat match goal with
         | H : Forall _ (_ :: _) |- _ => apply Forall_cons in H as [? H]
         | H : Forall _ [] |- _ => clear H
         end.
  apply range_spec in Hr, Hc. unfold range in Hr, Hc.
  repeat (apply elem_of_cons in Hr as [->|Hr]);
    try (by apply elem_of_nil in Hr);
    repeat (apply elem_of_cons in Hc as [->|Hc]);
    try (by apply elem_of_nil in Hc);
    first [reflexivity | exfalso; congruence].
Qed.

Lemma valid_placement_accepted_witness :
  ∃ (sorted : list Placed) (nb : Board),
    sanitizeFleet (Some {| Sanitizer.board := Some Demo.fleet_board |})
      = Some (nb, imap numbered sorted)
    ∧ sorted ≡ₚ demo_fleet
    ∧ StronglySorted (fun p q => p_id p < p_id q) sorted
    ∧ map sid (imap numbered sorted) = [1; 2; 3; 4; 5]
    ∧ shaped nb
    ∧ ∀ r c, 0 ≤ r < SIZE → 0 ≤ c < SIZE →
        (∀ s, s ∈ imap numbered sorted →
           lookup2 nb r c = Some (sid s) ↔ (r, c) ∈ scells s)
        ∧ ((∀ s, s ∈ imap numbered sorted → (r, c) ∉ scells s) →
           lookup2 nb r c = Some EMPTY).
Proof.
  exact (valid_placement_accepted demo_fleet Demo.fleet_board
           demo_fleet_valid demo_fleet_encoded).
Defined.

End FleetFacts.

(** * Corners are always rejected *)

Module BendFacts.
Import Grid GridFacts Sanitizer ScanFacts FleetFacts.

(** A walk on any grid: it collects a line of cells that carry the
    identifier, marks them visited, and takes the start cell when that
    cell passes the loop test. *)
Lemma walk_any (b : Board) (k dr dc : Z) :
  (dr = 0 ∧ dc = 1) ∨ (dr = 1 ∧ dc = 0) →
  ∀ (fuel : nat) (r c : Z) (visited : list (list bool)),
    0 ≤ r → 0 ≤ c → shaped visited →
    ∃ n visited',
      walk dr dc fuel b k r c visited = (visited', line dr dc n r c)
      ∧ shaped visited'
      ∧ (∀ x, x ∈ line dr dc n r c → inb x.1 x.2 = true ∧ rd 0 b x.1 x.2 = k)
      ∧ (∀ r' c', 0 ≤ r' → 0 ≤ c' →
           lookup2 visited' r' c' =
             if decide ((r', c') ∈ line dr dc n r c)
             then Some true else lookup2 visited r' c')
      ∧ (fuel ≠ 0%nat → inb r c = true → rd 0 b r c = k →
         rd false visited r c = false → (r, c) ∈ line dr dc n r c).
Proof.
  intros Hdir. induction fuel as [|fuel IH]; intros r c visited Hr Hc Hsh.
  - exists 0%nat, visited. split; [reflexivity|]. split; [exact Hsh|].
    split; [intros x Hx; inversion Hx|]. split; [|done].
    intros r' c' _ _. rewrite decide_False; [reflexivity|]. intros H. inversion H.
  - cbn [walk].
    destruct (inb r c && (rd 0 b r c =? k) && negb (rd false visited r c)) eqn:Hcond.
    + apply andb_true_iff in Hcond as [Hcond Hfresh].
      apply andb_true_iff in Hcond as [Hin Hk]. apply Z.eqb_eq in Hk.
      pose proof Hin as Hrange. apply inb_true in Hrange as [Hr' Hc'].
      destruct (shaped_lookup2 visited r c Hsh Hr' Hc') as [v0 Hv0].
      destruct (IH (r + dr) (c + dc) (wr visited r c true)) as (n & v' & Hw & Hsh' & Hall & Hget & _);
        [lia|lia|by apply shaped_wr|].
      exists (S n), v'. rewrite Hw, line_S. split; [reflexivity|]. split; [exact Hsh'|].
      split.
      { intros x Hx. apply elem_of_cons in Hx as [->|Hx]; [by split|by apply Hall]. }
      split; [|intros; by left].
      intros r' c' Hr0 Hc0. rewrite Hget by assumption.
      destruct (decide ((r', c') = (r, c))) as [Heq|Hne].
      * inversion Heq; subst. rewrite (lookup2_wr_same visited r c true v0 Hv0).
        rewrite (decide_True (P := (r, c) ∈ (r, c) :: _)) by (by left).
        by case_decide.
      * rewrite lookup2_wr_other by (try lia; exact Hne).
        destruct (decide ((r', c') ∈ line dr dc n (r + dr) (c + dc))) as [HP|HP];
          destruct (decide ((r', c') ∈ (r, c) :: line dr dc n (r + dr) (c + dc))) as [HQ|HQ];
          try reflexivity; exfalso.
        -- apply HQ. by right.
        -- apply elem_of_cons in HQ as [HQ|HQ]; [by apply Hne|by apply HP].
    + exists 0%nat, visited. split; [reflexivity|]. split; [exact Hsh|].
      split; [intros x Hx; inversion Hx|]. split.
      * intros r' c' _ _. rewrite decide_False; [reflexivity|]. intros H. inversion H.
      * intros _ Hin Hk Hfresh. rewrite Hin, Hk, Z.eqb_refl, Hfresh in Hcond. discriminate.
Qed.

Lemma line_one_line dr dc n r c :
  (dr = 0 ∧ dc = 1) ∨ (dr = 1 ∧ dc = 0) → one_line (line dr dc n r c).
Proof.
  intros [[-> ->]|[-> ->]]; [left; exists r|right; exists c];
    intros x Hx; apply elem_of_line in Hx as (i & _ & ->); cbn; lia.
Qed.

(** The run collected, on any grid, from an unvisited non-empty cell. *)
Lemma trace_any (b : Board) (r c : Z) (visited : list (list bool)) :
  0 ≤ r < SIZE → 0 ≤ c < SIZE → shaped visited → rd false visited r c = false →
  ∃ visited' cells,
    trace b r c (rd 0 b r c) visited = (visited', cells)
    ∧ shaped visited'
    ∧ (r, c) ∈ cells
    ∧ (∀ x, x ∈ cells → inb x.1 x.2 = true ∧ rd 0 b x.1 x.2 = rd 0 b r c)
    ∧ one_line cells
    ∧ ∀ r' c', 0 ≤ r' → 0 ≤ c' →
        lookup2 visited' r' c' =
          if decide ((r', c') ∈ cells) then Some true else lookup2 visited r' c'.
Proof.
  intros Hr Hc Hsh Hfresh. unfold trace.
  assert (Hin : inb r c = true) by (by apply inb_true).
  destruct (orient_of b r c (rd 0 b r c)).
  - rewrite walkH_walk.
    destruct (walk_any b (rd 0 b r c) 0 1 ltac:(by left) walk_fuel r c visited)
      as (n & v' & Hw & Hsh' & Hall & Hget & Hstart); [lia|lia|exact Hsh|].
    exists v', (line 0 1 n r c). rewrite Hw. split; [reflexivity|]. split; [exact Hsh'|].
    split; [by apply Hstart|]. split; [exact Hall|].
    split; [apply line_one_line; by left|exact Hget].
  - rewrite walkV_walk.
    destruct (walk_any b (rd 0 b r c) 1 0 ltac:(by right) walk_fuel r c visited)
      as (n & v' & Hw & Hsh' & Hall & Hget & Hstart); [lia|lia|exact Hsh|].
    exists v', (line 1 0 n r c). rewrite Hw. split; [reflexivity|]. split; [exact Hsh'|].
    split; [by apply Hstart|]. split; [exact Hall|].
    split; [apply line_one_line; by right|exact Hget].
  - destruct (shaped_lookup2 visited r c Hsh Hr Hc) as [v0 Hv0].
    exists (wr visited r c true), [(r, c)]. split; [reflexivity|].
    split; [by apply shaped_wr|]. split; [by left|]. split.
    { intros x Hx. apply list_elem_of_singleton in Hx. by subst x. }
    split.
    { left. exists r. intros x Hx. apply list_elem_of_singleton in Hx. by subst x. }
    intros r' c' Hr' Hc'. destruct (decide ((r', c') = (r, c))) as [Heq|Hne].
    + inversion Heq; subst. rewrite (lookup2_wr_same visited r c true v0 Hv0).
      rewrite decide_True; [reflexivity|by left].
    + rewrite lookup2_wr_other by (try lia; exact Hne).
      rewrite decide_False; [reflexivity|]. intros H.
      apply list_elem_of_singleton in H. by apply Hne.
Qed.

Section AnyGrid.
Variable b : Board.

Lemma extracted_ext (D D' : Z → Z → Prop) st :
  (∀ r c, 0 ≤ r < SIZE → 0 ≤ c < SIZE → D' r c → D r c) →
  extracted b D st → extracted b D' st.
Proof.
  intros Hext (Hsh & Hdone & Hrun & Hline). split; [exact Hsh|].
  split; [|by split]. intros r c Hr Hc HD. apply Hdone; try assumption. by apply Hext.
Qed.

(** One turn of the inner loop of the extraction. *)
Lemma extract_step r c st :
  0 ≤ r < SIZE → 0 ≤ c < SIZE → extracted b (before r c) st →
  ∃ st', visit_unchecked b r c st = Some st' ∧ extracted b (before r (c + 1)) st'.
Proof.
  intros Hr Hc (Hsh & Hdone & Hrun & Hline). unfold visit_unchecked.
  destruct (shaped_lookup2 st.1 r c Hsh Hr Hc) as [v0 Hv0].
  destruct ((rd 0 b r c =? EMPTY) || rd false st.1 r c) eqn:Hskip.
  - exists st. split; [reflexivity|]. split; [exact Hsh|]. split; [|by split].
    intros r' c' Hr' Hc' HD Hne. apply before_succ in HD as [HD|[-> ->]].
    + by apply Hdone.
    + apply orb_true_iff in Hskip as [Hz|Hv]; [by apply Z.eqb_eq in Hz|].
      rewrite (rd_lookup2 false st.1 r c v0 Hv0) in Hv. by subst v0.
  - apply orb_false_iff in Hskip as [Hz Hv].
    destruct (trace_any b r c st.1 Hr Hc Hsh Hv)
      as (v' & cells & Htr & Hsh' & Hstart & Hall & Hone & Hget).
    rewrite Htr. eexists. split; [reflexivity|]. cbn [fst snd].
    split; [exact Hsh'|]. split; [|split].
    + intros r' c' Hr' Hc' HD Hne. rewrite Hget by lia.
      destruct (decide ((r', c') ∈ cells)); [reflexivity|].
      apply before_succ in HD as [HD|[-> ->]]; [by apply Hdone|contradiction].
    + intros r' c' Hr' Hc'. rewrite Hget by lia.
      destruct (decide ((r', c') ∈ cells)) as [Hcell|Hcell].
      * intros _. eexists. split; [apply elem_of_app; right; by left|].
        cbn [scells sid]. split; [exact Hcell|].
        symmetry. apply (Hall (r', c') Hcell).
      * intros Hold. destruct (Hrun r' c' Hr' Hc' Hold) as (s & Hs & Hin & Hid).
        exists s. split; [apply elem_of_app; by left|by split].
    + intros s Hs. apply elem_of_app in Hs as [Hs|Hs]; [by apply Hline|].
      apply list_elem_of_singleton in Hs. by subst s.
Qed.

Lemma extract_row r : 0 ≤ r < SIZE →
  ∀ (n k : nat), (k + n = 10)%nat → ∀ st,
    extracted b (before r (Z.of_nat k)) st →
    ∃ st', for_each (fun c => visit_unchecked b r c) (map Z.of_nat (seq k n)) st = Some st'
           ∧ extracted b (before r SIZE) st'.
Proof.
  intros Hr. induction n as [|n IH]; intros k Hk st Hst.
  - exists st. split; [reflexivity|]. replace SIZE with (Z.of_nat k); [exact Hst|].
    unfold SIZE. lia.
  - cbn [seq map]. rewrite for_each_step.
    destruct (extract_step r (Z.of_nat k) st Hr) as (st1 & Hv & Hst1);
      [unfold SIZE; lia|exact Hst|].
    rewrite Hv. cbn [mbind option_bind]. apply IH; [lia|].
    by replace (Z.of_nat (S k)) with (Z.of_nat k + 1) by lia.
Qed.

Lemma extract_rows :
  ∀ (n k : nat), (k + n = 10)%nat → ∀ st,
    extracted b (before (Z.of_nat k) 0) st →
    ∃ st', for_each (fun r => for_each (fun c => visit_unchecked b r c) range)
                    (map Z.of_nat (seq k n)) st = Some st'
           ∧ extracted b (before SIZE 0) st'.
Proof.
  induction n as [|n IH]; intros k Hk st Hst.
  - exists st. split; [reflexivity|]. replace SIZE with (Z.of_nat k); [exact Hst|].
    unfold SIZE. lia.
  - cbn [seq map]. rewrite for_each_step.
    destruct (extract_row (Z.of_nat k) ltac:(unfold SIZE; lia) 10%nat 0%nat eq_refl st Hst)
      as (st1 & Hrow & Hst1).
    change (map Z.of_nat (seq 0 10)) with range in Hrow.
    rewrite Hrow. cbn [mbind option_bind]. apply IH; [lia|].
    eapply extracted_ext; [|exact Hst1]. intros r c Hr Hc. unfold before, SIZE in *. lia.
Qed.

(** Every non-empty cell of a grid lies in an extracted run that carries
    its identifier, and every extracted run lies in a row or a column. *)
Lemma runs_cover r c :
  0 ≤ r < SIZE → 0 ≤ c < SIZE → rd 0 b r c ≠ EMPTY →
  ∃ s, s ∈ runs b ∧ (r, c) ∈ scells s ∧ sid s = rd 0 b r c ∧ one_line (scells s).
Proof.
  intros Hr Hc Hne.
  destruct (extract_rows 10%nat 0%nat eq_refl (fill false, [])) as (st & Hrun & Hst).
  - split; [apply shaped_fill|]. split; [|split].
    + intros r' c' Hr' Hc' HD. unfold before in HD. lia.
    + intros r' c' Hr' Hc'. cbn [fst]. by rewrite lookup2_fill.
    + intros s Hs. inversion Hs.
  - destruct Hst as (_ & Hdone & Hcov & Hline).
    assert (Hv : lookup2 st.1 r c = Some true).
    { apply Hdone; try assumption. unfold before, SIZE in *. lia. }
    destruct (Hcov r c Hr Hc Hv) as (s & Hs & Hin & Hid).
    exists s. unfold runs, scan_unchecked.
    change (map Z.of_nat (seq 0 10)) with range in Hrun. rewrite Hrun.
    split; [exact Hs|]. split; [exact Hin|]. split; [exact Hid|by apply Hline].
Qed.

(** A non-empty cell with a horizontal and a vertical neighbour of its
    own identifier, the corner of every L, T, cross or block, makes the
    sanitizer reject the grid. *)
Lemma corner_rejected (r c dr dc k : Z) :
  dr = 1 ∨ dr = -1 → dc = 1 ∨ dc = -1 → k ≠ EMPTY →
  inb r c = true → inb (r + dr) c = true → inb r (c + dc) = true →
  lookup2 b r c = Some k → lookup2 b (r + dr) c = Some k → lookup2 b r (c + dc) = Some k →
  sanitizeFleet (Some {| Sanitizer.board := Some b |}) = None.
Proof.
  intros Hdr Hdc Hk Hin Hinv Hinh Hx Hv Hh.
  apply inb_true in Hin as [Hr Hc].
  apply (rd_lookup2 0) in Hx, Hv, Hh.
  destruct (runs_cover r c Hr Hc) as (s & Hs & Hcell & Hid & Hline); [by rewrite Hx|].
  rewrite Hx in Hid. apply (rejected_by_branch b s Hs). apply has_branch_true.
  destruct Hline as [[r0 Hrow]|[c0 Hcol]].
  - exists (r, c), (r + dr, c). rewrite Hid. split; [exact Hcell|].
    split; [|split; [exact Hinv|split; [exact Hv|]]].
    + cbn. unfold nbrs. rewrite !elem_of_cons. destruct Hdr as [-> | ->]; auto.
    + intros Hmem. pose proof (Hrow _ Hcell) as H1. pose proof (Hrow _ Hmem) as H2.
      cbn in H1, H2. lia.
  - exists (r, c), (r, c + dc). rewrite Hid. split; [exact Hcell|].
    split; [|split; [exact Hinh|split; [exact Hh|]]].
    + cbn. unfold nbrs. rewrite !elem_of_cons. destruct Hdc as [-> | ->]; auto.
    + intros Hmem. pose proof (Hcol _ Hcell) as H1. pose proof (Hcol _ Hmem) as H2.
      cbn in H1, H2. lia.
Qed.

End AnyGrid.

End BendFacts.

(** * Facts about the message handler *)

Module ServerFacts.
Import Grid GridFacts Mask MaskFacts.

(** *** Broadcasts never fail on well-shaped rooms *)

Lemma pget_elem k ps p : pget k ps = Some p → ∃ k', (k', p) ∈ ps.
Proof.
  induction ps as [|[k' p'] ps IH]; [discriminate|]. cbn.
  destruct (String.eqb k' k).
  - intros [= ->]. exists k'. by left.
  - intros H. destruct (IH H) as [k'' Hin]. exists k''. by right.
Qed.

Lemma wf_room_pget rm k p :
  wf_room rm → pget k (players rm) = Some p → shaped (board p) ∧ shaped (marks p).
Proof.
  intros Hwf Hget. apply pget_elem in Hget as [k' Hin].
  unfold wf_room in Hwf. rewrite Forall_forall in Hwf. apply (Hwf _ Hin).
Qed.

Lemma roomStateFor_total ws rm : wf_room rm → is_Some (roomStateFor ws rm).
Proof.
  intros Hwf. unfold roomStateFor.
  destruct (otherPlayerId rm (playerId ws) ≫= (fun k => pget k (players rm)))
    as [o|] eqn:Hopp; cbn [mbind option_bind]; [|by eexists].
  assert (Ho : ∃ k, pget k (players rm) = Some o).
  { destruct (otherPlayerId rm (playerId ws)) as [k|]; [|discriminate]. by exists k. }
  destruct Ho as [k Ho]. destruct (wf_room_pget rm k o Hwf Ho) as [Hb _].
  destruct (mask_total (board o)
              (marks <$> (truthy (playerId ws) ≫= (fun k => pget k (players rm)))) Hb)
    as (out & Hmask & _).
  - destruct (truthy (playerId ws) ≫= _) as [m|] eqn:Hme; [|exact I].
    assert (Hm : ∃ k, pget k (players rm) = Some m).
    { destruct (truthy (playerId ws)) as [k'|]; [|discriminate]. by exists k'. }
    destruct Hm as [k' Hm]. apply (wf_room_pget rm k' m Hwf Hm).
  - rewrite Hmask. by eexists.
Qed.

Lemma send_states_total code rm cs : wf_room rm → is_Some (send_states code rm cs).
Proof.
  intros Hwf. induction cs as [|[h ws] cs [rest IH]]; [by eexists|]. cbn.
  destruct (bool_decide _); [|by eexists].
  destruct (roomStateFor_total ws rm Hwf) as [st ->]. rewrite IH. by eexists.
Qed.

Lemma broadcastRoom_total s code :
  (∀ k rm, code = Some k → rooms s !! k = Some rm → wf_room rm) →
  is_Some (broadcastRoom s code).
Proof.
  intros Hwf. unfold broadcastRoom. destruct code as [k|]; [|by eexists].
  destruct (rooms s !! k) as [rm|] eqn:Hrm; [|by eexists].
  apply send_states_total. by eapply Hwf.
Qed.

Lemma Forall_pset (P : string * Player → Prop) k p ps :
  Forall P ps → P (k, p) → Forall P (pset k p ps).
Proof.
  intros Hps Hp. induction Hps as [|[k' p'] ps Hx Hps IH]; cbn.
  - constructor; [exact Hp|constructor].
  - destruct (String.eqb k' k); constructor; assumption.
Qed.

Lemma wf_room_pset rm k p :
  wf_room rm → shaped (board p) → shaped (marks p) →
  wf_room (set_players rm (pset k p (players rm))).
Proof. intros Hwf Hb Hm. apply Forall_pset; [exact Hwf|by split]. Qed.

(** *** Scripts produce reachable states *)

Lemma exec_step env ev s s' : exec env ev s = Some s' → step s ev s'.
Proof.
  destruct ev as [h|h msg|h]; unfold exec.
  - destruct (cget h (clients s)) eqn:Hc; [discriminate|]. intros [= <-].
    by constructor.
  - destruct (cget h (clients s)) as [ws|] eqn:Hc; [|discriminate].
    cbn [mbind option_bind].
    destruct (on_message env h ws msg s) as [[s1 outs]|] eqn:Hm; [|discriminate].
    intros [= <-]. by econstructor.
  - destruct (cget h (clients s)) as [ws|] eqn:Hc; [|discriminate].
    cbn [mbind option_bind]. intros [= <-]. by econstructor.
Qed.

Lemma run_reachable script : ∀ s s',
  reachable s → run script s = Some s' → reachable s'.
Proof.
  induction script as [|[env ev] script IH]; intros s s' Hs; cbn [run].
  - by intros [= <-].
  - destruct (exec env ev s) as [s1|] eqn:He; [|discriminate]. cbn [mbind option_bind].
    apply IH. eapply reach_step; [exact Hs|]. by eapply exec_step.
Qed.

(** *** Phase, turn and winner *)

Lemma rooms_inv_insert m code rm :
  rooms_inv m → room_inv rm → rooms_inv (<[code := rm]> m).
Proof.
  intros Hm Hrm code' rm'. rewrite lookup_insert. case_decide.
  - by intros [= <-].
  - apply Hm.
Qed.

Lemma room_inv_set_players rm ps : room_inv rm → room_inv (set_players rm ps).
Proof. done. Qed.

Lemma getRoom_Some s ws rm :
  getRoom s ws = Some rm → ∃ code, truthy (room ws) = Some code ∧ rooms s !! code = Some rm.
Proof.
  unfold getRoom. destruct (truthy (room ws)) as [code|]; [|discriminate].
  cbn. eauto.
Qed.

Lemma handle_create_inv env h s s' outs :
  rooms_inv (rooms s) → handle_create env h s = Some (s', outs) → rooms_inv (rooms s').
Proof.
  intros Hinv [= <- _]. apply rooms_inv_insert; [exact Hinv|]. by split.
Qed.

Lemma handle_join_inv env h ws code s s' outs :
  rooms_inv (rooms s) → handle_join env h ws code s = Some (s', outs) →
  rooms_inv (rooms s').
Proof.
  intros Hinv. unfold handle_join.
  destruct (rooms s !! trim code) as [rm|] eqn:Hrm; [|by intros [= <- _]].
  destruct (2 <=? _)%nat; [by intros [= <- _]|].
  cbv zeta. destruct (broadcastRoom _ _) as [o|]; [|discriminate]. cbn [mbind option_bind].
  intros [= <- _]. cbn [rooms]. apply rooms_inv_insert; [exact Hinv|].
  apply room_inv_set_players. by eapply Hinv.
Qed.

Lemma all_ready_turn rm n :
  all_ready rm = true → (n < 2)%nat → is_Some (keys (players rm) !! n).
Proof.
  unfold all_ready. intros H Hn. apply andb_true_iff in H as [H _].
  apply Nat.eqb_eq in H. apply lookup_lt_is_Some_2. lia.
Qed.

Lemma handle_place_inv env h ws payload rdy s s' outs :
  rooms_inv (rooms s) → handle_place env h ws payload rdy s = Some (s', outs) →
  rooms_inv (rooms s').
Proof.
  intros Hinv. unfold handle_place.
  destruct (truthy (room ws)) as [code|] eqn:Hcode; [|by intros [= <- _]].
  destruct (getRoom s ws) as [rm|] eqn:Hrm; [|by intros [= <- _]].
  apply getRoom_Some in Hrm as (code' & Hcode' & Hrm).
  rewrite Hcode in Hcode'. inversion Hcode'; subst code'. clear Hcode'.
  pose proof (Hinv code rm Hrm) as Hroom.
  destruct (bool_decide_reflect (phase rm = placing)) as [Hph|Hph];
    [|by intros [= <- _]]. cbn [negb].
  destruct (playerId ws ≫= _) as [[k p]|]; [|by intros [= <- _]].
  destruct (Sanitizer.sanitizeFleet payload) as [[cb cs]|]; [|by intros [= <- _]].
  cbv zeta. set (rm1 := set_players rm _). set (s1 := set_room s code rm1).
  destruct (broadcastRoom s1 (room ws)) as [o1|]; [|discriminate].
  cbn [mbind option_bind].
  destruct (all_ready rm1) eqn:Hready.
  - destruct (broadcastRoom _ _) as [o2|]; [|discriminate]. cbn [mbind option_bind].
    intros [= <- _]. cbn [rooms set_room]. apply rooms_inv_insert; [exact Hinv|].
    unfold room_inv in *. rewrite Hph in Hroom. cbn.
    split; [|apply Hroom].
    apply (all_ready_turn _ _ Hready). destruct (coin env); lia.
  - intros [= <- _]. cbn [rooms set_room]. apply rooms_inv_insert; [exact Hinv|].
    by apply room_inv_set_players.
Qed.

Lemma handle_fire_inv h ws r c s s' outs :
  rooms_inv (rooms s) → handle_fire h ws r c s = Some (s', outs) →
  rooms_inv (rooms s').
Proof.
  intros Hinv. unfold handle_fire.
  destruct (truthy (room ws)) as [code|] eqn:Hcode; [|by intros [= <- _]].
  destruct (getRoom s ws) as [rm|] eqn:Hrm; [|by intros [= <- _]].
  apply getRoom_Some in Hrm as (code' & Hcode' & Hrm).
  rewrite Hcode in Hcode'. inversion Hcode'; subst code'. clear Hcode'.
  pose proof (Hinv code rm Hrm) as Hroom.
  destruct (bool_decide_reflect (phase rm = battle)) as [Hph|Hph];
    [|by intros [= <- _]]. cbn [negb].
  destruct (bool_decide_reflect (turn rm = playerId ws)) as [Hturn|Hturn];
    [|by intros [= <- _]]. cbn [negb].
  destruct (playerId ws ≫= _) as [[k me]|]; [|by intros [= <- _]].
  destruct (otherPlayerId rm (playerId ws)) as [oppId|]; [|by intros [= <- _]].
  cbv zeta.
  destruct (pget oppId (players rm)) as [opp|]; [|discriminate]. cbn [mbind option_bind].
  destruct (lookup2 (marks me) _ _) as [mark|]; [|discriminate]. cbn [mbind option_bind].
  destruct ((mark =? 2) || (mark =? 3)); [by intros [= <- _]|].
  destruct (lookup2 (board opp) _ _) as [cellId|]; [|discriminate]. cbn [mbind option_bind].
  unfold room_inv in Hroom. rewrite Hph in Hroom. destruct Hroom as [Ht Hw].
  assert (Hfinish : ∀ rm', room_inv rm' →
            (outs0 ← broadcastRoom (set_room s code rm') (room ws);
             Some (set_room s code rm', outs0)) = Some (s', outs) →
            rooms_inv (rooms s')).
  { intros rm' Hrm'. destruct (broadcastRoom _ _); [|discriminate].
    intros [= <- _]. by apply rooms_inv_insert. }
  destruct (cellId =? EMPTY).
  - destruct (store2 _ _ _ _) as [m|]; [|discriminate]. cbn [mbind option_bind].
    apply Hfinish. unfold room_inv. cbn. rewrite Hph. by split.
  - destruct (store2 _ _ _ _) as [m|]; [|discriminate]. cbn [mbind option_bind].
    destruct (hit_ship _ _ _ _) as [ss|]; [|discriminate]. cbn [mbind option_bind].
    destruct (forallb sunk ss); cbn [mbind option_bind]; apply Hfinish; unfold room_inv; cbn.
    + rewrite <- Hturn. by split.
    + rewrite Hph. by split.
Qed.

(** A FIRE that cannot be converted changes nothing when it returns. *)
Lemma handle_fire_throws_same ws s s' outs :
  handle_fire_throws ws s = Some (s', outs) → s' = s ∧ outs = [].
Proof.
  unfold handle_fire_throws.
  destruct (truthy (room ws)); [|by intros [= <- <-]].
  destruct (getRoom s ws) as [rm|]; [|by intros [= <- <-]].
  destruct (negb _); [by intros [= <- <-]|].
  destruct (negb _); [by intros [= <- <-]|].
  destruct (playerId ws ≫= _); [|by intros [= <- <-]].
  destruct (otherPlayerId rm (playerId ws)); [discriminate|by intros [= <- <-]].
Qed.

Lemma handle_inv env h ws msg s s' outs :
  rooms_inv (rooms s) → handle env h ws msg s = Some (s', outs) → rooms_inv (rooms s').
Proof.
  intros Hinv. destruct msg; cbn [handle].
  - by apply handle_create_inv.
  - by apply handle_join_inv.
  - by apply handle_place_inv.
  - by apply handle_fire_inv.
  - unfold handle_request. destruct (getRoom s ws); [|by intros [= <- _]].
    destruct (roomStateFor _ _); [|discriminate]. by intros [= <- _].
  - by intros [= <- _].
  - discriminate.
  - intros H. by apply handle_fire_throws_same in H as [-> _].
  - discriminate.
Qed.

Lemma step_inv s ev s' : rooms_inv (rooms s) → step s ev s' → rooms_inv (rooms s').
Proof.
  intros Hinv Hstep. destruct Hstep as [env h s Hc|env h ws msg s s' outs Hc Hm|h ws s Hc].
  - exact Hinv.
  - unfold on_message in Hm. destruct (RateLimit.ok _ _) as [lim pass].
    destruct pass; cbn [negb] in Hm.
    + destruct msg as [m|]; [|by inversion Hm; subst].
      eapply handle_inv; [|exact Hm]. exact Hinv.
    + by inversion Hm; subst.
  - intros code rm. unfold on_close, cleanupRooms. cbn [rooms].
    rewrite map_lookup_filter_Some. intros [Hrm _]. by eapply Hinv.
Qed.

Lemma reachable_inv s : reachable s → rooms_inv (rooms s).
Proof.
  induction 1 as [|s ev s' _ IH Hstep].
  - intros code rm. cbn. by rewrite lookup_empty.
  - by eapply step_inv.
Qed.

(** *** The sample game *)

Lemma game_before_last : run Game.opening initial = Some Game.before_last.
Proof. vm_compute. reflexivity. Qed.

Lemma game_final : run [Game.last_shot] Game.before_last = Some Game.final.
Proof. vm_compute. reflexivity. Qed.

Lemma game_reachable : reachable Game.final.
Proof.
  eapply run_reachable; [|exact game_final].
  eapply run_reachable; [apply reach_initial|exact game_before_last].
Qed.

Example game_over :
  (fun rm => (phase rm, turn rm, winner rm)) <$> rooms Game.final !! "123456"%string
  = Some (gameover, Some "A"%string, Some "A"%string).
Proof. vm_compute. reflexivity. Qed.

(** C1, as stated, fails: at the end of the sample game the room is in
    phase gameover and [turn] still names player A. *)
Lemma turn_set_after_gameover :
  ¬ (∀ s code rm, reachable s → rooms s !! code = Some rm →
       (turn rm ≠ None ↔ phase rm = battle)
       ∧ (winner rm ≠ None ↔ phase rm = gameover)).
Proof.
  intros H.
  destruct (rooms Game.final !! "123456"%string) as [rm|] eqn:Hrm;
    [|vm_compute in Hrm; discriminate].
  destruct (H Game.final "123456"%string rm game_reachable Hrm) as [Hturn _].
  assert (Hrm' : (fun rm => (phase rm, turn rm)) <$> rooms Game.final !! "123456"%string
                 = Some (gameover, Some "A"%string)) by (vm_compute; reflexivity).
  rewrite Hrm in Hrm'. cbn in Hrm'. inversion Hrm' as [[Hph Ht]].
  assert (Hbattle : phase rm = battle) by (apply Hturn; rewrite Ht; discriminate).
  rewrite Hph in Hbattle. discriminate.
Qed.

(** C1, amended: in every reachable state and every room, [winner] is
    set exactly in phase gameover, and [turn] is unset exactly in phase
    placing: it is set when the battle starts and never cleared, so that
    in phase gameover it still names the player who fired last, the
    winner. *)
Theorem phase_turn_winner (s : Server) (code : string) (rm : Room) :
  reachable s → rooms s !! code = Some rm →
  (winner rm ≠ None ↔ phase rm = gameover)
  ∧ (turn rm = None ↔ phase rm = placing)
  ∧ (phase rm = gameover → turn rm = winner rm).
Proof.
  intros Hs Hrm. pose proof (reachable_inv s Hs code rm Hrm) as Hinv.
  unfold room_inv in Hinv. destruct (phase rm).
  - destruct Hinv as [-> ->]. repeat split; try done.
  - destruct Hinv as [[t ->] ->]. repeat split; try done.
  - destruct Hinv as [[w Hw] ->]. rewrite Hw. repeat split; try done.
Qed.

Lemma phase_turn_winner_witness :
  ∃ rm, rooms Game.final !! "123456"%string = Some rm
        ∧ (winner rm ≠ None ↔ phase rm = gameover)
        ∧ (turn rm = None ↔ phase rm = placing)
        ∧ (phase rm = gameover → turn rm = winner rm).
Proof.
  destruct (rooms Game.final !! "123456"%string) as [rm|] eqn:Hrm;
    [|vm_compute in Hrm; discriminate].
  exists rm. split; [reflexivity|].
  exact (phase_turn_winner Game.final "123456"%string rm game_reachable Hrm).
Defined.

(** *** FIRE *)

Lemma truthy_Some x k : truthy x = Some k → x = Some k.
Proof.
  destruct x as [y|]; [|discriminate]. cbn. destruct (String.eqb y ""); [discriminate|].
  by intros [= ->].
Qed.

Lemma find_elem {A} (f : A → bool) l x : List.find f l = Some x → x ∈ l.
Proof. intros H. apply find_some in H as [H _]. by apply list_elem_of_In. Qed.

Lemma pget_key k ps : k ∈ keys ps → is_Some (pget k ps).
Proof.
  induction ps as [|[k' p] ps IH]; cbn; [intros H; inversion H|].
  destruct (String.eqb_spec k' k) as [->|Hne]; [by eexists|].
  intros H. apply elem_of_cons in H as [H|H]; [congruence|by apply IH].
Qed.

(** The opponent found by [otherPlayerId] is a player of the room. *)
Lemma otherPlayerId_player rm pid k :
  otherPlayerId rm pid = Some k → is_Some (pget k (players rm)).
Proof.
  unfold otherPlayerId. intros H. apply truthy_Some in H. apply find_elem in H.
  by apply pget_key.
Qed.

(** C7: when the player whose turn it is fires at a cell that their
    marks grid already records as a hit (2) or a miss (3), the handler
    leaves the whole server state as it was and sends nothing. *)
Theorem fire_at_marked_cell_is_noop (env : Env) (h : nat) (ws : Conn) (msg_r msg_c : Z)
    (s : Server) (code k : string) (rm : Room) (me : Player) (mark : Z) :
  truthy (room ws) = Some code → rooms s !! code = Some rm →
  phase rm = battle → turn rm = playerId ws →
  playerId ws = Some k → pget k (players rm) = Some me →
  lookup2 (marks me) (clamp (toInt32 msg_r) 0 (SIZE - 1))
                     (clamp (toInt32 msg_c) 0 (SIZE - 1)) = Some mark →
  mark = 2 ∨ mark = 3 →
  handle env h ws (FIRE msg_r msg_c) s = Some (s, []).
Proof.
  intros Hcode Hrm Hph Hturn Hpid Hme Hmark Hfired. cbn [handle]. unfold handle_fire, getRoom.
  rewrite Hcode. cbn [mbind option_bind]. rewrite Hrm, Hph, Hturn.
  rewrite !bool_decide_true by reflexivity. cbn [negb].
  rewrite Hpid. cbn [mbind option_bind]. rewrite Hme. cbn [fmap option_fmap option_map].
  destruct (otherPlayerId rm (Some k)) as [oppId|] eqn:Hopp; [|reflexivity].
  destruct (otherPlayerId_player rm _ oppId Hopp) as [opp ->]. cbv zeta.
  cbn [mbind option_bind]. rewrite Hmark. cbn [mbind option_bind].
  by destruct Hfired as [-> | ->].
Qed.

Lemma fire_at_marked_cell_is_noop_witness :
  handle (Game.at_time 38 "") 1 (Game.socket 1 Game.before_last) (FIRE 0 0)
         Game.before_last
  = Some (Game.before_last, []).
Proof.
  apply (fire_at_marked_cell_is_noop _ 1 _ 0 0 Game.before_last "123456" "A"
           (Game.the_room Game.before_last) (Game.player "A" Game.before_last) 2);
    try (vm_compute; reflexivity).
  by left.
Defined.

Lemma store2_shaped {A} (g g' : list (list A)) r c v :
  shaped g → store2 g r c v = Some g' → shaped g'.
Proof.
  unfold store2. destruct (lookup2 g r c); [|discriminate].
  intros Hsh [= <-]. by apply shaped_wr.
Qed.

(** C5, as stated, fails: when player A sinks the last ship of the
    sample game, the room goes to gameover with A as winner, and [turn]
    keeps naming A instead of being cleared. *)
Lemma sinking_hit_keeps_turn :
  (fun rm => (phase rm, turn rm)) <$> rooms Game.before_last !! "123456"%string
    = Some (battle, Some "A"%string)
  ∧ playerId (Game.socket 1 Game.before_last) = Some "A"%string
  ∧ rooms <$> (fst <$> handle (Game.at_time 38 "") 1 (Game.socket 1 Game.before_last)
                              (FIRE 9 9) Game.before_last)
    = Some (rooms Game.final)
  ∧ forallb sunk (ships (Game.player "B" Game.final)) = true
  ∧ (fun rm => (phase rm, winner rm, turn rm)) <$> rooms Game.final !! "123456"%string
    = Some (gameover, Some "A"%string, Some "A"%string)
  ∧ turn (Game.the_room Game.final) ≠ None.
Proof.
  split; [vm_compute; reflexivity|]. split; [vm_compute; reflexivity|].
  split; [vm_compute; reflexivity|]. split; [vm_compute; reflexivity|].
  split; [vm_compute; reflexivity|]. vm_compute. discriminate.
Qed.

(** C5, amended: when the player whose turn it is fires at an unmarked
    cell of the opponent's board that holds a ship, and after recording
    the hit every ship of the opponent is sunk, the handler returns, the
    room is in phase gameover, its winner is the firing player, and
    [turn] is left as it was: the firing player. *)
Theorem sinking_hit_ends_game (env : Env) (h : nat) (ws : Conn) (msg_r msg_c : Z)
    (s : Server) (code k oppId : string) (rm : Room) (me opp : Player)
    (mark cellId : Z) (ss : list Ship) :
  let r := clamp (toInt32 msg_r) 0 (SIZE - 1) in
  let c := clamp (toInt32 msg_c) 0 (SIZE - 1) in
  truthy (room ws) = Some code → rooms s !! code = Some rm → wf_room rm →
  phase rm = battle → turn rm = playerId ws →
  playerId ws = Some k → pget k (players rm) = Some me →
  otherPlayerId rm (Some k) = Some oppId → pget oppId (players rm) = Some opp →
  lookup2 (marks me) r c = Some mark → mark ≠ 2 → mark ≠ 3 →
  lookup2 (board opp) r c = Some cellId → cellId ≠ EMPTY →
  hit_ship cellId r c (ships opp) = Some ss → forallb sunk ss = true →
  ∃ s' outs rm',
    handle env h ws (FIRE msg_r msg_c) s = Some (s', outs)
    ∧ rooms s' !! code = Some rm'
    ∧ phase rm' = gameover
    ∧ winner rm' = Some k
    ∧ turn rm' = Some k.
Proof.
  intros r c Hcode Hrm Hwf Hph Hturn Hpid Hme Hopp Hoppp Hmark Hm2 Hm3 Hcell Hne Hhit Hsunk.
  cbn [handle]. unfold handle_fire, getRoom.
  rewrite Hcode. cbn [mbind option_bind]. rewrite Hrm, Hph, Hturn.
  rewrite !bool_decide_true by reflexivity. cbn [negb].
  rewrite Hpid. cbn [mbind option_bind]. rewrite Hme. cbn [fmap option_fmap option_map].
  rewrite Hopp. cbv zeta. rewrite Hoppp. cbn [mbind option_bind].
  fold r c. rewrite Hmark. cbn [mbind option_bind].
  replace (mark =? 2) with false by (symmetry; by apply Z.eqb_neq).
  replace (mark =? 3) with false by (symmetry; by apply Z.eqb_neq). cbn [orb].
  rewrite Hcell. cbn [mbind option_bind].
  replace (cellId =? EMPTY) with false by (symmetry; by apply Z.eqb_neq).
  rewrite (store2_wr (marks me) r c 2 mark Hmark). cbn [mbind option_bind].
  rewrite Hhit. cbn [mbind option_bind]. rewrite Hsunk. cbn [mbind option_bind].
  match goal with |- context [set_room s code ?x] => set (rm' := x) end.
  destruct (broadcastRoom_total (set_room s code rm') (room ws)) as [outs Houts].
  { intros k0 rm0 Hk0. apply truthy_Some in Hcode. rewrite Hcode in Hk0.
    inversion Hk0; subst k0. cbn [rooms set_room]. rewrite lookup_insert_eq.
    intros [= <-]. unfold wf_room, rm'. cbn [players].
    destruct (wf_room_pget rm k me Hwf Hme) as [Hmb Hmm].
    destruct (wf_room_pget rm oppId opp Hwf Hoppp) as [Hob Hom].
    apply Forall_pset; [apply Forall_pset; [exact Hwf|]|]; cbn; split; try assumption.
    by apply shaped_wr. }
  rewrite Houts. cbn [mbind option_bind].
  exists (set_room s code rm'), outs, rm'. split; [reflexivity|].
  split; [cbn [rooms set_room]; apply lookup_insert_eq|].
  repeat split; reflexivity.
Qed.

Lemma sinking_hit_ends_game_witness :
  ∃ s' outs rm',
    handle (Game.at_time 38 "") 1 (Game.socket 1 Game.before_last) (FIRE 9 9)
           Game.before_last = Some (s', outs)
    ∧ rooms s' !! "123456"%string = Some rm'
    ∧ phase rm' = gameover
    ∧ winner rm' = Some "A"%string
    ∧ turn rm' = Some "A"%string.
Proof.
  apply (sinking_hit_ends_game _ 1 _ 9 9 Game.before_last "123456" "A" "B"
           (Game.the_room Game.before_last)
           (Game.player "A" Game.before_last) (Game.player "B" Game.before_last)
           0 1 (ships (Game.player "B" Game.final)));
    try (vm_compute; reflexivity); try (vm_compute; discriminate).
  unfold wf_room. vm_compute. repeat constructor.
Defined.

(** *** PLACE_FLEET *)

(** C6: a PLACE_FLEET from a player of a room in phase placing whose
    payload the sanitizer rejects is answered with the BAD_FLEET error,
    sent to that socket only, and changes nothing: the server state after
    the message is the state before it, so the player's board, ships and
    ready flag are what they were. *)
Theorem rejected_fleet_changes_nothing (env : Env) (h : nat) (ws : Conn)
    (payload : option Sanitizer.Payload) (msg_ready : bool) (s : Server)
    (code k : string) (rm : Room) (p : Player) :
  truthy (room ws) = Some code → rooms s !! code = Some rm → phase rm = placing →
  playerId ws = Some k → pget k (players rm) = Some p →
  Sanitizer.sanitizeFleet payload = None →
  handle env h ws (PLACE_FLEET payload msg_ready) s = Some (s, [(h, ERROR BAD_FLEET)]).
Proof.
  intros Hcode Hrm Hph Hpid Hp Hbad. cbn [handle]. unfold handle_place, getRoom.
  rewrite Hcode. cbn [mbind option_bind]. rewrite Hrm, Hph.
  rewrite bool_decide_true by reflexivity. cbn [negb].
  rewrite Hpid. cbn [mbind option_bind]. rewrite Hp. cbn [fmap option_fmap option_map].
  by rewrite Hbad.
Qed.

Lemma rejected_fleet_changes_nothing_witness :
  handle (Game.at_time 4 "") 1 (Game.socket 1 Game.joined)
         (PLACE_FLEET (Some {| Sanitizer.board := Some Demo.nine_rows |}) true)
         Game.joined
  = Some (Game.joined, [(1%nat, ERROR BAD_FLEET)]).
Proof.
  apply (rejected_fleet_changes_nothing _ 1 _ _ true Game.joined "123456" "A"
           (Game.the_room Game.joined) (Game.player "A" Game.joined));
    vm_compute; reflexivity.
Defined.

(** *** JOIN_ROOM *)

Lemma pget_pset_eq k p ps : pget k (pset k p ps) = Some p.
Proof.
  induction ps as [|[k' p'] ps IH]; cbn.
  - by rewrite String.eqb_refl.
  - destruct (String.eqb k' k) eqn:E; cbn; [by rewrite String.eqb_refl|by rewrite E].
Qed.

Lemma pget_pset_ne k k' p ps : k' ≠ k → pget k' (pset k p ps) = pget k' ps.
Proof.
  intros Hne. induction ps as [|[k0 p0] ps IH]; cbn.
  - destruct (String.eqb_spec k k'); [congruence|reflexivity].
  - destruct (String.eqb_spec k0 k) as [->|Hk0]; cbn.
    + destruct (String.eqb_spec k k'); [congruence|reflexivity].
    + destruct (String.eqb k0 k'); [reflexivity|exact IH].
Qed.

Lemma keys_pset_new k p ps : pget k ps = None → keys (pset k p ps) = keys ps ++ [k].
Proof.
  induction ps as [|[k' p'] ps IH]; cbn; [reflexivity|].
  destruct (String.eqb k' k); [discriminate|]. intros H. cbn. f_equal. by apply IH.
Qed.

(** C10: JOIN_ROOM looks only at the room named by the message.  For a
    well-shaped room with fewer than two players it succeeds for any
    socket, whatever that socket is bound to: a player with the new
    identifier is added with empty board, fleet and marks, the socket is
    bound to it, and JOINED is sent.  If the socket was already bound to a
    player of this room, that player stays, so the socket has taken both
    seats; if it was bound to another room, that room, with the player it
    leaves behind, is untouched. *)
Theorem join_ignores_binding (env : Env) (h : nat) (ws : Conn) (msg_code : string)
    (s : Server) (rm : Room) :
  let code := trim msg_code in
  let pid := randomUUID env in
  let fresh := {| id := pid; board := emptyBoard; ships := [];
                  marks := emptyBoard; ready := false |} in
  let rm' := set_players rm (pset pid fresh (players rm)) in
  let s' := {| rooms := <[code := rm']> (rooms s);
               clients := cset h {| room := Some code; playerId := Some pid;
                                    okRate := okRate ws |} (clients s) |} in
  rooms s !! code = Some rm → (length (keys (players rm)) < 2)%nat → wf_room rm →
  (∃ outs, handle env h ws (JOIN_ROOM msg_code) s = Some (s', (h, JOINED code pid) :: outs))
  ∧ pget pid (players rm') = Some fresh
  ∧ (pget pid (players rm) = None → keys (players rm') = keys (players rm) ++ [pid])
  ∧ (∀ k p, room ws = Some code → playerId ws = Some k → k ≠ pid →
            pget k (players rm) = Some p → pget k (players rm') = Some p)
  ∧ (∀ code0 rm0, room ws = Some code0 → code0 ≠ code →
            rooms s !! code0 = Some rm0 → rooms s' !! code0 = Some rm0).
Proof.
  intros code pid fresh rm' s' Hrm Hlen Hwf. split; [|split; [|split; [|split]]].
  - cbn [handle]. unfold handle_join. fold code. rewrite Hrm.
    replace (2 <=? length (keys (players rm)))%nat with false
      by (symmetry; apply Nat.leb_gt; lia).
    cbv zeta. fold pid. fold fresh. fold rm'. fold s'.
    destruct (broadcastRoom_total s' (Some code)) as [outs Houts].
    + intros k0 rm0 [= <-]. unfold s'. cbn [rooms]. rewrite lookup_insert_eq.
      intros [= <-]. apply wf_room_pset; [exact Hwf| |]; apply shaped_fill.
    + rewrite Houts. by exists outs.
  - apply pget_pset_eq.
  - apply keys_pset_new.
  - intros k p _ _ Hne Hp. unfold rm'. cbn [players set_players].
    by rewrite pget_pset_ne.
  - intros code0 rm0 _ Hne H0. unfold s'. cbn [rooms]. by rewrite lookup_insert_ne.
Qed.

Lemma join_ignores_binding_witness :
  ∃ outs s',
    handle (Game.at_time 3 "C") 1 (Game.socket 1 Game.alone) (JOIN_ROOM "123456")
           Game.alone
    = Some (s', (1%nat, JOINED "123456" "C") :: outs)
    ∧ keys (players (Game.the_room s')) = ["A"; "C"]%string
    ∧ cget 1 (clients s') = Some {| room := Some "123456"%string;
                                     playerId := Some "C"%string;
                                     okRate := okRate (Game.socket 1 Game.alone) |}.
Proof.
  destruct (join_ignores_binding (Game.at_time 3 "C") 1 (Game.socket 1 Game.alone)
              "123456" Game.alone (Game.the_room Game.alone))
    as ([outs Hjoin] & _).
  - vm_compute. reflexivity.
  - vm_compute. lia.
  - unfold wf_room. vm_compute. repeat constructor.
  - exists outs. eexists. split; [exact Hjoin|].
    split; vm_compute; reflexivity.
Defined.

(** *** Reachable rooms are well shaped *)

Lemma paint_shaped (ss : list Ship) : ∀ nb : Board, shaped nb → shaped (Sanitizer.paint ss nb).
Proof.
  unfold Sanitizer.paint. induction ss as [|s ss IH]; intros nb Hsh; [exact Hsh|].
  cbn [foldl]. apply IH. generalize dependent nb.
  induction (scells s) as [|x cells IHc]; intros nb Hsh; [exact Hsh|].
  cbn [foldl]. apply IHc. by apply shaped_wr.
Qed.

Lemma sanitizeFleet_shaped payload cb cs :
  Sanitizer.sanitizeFleet payload = Some (cb, cs) → shaped cb.
Proof.
  unfold Sanitizer.sanitizeFleet. destruct payload as [[[b|]]|]; try discriminate.
  cbn [mbind option_bind Sanitizer.board].
  destruct (negb _); [discriminate|].
  destruct (Sanitizer.scan b) as [st|]; [|discriminate]. cbn [mbind option_bind].
  destruct (negb _); [discriminate|]. intros [= <- _].
  apply paint_shaped, shaped_fill.
Qed.

Lemma rooms_wf_insert m code rm :
  rooms_wf m → wf_room rm → rooms_wf (<[code := rm]> m).
Proof.
  intros Hm Hrm code' rm'. rewrite lookup_insert. case_decide.
  - by intros [= <-].
  - apply Hm.
Qed.

Lemma handle_wf env h ws msg s s' outs :
  rooms_wf (rooms s) → handle env h ws msg s = Some (s', outs) → rooms_wf (rooms s').
Proof.
  intros Hwf. destruct msg as [|code|payload rdy|r c| | | | |]; cbn [handle];
    [| | | | | |discriminate
     |intros H; by apply handle_fire_throws_same in H as [-> _]|discriminate].
  - intros [= <- _]. apply rooms_wf_insert; [exact Hwf|]. constructor.
  - unfold handle_join.
    destruct (rooms s !! trim code) as [rm|] eqn:Hrm; [|by intros [= <- _]].
    destruct (2 <=? _)%nat; [by intros [= <- _]|].
    cbv zeta. destruct (broadcastRoom _ _) as [o|]; [|discriminate].
    cbn [mbind option_bind]. intros [= <- _]. cbn [rooms].
    apply rooms_wf_insert; [exact Hwf|].
    apply wf_room_pset; [by eapply Hwf| |]; apply shaped_fill.
  - unfold handle_place.
    destruct (truthy (room ws)) as [code|] eqn:Hcode; [|by intros [= <- _]].
    destruct (getRoom s ws) as [rm|] eqn:Hrm; [|by intros [= <- _]].
    apply getRoom_Some in Hrm as (code' & Hcode' & Hrm).
    rewrite Hcode in Hcode'. inversion Hcode'; subst code'. clear Hcode'.
    destruct (negb _); [by intros [= <- _]|].
    destruct (playerId ws) as [k|]; [|by intros [= <- _]]. cbn [mbind option_bind].
    destruct (pget k (players rm)) as [p|] eqn:Hp; [|by intros [= <- _]].
    cbn [fmap option_fmap option_map].
    destruct (Sanitizer.sanitizeFleet payload) as [[cb cs]|] eqn:Hclean;
      [|by intros [= <- _]].
    cbv zeta. set (rm1 := set_players rm _). set (s1 := set_room s code rm1).
    assert (Hrm1 : wf_room rm1).
    { apply wf_room_pset; [by eapply Hwf| |]; cbn.
      - by eapply sanitizeFleet_shaped.
      - apply (wf_room_pget rm k p); [by eapply Hwf|exact Hp]. }
    destruct (broadcastRoom s1 (room ws)) as [o1|]; [|discriminate].
    cbn [mbind option_bind]. destruct (all_ready rm1).
    + destruct (broadcastRoom _ _) as [o2|]; [|discriminate]. cbn [mbind option_bind].
      intros [= <- _]. cbn [rooms set_room]. by apply rooms_wf_insert.
    + intros [= <- _]. cbn [rooms set_room]. by apply rooms_wf_insert.
  - unfold handle_fire.
    destruct (truthy (room ws)) as [code|] eqn:Hcode; [|by intros [= <- _]].
    destruct (getRoom s ws) as [rm|] eqn:Hrm; [|by intros [= <- _]].
    apply getRoom_Some in Hrm as (code' & Hcode' & Hrm).
    rewrite Hcode in Hcode'. inversion Hcode'; subst code'. clear Hcode'.
    pose proof (Hwf code rm Hrm) as Hroom.
    destruct (negb _); [by intros [= <- _]|].
    destruct (negb _); [by intros [= <- _]|].
    destruct (playerId ws) as [k|]; [|by intros [= <- _]]. cbn [mbind option_bind].
    destruct (pget k (players rm)) as [me|] eqn:Hme; [|by intros [= <- _]].
    cbn [fmap option_fmap option_map].
    destruct (otherPlayerId rm (Some k)) as [oppId|]; [|by intros [= <- _]].
    cbv zeta.
    destruct (pget oppId (players rm)) as [opp|] eqn:Hopp; [|discriminate].
    cbn [mbind option_bind].
    destruct (lookup2 (marks me) _ _) as [mark|]; [|discriminate]. cbn [mbind option_bind].
    destruct ((mark =? 2) || (mark =? 3)); [by intros [= <- _]|].
    destruct (lookup2 (board opp) _ _) as [cellId|]; [|discriminate].
    cbn [mbind option_bind].
    destruct (wf_room_pget rm k me Hroom Hme) as [Hmb Hmm].
    destruct (wf_room_pget rm oppId opp Hroom Hopp) as [Hob Hom].
    assert (Hfinish : ∀ rm', wf_room rm' →
              (outs0 ← broadcastRoom (set_room s code rm') (room ws);
               Some (set_room s code rm', outs0)) = Some (s', outs) →
              rooms_wf (rooms s')).
    { intros rm' Hrm'. destruct (broadcastRoom _ _); [|discriminate].
      intros [= <- _]. by apply rooms_wf_insert. }
    destruct (cellId =? EMPTY).
    + destruct (store2 _ _ _ _) as [m|] eqn:Hm; [|discriminate]. cbn [mbind option_bind].
      apply Hfinish. apply Forall_pset; [exact Hroom|]. cbn.
      split; [exact Hmb|exact (store2_shaped _ _ _ _ _ Hmm Hm)].
    + destruct (store2 _ _ _ _) as [m|] eqn:Hm; [|discriminate]. cbn [mbind option_bind].
      destruct (hit_ship _ _ _ _) as [ss|]; [|discriminate]. cbn [mbind option_bind].
      assert (Hps : Forall (fun kp => shaped (board kp.2) ∧ shaped (marks kp.2))
                      (pset oppId (set_ships opp ss)
                         (pset k (set_marks me m) (players rm)))).
      { apply Forall_pset; [apply Forall_pset; [exact Hroom|]|]; cbn.
        - split; [exact Hmb|exact (store2_shaped _ _ _ _ _ Hmm Hm)].
        - by split. }
      destruct (forallb sunk ss); cbn [mbind option_bind]; apply Hfinish; exact Hps.
  - unfold handle_request. destruct (getRoom s ws); [|by intros [= <- _]].
    destruct (roomStateFor _ _); [|discriminate]. by intros [= <- _].
  - by intros [= <- _].
Qed.

(** In every reachable state the boards and marks grids have the 10×10
    shape, so the theorems above that ask for a well-shaped room apply to
    every room the server can hold. *)
Lemma reachable_wf s : reachable s → rooms_wf (rooms s).
Proof.
  induction 1 as [|s ev s' _ IH Hstep].
  - intros code rm. cbn. by rewrite lookup_empty.
  - destruct Hstep as [env h s Hc|env h ws msg s s' outs Hc Hm|h ws s Hc].
    + exact IH.
    + unfold on_message in Hm. destruct (RateLimit.ok _ _) as [lim pass].
      destruct pass; cbn [negb] in Hm.
      * destruct msg as [m|]; [|by inversion Hm; subst].
        eapply handle_wf; [|exact Hm]. exact IH.
      * by inversion Hm; subst.
    + intros code rm. unfold on_close, cleanupRooms. cbn [rooms].
      rewrite map_lookup_filter_Some. intros [Hrm _]. by eapply IH.
Qed.

(** A message to a socket of a reachable state is always handled to the
    end: the handler returns, unless a FIRE hits a board cell whose
    identifier names no ship of the opponent. *)
Lemma handle_total_but_fire env h ws msg s :
  rooms_wf (rooms s) → (∀ r c, msg ≠ FIRE r c) → throwing msg = false →
  is_Some (handle env h ws msg s).
Proof.
  intros Hwf Hmsg Hthr.
  destruct msg as [|code|payload rdy|r c| | | | |]; cbn [handle]; try discriminate.
  - by eexists.
  - unfold handle_join.
    destruct (rooms s !! trim code) as [rm|] eqn:Hrm; [|by eexists].
    destruct (2 <=? _)%nat; [by eexists|]. cbv zeta.
    match goal with |- context [broadcastRoom ?a ?b] =>
      destruct (broadcastRoom_total a b) as [o ->] end; [|by eexists].
    intros k0 rm0 [= <-]. cbn [rooms]. rewrite lookup_insert_eq. intros [= <-].
    apply wf_room_pset; [by eapply Hwf| |]; apply shaped_fill.
  - unfold handle_place.
    destruct (truthy (room ws)) as [code|] eqn:Hcode; [|by eexists].
    destruct (getRoom s ws) as [rm|] eqn:Hrm; [|by eexists].
    apply getRoom_Some in Hrm as (code' & Hcode' & Hrm).
    rewrite Hcode in Hcode'. inversion Hcode'; subst code'. clear Hcode'.
    apply truthy_Some in Hcode.
    destruct (negb _); [by eexists|].
    destruct (playerId ws) as [k|]; [|by eexists]. cbn [mbind option_bind].
    destruct (pget k (players rm)) as [p|] eqn:Hp; [|by eexists].
    cbn [fmap option_fmap option_map].
    destruct (Sanitizer.sanitizeFleet payload) as [[cb cs]|] eqn:Hclean; [|by eexists].
    cbv zeta. set (rm1 := set_players rm _). set (s1 := set_room s code rm1).
    assert (Hrm1 : wf_room rm1).
    { apply wf_room_pset; [by eapply Hwf| |]; cbn.
      - by eapply sanitizeFleet_shaped.
      - apply (wf_room_pget rm k p); [by eapply Hwf|exact Hp]. }
    destruct (broadcastRoom_total s1 (room ws)) as [o1 ->].
    { rewrite Hcode. intros k0 rm0 [= <-]. cbn [rooms s1 set_room].
      rewrite lookup_insert_eq. by intros [= <-]. }
    cbn [mbind option_bind]. destruct (all_ready rm1); [|by eexists].
    match goal with |- context [broadcastRoom ?a ?b] =>
      destruct (broadcastRoom_total a b) as [o2 ->] end; [|by eexists].
    rewrite Hcode. intros k0 rm0 [= <-]. cbn [rooms set_room].
    rewrite lookup_insert_eq. by intros [= <-].
  - by destruct (Hmsg r c).
  - unfold handle_request. destruct (getRoom s ws) as [rm|] eqn:Hrm; [|by eexists].
    apply getRoom_Some in Hrm as (code & _ & Hrm).
    destruct (roomStateFor_total ws rm) as [st ->]; [by eapply Hwf|]. by eexists.
  - by eexists.
Qed.

(** *** Messages over the rate limit *)

(** A message that the limiter refuses is dropped: no room changes and
    nothing is sent. *)
Lemma rate_limited_message_dropped env h ws msg s :
  (RateLimit.ok (now env) (okRate ws)).2 = false →
  ∃ s', on_message env h ws msg s = Some (s', []) ∧ rooms s' = rooms s.
Proof.
  intros Hno. unfold on_message. destruct (RateLimit.ok _ _) as [lim pass].
  cbn in Hno. subst pass. cbn [negb]. by eexists.
Qed.

End ServerFacts.

(** * What the sanitizer accepts *)

Module SoundFacts.
Import Grid GridFacts Sanitizer ScanFacts SortFacts Placement FleetFacts BendFacts Extraction.

(** The double loop over the grid, for any body and any invariant that
    follows the cells handled so far. *)
Section DoubleLoop.
Context {St : Type} (body : Z → Z → St → option St) (I : (Z → Z → Prop) → St → Prop).
Hypothesis I_ext : ∀ (D D' : Z → Z → Prop) st,
  (∀ r c, 0 ≤ r < SIZE → 0 ≤ c < SIZE → D' r c → D r c) → I D st → I D' st.
Hypothesis I_step : ∀ r c st, 0 ≤ r < SIZE → 0 ≤ c < SIZE →
  I (before r c) st → ∃ st', body r c st = Some st' ∧ I (before r (c + 1)) st'.

Lemma inner_loop r : 0 ≤ r < SIZE →
  ∀ (n k : nat), (k + n = 10)%nat → ∀ st,
    I (before r (Z.of_nat k)) st →
    ∃ st', for_each (body r) (map Z.of_nat (seq k n)) st = Some st'
           ∧ I (before r SIZE) st'.
Proof.
  intros Hr. induction n as [|n IH]; intros k Hk st Hst.
  - exists st. split; [reflexivity|]. replace SIZE with (Z.of_nat k); [exact Hst|].
    unfold SIZE. lia.
  - cbn [seq map]. rewrite for_each_step.
    destruct (I_step r (Z.of_nat k) st Hr) as (st1 & Hv & Hst1);
      [unfold SIZE; lia|exact Hst|].
    rewrite Hv. cbn [mbind option_bind]. apply IH; [lia|].
    by replace (Z.of_nat (S k)) with (Z.of_nat k + 1) by lia.
Qed.

Lemma outer_loop :
  ∀ (n k : nat), (k + n = 10)%nat → ∀ st,
    I (before (Z.of_nat k) 0) st →
    ∃ st', for_each (fun r => for_each (body r) range) (map Z.of_nat (seq k n)) st = Some st'
           ∧ I (before SIZE 0) st'.
Proof.
  induction n as [|n IH]; intros k Hk st Hst.
  - exists st. split; [reflexivity|]. replace SIZE with (Z.of_nat k); [exact Hst|].
    unfold SIZE. lia.
  - cbn [seq map]. rewrite for_each_step.
    destruct (inner_loop (Z.of_nat k) ltac:(unfold SIZE; lia) 10%nat 0%nat eq_refl st Hst)
      as (st1 & Hrow & Hst1).
    change (map Z.of_nat (seq 0 10)) with range in Hrow.
    rewrite Hrow. cbn [mbind option_bind]. apply IH; [lia|].
    eapply I_ext; [|exact Hst1]. intros r c Hr Hc. unfold before, SIZE in *. lia.
Qed.

Lemma double_loop st :
  I (before 0 0) st →
  ∃ st', for_each (fun r => for_each (body r) range) range st = Some st'
         ∧ I (before SIZE 0) st'.
Proof. intros Hst. exact (outer_loop 10%nat 0%nat eq_refl st Hst). Qed.

End DoubleLoop.

(** *** Runs of any grid *)

Lemma inside_range p x :
  inside p → x ∈ cells_of p → 0 ≤ x.1 < SIZE ∧ 0 ≤ x.2 < SIZE.
Proof.
  intros (Hr & Hc & Hin) Hx. apply elem_of_cells in Hx as (i & Hi & ->).
  unfold cell_at. destruct (p_horiz p); cbn [fst snd]; lia.
Qed.

Lemma shown_range b p x :
  shown b p → x ∈ cells_of p → 0 ≤ x.1 < SIZE ∧ 0 ≤ x.2 < SIZE.
Proof. intros (_ & Hin & _). by apply inside_range. Qed.

Lemma shown_head b p : shown b p → (p_row p, p_col p) ∈ cells_of p.
Proof.
  intros (Hlen & _). apply elem_of_cells. exists 0%nat. split; [lia|].
  unfold cell_at. destruct (p_horiz p); f_equal; lia.
Qed.

(** The cells collected by a walk were unvisited when it started. *)
Lemma walk_fresh (b : Board) (k dr dc : Z) :
  ∀ (fuel : nat) (r c : Z) (visited : list (list bool)) x,
    shaped visited →
    x ∈ (walk dr dc fuel b k r c visited).2 → rd false visited x.1 x.2 = false.
Proof.
  induction fuel as [|fuel IH]; intros r c visited x Hsh; cbn [walk].
  - intros H. inversion H.
  - destruct (inb r c && (rd 0 b r c =? k) && negb (rd false visited r c)) eqn:Hcond;
      [|intros H; inversion H].
    apply andb_true_iff in Hcond as [Hcond Hfresh].
    apply andb_true_iff in Hcond as [Hin _].
    apply negb_true_iff in Hfresh. apply inb_true in Hin as [Hr Hc].
    destruct (walk dr dc fuel b k (r + dr) (c + dc) (wr visited r c true))
      as [v cells] eqn:Hw.
    cbn [snd]. intros Hx. apply elem_of_cons in Hx as [->|Hx]; [exact Hfresh|].
    assert (Hx' : rd false (wr visited r c true) x.1 x.2 = false).
    { apply (IH (r + dr) (c + dc) (wr visited r c true)); [by apply shaped_wr|].
      by rewrite Hw. }
    destruct (decide ((x.1, x.2) = (r, c))) as [Heq|Hne].
    + inversion Heq as [[H1 H2]]. rewrite H1, H2 in Hx'.
      destruct (shaped_lookup2 visited r c Hsh Hr Hc) as [v0 Hv0].
      rewrite (rd_lookup2 false _ r c true (lookup2_wr_same visited r c true v0 Hv0)) in Hx'.
      discriminate.
    + unfold rd in *. rewrite lookup2_wr_other in Hx' by (try lia; exact Hne). exact Hx'.
Qed.

(** A line of cells that carry [k] is a run shown by the grid. *)
Lemma line_shown (b : Board) (k : Z) (horiz : bool) (n : nat) (r c : Z) :
  k ≠ EMPTY →
  let p := {| p_id := k; p_row := r; p_col := c; p_len := n; p_horiz := horiz |} in
  (r, c) ∈ cells_of p →
  (∀ x, x ∈ cells_of p → inb x.1 x.2 = true ∧ rd 0 b x.1 x.2 = k) →
  shown b p.
Proof.
  intros Hk p Hhead Hall.
  assert (Hn : (1 ≤ n)%nat).
  { apply elem_of_cells in Hhead as (i & Hi & _). cbn in Hi. lia. }
  split; [exact Hn|]. split; [|split; [exact Hk|]].
  - destruct (Hall (r, c) Hhead) as [Hin _]. apply inb_true in Hin as [Hr Hc].
    cbn [fst snd] in Hr, Hc.
    assert (Hlast : cell_at p (Z.of_nat (n - 1)) ∈ cells_of p).
    { apply elem_of_cells. exists (n - 1)%nat. split; [cbn; lia|reflexivity]. }
    destruct (Hall _ Hlast) as [Hin' _]. apply inb_true in Hin' as [Hr' Hc'].
    unfold inside, cell_at in *. cbn [p_row p_col p_len p_horiz p] in *.
    destruct horiz; cbn [fst snd] in *; lia.
  - intros x Hx. destruct (Hall x Hx) as [_ Hid]. cbn [p_id p].
    unfold rd in Hid. destruct (lookup2 b x.1 x.2) as [v|]; cbn in Hid; [by subst|].
    by subst k.
Qed.

(** The run collected, on any grid, from an unvisited non-empty cell. *)
Lemma trace_run (b : Board) (r c : Z) (visited : list (list bool)) :
  0 ≤ r < SIZE → 0 ≤ c < SIZE → shaped visited →
  rd 0 b r c ≠ EMPTY → rd false visited r c = false →
  ∃ visited' p,
    trace b r c (rd 0 b r c) visited = (visited', cells_of p)
    ∧ p_id p = rd 0 b r c
    ∧ shaped visited'
    ∧ shown b p
    ∧ (r, c) ∈ cells_of p
    ∧ (∀ x, x ∈ cells_of p → rd false visited x.1 x.2 = false)
    ∧ ∀ r' c', 0 ≤ r' → 0 ≤ c' →
        lookup2 visited' r' c' =
          if decide ((r', c') ∈ cells_of p) then Some true else lookup2 visited r' c'.
Proof.
  intros Hr Hc Hsh Hk Hfresh. unfold trace.
  assert (Hin : inb r c = true) by (by apply inb_true).
  set (k := rd 0 b r c) in *.
  assert (Hwalk : ∀ horiz : bool,
    ∃ visited' p,
      walk (if horiz then 0 else 1) (if horiz then 1 else 0) walk_fuel b k r c visited
        = (visited', cells_of p)
      ∧ p_id p = k ∧ shaped visited' ∧ shown b p ∧ (r, c) ∈ cells_of p
      ∧ (∀ x, x ∈ cells_of p → rd false visited x.1 x.2 = false)
      ∧ ∀ r' c', 0 ≤ r' → 0 ≤ c' →
          lookup2 visited' r' c' =
            if decide ((r', c') ∈ cells_of p) then Some true else lookup2 visited r' c').
  { intros horiz.
    destruct (walk_any b k (if horiz then 0 else 1) (if horiz then 1 else 0)
                ltac:(destruct horiz; [left|right]; split; reflexivity)
                walk_fuel r c visited)
      as (n & v' & Hw & Hsh' & Hall & Hget & Hstart); [lia|lia|exact Hsh|].
    set (p := {| p_id := k; p_row := r; p_col := c; p_len := n; p_horiz := horiz |}).
    assert (Hcells : cells_of p =
              line (if horiz then 0 else 1) (if horiz then 1 else 0) n r c).
    { by rewrite cells_of_line. }
    exists v', p. rewrite Hcells. split; [exact Hw|]. split; [reflexivity|].
    split; [exact Hsh'|].
    assert (Hhead : (r, c) ∈ line (if horiz then 0 else 1) (if horiz then 1 else 0) n r c).
    { apply Hstart; [discriminate|exact Hin|reflexivity|exact Hfresh]. }
    split; [|split; [exact Hhead|split; [|exact Hget]]].
    - apply (line_shown b k horiz n r c Hk); fold p; rewrite Hcells; assumption.
    - intros x Hx.
      apply (walk_fresh b k (if horiz then 0 else 1) (if horiz then 1 else 0)
               walk_fuel r c visited x Hsh).
      by rewrite Hw. }
  destruct (orient_of b r c k).
  - rewrite walkH_walk. exact (Hwalk true).
  - rewrite walkV_walk. exact (Hwalk false).
  - destruct (shaped_lookup2 visited r c Hsh Hr Hc) as [v0 Hv0].
    set (p := {| p_id := k; p_row := r; p_col := c; p_len := 1; p_horiz := true |}).
    assert (Hcells : cells_of p = [(r, c)]).
    { unfold cells_of, cell_at. cbn. do 2 f_equal. lia. }
    exists (wr visited r c true), p. rewrite Hcells.
    split; [reflexivity|]. split; [reflexivity|].
    split; [by apply shaped_wr|]. split; [|split; [by left|split]].
    + apply (line_shown b k true 1 r c Hk); fold p; rewrite Hcells; [by left|].
      intros x Hx. apply list_elem_of_singleton in Hx. by subst x.
    + intros x Hx. apply list_elem_of_singleton in Hx. by subst x.
    + intros r' c' Hr' Hc'. destruct (decide ((r', c') = (r, c))) as [Heq|Hne].
      * inversion Heq; subst. rewrite (lookup2_wr_same visited r c true v0 Hv0).
        rewrite decide_True; [reflexivity|by left].
      * rewrite lookup2_wr_other by (try lia; exact Hne).
        rewrite decide_False; [reflexivity|]. intros H.
        apply list_elem_of_singleton in H. by apply Hne.
Qed.

Section AnyGrid.
Variable b : Board.

Lemma parted_ext (D D' : Z → Z → Prop) st :
  (∀ r c, 0 ≤ r < SIZE → 0 ≤ c < SIZE → D' r c → D r c) →
  parted b D st → parted b D' st.
Proof.
  intros Hext (Hsh & Hdone & Hps). split; [exact Hsh|]. split; [|exact Hps].
  intros r c Hr Hc HD. apply Hdone; try assumption. by apply Hext.
Qed.

(** One turn of the inner loop of the extraction. *)
Lemma parted_step r c st :
  0 ≤ r < SIZE → 0 ≤ c < SIZE → parted b (before r c) st →
  ∃ st', visit_unchecked b r c st = Some st' ∧ parted b (before r (c + 1)) st'.
Proof.
  intros Hr Hc (Hsh & Hdone & ps & Hst & Hshown & [Hnd Hdisj] & Hvis).
  unfold visit_unchecked.
  destruct (shaped_lookup2 st.1 r c Hsh Hr Hc) as [v0 Hv0].
  destruct ((rd 0 b r c =? EMPTY) || rd false st.1 r c) eqn:Hskip.
  - exists st. split; [reflexivity|]. split; [exact Hsh|]. split.
    + intros r' c' Hr' Hc' HD Hne. apply before_succ in HD as [HD|[-> ->]].
      * by apply Hdone.
      * apply orb_true_iff in Hskip as [Hz|Hv]; [by apply Z.eqb_eq in Hz|].
        rewrite (rd_lookup2 false st.1 r c v0 Hv0) in Hv. by subst v0.
    + exists ps. split; [exact Hst|]. split; [exact Hshown|].
      split; [split; assumption|exact Hvis].
  - apply orb_false_iff in Hskip as [Hz Hv]. apply Z.eqb_neq in Hz.
    destruct (trace_run b r c st.1 Hr Hc Hsh Hz Hv)
      as (v' & p & Htr & Hid & Hsh' & Hp & Hstart & Hfresh & Hget).
    rewrite Htr. eexists. split; [reflexivity|]. cbn [fst snd].
    assert (Hnew : ∀ q x, q ∈ ps → x ∈ cells_of q → x ∉ cells_of p).
    { intros q [xr xc] Hq Hx Hx'.
      pose proof (shown_range b q _ (Hshown q Hq) Hx) as [Hxr Hxc]. cbn [fst snd] in *.
      assert (Hseen : lookup2 st.1 xr xc = Some true) by (apply Hvis; eauto).
      specialize (Hfresh _ Hx'). cbn [fst snd] in Hfresh.
      rewrite (rd_lookup2 false st.1 xr xc true Hseen) in Hfresh. discriminate. }
    split; [exact Hsh'|]. split.
    + intros r' c' Hr' Hc' HD Hne. rewrite Hget by lia.
      destruct (decide ((r', c') ∈ cells_of p)); [reflexivity|].
      apply before_succ in HD as [HD|[-> ->]]; [by apply Hdone|contradiction].
    + exists (ps ++ [p]). split.
      { rewrite Hst, map_app. cbn [map]. do 2 f_equal. unfold to_ship.
        by rewrite length_cells, Hid. }
      split.
      { intros q Hq. apply elem_of_app in Hq as [Hq|Hq]; [by apply Hshown|].
        apply list_elem_of_singleton in Hq. by subst q. }
      split; [split|].
      * apply NoDup_app. split; [exact Hnd|]. split; [|apply NoDup_singleton].
        intros q Hq Hq'. apply list_elem_of_singleton in Hq'. subst q.
        exact (Hnew p _ Hq Hstart Hstart).
      * intros q q' x Hq Hq' Hx Hx'.
        apply elem_of_app in Hq as [Hq|Hq]; apply elem_of_app in Hq' as [Hq'|Hq'];
          try (apply list_elem_of_singleton in Hq; subst q);
          try (apply list_elem_of_singleton in Hq'; subst q').
        -- by apply (Hdisj q q' x).
        -- exfalso. exact (Hnew q x Hq Hx Hx').
        -- exfalso. exact (Hnew q' x Hq' Hx' Hx).
        -- reflexivity.
      * intros r' c' Hr' Hc'. rewrite Hget by lia.
        destruct (decide ((r', c') ∈ cells_of p)) as [Hcell|Hcell].
        -- split; [|reflexivity]. intros _. exists p. split; [|exact Hcell].
           apply elem_of_app. right. by left.
        -- rewrite (Hvis r' c' Hr' Hc'). split.
           ++ intros (q & Hq & Hx). exists q. split; [|exact Hx]. apply elem_of_app. by left.
           ++ intros (q & Hq & Hx). apply elem_of_app in Hq as [Hq|Hq]; [eauto|].
              apply list_elem_of_singleton in Hq. by subst q.
Qed.

(** The runs of a grid lie in it, share no cell, and cover every
    non-empty cell. *)
Lemma runs_parted :
  ∃ ps, runs b = map to_ship ps
        ∧ (∀ p, p ∈ ps → shown b p)
        ∧ apart ps
        ∧ ∀ r c, 0 ≤ r < SIZE → 0 ≤ c < SIZE → rd 0 b r c ≠ EMPTY →
            ∃ p, p ∈ ps ∧ (r, c) ∈ cells_of p.
Proof.
  destruct (double_loop (fun r c => visit_unchecked b r c) (parted b) parted_ext
              parted_step (fill false, [])) as (st & Hrun & Hst).
  - split; [apply shaped_fill|]. split.
    + intros r' c' Hr' Hc' HD. unfold before in HD. lia.
    + exists []. split; [reflexivity|]. split; [intros p Hp; inversion Hp|].
      split; [split; [constructor|intros p q x Hp; inversion Hp]|].
      intros r c Hr Hc. cbn [fst]. rewrite lookup2_fill by assumption. split.
      * discriminate.
      * intros (p & Hp & _). inversion Hp.
  - destruct Hst as (_ & Hdone & ps & Hst & Hshown & Hapart & Hvis).
    exists ps. unfold runs, scan_unchecked. cbv beta in Hrun. rewrite Hrun.
    split; [exact Hst|]. split; [exact Hshown|]. split; [exact Hapart|].
    intros r c Hr Hc Hne. apply Hvis; try assumption.
    apply Hdone; try assumption. unfold before, SIZE in *. lia.
Qed.

End AnyGrid.

(** *** From the runs to the result *)

Lemma valid_board_shaped (b : Board) : valid_board b = true → shaped b.
Proof.
  unfold valid_board, shaped. intros H. apply andb_true_iff in H as [Hl Hrows].
  apply Nat.eqb_eq in Hl. split; [exact Hl|].
  apply Forall_forall. intros row Hrow. rewrite forallb_forall in Hrows.
  specialize (Hrows row). rewrite <- list_elem_of_In in Hrows. specialize (Hrows Hrow).
  unfold valid_row in Hrows. apply andb_true_iff in Hrows as [Hlen _].
  by apply Nat.eqb_eq in Hlen.
Qed.

Lemma apart_perm (ps ps' : list Placed) : ps ≡ₚ ps' → apart ps → apart ps'.
Proof.
  intros Hp [Hnd Hdisj]. split; [by rewrite <- Hp|].
  intros p q x Hq Hq'. rewrite <- Hp in Hq, Hq'. by apply Hdisj.
Qed.

Lemma sorted_lookup {A} (R : A → A → Prop) (l : list A) :
  StronglySorted R l →
  ∀ i j x y, l !! i = Some x → l !! j = Some y → (i < j)%nat → R x y.
Proof.
  induction 1 as [|a l Hs IH Hall]; intros i j x y Hi Hj Hij; [by destruct i|].
  destruct j as [|j]; [lia|]. cbn in Hj. destruct i as [|i].
  - cbn in Hi. inversion Hi; subst. rewrite Forall_forall in Hall. apply Hall.
    eapply list_elem_of_lookup_2, Hj.
  - cbn in Hi. apply (IH i j); [assumption|assumption|lia].
Qed.

Lemma renamed_ship (ps : list Placed) :
  imap numbered ps = map to_ship (imap renamed ps).
Proof.
  change (imap numbered ps = to_ship <$> imap renamed ps).
  rewrite fmap_imap. by apply imap_ext.
Qed.

Lemma renamed_ids (ps : list Placed) :
  map p_id (imap renamed ps) = map (fun i => Z.of_nat i + 1) (seq 0 (length ps)).
Proof.
  change (p_id <$> imap renamed ps = (fun i => Z.of_nat i + 1) <$> seq 0 (length ps)).
  rewrite <- (imap_seq_0 ps (fun i => Z.of_nat i + 1)), fmap_imap. by apply imap_ext.
Qed.

Lemma renamed_lens (ps : list Placed) : map p_len (imap renamed ps) = map p_len ps.
Proof.
  change (p_len <$> imap renamed ps = p_len <$> ps).
  rewrite fmap_imap. apply imap_const.
Qed.

(** The board painted from ships that lie in the grid and agree on the
    cells they share shows exactly these ships. *)
Lemma paint_encodes (fl : list Placed) :
  (∀ p, p ∈ fl → inside p) →
  (∀ p q x, p ∈ fl → q ∈ fl → x ∈ cells_of p → x ∈ cells_of q → p_id p = p_id q) →
  encodes fl (paint (map to_ship fl) emptyBoard).
Proof.
  intros Hin Hsame.
  assert (Hrange : ∀ s x, s ∈ map to_ship fl → x ∈ scells s →
            0 ≤ x.1 < SIZE ∧ 0 ≤ x.2 < SIZE).
  { intros s x Hs Hx. apply list_elem_of_fmap in Hs as (p & -> & Hp).
    by apply (inside_range p x (Hin p Hp)). }
  destruct (paint_lookup (map to_ship fl) emptyBoard (shaped_fill EMPTY) Hrange)
    as [Hsh Hget].
  split; [exact Hsh|]. split.
  - intros p [xr xc] Hp Hx. cbn [fst snd].
    destruct (inside_range p _ (Hin p Hp) Hx) as [Hr Hc]. cbn [fst snd] in Hr, Hc.
    rewrite Hget by lia. apply paint_fold_some.
    + exists (to_ship p). split; [by apply list_elem_of_fmap_2|exact Hx].
    + intros s Hs Hx'. apply list_elem_of_fmap in Hs as (q & -> & Hq).
      cbn [to_ship sid scells] in *. by apply (Hsame q p (xr, xc)).
  - intros r c Hr Hc Hno. rewrite Hget by lia. rewrite paint_fold_none.
    + unfold emptyBoard. by apply lookup2_fill.
    + intros s Hs. apply list_elem_of_fmap in Hs as (q & -> & Hq). by apply Hno.
Qed.

(** What an accepted grid is made of: its runs [ps], in the order of the
    result, are five runs of lengths 5, 4, 3, 3 and 2 that cover the
    non-empty cells; the result numbers them and paints them. *)
Lemma accepted_runs (b nb : Board) (ships : list Ship) :
  sanitizeFleet (Some {| Sanitizer.board := Some b |}) = Some (nb, ships) →
  ∃ ps, shaped b
    ∧ (∀ p, p ∈ ps → shown b p)
    ∧ apart ps
    ∧ (∀ r c, 0 ≤ r < SIZE → 0 ≤ c < SIZE → rd 0 b r c ≠ EMPTY →
         ∃ p, p ∈ ps ∧ (r, c) ∈ cells_of p)
    ∧ StronglySorted (fun p q => p_id p ≤ p_id q) ps
    ∧ map p_len ps ≡ₚ [5; 4; 3; 3; 2]%nat
    ∧ ships = imap numbered ps
    ∧ nb = paint (imap numbered ps) emptyBoard.
Proof.
  rewrite sanitizeFleet_unfold.
  destruct (valid_board b) eqn:Hvalid; [|discriminate]. cbn [andb].
  destruct (forallb _ (runs b)); [|discriminate]. cbn [andb].
  destruct (bool_decide _) eqn:Hlens; [|discriminate].
  apply bool_decide_eq_true in Hlens. intros [= <- <-].
  destruct (runs_parted b) as (ps0 & Hruns & Hshown & Hapart & Hcover).
  set (ps := sort_by (fun p q => p_id p <=? p_id q) ps0).
  assert (Hperm : ps ≡ₚ ps0) by apply sort_by_perm.
  assert (Hships : renumber (sort_ships (runs b)) = imap numbered ps).
  { rewrite Hruns. unfold sort_ships. rewrite sort_by_map. apply renumber_to_ship. }
  exists ps. split; [by apply valid_board_shaped|].
  split; [intros p Hp; apply Hshown; by rewrite <- Hperm|].
  split; [by apply (apart_perm ps0)|].
  split.
  { intros r c Hr Hc Hne. destruct (Hcover r c Hr Hc Hne) as (p & Hp & Hx).
    exists p. by rewrite Hperm. }
  split.
  { apply sort_by_sorted.
    - intros x y H. by apply Z.leb_le in H.
    - intros x y H. apply Z.leb_gt in H. lia.
    - intros x y z. lia. }
  split.
  { rewrite Hruns, map_map in Hlens. cbn [to_ship slength] in Hlens.
    rewrite <- Hlens. unfold sort_desc. rewrite sort_by_perm.
    change (p_len <$> ps ≡ₚ p_len <$> ps0). by rewrite Hperm. }
  by rewrite Hships.
Qed.

Lemma accepted_five (ps : list Placed) :
  map p_len ps ≡ₚ [5; 4; 3; 3; 2]%nat → length ps = 5%nat.
Proof. intros H. by rewrite <- (length_map p_len), H. Qed.

Lemma accepted_len (ps : list Placed) p :
  map p_len ps ≡ₚ [5; 4; 3; 3; 2]%nat → p ∈ ps → (2 ≤ p_len p ≤ 5)%nat.
Proof.
  intros H Hp. assert (Hin : p_len p ∈ [5; 4; 3; 3; 2]%nat).
  { rewrite <- H. by apply list_elem_of_fmap_2. }
  rewrite !elem_of_cons, elem_of_nil in Hin. lia.
Qed.

(** The fleet of an accepted grid under its new identifiers. *)
Lemma renamed_valid (b : Board) (ps : list Placed) :
  (∀ p, p ∈ ps → shown b p) → apart ps → map p_len ps ≡ₚ [5; 4; 3; 3; 2]%nat →
  map p_id (imap renamed ps) = [1; 2; 3; 4; 5]
  ∧ valid_fleet (imap renamed ps)
  ∧ encodes (imap renamed ps) (paint (imap numbered ps) emptyBoard).
Proof.
  intros Hshown [Hnd Hdisj] Hlens.
  assert (Hids : map p_id (imap renamed ps) = [1; 2; 3; 4; 5]).
  { by rewrite renamed_ids, (accepted_five ps Hlens). }
  assert (Hsame : ∀ p' q' x, p' ∈ imap renamed ps → q' ∈ imap renamed ps →
            x ∈ cells_of p' → x ∈ cells_of q' → p' = q').
  { intros p' q' x Hp Hq Hx Hx'.
    apply elem_of_lookup_imap in Hp as (i & p & -> & Hi).
    apply elem_of_lookup_imap in Hq as (j & q & -> & Hj).
    assert (p = q).
    { apply (Hdisj p q x); try assumption; eapply list_elem_of_lookup_2; eassumption. }
    subst q. by rewrite (NoDup_lookup ps i j p Hnd Hi Hj). }
  assert (Hinside : ∀ p', p' ∈ imap renamed ps → inside p').
  { intros p' Hp. apply elem_of_lookup_imap in Hp as (i & p & -> & Hi).
    destruct (Hshown p) as (_ & Hin & _); [eapply list_elem_of_lookup_2, Hi|].
    exact Hin. }
  split; [exact Hids|]. split.
  - split; [by rewrite renamed_lens|]. split.
    { rewrite Hids. apply NoDup_ListNoDup. repeat constructor; cbn; lia. }
    split.
    { intros p' Hp. apply elem_of_lookup_imap in Hp as (i & p & -> & Hi). cbn. lia. }
    split; [exact Hinside|exact Hsame].
  - rewrite renamed_ship. apply paint_encodes; [exact Hinside|].
    intros p' q' x Hp Hq Hx Hx'. by rewrite (Hsame p' q' x).
Qed.

(** Every cell of an accepted grid, before and after: a cell of the
    [i]-th run holds that run's identifier in the submission and [i + 1]
    in the result; any other cell is empty in both. *)
Lemma accepted_cells (b nb : Board) (ships : list Ship) :
  sanitizeFleet (Some {| Sanitizer.board := Some b |}) = Some (nb, ships) →
  ∃ ps, StronglySorted (fun p q => p_id p ≤ p_id q) ps
    ∧ map p_len ps ≡ₚ [5; 4; 3; 3; 2]%nat
    ∧ (∀ p, p ∈ ps → shown b p)
    ∧ ∀ r c, 0 ≤ r < SIZE → 0 ≤ c < SIZE →
        (∃ i p, ps !! i = Some p ∧ (r, c) ∈ cells_of p
                ∧ lookup2 b r c = Some (p_id p)
                ∧ lookup2 nb r c = Some (Z.of_nat i + 1))
        ∨ ((∀ p, p ∈ ps → (r, c) ∉ cells_of p)
           ∧ lookup2 b r c = Some EMPTY ∧ lookup2 nb r c = Some EMPTY).
Proof.
  intros Hacc.
  destruct (accepted_runs b nb ships Hacc)
    as (ps & Hshb & Hshown & Hapart & Hcover & Hsorted & Hlens & -> & ->).
  destruct (renamed_valid b ps Hshown Hapart Hlens) as (_ & _ & Henc).
  destruct Henc as (_ & Hon & Hoff).
  exists ps. split; [exact Hsorted|]. split; [exact Hlens|]. split; [exact Hshown|].
  intros r c Hr Hc.
  destruct (decide (Exists (fun p => (r, c) ∈ cells_of p) ps)) as [Hex|Hno].
  - left. apply Exists_exists in Hex as (p & Hp & Hx).
    apply list_elem_of_lookup_1 in Hp as [i Hi]. exists i, p.
    split; [exact Hi|]. split; [exact Hx|]. split.
    + destruct (Hshown p) as (_ & _ & _ & Hid); [eapply list_elem_of_lookup_2, Hi|].
      exact (Hid (r, c) Hx).
    + apply (Hon (renamed i p) (r, c)); [|exact Hx].
      apply elem_of_lookup_imap. eauto.
  - right.
    assert (Hnone : ∀ p, p ∈ ps → (r, c) ∉ cells_of p).
    { intros p Hp Hx. apply Hno. apply Exists_exists. eauto. }
    split; [exact Hnone|]. split.
    + destruct (shaped_lookup2 b r c Hshb Hr Hc) as [v Hv]. rewrite Hv. f_equal.
      destruct (decide (v = EMPTY)) as [->|Hne]; [reflexivity|]. exfalso.
      destruct (Hcover r c Hr Hc) as (p & Hp & Hx); [by rewrite (rd_lookup2 0 b r c v Hv)|].
      exact (Hnone p Hp Hx).
    + apply Hoff; try assumption. intros p' Hp.
      apply elem_of_lookup_imap in Hp as (i & p & -> & Hi).
      apply (Hnone p). eapply list_elem_of_lookup_2, Hi.
Qed.

(** *** Valid placements, once more *)

(** The sanitizer on a grid that encodes a valid placement. *)
Lemma placement_sanitized (fl : list Placed) (b : Board) :
  valid_fleet fl → encodes fl b →
  ∃ sorted, sorted ≡ₚ fl
    ∧ StronglySorted (fun p q => p_id p ≤ p_id q) sorted
    ∧ sanitizeFleet (Some {| Sanitizer.board := Some b |})
      = Some (paint (imap numbered sorted) emptyBoard, imap numbered sorted).
Proof.
  intros Hfl Henc.
  destruct (scan_valid fl b Hfl Henc) as (ps & Hruns & Hperm).
  set (sorted := sort_by (fun p q => p_id p <=? p_id q) ps).
  assert (Hsp : sorted ≡ₚ fl) by (unfold sorted; by rewrite sort_by_perm).
  exists sorted. split; [exact Hsp|]. split.
  { apply sort_by_sorted.
    - intros x y H. by apply Z.leb_le in H.
    - intros x y H. apply Z.leb_gt in H. lia.
    - intros x y z. lia. }
  assert (Hships : renumber (sort_ships (runs b)) = imap numbered sorted).
  { rewrite Hruns. unfold sort_ships. rewrite sort_by_map. apply renumber_to_ship. }
  rewrite sanitizeFleet_unfold, (board_valid fl b Hfl Henc), Hships. cbn [andb].
  assert (Hstraight : forallb (fun s => negb (has_branch b (sid s) (scells s))) (runs b)
                      = true).
  { apply forallb_forall. intros s Hs. rewrite Hruns in Hs. apply in_map_iff in Hs
      as (p & <- & Hp). rewrite <- list_elem_of_In, Hperm in Hp.
    cbn [to_ship sid scells]. by rewrite (fleet_no_branch fl b Hfl Henc p Hp). }
  rewrite Hstraight. cbn [andb].
  rewrite bool_decide_true; [reflexivity|].
  rewrite Hruns, map_map. cbn [to_ship slength].
  change [5; 4; 3; 3; 2]%nat with (sort_desc [5; 4; 3; 3; 2]%nat).
  apply sort_desc_perm. destruct Hfl as (Hlens & _). rewrite <- Hlens.
  change (p_len <$> ps ≡ₚ p_len <$> fl). by rewrite Hperm.
Qed.

(** Two orderings by identifier of the same ships, all of different
    identifiers, are one ordering. *)
Lemma sorted_by_id_unique (l : list Placed) : ∀ l',
  NoDup (map p_id l) → l ≡ₚ l' →
  StronglySorted (fun p q => p_id p ≤ p_id q) l →
  StronglySorted (fun p q => p_id p ≤ p_id q) l' → l = l'.
Proof.
  induction l as [|a l IH]; intros l' Hnd Hp Hs Hs'.
  - by apply Permutation_nil in Hp.
  - destruct l' as [|a' l']; [by apply Permutation_nil_r in Hp|].
    assert (Ha : a = a').
    { apply (nodup_ids_inj (a :: l)); [exact Hnd|by left|rewrite Hp; by left|].
      apply StronglySorted_inv in Hs as [_ Hall]. apply StronglySorted_inv in Hs' as [_ Hall'].
      rewrite Forall_forall in Hall, Hall'.
      assert (Hin : a' ∈ a :: l) by (rewrite Hp; by left).
      assert (Hin' : a ∈ a' :: l') by (rewrite <- Hp; by left).
      apply elem_of_cons in Hin as [->|Hin]; [reflexivity|].
      apply elem_of_cons in Hin' as [->|Hin']; [reflexivity|].
      specialize (Hall a' Hin). specialize (Hall' a Hin'). lia. }
    subst a'. f_equal. apply Permutation_cons_inv in Hp.
    apply StronglySorted_inv in Hs as [Hs _]. apply StronglySorted_inv in Hs' as [Hs' _].
    cbn in Hnd. apply NoDup_cons in Hnd as [_ Hnd]. by apply IH.
Qed.

(** *** Properties of the accepted grids *)

(** X1: whatever the sanitizer accepts is a valid placement.  The ships
    it returns are five straight ships with the identifiers 1 to 5 in
    this order, of lengths 5, 4, 3, 3 and 2 in some order, inside the
    grid and without a common cell, and the board it returns holds each
    identifier exactly on the cells of its ship and 0 elsewhere. *)
Theorem accepted_is_valid_fleet (payload : option Payload) (nb : Board)
    (ships : list Ship) :
  sanitizeFleet payload = Some (nb, ships) →
  ∃ fl, ships = map to_ship fl
        ∧ map p_id fl = [1; 2; 3; 4; 5]
        ∧ valid_fleet fl
        ∧ encodes fl nb.
Proof.
  destruct payload as [[[b|]]|]; [|discriminate|discriminate]. intros Hacc.
  destruct (accepted_runs b nb ships Hacc)
    as (ps & _ & Hshown & Hapart & _ & _ & Hlens & -> & ->).
  destruct (renamed_valid b ps Hshown Hapart Hlens) as (Hids & Hvalid & Henc).
  exists (imap renamed ps). split; [apply renamed_ship|].
  split; [exact Hids|]. split; [exact Hvalid|exact Henc].
Qed.

Lemma accepted_is_valid_fleet_witness :
  ∃ fl, Samples.fleet_clean.2 = map to_ship fl
        ∧ map p_id fl = [1; 2; 3; 4; 5]
        ∧ valid_fleet fl
        ∧ encodes fl Samples.fleet_clean.1.
Proof.
  apply (accepted_is_valid_fleet (Some {| Sanitizer.board := Some Demo.fleet_board |})).
  vm_compute. reflexivity.
Defined.

(** X2: the sanitizer moves no ship and merges no ships.  A cell is empty
    in the accepted result exactly when it is empty in the submission;
    two cells that come out with one identifier went in with one
    identifier; and the new identifiers follow the order of the
    submitted ones. *)
Theorem accepted_keeps_cells (b nb : Board) (ships : list Ship) (r c r' c' : Z) :
  sanitizeFleet (Some {| Sanitizer.board := Some b |}) = Some (nb, ships) →
  0 ≤ r < SIZE → 0 ≤ c < SIZE → 0 ≤ r' < SIZE → 0 ≤ c' < SIZE →
  ∃ v w v' w',
    lookup2 b r c = Some v ∧ lookup2 nb r c = Some w
    ∧ lookup2 b r' c' = Some v' ∧ lookup2 nb r' c' = Some w'
    ∧ (w = EMPTY ↔ v = EMPTY)
    ∧ (w ≠ EMPTY → w = w' → v = v')
    ∧ (w ≠ EMPTY → w < w' → v ≤ v').
Proof.
  intros Hacc Hr Hc Hr' Hc'.
  destruct (accepted_cells b nb ships Hacc) as (ps & Hsorted & _ & Hshown & Hcells).
  assert (Hne : ∀ p, p ∈ ps → p_id p ≠ EMPTY).
  { intros p Hp. by destruct (Hshown p Hp) as (_ & _ & ? & _). }
  destruct (Hcells r c Hr Hc) as [(i & p & Hi & Hx & Hb & Hnb)|(Hno & Hb & Hnb)];
    destruct (Hcells r' c' Hr' Hc') as [(j & q & Hj & Hy & Hb' & Hnb')|(Hno' & Hb' & Hnb')];
    eexists _, _, _, _;
    (split; [exact Hb|]); (split; [exact Hnb|]);
    (split; [exact Hb'|]); (split; [exact Hnb'|]).
  - assert (Hp : p ∈ ps) by (eapply list_elem_of_lookup_2, Hi).
    split; [split; intros H; [unfold EMPTY in H; lia|by apply Hne in H]|].
    split.
    + intros _ Hij. assert (i = j) by lia. subst j. rewrite Hi in Hj. by inversion Hj.
    + intros _ Hij. apply (sorted_lookup _ ps Hsorted i j p q Hi Hj). lia.
  - assert (Hp : p ∈ ps) by (eapply list_elem_of_lookup_2, Hi).
    split; [split; intros H; [unfold EMPTY in H; lia|by apply Hne in H]|].
    split; intros _ H; unfold EMPTY in H; lia.
  - split; [done|]. split; intros H; by destruct H.
  - split; [done|]. split; intros H; by destruct H.
Qed.

Lemma accepted_keeps_cells_witness :
  ∃ v w v' w',
    lookup2 Demo.fleet_board 0 0 = Some v ∧ lookup2 Samples.fleet_clean.1 0 0 = Some w
    ∧ lookup2 Demo.fleet_board 2 0 = Some v' ∧ lookup2 Samples.fleet_clean.1 2 0 = Some w'
    ∧ (w = EMPTY ↔ v = EMPTY)
    ∧ (w ≠ EMPTY → w = w' → v = v')
    ∧ (w ≠ EMPTY → w < w' → v ≤ v').
Proof.
  apply (accepted_keeps_cells Demo.fleet_board Samples.fleet_clean.1
           Samples.fleet_clean.2 0 0 2 0);
    [vm_compute; reflexivity|unfold SIZE; lia..].
Defined.

(** X3: the sanitizer is idempotent.  The board it returns, submitted
    again, is accepted and comes back unchanged, with the same ships. *)
Theorem sanitize_idempotent (payload : option Payload) (nb : Board)
    (ships : list Ship) :
  sanitizeFleet payload = Some (nb, ships) →
  sanitizeFleet (Some {| Sanitizer.board := Some nb |}) = Some (nb, ships).
Proof.
  destruct payload as [[[b|]]|]; [|discriminate|discriminate]. intros Hacc.
  destruct (accepted_runs b nb ships Hacc)
    as (ps & _ & Hshown & Hapart & _ & _ & Hlens & -> & ->).
  destruct (renamed_valid b ps Hshown Hapart Hlens) as (Hids & Hvalid & Henc).
  destruct (placement_sanitized _ _ Hvalid Henc) as (sorted & Hperm & Hsorted & Hres).
  assert (Hfl : StronglySorted (fun p q => p_id p ≤ p_id q) (imap renamed ps)).
  { revert Hids. generalize (imap renamed ps). intros l Hl.
    destruct l as [|p1 [|p2 [|p3 [|p4 [|p5 [|p6 l]]]]]]; try discriminate.
    injection Hl as H1 H2 H3 H4 H5. repeat constructor; lia. }
  assert (Heq : sorted = imap renamed ps).
  { apply sorted_by_id_unique; try assumption.
    rewrite Hperm, Hids. apply NoDup_ListNoDup. repeat constructor; cbn; lia. }
  rewrite Hres, Heq.
  assert (Hsame : imap numbered (imap renamed ps) = imap numbered ps).
  { rewrite (renamed_ship ps).
    change (imap numbered (imap renamed ps) = to_ship <$> imap renamed ps).
    rewrite <- (imap_const to_ship). apply imap_ext. intros i p' Hi.
    rewrite list_lookup_imap in Hi. destruct (ps !! i) as [p|]; [|discriminate].
    by inversion Hi. }
  by rewrite Hsame.
Qed.

Lemma sanitize_idempotent_witness :
  sanitizeFleet (Some {| Sanitizer.board := Some Samples.fleet_clean.1 |})
  = Some (Samples.fleet_clean.1, Samples.fleet_clean.2).
Proof.
  apply (sanitize_idempotent (Some {| Sanitizer.board := Some Demo.fleet_board |})).
  vm_compute. reflexivity.
Defined.

(** X4: a ship of one cell is never accepted.  A grid with a non-empty
    cell none of whose neighbours in the grid holds the same identifier
    is rejected. *)
Theorem lone_cell_rejected (b : Board) (r c : Z) :
  0 ≤ r < SIZE → 0 ≤ c < SIZE → rd 0 b r c ≠ EMPTY →
  (∀ n, n ∈ nbrs r c → inb n.1 n.2 = true → rd 0 b n.1 n.2 ≠ rd 0 b r c) →
  sanitizeFleet (Some {| Sanitizer.board := Some b |}) = None.
Proof.
  intros Hr Hc Hne Hlone.
  destruct (sanitizeFleet _) as [[nb ships]|] eqn:Hacc; [exfalso|reflexivity].
  destruct (accepted_runs b nb ships Hacc)
    as (ps & _ & Hshown & _ & Hcover & _ & Hlens & _).
  destruct (Hcover r c Hr Hc Hne) as (p & Hp & Hx).
  pose proof (accepted_len ps p Hlens Hp) as Hlen.
  pose proof (Hshown p Hp) as Hsh. destruct Hsh as (_ & _ & _ & Hid).
  assert (Hk : rd 0 b r c = p_id p) by (apply rd_lookup2; exact (Hid (r, c) Hx)).
  apply elem_of_cells in Hx as (i & Hi & Hcell).
  set (j := if decide (i + 1 < p_len p)%nat then (i + 1)%nat else (i - 1)%nat).
  assert (Hj : (j < p_len p)%nat ∧ (Z.of_nat j = Z.of_nat i + 1 ∨ Z.of_nat j = Z.of_nat i - 1)).
  { unfold j. destruct (decide (i + 1 < p_len p)%nat); lia. }
  destruct Hj as [Hj Hij].
  assert (Hn : cell_at p (Z.of_nat j) ∈ cells_of p).
  { apply elem_of_cells. eauto. }
  apply (Hlone (cell_at p (Z.of_nat j))).
  - unfold cell_at in *. unfold nbrs. rewrite !elem_of_cons.
    destruct (p_horiz p); inversion Hcell; subst r c; cbn [fst snd];
      destruct Hij as [-> | ->].
    + right; left. f_equal; lia.
    + left. f_equal; lia.
    + do 3 right; left. f_equal; lia.
    + do 2 right; left. f_equal; lia.
  - apply inb_true. exact (shown_range b p _ (Hshown p Hp) Hn).
  - rewrite Hk. apply rd_lookup2. exact (Hid _ Hn).
Qed.

Lemma lone_cell_rejected_witness :
  sanitizeFleet (Some {| Sanitizer.board := Some Samples.lone_board |}) = None.
Proof.
  apply (lone_cell_rejected Samples.lone_board 7 3); [unfold SIZE; lia..| |].
  - vm_compute. discriminate.
  - intros n Hn _. unfold nbrs in Hn. rewrite !elem_of_cons, elem_of_nil in Hn.
    destruct Hn as [->|[->|[->|[->|[]]]]]; vm_compute; discriminate.
Defined.

End SoundFacts.

(** * The server follows the rules of the game *)

Module RulesFacts.
Import Grid GridFacts Mask MaskFacts ServerFacts Rules Placement Extraction FleetFacts SoundFacts.

(** *** Coordinates of a shot *)

Lemma clamp_range (x : Z) : 0 ≤ clamp (toInt32 x) 0 (SIZE - 1) < SIZE.
Proof. unfold clamp, SIZE. lia. Qed.

(** *** From the handler to the rules *)

Lemma set_room_lookup s code rm code' rm' :
  rooms (set_room s code rm) !! code' = Some rm' →
  (code' = code ∧ rm' = rm) ∨ rooms s !! code' = Some rm'.
Proof.
  cbn [set_room rooms]. rewrite lookup_insert. case_decide.
  - intros [= <-]. left. by split.
  - by right.
Qed.

(** One handler run leaves a room as it was, replaces it by a fresh one,
    or moves it by one or two steps of the rules. *)
Lemma handle_rooms env h ws msg s s' outs code rm' :
  handle env h ws msg s = Some (s', outs) → rooms s' !! code = Some rm' →
  rooms s !! code = Some rm'
  ∨ rm' = fresh_room (now env)
  ∨ ∃ rm, rooms s !! code = Some rm
          ∧ (room_step rm rm' ∨ ∃ rm1, room_step rm rm1 ∧ room_step rm1 rm').
Proof.
  destruct msg as [|msg_code|payload rdy|msg_r msg_c| | | | |]; cbn [handle];
    [| | | | | |discriminate
     |intros H; apply handle_fire_throws_same in H as [-> _]; auto|discriminate].
  - (* CREATE_ROOM *)
    intros [= <- _] Hrm'. apply set_room_lookup in Hrm' as [[_ ->]|Hold]; auto.
  - (* JOIN_ROOM *)
    unfold handle_join.
    destruct (rooms s !! trim msg_code) as [rm|] eqn:Hrm; [|intros [= <- _]; auto].
    destruct (Nat.leb_spec 2 (length (keys (players rm)))) as [Hfull|Hroom];
      [intros [= <- _]; auto|].
    cbv zeta. destruct (broadcastRoom _ _) as [o|]; [|discriminate].
    cbn [mbind option_bind]. intros [= <- _]. cbn [rooms].
    rewrite lookup_insert. case_decide as Hc; [|auto].
    intros [= <-]. subst code. right; right. exists rm. split; [exact Hrm|].
    left. by apply room_join.
  - (* PLACE_FLEET *)
    unfold handle_place.
    destruct (truthy (room ws)) as [code0|] eqn:Hcode; [|intros [= <- _]; auto].
    destruct (getRoom s ws) as [rm|] eqn:Hrm; [|intros [= <- _]; auto].
    apply getRoom_Some in Hrm as (code' & Hcode' & Hrm).
    rewrite Hcode in Hcode'. inversion Hcode'; subst code'. clear Hcode'.
    destruct (bool_decide_reflect (phase rm = placing)) as [Hph|Hph];
      [|intros [= <- _]; auto]. cbn [negb].
    destruct (playerId ws) as [k0|]; [|intros [= <- _]; auto]. cbn [mbind option_bind].
    destruct (pget k0 (players rm)) as [p|] eqn:Hp; [|intros [= <- _]; auto].
    cbn [fmap option_fmap option_map].
    destruct (Sanitizer.sanitizeFleet payload) as [[cb cs]|] eqn:Hclean;
      [|intros [= <- _]; auto].
    cbv zeta. set (rm1 := set_players rm _). set (s1 := set_room s code0 rm1).
    assert (Hstep1 : room_step rm rm1) by (by eapply room_place).
    destruct (broadcastRoom s1 (room ws)) as [o1|]; [|discriminate].
    cbn [mbind option_bind].
    destruct (all_ready rm1) eqn:Hready.
    + destruct (broadcastRoom _ _) as [o2|]; [|discriminate]. cbn [mbind option_bind].
      intros [= <- _] Hrm'. apply set_room_lookup in Hrm' as [[-> ->]|Hold]; [|auto].
      right; right. exists rm. split; [exact Hrm|]. right. exists rm1.
      split; [exact Hstep1|].
      apply (room_start rm1 (if coin env then 1 else 0)%nat); [exact Hph|exact Hready|].
      destruct (coin env); lia.
    + intros [= <- _] Hrm'. apply set_room_lookup in Hrm' as [[-> ->]|Hold]; [|auto].
      right; right. exists rm. split; [exact Hrm|]. by left.
  - (* FIRE *)
    unfold handle_fire.
    destruct (truthy (room ws)) as [code0|] eqn:Hcode; [|intros [= <- _]; auto].
    destruct (getRoom s ws) as [rm|] eqn:Hrm; [|intros [= <- _]; auto].
    apply getRoom_Some in Hrm as (code' & Hcode' & Hrm).
    rewrite Hcode in Hcode'. inversion Hcode'; subst code'. clear Hcode'.
    destruct (bool_decide_reflect (phase rm = battle)) as [Hph|Hph];
      [|intros [= <- _]; auto]. cbn [negb].
    destruct (bool_decide_reflect (turn rm = playerId ws)) as [Hturn|Hturn];
      [|intros [= <- _]; auto]. cbn [negb].
    destruct (playerId ws) as [k|] eqn:Hpid; [|intros [= <- _]; auto].
    cbn [mbind option_bind].
    destruct (pget k (players rm)) as [me|] eqn:Hme; [|intros [= <- _]; auto].
    cbn [fmap option_fmap option_map].
    destruct (otherPlayerId rm (Some k)) as [oppId|] eqn:Hopp; [|intros [= <- _]; auto].
    destruct (pget oppId (players rm)) as [opp|] eqn:Hoppp; [|discriminate].
    cbn [mbind option_bind]. cbv zeta.
    pose proof (clamp_range msg_r) as Hr. pose proof (clamp_range msg_c) as Hc.
    set (r := clamp (toInt32 msg_r) 0 (SIZE - 1)) in *.
    set (c := clamp (toInt32 msg_c) 0 (SIZE - 1)) in *.
    destruct (lookup2 (marks me) r c) as [mark|] eqn:Hmark; [|discriminate].
    cbn [mbind option_bind].
    destruct ((mark =? 2) || (mark =? 3)) eqn:Hfired; [intros [= <- _]; auto|].
    apply orb_false_iff in Hfired as [H2 H3].
    apply Z.eqb_neq in H2. apply Z.eqb_neq in H3.
    destruct (lookup2 (board opp) r c) as [cellId|] eqn:Hcell; [|discriminate].
    cbn [mbind option_bind].
    assert (Hfinish : ∀ rm0, room_step rm rm0 →
              (outs0 ← broadcastRoom (set_room s code0 rm0) (Some code0);
               Some (set_room s code0 rm0, outs0)) = Some (s', outs) →
              rooms s' !! code = Some rm' →
              rooms s !! code = Some rm'
              ∨ rm' = fresh_room (now env)
              ∨ ∃ rm, rooms s !! code = Some rm
                      ∧ (room_step rm rm' ∨ ∃ rm1, room_step rm rm1 ∧ room_step rm1 rm')).
    { intros rm0 Hstep. destruct (broadcastRoom _ _); [|discriminate].
      intros [= <- _] Hrm'. apply set_room_lookup in Hrm' as [[-> ->]|Hold]; [|auto].
      right; right. exists rm. split; [exact Hrm|]. by left. }
    apply truthy_Some in Hcode. rewrite Hcode.
    destruct (Z.eqb_spec cellId EMPTY) as [->|Hne].
    + destruct (store2 _ _ _ _) as [m|] eqn:Hm; [|discriminate]. cbn [mbind option_bind].
      apply Hfinish. by eapply (room_miss rm k me oppId opp r c mark m).
    + destruct (store2 _ _ _ _) as [m|] eqn:Hm; [|discriminate]. cbn [mbind option_bind].
      destruct (hit_ship _ _ _ _) as [ss|] eqn:Hss; [|discriminate].
      cbn [mbind option_bind].
      pose proof (room_hit rm k me oppId opp r c mark cellId m ss Hph Hturn Hme Hopp
                    Hoppp Hr Hc Hmark H2 H3 Hcell Hne Hm Hss) as Hstep.
      destruct (forallb sunk ss); cbn [mbind option_bind]; by apply Hfinish.
  - (* REQUEST_STATE *)
    unfold handle_request. destruct (getRoom s ws); [|intros [= <- _]; auto].
    destruct (roomStateFor _ _); [|discriminate]. intros [= <- _]. auto.
  - intros [= <- _]. auto.
Qed.

Lemma on_message_rooms env h ws msg s s' outs code rm' :
  on_message env h ws msg s = Some (s', outs) → rooms s' !! code = Some rm' →
  rooms s !! code = Some rm'
  ∨ rm' = fresh_room (now env)
  ∨ ∃ rm, rooms s !! code = Some rm
          ∧ (room_step rm rm' ∨ ∃ rm1, room_step rm rm1 ∧ room_step rm1 rm').
Proof.
  unfold on_message. destruct (RateLimit.ok _ _) as [lim pass].
  destruct pass; cbn [negb].
  - destruct msg as [m|]; [|intros [= <- _]; auto].
    intros Hm Hrm'. by destruct (handle_rooms _ _ _ _ _ _ _ _ _ Hm Hrm') as [H|H]; auto.
  - intros [= <- _]. auto.
Qed.

(** Every room of a reachable state of the server is a room that the
    rules reach from a fresh room. *)
Lemma reachable_rooms s :
  reachable s → ∀ code rm, rooms s !! code = Some rm → room_reachable rm.
Proof.
  induction 1 as [|s ev s' _ IH Hstep]; intros code rm' Hrm'.
  - cbn in Hrm'. by rewrite lookup_empty in Hrm'.
  - destruct Hstep as [env h s Hc|env h ws msg s s' outs Hc Hm|h ws s Hc].
    + by eapply IH.
    + destruct (on_message_rooms _ _ _ _ _ _ _ _ _ Hm Hrm')
        as [Hold|[->|(rm & Hrm & [Hs|(rm1 & Hs1 & Hs2)])]].
      * by eapply IH.
      * apply room_fresh.
      * eapply room_next; [|exact Hs]. by eapply IH.
      * eapply room_next; [|exact Hs2]. eapply room_next; [|exact Hs1]. by eapply IH.
    + unfold on_close, cleanupRooms in Hrm'. cbn [rooms] in Hrm'.
      apply map_lookup_filter_Some in Hrm' as [Hrm' _]. by eapply IH.
Qed.

(** *** The [players] object *)

Lemma pget_mem k ps p : pget k ps = Some p → (k, p) ∈ ps.
Proof.
  induction ps as [|[k' p'] ps IH]; cbn; [discriminate|].
  destruct (String.eqb_spec k' k) as [->|Hne].
  - intros [= ->]. by left.
  - intros H. right. by apply IH.
Qed.

Lemma mem_keys k (p : Player) ps : (k, p) ∈ ps → k ∈ keys ps.
Proof. intros H. unfold keys. by apply (list_elem_of_fmap_2 fst) in H. Qed.

Lemma pget_None k ps : pget k ps = None → k ∉ keys ps.
Proof.
  intros H Hk. apply pget_key in Hk as [p Hp]. congruence.
Qed.

Lemma mem_pget k p ps : NoDup (keys ps) → (k, p) ∈ ps → pget k ps = Some p.
Proof.
  induction ps as [|[k' p'] ps IH]; intros Hnd Hin; [inversion Hin|].
  cbn in Hnd. apply NoDup_cons in Hnd as [Hk' Hnd]. cbn.
  apply elem_of_cons in Hin as [[= -> ->]|Hin].
  - by rewrite String.eqb_refl.
  - destruct (String.eqb_spec k' k) as [->|Hne]; [|by apply IH].
    exfalso. apply Hk'. by eapply mem_keys.
Qed.

Lemma keys_pset_old k p ps : k ∈ keys ps → keys (pset k p ps) = keys ps.
Proof.
  induction ps as [|[k' p'] ps IH]; cbn; [intros H; inversion H|].
  destruct (String.eqb_spec k' k) as [->|Hne]; [reflexivity|].
  intros H. apply elem_of_cons in H as [H|H]; [congruence|]. cbn. f_equal. by apply IH.
Qed.

Lemma keys_pset k p ps :
  (k ∈ keys ps ∧ keys (pset k p ps) = keys ps)
  ∨ ((k ∉ keys ps) ∧ keys (pset k p ps) = keys ps ++ [k]).
Proof.
  destruct (pget k ps) as [q|] eqn:Hq.
  - left. assert (k ∈ keys ps) by (eapply mem_keys, pget_mem, Hq).
    split; [assumption|by apply keys_pset_old].
  - right. split; [by apply pget_None|by apply keys_pset_new].
Qed.

Lemma nodup_keys_pset k p ps : NoDup (keys ps) → NoDup (keys (pset k p ps)).
Proof.
  intros Hnd. destruct (keys_pset k p ps) as [[_ ->]|[Hk ->]]; [exact Hnd|].
  apply NoDup_app. split; [exact Hnd|]. split; [|apply NoDup_singleton].
  intros x Hx Hx'. apply list_elem_of_singleton in Hx'. by subst x.
Qed.

Lemma length_players ps : length (keys ps) = length ps.
Proof. unfold keys. apply length_map. Qed.

Lemma elem_of_pset k p ps k' p' :
  NoDup (keys ps) → (k', p') ∈ pset k p ps →
  (k' = k ∧ p' = p) ∨ (k' ≠ k ∧ (k', p') ∈ ps).
Proof.
  induction ps as [|[k0 p0] ps IH]; intros Hnd; cbn.
  - intros H. apply list_elem_of_singleton in H. inversion H. by left.
  - cbn in Hnd. apply NoDup_cons in Hnd as [Hk0 Hnd].
    destruct (String.eqb_spec k0 k) as [->|Hne]; intros H;
      apply elem_of_cons in H as [[= -> ->]|H].
    + by left.
    + right. split; [|by right]. intros ->. apply Hk0. by eapply mem_keys.
    + right. split; [exact Hne|by left].
    + destruct (IH Hnd H) as [?|[? ?]]; [by left|]. right. split; [assumption|by right].
Qed.

Lemma pset_mem k p ps : (k, p) ∈ pset k p ps.
Proof. apply pget_mem, pget_pset_eq. Qed.

(** In a room of two, a key that is not one player's is the other's. *)
Lemma third_key (l : list string) k o b :
  NoDup l → length l = 2%nat → k ∈ l → o ∈ l → b ∈ l → k ≠ o → b ≠ k → b = o.
Proof.
  intros Hnd Hlen Hk Ho Hb Hko Hbk.
  destruct l as [|x [|y [|z l]]]; try discriminate.
  rewrite !elem_of_cons, elem_of_nil in Hk, Ho, Hb. intuition congruence.
Qed.

Lemma otherPlayerId_key rm k o :
  otherPlayerId rm (Some k) = Some o → o ∈ keys (players rm) ∧ o ≠ k.
Proof.
  unfold otherPlayerId. intros H. apply truthy_Some in H.
  pose proof (find_elem _ _ _ H) as Hin. split; [exact Hin|].
  apply find_some in H as [_ H]. cbn in H. apply negb_true_iff in H.
  by apply String.eqb_neq in H.
Qed.

(** *** Grids *)

Lemma lookup2_store2 {A} (g g' : list (list A)) r c v r' c' :
  store2 g r c v = Some g' →
  lookup2 g' r' c' = if decide ((r', c') = (r, c)) then Some v else lookup2 g r' c'.
Proof.
  unfold store2. destruct (lookup2 g r c) as [x|] eqn:Hx; [|discriminate].
  intros [= <-]. fold (wr g r c v).
  assert (0 ≤ r ∧ 0 ≤ c) as [Hr Hc].
  { unfold lookup2 in Hx. destruct (Z.ltb_spec r 0); [discriminate|].
    destruct (Z.ltb_spec c 0); [discriminate|]. lia. }
  destruct (decide ((r', c') = (r, c))) as [[= -> ->]|Hne].
  - by apply (lookup2_wr_same g r c v x).
  - by apply lookup2_wr_other.
Qed.

Lemma lookup2_emptyBoard r c v : lookup2 emptyBoard r c = Some v → v = EMPTY.
Proof.
  unfold lookup2, emptyBoard, fill. destruct (_ || _); [discriminate|].
  destruct (replicate _ _ !! Z.to_nat r) as [row|] eqn:Hrow; [|discriminate].
  apply lookup_replicate in Hrow as [-> _]. cbn. intros H.
  by apply lookup_replicate in H as [-> _].
Qed.

(** *** Fleets *)

Lemma carries_to_ship (fl : list Placed) : carries (map to_ship fl) fl.
Proof. unfold carries. induction fl; constructor; [by repeat split|assumption]. Qed.

Lemma carries_ids ss fl : carries ss fl → map sid ss = map p_id fl.
Proof. induction 1 as [|s q ss fl (H & _) _ IH]; cbn; [reflexivity|]. by rewrite H, IH. Qed.

Lemma carries_mem ss fl s :
  carries ss fl → s ∈ ss →
  ∃ q, q ∈ fl ∧ sid s = p_id q ∧ slength s = p_len q ∧ scells s = cells_of q.
Proof.
  induction 1 as [|s0 q0 ss fl H _ IH]; intros Hs; [inversion Hs|].
  apply elem_of_cons in Hs as [->|Hs].
  - exists q0. split; [by left|exact H].
  - destruct (IH Hs) as (q & Hq & Hrel). exists q. split; [by right|exact Hrel].
Qed.

Lemma carries_mem_r ss fl q :
  carries ss fl → q ∈ fl →
  ∃ s, s ∈ ss ∧ sid s = p_id q ∧ slength s = p_len q ∧ scells s = cells_of q.
Proof.
  induction 1 as [|s0 q0 ss fl H _ IH]; intros Hq; [inversion Hq|].
  apply elem_of_cons in Hq as [->|Hq].
  - exists s0. split; [by left|exact H].
  - destruct (IH Hq) as (s & Hs & Hrel). exists s. split; [by right|exact Hrel].
Qed.

Lemma fleet_ok_fresh pid : fleet_ok (fresh_player pid).
Proof.
  exists []. split; [constructor|]. split; [|split; [by left|discriminate]].
  split; [apply shaped_fill|]. split; [intros p x Hp; inversion Hp|].
  intros r c Hr Hc _. by apply lookup2_fill.
Qed.

Lemma fleet_ok_same p p' :
  board p' = board p → ships p' = ships p → ready p' = ready p →
  fleet_ok p → fleet_ok p'.
Proof. unfold fleet_ok. by intros -> -> ->. Qed.

Lemma fleet_ok_clean payload cb cs p rdy :
  Sanitizer.sanitizeFleet payload = Some (cb, cs) →
  fleet_ok {| id := id p; board := cb; ships := cs; marks := marks p; ready := rdy |}.
Proof.
  destruct payload as [[[b|]]|]; [|discriminate|discriminate]. intros Hacc.
  destruct (accepted_runs b cb cs Hacc)
    as (ps & _ & Hshown & Hapart & _ & _ & Hlens & -> & ->).
  destruct (renamed_valid b ps Hshown Hapart Hlens) as (Hids & Hvalid & Henc).
  exists (imap renamed ps). cbn [ships board ready].
  split; [rewrite renamed_ship; apply carries_to_ship|].
  split; [exact Henc|]. split; [right; by split|].
  intros _ Hnil. rewrite Hnil in Hids. discriminate.
Qed.

Lemma clean_untouched payload cb cs :
  Sanitizer.sanitizeFleet payload = Some (cb, cs) → Forall (fun s => shits s = []) cs.
Proof.
  destruct payload as [[[b|]]|]; [|discriminate|discriminate]. intros Hacc.
  destruct (accepted_runs b cb cs Hacc) as (ps & _ & _ & _ & _ & _ & _ & -> & _).
  apply Forall_forall. intros s Hs.
  by apply elem_of_lookup_imap in Hs as (i & p & -> & _).
Qed.

(** The ship that a non-empty cell of a player's board belongs to. *)
Lemma fleet_cell p r c w :
  fleet_ok p → 0 ≤ r < SIZE → 0 ≤ c < SIZE →
  lookup2 (board p) r c = Some w → w ≠ EMPTY →
  NoDup (map sid (ships p))
  ∧ (∃ s, s ∈ ships p ∧ sid s = w)
  ∧ ∀ s, s ∈ ships p → ((r, c) ∈ scells s ↔ sid s = w).
Proof.
  intros (fl & Hcar & (Hsh & Hon & Hoff) & Hfl & _) Hr Hc Hw Hne.
  destruct Hfl as [->|[Hvalid Hids]].
  { rewrite Hoff in Hw; try assumption; [by inversion Hw|]. intros q Hq. inversion Hq. }
  assert (Hnd : NoDup (map p_id fl)) by (by destruct Hvalid as (_ & ? & _)).
  destruct (decide (Exists (fun q => (r, c) ∈ cells_of q) fl)) as [Hex|Hno].
  2:{ rewrite Hoff in Hw; try assumption; [by inversion Hw|].
      intros q Hq Hx. apply Hno. apply Exists_exists. eauto. }
  apply Exists_exists in Hex as (q0 & Hq0 & Hx0).
  assert (Hw0 : p_id q0 = w).
  { pose proof (Hon q0 (r, c) Hq0 Hx0) as H. cbn [fst snd] in H. congruence. }
  split; [by rewrite (carries_ids _ _ Hcar)|]. split.
  - destruct (carries_mem_r _ _ q0 Hcar Hq0) as (s & Hs & Hid & _).
    exists s. split; [exact Hs|congruence].
  - intros s Hs. destruct (carries_mem _ _ s Hcar Hs) as (q & Hq & Hid & _ & Hcells).
    rewrite Hcells, Hid. split.
    + intros Hx. pose proof (Hon q (r, c) Hq Hx) as H. cbn [fst snd] in H. congruence.
    + intros Hqw. assert (q = q0); [|by subst].
      apply (nodup_ids_inj fl); try assumption. congruence.
Qed.

(** *** Hits *)

Lemma hit_ship_total cellId r c ss :
  (∃ s, s ∈ ss ∧ sid s = cellId) → is_Some (hit_ship cellId r c ss).
Proof.
  induction ss as [|s0 ss IH]; intros (s & Hs & Hid); [inversion Hs|]. cbn.
  destruct (Z.eqb_spec (sid s0) cellId) as [_|Hne]; [by eexists|].
  apply elem_of_cons in Hs as [->|Hs]; [congruence|].
  destruct IH as [ss' ->]; [eauto|]. by eexists.
Qed.

(** With identifiers all different, the ship found is the only one hit. *)
Lemma hit_ship_map cellId r c ss ss' :
  NoDup (map sid ss) → hit_ship cellId r c ss = Some ss' →
  ss' = map (fun s => if sid s =? cellId then add_hit r c s else s) ss.
Proof.
  revert ss'. induction ss as [|s0 ss IH]; intros ss' Hnd; cbn; [discriminate|].
  cbn in Hnd. apply NoDup_cons in Hnd as [Hs0 Hnd].
  destruct (Z.eqb_spec (sid s0) cellId) as [Heq|Hne].
  - intros [= <-]. f_equal. symmetry. rewrite <- (map_id ss) at 2.
    apply map_ext_in. intros s Hs. apply list_elem_of_In in Hs.
    destruct (Z.eqb_spec (sid s) cellId) as [Heq'|]; [|reflexivity].
    exfalso. apply Hs0. rewrite Heq, <- Heq'. by apply list_elem_of_fmap_2.
  - destruct (hit_ship cellId r c ss) as [ss0|]; [|discriminate]. cbn.
    intros [= <-]. f_equal. by apply IH.
Qed.

(** *** The invariant of a room *)

Lemma game_inv_fresh t : game_inv (fresh_room t).
Proof.
  unfold game_inv, fresh_room, wf_room. cbn.
  split; [constructor|]. split; [constructor|]. split; [lia|].
  split; [intros k p H; inversion H|].
  split; [intros _; split; [reflexivity|split; [reflexivity|intros k p H; inversion H]]|].
  split; [intros H; by destruct H|]. split; discriminate.
Qed.

Lemma wf_room_mem rm k p :
  wf_room rm → (k, p) ∈ players rm → shaped (board p) ∧ shaped (marks p).
Proof.
  unfold wf_room. rewrite Forall_forall. intros H Hin. exact (H (k, p) Hin).
Qed.

Lemma game_inv_join rm pid :
  game_inv rm → (length (keys (players rm)) < 2)%nat →
  game_inv (set_players rm (pset pid (fresh_player pid) (players rm))).
Proof.
  intros (Hwf & Hnd & Hlen & Hfleet & Hpl & Hnp & Hbw & Hgo) Hroom.
  assert (Hph : phase rm = placing).
  { destruct (decide (phase rm = placing)) as [|Hne]; [assumption|].
    destruct (Hnp Hne) as (H2 & _). rewrite length_players in Hroom. lia. }
  destruct (Hpl Hph) as (Ht & Hw & Hunt).
  assert (Hmem : ∀ k p, (k, p) ∈ pset pid (fresh_player pid) (players rm) →
            p = fresh_player pid ∨ (k, p) ∈ players rm).
  { intros k p H. destruct (elem_of_pset _ _ _ _ _ Hnd H) as [[_ ->]|[_ ?]]; auto. }
  unfold game_inv. cbn [set_players phase turn winner players].
  split. { apply wf_room_pset; [exact Hwf| |]; apply shaped_fill. }
  split; [by apply nodup_keys_pset|].
  split.
  { rewrite <- length_players.
    destruct (keys_pset pid (fresh_player pid) (players rm)) as [[_ ->]|[_ ->]];
      [rewrite length_players; lia|rewrite length_app; cbn; lia]. }
  split.
  { intros k p H. destruct (Hmem k p H) as [->|H']; [apply fleet_ok_fresh|by eapply Hfleet]. }
  split.
  { intros _. split; [exact Ht|]. split; [exact Hw|]. intros k p H.
    destruct (Hmem k p H) as [->|H']; [split; [reflexivity|constructor]|by eapply Hunt]. }
  split; [intros H; by destruct H|].
  split; intros H; rewrite Hph in H; discriminate.
Qed.

Lemma game_inv_place rm k p payload cb cs rdy :
  game_inv rm → phase rm = placing → pget k (players rm) = Some p →
  Sanitizer.sanitizeFleet payload = Some (cb, cs) →
  game_inv (set_players rm
              (pset k {| id := id p; board := cb; ships := cs; marks := marks p;
                         ready := rdy |} (players rm))).
Proof.
  intros (Hwf & Hnd & Hlen & Hfleet & Hpl & Hnp & Hbw & Hgo) Hph Hp Hclean.
  destruct (Hpl Hph) as (Ht & Hw & Hunt).
  pose proof (pget_mem _ _ _ Hp) as Hin.
  set (p' := {| id := id p; board := cb; ships := cs; marks := marks p; ready := rdy |}).
  assert (Hmem : ∀ k0 p0, (k0, p0) ∈ pset k p' (players rm) →
            p0 = p' ∨ (k0, p0) ∈ players rm).
  { intros k0 p0 H. destruct (elem_of_pset _ _ _ _ _ Hnd H) as [[_ ->]|[_ ?]]; auto. }
  unfold game_inv. cbn [set_players phase turn winner players].
  split.
  { apply wf_room_pset; [exact Hwf| |]; cbn.
    - by eapply sanitizeFleet_shaped.
    - by destruct (wf_room_mem rm k p Hwf Hin). }
  split; [by apply nodup_keys_pset|].
  split.
  { rewrite <- length_players, keys_pset_old, length_players; [exact Hlen|].
    by eapply mem_keys. }
  split.
  { intros k0 p0 H. destruct (Hmem k0 p0 H) as [->|H']; [|by eapply Hfleet].
    by eapply fleet_ok_clean. }
  split.
  { intros _. split; [exact Ht|]. split; [exact Hw|]. intros k0 p0 H.
    destruct (Hmem k0 p0 H) as [->|H']; [|by eapply Hunt].
    split; [exact (proj1 (Hunt k p Hin))|by eapply clean_untouched]. }
  split; [intros H; by destruct H|].
  split; intros H; rewrite Hph in H; discriminate.
Qed.

Lemma game_inv_start rm n :
  game_inv rm → phase rm = placing → all_ready rm = true → (n < 2)%nat →
  game_inv {| createdAt := createdAt rm; phase := battle;
              turn := keys (players rm) !! n; winner := winner rm;
              players := players rm |}.
Proof.
  intros (Hwf & Hnd & Hlen & Hfleet & Hpl & Hnp & Hbw & Hgo) Hph Hready Hn.
  destruct (Hpl Hph) as (Ht & Hw & Hunt).
  destruct (all_ready_turn rm n Hready Hn) as [kt Hkt].
  unfold all_ready in Hready. apply andb_true_iff in Hready as [Htwo Hall].
  apply Nat.eqb_eq in Htwo. rewrite forallb_forall in Hall.
  unfold game_inv. cbn [phase turn winner players].
  split; [exact Hwf|]. split; [exact Hnd|]. split; [exact Hlen|]. split; [exact Hfleet|].
  split; [discriminate|]. split; [|split; [by intros _|discriminate]].
  intros _. split; [by rewrite <- length_players|]. split.
  { intros k p Hin. specialize (Hall k). rewrite <- list_elem_of_In in Hall.
    specialize (Hall (mem_keys _ _ _ Hin)). by rewrite (mem_pget k p _ Hnd Hin) in Hall. }
  split.
  { exists kt. split; [exact Hkt|]. eapply list_elem_of_lookup_2, Hkt. }
  intros k p k' p' Hin Hin' _.
  destruct (Hunt k p Hin) as [Hmarks _]. destruct (Hunt k' p' Hin') as [_ Hhits].
  rewrite Hmarks. split.
  - intros r c Hr Hc.
    destruct (wf_room_mem rm k' p' Hwf Hin') as [Hb _].
    destruct (shaped_lookup2 (board p') r c Hb Hr Hc) as [w Hw'].
    exists 0, w. split; [by apply lookup2_fill|]. split; [exact Hw'|]. by left.
  - intros s Hs. rewrite Forall_forall in Hhits. rewrite (Hhits s Hs).
    split; [constructor|]. intros x. split; [intros H; inversion H|].
    intros [_ H]. apply lookup2_emptyBoard in H. discriminate.
Qed.

(** Two players, one of them me and the other my opponent. *)
Lemma pair_cases ps k me o opp :
  NoDup (keys ps) → length ps = 2%nat →
  pget k ps = Some me → pget o ps = Some opp → o ≠ k →
  ∀ x px, (x, px) ∈ ps → (x = k ∧ px = me) ∨ (x = o ∧ px = opp).
Proof.
  intros Hnd Hlen Hme Hopp Hne x px Hin.
  pose proof (mem_pget x px ps Hnd Hin) as Hx.
  destruct (decide (x = k)) as [->|Hxk]; [left; split; congruence|].
  right. assert (x = o); [|split; congruence].
  apply (third_key (keys ps) k o x); try assumption.
  - by rewrite length_players.
  - eapply mem_keys, pget_mem, Hme.
  - eapply mem_keys, pget_mem, Hopp.
  - by eapply mem_keys.
  - congruence.
Qed.

Lemma same_ships_refl ss : same_ships ss ss.
Proof. unfold same_ships. induction ss; constructor; [by repeat split|assumption]. Qed.

Lemma same_ships_carries ss' ss fl : same_ships ss' ss → carries ss fl → carries ss' fl.
Proof.
  unfold same_ships, carries. intros H. revert fl.
  induction H as [|s' s ss' ss (H1 & H2 & H3) _ IH]; intros fl Hc; inversion Hc; subst;
    constructor; [|by apply IH].
  rewrite H1, H2, H3. assumption.
Qed.

Lemma same_ships_hit cellId r c ss :
  same_ships (map (fun s => if sid s =? cellId then add_hit r c s else s) ss) ss.
Proof.
  unfold same_ships. induction ss as [|s ss IH]; cbn; constructor; [|exact IH].
  by destruct (sid s =? cellId).
Qed.

Lemma set_ships_same opp : set_ships opp (ships opp) = opp.
Proof. by destruct opp. Qed.

(** The room after a shot, whatever came of it: the shooter [k] has the
    new marks [m], the opponent [o] the ship records [ss]. *)
Lemma game_inv_shot rm k me o opp ps' ph' tn' wn' m ss :
  game_inv rm → phase rm = battle →
  pget k (players rm) = Some me → pget o (players rm) = Some opp →
  o ∈ keys (players rm) → o ≠ k →
  NoDup (keys ps') → length ps' = 2%nat →
  (∀ x px, (x, px) ∈ ps' ↔
     (x = k ∧ px = set_marks me m) ∨ (x = o ∧ px = set_ships opp ss)) →
  shaped m → marks_on m (board opp) → hits_on m ss → same_ships ss (ships opp) →
  (ph' = battle ∧ wn' = None ∧ (tn' = Some k ∨ tn' = Some o))
  ∨ (ph' = gameover ∧ wn' = Some k ∧ forallb sunk ss = true ∧ tn' = Some k) →
  game_inv {| createdAt := createdAt rm; phase := ph'; turn := tn'; winner := wn';
              players := ps' |}.
Proof.
  intros (Hwf & Hnd & Hlen & Hfleet & Hpl & Hnp & Hbw & Hgo) Hph Hme Hopp Hok Hne
         Hnd' Hlen' Hmem Hm Hmarks Hhits Hsame Hout.
  assert (Hbattle : phase rm ≠ placing) by (rewrite Hph; discriminate).
  destruct (Hnp Hbattle) as (Htwo & Hrdy & _ & Hpairs).
  pose proof (pget_mem _ _ _ Hme) as Hin. pose proof (pget_mem _ _ _ Hopp) as Hin'.
  assert (Hkk : k ∈ keys ps' ∧ o ∈ keys ps').
  { split; eapply mem_keys; apply Hmem; [left|right]; split; reflexivity. }
  destruct Hkk as [Hk' Ho'].
  assert (Hko : k ≠ o) by congruence.
  destruct (Hpairs k me o opp Hin Hin' Hko) as [Hmo Hho].
  destruct (Hpairs o opp k me Hin' Hin Hne) as [Hmo' Hho'].
  unfold game_inv. cbn [phase turn winner players].
  split.
  { unfold wf_room. cbn [players]. apply Forall_forall. intros [x px] Hx.
    apply Hmem in Hx as [[-> ->]|[-> ->]]; cbn.
    - split; [|exact Hm]. by destruct (wf_room_mem rm k me Hwf Hin).
    - exact (wf_room_mem rm o opp Hwf Hin'). }
  split; [exact Hnd'|]. split; [lia|].
  split.
  { intros x px Hx. apply Hmem in Hx as [[-> ->]|[-> ->]].
    - apply (fleet_ok_same me); try reflexivity. by eapply Hfleet.
    - destruct (Hfleet o opp Hin') as (fl & Hcar & Hrest).
      exists fl. split; [|exact Hrest]. cbn. by apply (same_ships_carries ss (ships opp)). }
  split.
  { intros Hp. destruct Hout as [(-> & _)|(-> & _)]; discriminate. }
  split.
  { intros _. split; [exact Hlen'|]. split.
    { intros x px Hx. apply Hmem in Hx as [[-> ->]|[-> ->]]; cbn; by eapply Hrdy. }
    split.
    { destruct Hout as [(_ & _ & [-> | ->])|(_ & _ & _ & ->)]; eauto. }
    intros x px y py Hx Hy Hxy.
    apply Hmem in Hx as [[-> ->]|[-> ->]]; apply Hmem in Hy as [[-> ->]|[-> ->]];
      try congruence; cbn; by split. }
  split.
  { intros Hb. destruct Hout as [(_ & -> & _)|(-> & _)]; [reflexivity|discriminate]. }
  intros Hg. destruct Hout as [(-> & _)|(_ & -> & Hsunk & _)]; [discriminate|].
  exists k, o, (set_ships opp ss). split; [reflexivity|]. split; [exact Hk'|].
  split; [apply Hmem; right; by split|]. split; [exact Hne|exact Hsunk].
Qed.

Lemma game_inv_miss rm k me oppId opp r c mark m :
  game_inv rm →
  phase rm = battle → turn rm = Some k → pget k (players rm) = Some me →
  otherPlayerId rm (Some k) = Some oppId → pget oppId (players rm) = Some opp →
  0 ≤ r < SIZE → 0 ≤ c < SIZE →
  lookup2 (marks me) r c = Some mark → mark ≠ 2 → mark ≠ 3 →
  lookup2 (board opp) r c = Some EMPTY →
  store2 (marks me) r c 3 = Some m →
  game_inv {| createdAt := createdAt rm; phase := phase rm; turn := Some oppId;
              winner := winner rm;
              players := pset k (set_marks me m) (players rm) |}.
Proof.
  intros Hinv Hph Hturn Hme Hother Hopp Hr Hc Hmark H2 H3 Hcell Hm.
  pose proof Hinv as (Hwf & Hnd & Hlen & Hfleet & Hpl & Hnp & Hbw & Hgo).
  assert (Hbattle : phase rm ≠ placing) by (rewrite Hph; discriminate).
  destruct (Hnp Hbattle) as (Htwo & Hrdy & _ & Hpairs).
  destruct (otherPlayerId_key rm k oppId Hother) as [Hok Hne].
  pose proof (pget_mem _ _ _ Hme) as Hin. pose proof (pget_mem _ _ _ Hopp) as Hin'.
  destruct (Hpairs k me oppId opp Hin Hin' ltac:(congruence)) as [Hmo Hho].
  destruct (wf_room_mem rm k me Hwf Hin) as [_ Hshm].
  apply (game_inv_shot rm k me oppId opp _ _ _ _ m (ships opp)); try assumption.
  - by apply nodup_keys_pset.
  - rewrite <- length_players, keys_pset_old, length_players; [exact Htwo|].
    by eapply mem_keys.
  - intros x px. rewrite set_ships_same. split.
    + intros H. destruct (elem_of_pset _ _ _ _ _ Hnd H) as [?|[Hxk Hx]]; [by left|].
      destruct (pair_cases _ k me oppId opp Hnd Htwo Hme Hopp Hne x px Hx) as [[? _]|?];
        [congruence|by right].
    + intros [[-> ->]|[-> ->]]; [apply pset_mem|].
      apply pget_mem. by rewrite pget_pset_ne.
  - by eapply store2_shaped.
  - intros r' c' Hr' Hc'. destruct (Hmo r' c' Hr' Hc') as (v & w & Hv & Hw & Hvw).
    rewrite (lookup2_store2 _ _ _ _ _ r' c' Hm).
    destruct (decide ((r', c') = (r, c))) as [[= -> ->]|Hne'].
    + exists 3, w. split; [reflexivity|]. split; [exact Hw|]. right; right.
      split; [reflexivity|]. congruence.
    + exists v, w. by repeat split.
  - intros s Hs. destruct (Hho s Hs) as [Hnds Hiff]. split; [exact Hnds|].
    intros [xr xc]. rewrite (Hiff (xr, xc)). cbn [fst snd].
    rewrite (lookup2_store2 _ _ _ _ _ xr xc Hm).
    destruct (decide ((xr, xc) = (r, c))) as [[= -> ->]|Hne']; [|reflexivity].
    split; intros [_ H]; [congruence|discriminate].
  - apply same_ships_refl.
  - left. split; [exact Hph|]. split; [by apply Hbw|by right].
Qed.

Lemma add_hit_new r c s :
  (r, c) ∉ shits s → shits (add_hit r c s) = shits s ++ [(r, c)].
Proof.
  intros Hnew. cbn. destruct (existsb _ (shits s)) eqn:E; [|reflexivity].
  exfalso. apply existsb_exists in E as ([xr xc] & Hx & E). cbn in E.
  apply andb_true_iff in E as [E1 E2]. apply Z.eqb_eq in E1, E2. subst.
  by apply list_elem_of_In in Hx.
Qed.

Lemma game_inv_hit rm k me oppId opp r c mark cellId m ss :
  game_inv rm →
  phase rm = battle → turn rm = Some k → pget k (players rm) = Some me →
  otherPlayerId rm (Some k) = Some oppId → pget oppId (players rm) = Some opp →
  0 ≤ r < SIZE → 0 ≤ c < SIZE →
  lookup2 (marks me) r c = Some mark → mark ≠ 2 → mark ≠ 3 →
  lookup2 (board opp) r c = Some cellId → cellId ≠ EMPTY →
  store2 (marks me) r c 2 = Some m →
  hit_ship cellId r c (ships opp) = Some ss →
  game_inv
    (if forallb sunk ss then
       {| createdAt := createdAt rm; phase := gameover; turn := turn rm;
          winner := Some k;
          players := pset oppId (set_ships opp ss)
                       (pset k (set_marks me m) (players rm)) |}
     else
       {| createdAt := createdAt rm; phase := phase rm; turn := Some oppId;
          winner := winner rm;
          players := pset oppId (set_ships opp ss)
                       (pset k (set_marks me m) (players rm)) |}).
Proof.
  intros Hinv Hph Hturn Hme Hother Hopp Hr Hc Hmark H2 H3 Hcell Hcne Hm Hss.
  pose proof Hinv as (Hwf & Hnd & Hlen & Hfleet & Hpl & Hnp & Hbw & Hgo).
  assert (Hbattle : phase rm ≠ placing) by (rewrite Hph; discriminate).
  destruct (Hnp Hbattle) as (Htwo & Hrdy & _ & Hpairs).
  destruct (otherPlayerId_key rm k oppId Hother) as [Hok Hne].
  pose proof (pget_mem _ _ _ Hme) as Hin. pose proof (pget_mem _ _ _ Hopp) as Hin'.
  destruct (Hpairs k me oppId opp Hin Hin' ltac:(congruence)) as [Hmo Hho].
  destruct (wf_room_mem rm k me Hwf Hin) as [_ Hshm].
  destruct (fleet_cell opp r c cellId (Hfleet oppId opp Hin') Hr Hc Hcell Hcne)
    as (Hids & _ & Hown).
  pose proof (hit_ship_map cellId r c (ships opp) ss Hids Hss) as Hmap.
  assert (Hk : k ∈ keys (players rm)) by (by eapply mem_keys).
  assert (Hnd1 : NoDup (keys (pset k (set_marks me m) (players rm))))
    by (by apply nodup_keys_pset).
  assert (Hkeys1 : keys (pset k (set_marks me m) (players rm)) = keys (players rm))
    by (by apply keys_pset_old).
  set (ps'' := pset oppId (set_ships opp ss) (pset k (set_marks me m) (players rm))).
  assert (Hshot : ∀ ph' tn' wn',
    (ph' = battle ∧ wn' = None ∧ (tn' = Some k ∨ tn' = Some oppId))
    ∨ (ph' = gameover ∧ wn' = Some k ∧ forallb sunk ss = true ∧ tn' = Some k) →
    game_inv {| createdAt := createdAt rm; phase := ph'; turn := tn'; winner := wn';
                players := ps'' |}).
  { intros ph' tn' wn' Hout.
    apply (game_inv_shot rm k me oppId opp ps'' ph' tn' wn' m ss); try assumption.
    - by apply nodup_keys_pset.
    - unfold ps''. rewrite <- length_players, keys_pset_old, Hkeys1, length_players;
        [exact Htwo|by rewrite Hkeys1].
    - intros x px. split.
      + intros H. destruct (elem_of_pset _ _ _ _ _ Hnd1 H) as [?|[Hxo Hx]]; [by right|].
        destruct (elem_of_pset _ _ _ _ _ Hnd Hx) as [?|[Hxk Hx']]; [by left|].
        destruct (pair_cases _ k me oppId opp Hnd Htwo Hme Hopp Hne x px Hx')
          as [[? _]|[? _]]; congruence.
      + intros [[-> ->]|[-> ->]]; [|apply pset_mem].
        apply pget_mem. unfold ps''. rewrite pget_pset_ne by congruence.
        apply pget_pset_eq.
    - by eapply store2_shaped.
    - intros r' c' Hr' Hc'. destruct (Hmo r' c' Hr' Hc') as (v & w & Hv & Hw & Hvw).
      rewrite (lookup2_store2 _ _ _ _ _ r' c' Hm).
      destruct (decide ((r', c') = (r, c))) as [[= -> ->]|Hne'].
      + exists 2, w. split; [reflexivity|]. split; [exact Hw|]. right; left.
        split; [reflexivity|]. congruence.
      + exists v, w. by repeat split.
    - intros s' Hs'. rewrite Hmap in Hs'. apply list_elem_of_fmap in Hs' as (s & -> & Hs).
      destruct (Hho s Hs) as [Hnds Hiff]. pose proof (Hown s Hs) as Hrc.
      destruct (Z.eqb_spec (sid s) cellId) as [Hid|Hid].
      * assert (Hnew : (r, c) ∉ shits s).
        { intros H. apply Hiff in H as [_ H]. cbn [fst snd] in H. congruence. }
        rewrite (add_hit_new r c s Hnew). cbn [add_hit scells]. split.
        { apply NoDup_app. split; [exact Hnds|]. split; [|apply NoDup_singleton].
          intros x Hx Hx'. apply list_elem_of_singleton in Hx'. by subst x. }
        intros [xr xc]. rewrite elem_of_app, list_elem_of_singleton, (Hiff (xr, xc)).
        cbn [fst snd]. rewrite (lookup2_store2 _ _ _ _ _ xr xc Hm).
        destruct (decide ((xr, xc) = (r, c))) as [[= -> ->]|Hne'].
        -- split; [intros _|by right]. split; [by apply Hrc|reflexivity].
        -- split; [intros [H|H]; [exact H|congruence]|by left].
      * split; [exact Hnds|]. intros [xr xc]. rewrite (Hiff (xr, xc)). cbn [fst snd].
        rewrite (lookup2_store2 _ _ _ _ _ xr xc Hm).
        destruct (decide ((xr, xc) = (r, c))) as [[= -> ->]|Hne']; [|reflexivity].
        split; intros [Hx _]; exfalso; apply Hid; by apply Hrc.
    - rewrite Hmap. apply same_ships_hit. }
  destruct (forallb sunk ss) eqn:Hsunk; apply Hshot.
  - right. by repeat split.
  - left. split; [exact Hph|]. split; [by apply Hbw|by right].
Qed.

Lemma game_inv_step rm rm' : game_inv rm → room_step rm rm' → game_inv rm'.
Proof.
  intros Hinv Hstep.
  destruct Hstep as [rm pid Hroom|rm k p payload cb cs rdy Hph Hp Hclean|rm n Hph Hready Hn
                    |rm k me oppId opp r c mark m Hph Hturn Hme Hother Hopp Hr Hc Hmark
                       H2 H3 Hcell Hm
                    |rm k me oppId opp r c mark cellId m ss Hph Hturn Hme Hother Hopp Hr Hc
                       Hmark H2 H3 Hcell Hne Hm Hss].
  - by apply game_inv_join.
  - by apply (game_inv_place rm k p payload).
  - by apply game_inv_start.
  - by apply (game_inv_miss rm k me oppId opp r c mark m).
  - by apply (game_inv_hit rm k me oppId opp r c mark cellId m ss).
Qed.

Lemma room_reachable_inv rm : room_reachable rm → game_inv rm.
Proof.
  induction 1 as [t|rm rm' _ IH Hstep]; [apply game_inv_fresh|by eapply game_inv_step].
Qed.

Lemma reachable_game_inv s code rm :
  reachable s → rooms s !! code = Some rm → game_inv rm.
Proof. intros Hs Hrm. eapply room_reachable_inv, reachable_rooms; eassumption. Qed.

(** *** Marks and hits in every phase *)

Lemma game_pairs rm k p k' p' :
  game_inv rm → (k, p) ∈ players rm → (k', p') ∈ players rm → k ≠ k' →
  marks_on (marks p) (board p') ∧ hits_on (marks p) (ships p').
Proof.
  intros (Hwf & Hnd & Hlen & Hfleet & Hpl & Hnp & Hbw & Hgo) Hin Hin' Hne.
  destruct (decide (phase rm = placing)) as [Hph|Hph].
  - destruct (Hpl Hph) as (_ & _ & Hunt).
    destruct (Hunt k p Hin) as [Hmarks _]. destruct (Hunt k' p' Hin') as [_ Hhits].
    rewrite Hmarks. split.
    + intros r c Hr Hc.
      destruct (wf_room_mem rm k' p' Hwf Hin') as [Hb _].
      destruct (shaped_lookup2 (board p') r c Hb Hr Hc) as [w Hw'].
      exists 0, w. split; [by apply lookup2_fill|]. split; [exact Hw'|]. by left.
    + intros s Hs. rewrite Forall_forall in Hhits. rewrite (Hhits s Hs).
      split; [constructor|]. intros x. split; [intros H; inversion H|].
      intros [_ H]. apply lookup2_emptyBoard in H. discriminate.
  - destruct (Hnp Hph) as (_ & _ & _ & Hpairs). by apply (Hpairs k p k' p').
Qed.

Lemma cells_nodup (q : Placed) : NoDup (cells_of q).
Proof.
  unfold cells_of. change (NoDup ((fun i => cell_at q (Z.of_nat i)) <$> seq 0 (p_len q))).
  apply NoDup_fmap_2_strong; [|apply NoDup_seq].
  intros i j _ _. unfold cell_at. destruct (p_horiz q); intros [= H]; lia.
Qed.

(** The ships of a stored fleet: distinct cells, as many as the length. *)
Lemma fleet_ship p s :
  fleet_ok p → s ∈ ships p → NoDup (scells s) ∧ length (scells s) = slength s.
Proof.
  intros (fl & Hcar & _) Hs.
  destruct (carries_mem _ _ s Hcar Hs) as (q & _ & _ & Hlen & Hcells).
  rewrite Hcells, Hlen. split; [apply cells_nodup|apply length_cells].
Qed.

(** A ship is sunk exactly when every cell of it is marked as hit. *)
Lemma sunk_marked (m : Board) (ss : list Ship) (s : Ship) :
  hits_on m ss → s ∈ ss → NoDup (scells s) → length (scells s) = slength s →
  (sunk s = true ↔ ∀ x, x ∈ scells s → lookup2 m x.1 x.2 = Some 2).
Proof.
  intros Hhits Hs Hnd Hlen. destruct (Hhits s Hs) as [Hndh Hiff].
  assert (Hsub : shits s ⊆+ scells s).
  { apply NoDup_submseteq; [exact Hndh|]. intros x Hx. by apply Hiff in Hx as [? _]. }
  unfold sunk. rewrite Nat.eqb_eq, <- Hlen. split.
  - intros Heq x Hx.
    assert (Hperm : shits s ≡ₚ scells s).
    { apply submseteq_length_Permutation; [exact Hsub|lia]. }
    rewrite <- Hperm in Hx. by apply Hiff in Hx as [_ ?].
  - intros Hall. apply Permutation_length, NoDup_Permutation; try assumption.
    intros x. rewrite (Hiff x). split; [by intros [? _]|]. intros Hx. split; [exact Hx|].
    by apply Hall.
Qed.

(** *** Messages sent *)




Lemma shaped_lookup2_range {A} (g : list (list A)) r c v :
  shaped g → lookup2 g r c = Some v → 0 ≤ r < SIZE ∧ 0 ≤ c < SIZE.
Proof.
  intros [Hl Hrows] H. unfold lookup2 in H.
  destruct (Z.ltb_spec r 0); [discriminate|]. destruct (Z.ltb_spec c 0); [discriminate|].
  cbn [orb] in H. destruct (g !! Z.to_nat r) as [row|] eqn:Hrow; [|discriminate].
  cbn in H. apply lookup_lt_Some in H. pose proof (lookup_lt_Some _ _ _ Hrow) as Hlt.
  rewrite Forall_forall in Hrows.
  rewrite (Hrows row) in H by (eapply list_elem_of_lookup_2, Hrow).
  unfold SIZE in *. lia.
Qed.


(** *** The handler always returns *)

Lemma handle_fire_total h ws msg_r msg_c s :
  (∀ code rm, rooms s !! code = Some rm → game_inv rm) →
  is_Some (handle_fire h ws msg_r msg_c s).
Proof.
  intros Hinv. unfold handle_fire.
  destruct (truthy (room ws)) as [code0|] eqn:Hcode; [|by eexists].
  destruct (getRoom s ws) as [rm|] eqn:Hrm; [|by eexists].
  apply getRoom_Some in Hrm as (code' & Hcode' & Hrm).
  rewrite Hcode in Hcode'. inversion Hcode'; subst code'. clear Hcode'.
  pose proof (Hinv code0 rm Hrm) as Hroom.
  destruct (bool_decide_reflect (phase rm = battle)) as [Hph|Hph]; [|by eexists].
  cbn [negb].
  destruct (bool_decide_reflect (turn rm = playerId ws)) as [Hturn|Hturn]; [|by eexists].
  cbn [negb].
  destruct (playerId ws) as [k|] eqn:Hpid; [|by eexists]. cbn [mbind option_bind].
  destruct (pget k (players rm)) as [me|] eqn:Hme; [|by eexists].
  cbn [fmap option_fmap option_map].
  destruct (otherPlayerId rm (Some k)) as [oppId|] eqn:Hother; [|by eexists].
  destruct (otherPlayerId_player rm (Some k) oppId Hother) as [opp Hopp].
  rewrite Hopp. cbn [mbind option_bind]. cbv zeta.
  pose proof (clamp_range msg_r) as Hr. pose proof (clamp_range msg_c) as Hc.
  set (r := clamp (toInt32 msg_r) 0 (SIZE - 1)) in *.
  set (c := clamp (toInt32 msg_c) 0 (SIZE - 1)) in *.
  pose proof Hroom as (Hwf & _ & _ & Hfleet & _).
  pose proof (pget_mem _ _ _ Hme) as Hin. pose proof (pget_mem _ _ _ Hopp) as Hin'.
  destruct (wf_room_mem rm k me Hwf Hin) as [_ Hshm].
  destruct (wf_room_mem rm oppId opp Hwf Hin') as [Hshb _].
  destruct (shaped_lookup2 (marks me) r c Hshm Hr Hc) as [mark Hmark].
  rewrite Hmark. cbn [mbind option_bind].
  destruct ((mark =? 2) || (mark =? 3)) eqn:Hfired; [by eexists|].
  apply orb_false_iff in Hfired as [H2 H3].
  apply Z.eqb_neq in H2. apply Z.eqb_neq in H3.
  destruct (shaped_lookup2 (board opp) r c Hshb Hr Hc) as [cellId Hcell].
  rewrite Hcell. cbn [mbind option_bind].
  assert (Hfinish : ∀ rm0, game_inv rm0 →
            is_Some (outs0 ← broadcastRoom (set_room s code0 rm0) (room ws);
                     Some (set_room s code0 rm0, outs0))).
  { intros rm0 Hrm0.
    destruct (broadcastRoom_total (set_room s code0 rm0) (room ws)) as [o ->];
      [|by eexists].
    intros k0 rm1 Hk0 Hrm1. apply truthy_Some in Hcode. rewrite Hcode in Hk0.
    inversion Hk0; subst k0. cbn in Hrm1. rewrite lookup_insert_eq in Hrm1.
    inversion Hrm1; subst. by destruct Hrm0. }
  destruct (Z.eqb_spec cellId EMPTY) as [->|Hne].
  - rewrite (store2_wr (marks me) r c 3 mark Hmark). cbn [mbind option_bind].
    apply Hfinish.
    apply (game_inv_miss rm k me oppId opp r c mark); try assumption.
    apply (store2_wr _ _ _ _ mark Hmark).
  - rewrite (store2_wr (marks me) r c 2 mark Hmark). cbn [mbind option_bind].
    destruct (fleet_cell opp r c cellId (Hfleet oppId opp Hin') Hr Hc Hcell Hne)
      as (_ & Hex & _).
    destruct (hit_ship_total cellId r c (ships opp) Hex) as [ss Hss].
    rewrite Hss. cbn [mbind option_bind].
    pose proof (game_inv_hit rm k me oppId opp r c mark cellId _ ss Hroom Hph Hturn Hme
                  Hother Hopp Hr Hc Hmark H2 H3 Hcell Hne
                  (store2_wr _ _ _ _ mark Hmark) Hss) as Hnext.
    destruct (forallb sunk ss); cbn [mbind option_bind]; by apply Hfinish.
Qed.

Lemma game_inv_wf m :
  (∀ code rm, m !! code = Some rm → game_inv rm) → rooms_wf m.
Proof. intros H code rm Hrm. by destruct (H code rm Hrm). Qed.

Lemma on_message_total env h ws msg s :
  (∀ code rm, rooms s !! code = Some rm → game_inv rm) →
  (∀ m, msg = Some m → throwing m = false) →
  is_Some (on_message env h ws msg s).
Proof.
  intros Hinv Hthr. unfold on_message. destruct (RateLimit.ok _ _) as [lim pass].
  destruct pass; cbn [negb]; [|by eexists].
  destruct msg as [m|]; [|by eexists].
  specialize (Hthr m eq_refl).
  destruct m as [|code|payload rdy|r c| | | | |]; try discriminate;
    try (apply handle_total_but_fire; [by apply game_inv_wf|discriminate|reflexivity]).
  cbn [handle]. by apply handle_fire_total.
Qed.

Lemma before_last_reachable : reachable Game.before_last.
Proof. eapply run_reachable; [apply reach_initial|exact game_before_last]. Qed.

End RulesFacts.

(** * What a requester is shown of the opponent's board *)

Module ViewFacts.
Import Grid GridFacts Mask MaskFacts ServerFacts RulesFacts.

(** C9: the opponent's board in the view returned to a requester.  Let
    the requester be a player of the room with marks grid [M] and let the
    other player's board be [B], both 10×10.  The state that
    [roomStateFor] builds for the requester, which is what REQUEST_STATE
    answers and what every broadcast sends, shows as the opponent's board
    the grid that [maskOpponentBoard] returns for [B] and [M]: a 10×10
    grid whose cell [(r, c)] is [B[r][c]] where [M[r][c]] is 2 and is 0
    everywhere else, whatever [B] holds there; so a ship cell of [B] shows
    if and only if it is a confirmed hit. *)
Theorem requester_sees_confirmed_hits_only (ws : Conn) (rm : Room) (k oppId : string)
    (me opp : Player) :
  wf_room rm →
  truthy (playerId ws) = Some k → pget k (players rm) = Some me →
  otherPlayerId rm (playerId ws) = Some oppId → pget oppId (players rm) = Some opp →
  ∃ st view out,
    roomStateFor ws rm = Some st
    ∧ st_opp st = Some view ∧ v_id view = oppId ∧ v_board view = Some out
    ∧ maskOpponentBoard (Some (board opp)) (Some (marks me)) = Some (Some out)
    ∧ shaped out
    ∧ (∀ r c, 0 ≤ r < SIZE → 0 ≤ c < SIZE →
         (lookup2 (marks me) r c = Some 2 → lookup2 out r c = lookup2 (board opp) r c)
         ∧ (lookup2 (marks me) r c ≠ Some 2 → lookup2 out r c = Some EMPTY)
         ∧ (lookup2 (board opp) r c ≠ Some EMPTY →
            (lookup2 out r c = lookup2 (board opp) r c ↔ lookup2 (marks me) r c = Some 2)))
    ∧ (∀ env h s, getRoom s ws = Some rm →
         handle env h ws REQUEST_STATE s = Some (s, [(h, ROOM_STATE st)])).
Proof.
  intros Hwf Hk Hme Hother Hopp.
  destruct (wf_room_pget rm k me Hwf Hme) as [_ HM].
  destruct (wf_room_pget rm oppId opp Hwf Hopp) as [HB _].
  destruct (mask_total (board opp) (Some (marks me)) HB HM) as (out & Hrun & Hsh & Hget).
  assert (Hst : roomStateFor ws rm =
                Some {| st_code := truthy (room ws); st_phase := phase rm;
                        st_turn := turn rm; st_winner := winner rm;
                        st_me := Some {| v_id := default ""%string (playerId ws);
                                         v_board := Some (board me);
                                         v_marks := marks me;
                                         v_ships := map summary (ships me);
                                         v_ready := ready me |};
                        st_opp := Some {| v_id := oppId; v_board := Some out;
                                          v_marks := marks opp;
                                          v_ships := map summary (ships opp);
                                          v_ready := ready opp |} |}).
  { unfold roomStateFor. rewrite Hk, Hother. cbn [mbind option_bind].
    rewrite Hme, Hopp. cbn [fmap option_fmap option_map]. rewrite Hrun.
    reflexivity. }
  eexists _, _, out. split; [exact Hst|]. cbn [st_opp v_id v_board].
  split; [reflexivity|]. split; [reflexivity|]. split; [reflexivity|].
  split; [exact Hrun|]. split; [exact Hsh|]. split.
  - intros r c Hr Hc. specialize (Hget r c Hr Hc). unfold confirmed_hit in Hget.
    destruct (bool_decide_reflect (lookup2 (marks me) r c = Some 2)) as [Hhit|Hhit].
    + split; [done|]. split; [done|]. intros _. by split.
    + split; [done|]. split; [done|]. intros Hship. split; [congruence|done].
  - intros env h s Hroom. cbn [handle]. unfold handle_request. by rewrite Hroom, Hst.
Qed.

Lemma requester_sees_confirmed_hits_only_witness :
  ∃ st view out,
    roomStateFor (Game.socket 2 Game.before_last) (Game.the_room Game.before_last) = Some st
    ∧ st_opp st = Some view ∧ v_id view = "A"%string ∧ v_board view = Some out
    ∧ maskOpponentBoard (Some (board (Game.player "A" Game.before_last)))
                        (Some (marks (Game.player "B" Game.before_last)))
      = Some (Some out)
    ∧ shaped out
    ∧ (∀ r c, 0 ≤ r < SIZE → 0 ≤ c < SIZE →
         (lookup2 (marks (Game.player "B" Game.before_last)) r c = Some 2 →
          lookup2 out r c = lookup2 (board (Game.player "A" Game.before_last)) r c)
         ∧ (lookup2 (marks (Game.player "B" Game.before_last)) r c ≠ Some 2 →
            lookup2 out r c = Some EMPTY)
         ∧ (lookup2 (board (Game.player "A" Game.before_last)) r c ≠ Some EMPTY →
            (lookup2 out r c = lookup2 (board (Game.player "A" Game.before_last)) r c
             ↔ lookup2 (marks (Game.player "B" Game.before_last)) r c = Some 2)))
    ∧ (∀ env h s,
         getRoom s (Game.socket 2 Game.before_last) = Some (Game.the_room Game.before_last) →
         handle env h (Game.socket 2 Game.before_last) REQUEST_STATE s
         = Some (s, [(h, ROOM_STATE st)])).
Proof.
  apply (requester_sees_confirmed_hits_only (Game.socket 2 Game.before_last)
           (Game.the_room Game.before_last) "B" "A"
           (Game.player "B" Game.before_last) (Game.player "A" Game.before_last)).
  - apply (reachable_wf Game.before_last before_last_reachable "123456").
    vm_compute. reflexivity.
  - vm_compute. reflexivity.
  - vm_compute. reflexivity.
  - vm_compute. reflexivity.
  - vm_compute. reflexivity.
Defined.

End ViewFacts.

(** * What holds in every reachable state of the server *)

Module GameFacts.
Import Grid GridFacts Mask MaskFacts ServerFacts Rules Placement FleetFacts RulesFacts.

Lemma carries_lens ss fl : carries ss fl → map slength ss = map p_len fl.
Proof.
  induction 1 as [|s q ss fl (_ & H & _) _ IH]; cbn; [reflexivity|]. by rewrite H, IH.
Qed.

Lemma final_room : rooms Game.final !! "123456"%string = Some (Game.the_room Game.final).
Proof. vm_compute. reflexivity. Qed.

Lemma before_last_room :
  rooms Game.before_last !! "123456"%string = Some (Game.the_room Game.before_last).
Proof. vm_compute. reflexivity. Qed.

Lemma final_player k :
  k = "A"%string ∨ k = "B"%string →
  (k, Game.player k Game.final) ∈ players (Game.the_room Game.final).
Proof. intros [-> | ->]; apply pget_mem; vm_compute; reflexivity. Qed.



(** X6: what the server stores for a player is consistent.  In every
    reachable state, the board and the ships of a player are either
    both empty or a valid placement: five ships numbered 1 to 5, of
    lengths 5, 4, 3, 3 and 2, straight, inside the grid and apart, with
    the board holding each number exactly on the cells of its ship; and
    a player marked ready has placed a fleet. *)
Theorem stored_fleet_is_valid (s : Server) (code : string) (rm : Room)
    (k : string) (p : Player) :
  reachable s → rooms s !! code = Some rm → (k, p) ∈ players rm →
  ∃ fl, carries (ships p) fl
        ∧ encodes fl (board p)
        ∧ (fl = [] ∨ (valid_fleet fl ∧ map p_id fl = [1; 2; 3; 4; 5]))
        ∧ (ready p = true → fl ≠ []).
Proof.
  intros Hs Hrm Hin.
  destruct (reachable_game_inv s code rm Hs Hrm) as (_ & _ & _ & Hfleet & _).
  exact (Hfleet k p Hin).
Qed.

Lemma stored_fleet_is_valid_witness :
  ∃ fl, carries (ships (Game.player "B" Game.final)) fl
        ∧ encodes fl (board (Game.player "B" Game.final))
        ∧ (fl = [] ∨ (valid_fleet fl ∧ map p_id fl = [1; 2; 3; 4; 5]))
        ∧ (ready (Game.player "B" Game.final) = true → fl ≠ []).
Proof.
  apply (stored_fleet_is_valid Game.final "123456" (Game.the_room Game.final) "B").
  - exact game_reachable.
  - exact final_room.
  - apply final_player. by right.
Defined.

(** X7: a battle takes two placed fleets.  In every reachable state, a
    room that has left the phase placing has exactly two players, both
    ready, each with five ships numbered 1 to 5 of lengths 5, 4, 3, 3 and
    2, and its turn names one of the two. *)
Theorem battle_needs_two_fleets (s : Server) (code : string) (rm : Room) :
  reachable s → rooms s !! code = Some rm → phase rm ≠ placing →
  length (players rm) = 2%nat
  ∧ (∃ k, turn rm = Some k ∧ k ∈ keys (players rm))
  ∧ ∀ k p, (k, p) ∈ players rm →
      ready p = true
      ∧ map sid (ships p) = [1; 2; 3; 4; 5]
      ∧ map slength (ships p) ≡ₚ [5; 4; 3; 3; 2]%nat.
Proof.
  intros Hs Hrm Hph.
  destruct (reachable_game_inv s code rm Hs Hrm) as (_ & _ & _ & Hfleet & _ & Hnp & _).
  destruct (Hnp Hph) as (Htwo & Hrdy & Hturn & _).
  split; [exact Htwo|]. split; [exact Hturn|]. intros k p Hin.
  pose proof (Hrdy k p Hin) as Hready. split; [exact Hready|].
  destruct (Hfleet k p Hin) as (fl & Hcar & _ & Hfl & Hplaced).
  destruct Hfl as [->|[Hvalid Hids]]; [by destruct (Hplaced Hready)|].
  split; [by rewrite (carries_ids _ _ Hcar)|].
  rewrite (carries_lens _ _ Hcar). by destruct Hvalid as (? & _).
Qed.

Lemma battle_needs_two_fleets_witness :
  length (players (Game.the_room Game.final)) = 2%nat
  ∧ (∃ k, turn (Game.the_room Game.final) = Some k
          ∧ k ∈ keys (players (Game.the_room Game.final)))
  ∧ ∀ k p, (k, p) ∈ players (Game.the_room Game.final) →
      ready p = true
      ∧ map sid (ships p) = [1; 2; 3; 4; 5]
      ∧ map slength (ships p) ≡ₚ [5; 4; 3; 3; 2]%nat.
Proof.
  apply (battle_needs_two_fleets Game.final "123456").
  - exact game_reachable.
  - exact final_room.
  - vm_compute. discriminate.
Defined.

(** X8: marks tell the truth.  In every reachable state, for two
    different players of a room, each cell of the one's marks grid is 0,
    2 or 3; it is 2 only where the other's board holds a ship, and 3
    only where the other's board is empty. *)
Theorem marks_are_truthful (s : Server) (code : string) (rm : Room)
    (k k' : string) (p p' : Player) (r c : Z) :
  reachable s → rooms s !! code = Some rm →
  (k, p) ∈ players rm → (k', p') ∈ players rm → k ≠ k' →
  0 ≤ r < SIZE → 0 ≤ c < SIZE →
  ∃ v w, lookup2 (marks p) r c = Some v ∧ lookup2 (board p') r c = Some w
         ∧ (v = 0 ∨ (v = 2 ∧ w ≠ EMPTY) ∨ (v = 3 ∧ w = EMPTY)).
Proof.
  intros Hs Hrm Hin Hin' Hne Hr Hc.
  pose proof (reachable_game_inv s code rm Hs Hrm) as Hinv.
  destruct (game_pairs rm k p k' p' Hinv Hin Hin' Hne) as [Hmarks _].
  exact (Hmarks r c Hr Hc).
Qed.

Lemma marks_are_truthful_witness :
  ∃ v w, lookup2 (marks (Game.player "A" Game.final)) 9 9 = Some v
         ∧ lookup2 (board (Game.player "B" Game.final)) 9 9 = Some w
         ∧ (v = 0 ∨ (v = 2 ∧ w ≠ EMPTY) ∨ (v = 3 ∧ w = EMPTY)).
Proof.
  apply (marks_are_truthful Game.final "123456" (Game.the_room Game.final) "A" "B").
  - exact game_reachable.
  - exact final_room.
  - apply final_player. by left.
  - apply final_player. by right.
  - discriminate.
  - unfold SIZE. lia.
  - unfold SIZE. lia.
Defined.

(** X9: a ship is sunk when all of it is hit.  In every reachable state,
    a ship of a player counts as sunk (as many recorded hits as its
    length) exactly when the other player of the room has marked every
    cell of that ship as a hit. *)
Theorem sunk_iff_all_cells_hit (s : Server) (code : string) (rm : Room)
    (k k' : string) (p p' : Player) (sh : Ship) :
  reachable s → rooms s !! code = Some rm →
  (k, p) ∈ players rm → (k', p') ∈ players rm → k ≠ k' → sh ∈ ships p' →
  (sunk sh = true ↔ ∀ x, x ∈ scells sh → lookup2 (marks p) x.1 x.2 = Some 2).
Proof.
  intros Hs Hrm Hin Hin' Hne Hsh.
  pose proof (reachable_game_inv s code rm Hs Hrm) as Hinv.
  destruct (game_pairs rm k p k' p' Hinv Hin Hin' Hne) as [_ Hhits].
  destruct Hinv as (_ & _ & _ & Hfleet & _).
  destruct (fleet_ship p' sh (Hfleet k' p' Hin') Hsh) as [Hnd Hlen].
  by apply (sunk_marked (marks p) (ships p')).
Qed.

Lemma sunk_iff_all_cells_hit_witness :
  ∃ sh, ships (Game.player "B" Game.final) !! 0%nat = Some sh
        ∧ (sunk sh = true ↔
           ∀ x, x ∈ scells sh →
             lookup2 (marks (Game.player "A" Game.final)) x.1 x.2 = Some 2).
Proof.
  destruct (ships (Game.player "B" Game.final) !! 0%nat) as [sh|] eqn:Hsh;
    [|vm_compute in Hsh; discriminate].
  exists sh. split; [reflexivity|].
  apply (sunk_iff_all_cells_hit Game.final "123456" (Game.the_room Game.final) "A" "B"
           (Game.player "A" Game.final) (Game.player "B" Game.final)).
  - exact game_reachable.
  - exact final_room.
  - apply final_player. by left.
  - apply final_player. by right.
  - discriminate.
  - eapply list_elem_of_lookup_2, Hsh.
Defined.

(** X10: the game is won by hitting everything.  In every reachable
    state, a room in phase gameover names as winner one of its two
    players; every ship of the other player is sunk, and the winner has
    marked every non-empty cell of the other player's board as a hit. *)
Theorem winner_hit_every_ship_cell (s : Server) (code : string) (rm : Room) :
  reachable s → rooms s !! code = Some rm → phase rm = gameover →
  ∃ w pw l pl,
    winner rm = Some w ∧ (w, pw) ∈ players rm ∧ (l, pl) ∈ players rm ∧ l ≠ w
    ∧ forallb sunk (ships pl) = true
    ∧ ∀ r c v, lookup2 (board pl) r c = Some v → v ≠ EMPTY →
        lookup2 (marks pw) r c = Some 2.
Proof.
  intros Hs Hrm Hph.
  pose proof (reachable_game_inv s code rm Hs Hrm) as Hinv.
  pose proof Hinv as (Hwf & _ & _ & Hfleet & _ & _ & _ & Hgo).
  destruct (Hgo Hph) as (w & l & pl & Hw & Hwk & Hl & Hne & Hsunk).
  destruct (pget_key w (players rm) Hwk) as [pw Hpw].
  pose proof (pget_mem _ _ _ Hpw) as Hin.
  exists w, pw, l, pl. split; [exact Hw|]. split; [exact Hin|]. split; [exact Hl|].
  split; [exact Hne|]. split; [exact Hsunk|].
  intros r c v Hv Hv0.
  destruct (game_pairs rm w pw l pl Hinv Hin Hl ltac:(congruence)) as [_ Hhits].
  destruct (wf_room_mem rm l pl Hwf Hl) as [Hb _].
  destruct (shaped_lookup2_range (board pl) r c v Hb Hv) as [Hr Hc].
  destruct (fleet_cell pl r c v (Hfleet l pl Hl) Hr Hc Hv Hv0) as (_ & (sh & Hsh & Hid) & Hown).
  destruct (fleet_ship pl sh (Hfleet l pl Hl) Hsh) as [Hnd Hlen].
  rewrite forallb_forall in Hsunk. specialize (Hsunk sh).
  rewrite <- list_elem_of_In in Hsunk. specialize (Hsunk Hsh).
  apply (sunk_marked (marks pw) (ships pl) sh Hhits Hsh Hnd Hlen) with (x := (r, c)) in Hsunk;
    [exact Hsunk|]. by apply Hown.
Qed.

Lemma winner_hit_every_ship_cell_witness :
  ∃ w pw l pl,
    winner (Game.the_room Game.final) = Some w
    ∧ (w, pw) ∈ players (Game.the_room Game.final)
    ∧ (l, pl) ∈ players (Game.the_room Game.final) ∧ l ≠ w
    ∧ forallb sunk (ships pl) = true
    ∧ ∀ r c v, lookup2 (board pl) r c = Some v → v ≠ EMPTY →
        lookup2 (marks pw) r c = Some 2.
Proof.
  apply (winner_hit_every_ship_cell Game.final "123456").
  - exact game_reachable.
  - exact final_room.
  - vm_compute. reflexivity.
Defined.

(** X11: the handler returns unless the message is malformed.  In
    every reachable state a message from a connected socket is handled
    to the end, whatever it says and whenever it comes, with three
    exceptions: the JSON text [null], a JOIN_ROOM whose code is truthy
    and no string, and a FIRE one of whose coordinates cannot be
    converted to a number.  For every other message every grid access is
    inside a 10×10 grid, the opponent of a shot exists, and a shot that
    hits finds the ship it has hit.  The three exceptions throw when
    they pass the rate limiter: [null] and the JOIN_ROOM always, the
    FIRE when it comes from the player whose turn it is in a battle
    against an opponent. *)
Theorem handler_returns_unless_malformed (s : Server) (env : Env) (h : nat) (ws : Conn)
    (msg : option Msg) :
  reachable s → cget h (clients s) = Some ws →
  ((∀ m, msg = Some m → throwing m = false) →
   ∃ s' outs, on_message env h ws msg s = Some (s', outs) ∧ reachable s')
  ∧ ((RateLimit.ok (now env) (okRate ws)).2 = true →
     on_message env h ws (Some NULL) s = None
     ∧ on_message env h ws (Some JOIN_ROOM_THROWS) s = None
     ∧ ∀ code rm k me oppId,
         truthy (room ws) = Some code → rooms s !! code = Some rm →
         phase rm = battle → turn rm = Some k → playerId ws = Some k →
         pget k (players rm) = Some me → otherPlayerId rm (Some k) = Some oppId →
         on_message env h ws (Some FIRE_THROWS) s = None).
Proof.
  intros Hs Hws. split.
  - intros Hthr.
    destruct (on_message_total env h ws msg s) as [[s' outs] Hm]; [|exact Hthr|].
    { intros code rm. by apply reachable_game_inv. }
    exists s', outs. split; [exact Hm|].
    eapply reach_step; [exact Hs|]. by eapply step_message.
  - intros Hpass. unfold on_message.
    destruct (RateLimit.ok (now env) (okRate ws)) as [lim pass].
    cbn [snd] in Hpass. subst pass. cbn [negb handle].
    split; [reflexivity|]. split; [reflexivity|].
    intros code rm k me oppId Hcode Hrm Hph Hturn Hpid Hme Hother.
    unfold handle_fire_throws, getRoom. cbn [room playerId rooms].
    rewrite Hcode. cbn [mbind option_bind]. rewrite Hrm.
    rewrite (bool_decide_eq_true_2 (phase rm = battle) Hph).
    assert (Ht : turn rm = playerId ws) by congruence.
    rewrite (bool_decide_eq_true_2 _ Ht), Hpid. cbn [negb mbind option_bind].
    rewrite Hme, Hother. reflexivity.
Qed.

Lemma handler_returns_unless_malformed_witness :
  (∃ s' outs,
     on_message (Game.at_time 38 "") 1 (Game.socket 1 Game.before_last)
                (Some (FIRE 9 9)) Game.before_last = Some (s', outs)
     ∧ reachable s')
  ∧ on_message (Game.at_time 38 "") 1 (Game.socket 1 Game.before_last)
               (Some NULL) Game.before_last = None
  ∧ on_message (Game.at_time 38 "") 1 (Game.socket 1 Game.before_last)
               (Some JOIN_ROOM_THROWS) Game.before_last = None
  ∧ on_message (Game.at_time 38 "") 1 (Game.socket 1 Game.before_last)
               (Some FIRE_THROWS) Game.before_last = None.
Proof.
  pose proof (handler_returns_unless_malformed Game.before_last (Game.at_time 38 "") 1
                (Game.socket 1 Game.before_last) (Some (FIRE 9 9))
                before_last_reachable) as H.
  destruct H as [Hret Hthrow]; [vm_compute; reflexivity|].
  split; [apply Hret; intros m [= <-]; reflexivity|].
  destruct Hthrow as (Hnull & Hjoin & Hfire); [vm_compute; reflexivity|].
  split; [exact Hnull|]. split; [exact Hjoin|].
  apply (Hfire "123456"%string (Game.the_room Game.before_last) "A"%string
           (Game.player "A" Game.before_last) "B"%string); vm_compute; reflexivity.
Defined.



End GameFacts.

(** * More facts about the rate limiter *)

Module TrafficFacts.
Import RateLimit RateLimitFacts Traffic.

Lemma passed_cons e tr : passed (e :: tr) = if e.2 then e :: passed tr else passed tr.
Proof. reflexivity. Qed.

Lemma ok_reset t l :
  RATE_LIMIT_WINDOW_MS < t - windowStart l →
  ok t l = ({| windowStart := t; count := 1 |}, true).
Proof.
  intros H. unfold ok. replace (RATE_LIMIT_WINDOW_MS <? t - windowStart l) with true
    by (symmetry; by apply Z.ltb_lt). reflexivity.
Qed.

Lemma ok_stay t l :
  t - windowStart l ≤ RATE_LIMIT_WINDOW_MS →
  ok t l = ({| windowStart := windowStart l; count := count l + 1 |},
            count l + 1 <=? RATE_LIMIT_MAX).
Proof.
  intros H. unfold ok. replace (RATE_LIMIT_WINDOW_MS <? t - windowStart l) with false
    by (symmetry; by apply Z.ltb_ge). reflexivity.
Qed.

(** The limiter after a run and the limiter after the same run without
    the dropped messages: the same window, the count cut at the maximum. *)
Lemma feed_passed ts : ∀ l l',
  windowStart l' = windowStart l → count l' = Z.min (count l) RATE_LIMIT_MAX →
  feed l' (times (passed (feed l ts))) = passed (feed l ts).
Proof.
  induction ts as [|t ts IH]; intros l l' Hw Hc; [reflexivity|].
  rewrite feed_cons, passed_cons. cbn [snd].
  destruct (Z.lt_ge_cases RATE_LIMIT_WINDOW_MS (t - windowStart l)) as [Hreset|Hstay].
  - (* a new window opens: the message passes in both runs *)
    rewrite (ok_reset t l Hreset). cbn [fst snd windowStart].
    unfold times. cbn [map fst snd]. rewrite feed_cons.
    rewrite (ok_reset t l') by (by rewrite Hw). cbn [fst snd windowStart].
    f_equal. by apply IH.
  - rewrite (ok_stay t l Hstay). cbn [fst snd windowStart].
    destruct (Z.leb_spec (count l + 1) RATE_LIMIT_MAX) as [Hpass|Hdrop].
    + (* inside the window and under the maximum *)
      unfold times. cbn [map fst snd]. rewrite feed_cons.
      rewrite (ok_stay t l') by (by rewrite Hw). cbn [fst snd windowStart].
      replace (count l' + 1 <=? RATE_LIMIT_MAX) with true
        by (symmetry; apply Z.leb_le; lia).
      rewrite Hw. f_equal. apply IH; cbn [windowStart count]; [reflexivity|lia].
    + (* dropped: the filtered run does not see the message *)
      apply IH; cbn [windowStart count]; [exact Hw|lia].
Qed.

(** X13: dropped messages cost nothing.  For any message times, in any
    order, the messages that pass the limiter are exactly those that
    would pass, in the same windows, had the dropped messages never been
    sent: a message over the limit is counted but neither opens nor
    lengthens a window. *)
Theorem dropped_messages_cost_nothing (t0 : Z) (ts : list Z) :
  feed (rateLimiter t0) (times (passed (feed (rateLimiter t0) ts)))
  = passed (feed (rateLimiter t0) ts).
Proof. apply feed_passed; reflexivity. Qed.

Lemma sent_in_cons a t ts :
  sent_in a (t :: ts) =
  Nat.add (if (a <=? t) && (t <=? a + RATE_LIMIT_WINDOW_MS) then 1%nat else 0%nat)
          (sent_in a ts).
Proof. unfold sent_in. cbn [List.filter]. by destruct (_ && _). Qed.

Lemma polite_from ts : ∀ l,
  Sorted Z.le ts → Forall (fun t => windowStart l ≤ t) ts → 0 ≤ count l →
  count l + Z.of_nat (sent_in (windowStart l) ts) ≤ RATE_LIMIT_MAX →
  (∀ a, (sent_in a ts ≤ 15)%nat) →
  Forall (fun e => e.2 = true) (feed l ts).
Proof.
  induction ts as [|t ts IH]; intros l Hs Hge Hc Hroom Hpolite; [constructor|].
  rewrite feed_cons.
  apply Sorted_StronglySorted in Hs; [|intros x y z; lia].
  inversion Hs as [|? ? Hs' Hall]; subst. inversion Hge as [|? ? Ht Hge']; subst.
  assert (Hpolite' : ∀ a, (sent_in a ts ≤ 15)%nat).
  { intros a. specialize (Hpolite a). rewrite sent_in_cons in Hpolite. lia. }
  rewrite sent_in_cons in Hroom.
  replace (windowStart l <=? t) with true in Hroom by (symmetry; by apply Z.leb_le).
  cbn [andb] in Hroom.
  unfold ok. cbn [fst snd].
  destruct (Z.ltb_spec RATE_LIMIT_WINDOW_MS (t - windowStart l)) as [Hreset|Hstay];
    cbn [windowStart count].
  - constructor; [reflexivity|].
    apply IH; cbn [windowStart count]; try assumption.
    + by apply StronglySorted_Sorted.
    + lia.
    + specialize (Hpolite t). rewrite sent_in_cons in Hpolite.
      replace (t <=? t) with true in Hpolite by (symmetry; apply Z.leb_le; lia).
      replace (t <=? t + RATE_LIMIT_WINDOW_MS) with true in Hpolite
        by (symmetry; apply Z.leb_le; unfold RATE_LIMIT_WINDOW_MS; lia).
      cbn [andb] in Hpolite. unfold RATE_LIMIT_MAX. lia.
  - replace (t <=? windowStart l + RATE_LIMIT_WINDOW_MS) with true in Hroom
      by (symmetry; apply Z.leb_le; lia).
    constructor; [cbn; apply Z.leb_le; lia|].
    apply IH; cbn [windowStart count]; try assumption.
    + by apply StronglySorted_Sorted.
    + lia.
    + lia.
Qed.

(** X14: a polite sender is never throttled.  If the messages of a
    socket come in time order, after the socket was opened, and no time
    span of 1000 ms, ends included, holds more than 15 of them, then
    every message passes the limiter. *)
Theorem polite_sender_never_dropped (t0 : Z) (ts : list Z) :
  Sorted Z.le ts → Forall (fun t => t0 ≤ t) ts →
  (∀ a, (sent_in a ts ≤ 15)%nat) →
  Forall (fun e => e.2 = true) (feed (rateLimiter t0) ts).
Proof.
  intros Hs Hge Hpolite. apply polite_from; try assumption.
  - cbn. lia.
  - cbn [rateLimiter windowStart count]. specialize (Hpolite t0).
    unfold RATE_LIMIT_MAX. lia.
Qed.

Lemma polite_sender_never_dropped_witness :
  Forall (fun e => e.2 = true) (feed (rateLimiter 0) slow).
Proof.
  apply (polite_sender_never_dropped 0 slow).
  - unfold slow. repeat (constructor; try lia).
  - unfold slow. repeat (constructor; try lia).
  - intros a. unfold sent_in, slow.
    etransitivity; [apply List.filter_length_le|]. cbn. lia.
Defined.

End TrafficFacts.

(** * What a message leaves alone *)

Module FrameFacts.
Import Grid GridFacts Mask MaskFacts ServerFacts Rules Placement FleetFacts RulesFacts.

Lemma cget_cset_ne h h' c cs : h' ≠ h → cget h' (cset h c cs) = cget h' cs.
Proof.
  intros Hne. induction cs as [|[h0 c0] cs IH]; cbn.
  - destruct (Nat.eqb_spec h h'); [congruence|reflexivity].
  - destruct (Nat.eqb_spec h0 h) as [->|Hh0]; cbn.
    + destruct (Nat.eqb_spec h h'); [congruence|reflexivity].
    + destruct (h0 =? h')%nat; [reflexivity|exact IH].
Qed.

Lemma cget_mem h c cs : cget h cs = Some c → (h, c) ∈ cs.
Proof.
  induction cs as [|[h0 c0] cs IH]; cbn; [discriminate|].
  destruct (Nat.eqb_spec h0 h) as [->|Hne].
  - intros [= ->]. by left.
  - intros H. right. by apply IH.
Qed.

Lemma send_recipients k rm cs o h' x :
  send_states k rm cs = Some o → (h', x) ∈ o →
  ∃ ws', (h', ws') ∈ cs ∧ room ws' = Some k.
Proof.
  revert o. induction cs as [|[h0 ws0] cs IH]; intros o; cbn.
  - intros [= <-] Hx. inversion Hx.
  - destruct (bool_decide_reflect (room ws0 = Some k)) as [Hroom|Hroom].
    + destruct (roomStateFor ws0 rm); [|discriminate]. cbn [mbind option_bind].
      destruct (send_states k rm cs) as [rest|]; [|discriminate].
      cbn [mbind option_bind]. intros [= <-] Hx.
      apply elem_of_cons in Hx as [[= -> ->]|Hx].
      * exists ws0. split; [by left|exact Hroom].
      * destruct (IH rest eq_refl Hx) as (ws' & Hin & Hr).
        exists ws'. split; [by right|exact Hr].
    + intros Hrest Hx. destruct (IH o Hrest Hx) as (ws' & Hin & Hr).
      exists ws'. split; [by right|exact Hr].
Qed.

Lemma broadcast_recipients s k o h' x :
  broadcastRoom s (Some k) = Some o → (h', x) ∈ o →
  ∃ ws', (h', ws') ∈ clients s ∧ room ws' = Some k.
Proof.
  unfold broadcastRoom. destruct (rooms s !! k) as [rm|].
  - apply send_recipients.
  - intros [= <-] Hx. inversion Hx.
Qed.

(** How one handler run changes rooms, sockets and who is written to. *)
Lemma handle_frame env h ws msg s s' outs :
  handle env h ws msg s = Some (s', outs) →
  (∀ code, addressed env ws msg ≠ Some code → rooms s' !! code = rooms s !! code)
  ∧ (∀ h', h' ≠ h → cget h' (clients s') = cget h' (clients s))
  ∧ (∀ h' o, (h', o) ∈ outs →
       h' = h ∨ ∃ ws' code, addressed env ws msg = Some code
                            ∧ (h', ws') ∈ clients s' ∧ room ws' = Some code).
Proof.
  assert (Hkeep : ∀ (s0 : Server) code0 rm0 code,
            Some code0 ≠ Some code →
            rooms (set_room s0 code0 rm0) !! code = rooms s0 !! code).
  { intros s0 code0 rm0 code Hne. cbn. rewrite lookup_insert_ne; [reflexivity|congruence]. }
  destruct msg as [|msg_code|payload rdy|msg_r msg_c| | | | |]; cbn [handle addressed];
    [| | | | | |discriminate
     |intros H; apply handle_fire_throws_same in H as [-> ->];
      split; [done|]; split; [done|]; intros h' o Ho; inversion Ho
     |discriminate].
  - intros [= <- <-]. split; [intros code Hne; by apply Hkeep|]. split; [done|].
    intros h' o Ho. apply list_elem_of_singleton in Ho. inversion Ho. by left.
  - unfold handle_join.
    destruct (rooms s !! trim msg_code) as [rm|] eqn:Hrm.
    2:{ intros [= <- <-]. split; [done|]. split; [done|].
        intros h' o Ho. apply list_elem_of_singleton in Ho. inversion Ho. by left. }
    destruct (2 <=? _)%nat.
    { intros [= <- <-]. split; [done|]. split; [done|].
      intros h' o Ho. apply list_elem_of_singleton in Ho. inversion Ho. by left. }
    cbv zeta. destruct (broadcastRoom _ _) as [o|] eqn:Hb; [|discriminate].
    cbn [mbind option_bind]. intros [= <- <-]. cbn [rooms clients].
    split; [intros code Hne; rewrite lookup_insert_ne; [reflexivity|congruence]|].
    split; [intros h' Hne; by apply cget_cset_ne|].
    intros h' x Hx. apply elem_of_cons in Hx as [[= -> _]|Hx]; [by left|]. right.
    destruct (broadcast_recipients _ _ _ _ _ Hb Hx) as (ws' & Hin & Hr).
    exists ws', (trim msg_code). split; [reflexivity|]. split; [exact Hin|exact Hr].
  - unfold handle_place.
    destruct (truthy (room ws)) as [code0|] eqn:Hcode;
      [|intros [= <- <-]; split; [done|]; split; [done|]; intros h' o Ho; inversion Ho].
    destruct (getRoom s ws) as [rm|];
      [|intros [= <- <-]; split; [done|]; split; [done|]; intros h' o Ho; inversion Ho].
    destruct (negb _);
      [intros [= <- <-]; split; [done|]; split; [done|]; intros h' o Ho; inversion Ho|].
    destruct (playerId ws ≫= _) as [[k p]|];
      [|intros [= <- <-]; split; [done|]; split; [done|]; intros h' o Ho; inversion Ho].
    destruct (Sanitizer.sanitizeFleet payload) as [[cb cs]|].
    2:{ intros [= <- <-]. split; [done|]. split; [done|].
        intros h' o Ho. apply list_elem_of_singleton in Ho. inversion Ho. by left. }
    cbv zeta. set (rm1 := set_players rm _). set (s1 := set_room s code0 rm1).
    pose proof (truthy_Some _ _ Hcode) as Hroom. rewrite Hroom.
    destruct (broadcastRoom s1 (Some code0)) as [o1|] eqn:Hb1; [|discriminate].
    cbn [mbind option_bind]. destruct (all_ready rm1).
    + match goal with |- context [broadcastRoom ?a ?b] =>
        destruct (broadcastRoom a b) as [o2|] eqn:Hb2 end; [|discriminate].
      cbn [mbind option_bind]. intros [= <- <-].
      split; [intros code Hne; by apply Hkeep|]. split; [done|].
      intros h' x Hx. right. apply elem_of_app in Hx as [Hx|Hx].
      * destruct (broadcast_recipients _ _ _ _ _ Hb1 Hx) as (ws' & Hin & Hr).
        exists ws', code0. split; [reflexivity|]. split; [exact Hin|exact Hr].
      * destruct (broadcast_recipients _ _ _ _ _ Hb2 Hx) as (ws' & Hin & Hr).
        exists ws', code0. split; [reflexivity|]. split; [exact Hin|exact Hr].
    + intros [= <- <-]. split; [intros code Hne; by apply Hkeep|]. split; [done|].
      intros h' x Hx. right.
      destruct (broadcast_recipients _ _ _ _ _ Hb1 Hx) as (ws' & Hin & Hr).
      exists ws', code0. split; [reflexivity|]. split; [exact Hin|exact Hr].
  - unfold handle_fire.
    destruct (truthy (room ws)) as [code0|] eqn:Hcode;
      [|intros [= <- <-]; split; [done|]; split; [done|]; intros h' o Ho; inversion Ho].
    destruct (getRoom s ws) as [rm|];
      [|intros [= <- <-]; split; [done|]; split; [done|]; intros h' o Ho; inversion Ho].
    destruct (negb _);
      [intros [= <- <-]; split; [done|]; split; [done|]; intros h' o Ho; inversion Ho|].
    destruct (negb _);
      [intros [= <- <-]; split; [done|]; split; [done|]; intros h' o Ho; inversion Ho|].
    destruct (playerId ws ≫= _) as [[k me]|];
      [|intros [= <- <-]; split; [done|]; split; [done|]; intros h' o Ho; inversion Ho].
    destruct (otherPlayerId rm (playerId ws)) as [oppId|];
      [|intros [= <- <-]; split; [done|]; split; [done|]; intros h' o Ho; inversion Ho].
    cbv zeta.
    destruct (pget oppId (players rm)) as [opp|]; [|discriminate]. cbn [mbind option_bind].
    destruct (lookup2 (marks me) _ _) as [mark|]; [|discriminate]. cbn [mbind option_bind].
    destruct ((mark =? 2) || (mark =? 3));
      [intros [= <- <-]; split; [done|]; split; [done|]; intros h' o Ho; inversion Ho|].
    destruct (lookup2 (board opp) _ _) as [cellId|]; [|discriminate]. cbn [mbind option_bind].
    match goal with |- context [?x ≫= _] =>
      match type of x with option Room => destruct x as [rm0|] end end; [|discriminate].
    cbn [mbind option_bind].
    pose proof (truthy_Some _ _ Hcode) as Hroom. rewrite Hroom.
    destruct (broadcastRoom _ _) as [o|] eqn:Hb; [|discriminate].
    cbn [mbind option_bind]. intros [= <- <-].
    split; [intros code Hne; by apply Hkeep|]. split; [done|].
    intros h' x Hx. right.
    destruct (broadcast_recipients _ _ _ _ _ Hb Hx) as (ws' & Hin & Hr).
    exists ws', code0. split; [reflexivity|]. split; [exact Hin|exact Hr].
  - unfold handle_request. destruct (getRoom s ws) as [rm|];
      [|intros [= <- <-]; split; [done|]; split; [done|]; intros h' o Ho; inversion Ho].
    destruct (roomStateFor ws rm) as [st0|]; [|discriminate].
    cbn [mbind option_bind]. intros [= <- <-]. split; [done|]. split; [done|].
    intros h' o Ho. apply list_elem_of_singleton in Ho. inversion Ho. by left.
  - intros [= <- <-]. split; [done|]. split; [done|]. intros h' o Ho. inversion Ho.
Qed.

(** X15: a message touches one room.  A handler run changes no room
    but the one the message speaks of (the code drawn for CREATE_ROOM,
    the trimmed code of JOIN_ROOM, the room of the socket for PLACE_FLEET
    and FIRE, none for the rest); it changes no socket but the sender's;
    and it writes only to the sender and to sockets bound to that room. *)
Theorem message_touches_one_room (env : Env) (h : nat) (ws : Conn) (msg : Msg)
    (s s' : Server) (outs : list (nat * Out)) :
  on_message env h ws (Some msg) s = Some (s', outs) →
  (∀ code, addressed env ws msg ≠ Some code → rooms s' !! code = rooms s !! code)
  ∧ (∀ h', h' ≠ h → cget h' (clients s') = cget h' (clients s))
  ∧ (∀ h' o, (h', o) ∈ outs →
       h' = h ∨ ∃ ws' code, addressed env ws msg = Some code
                            ∧ (h', ws') ∈ clients s' ∧ room ws' = Some code).
Proof.
  unfold on_message. destruct (RateLimit.ok _ _) as [lim pass].
  destruct pass; cbn [negb].
  - intros Hm. destruct (handle_frame _ _ _ _ _ _ _ Hm) as (Hrooms & Hclients & Houts).
    split; [exact Hrooms|]. split; [|exact Houts].
    intros h' Hne. rewrite (Hclients h' Hne). cbn [clients]. by apply cget_cset_ne.
  - intros [= <- <-]. split; [done|]. split; [intros h' Hne; by apply cget_cset_ne|].
    intros h' o Ho. inversion Ho.
Qed.

Lemma message_touches_one_room_witness :
  (∀ code, addressed (Game.at_time 38 "") (Game.socket 2 Game.before_last) REQUEST_STATE
           ≠ Some code →
     rooms Scenes.asked_server !! code = rooms Game.before_last !! code)
  ∧ (∀ h', h' ≠ 2%nat →
       cget h' (clients Scenes.asked_server) = cget h' (clients Game.before_last))
  ∧ (∀ h' o, (h', o) ∈ [(2%nat, ROOM_STATE Scenes.asked_state)] →
       h' = 2%nat
       ∨ ∃ ws' code,
           addressed (Game.at_time 38 "") (Game.socket 2 Game.before_last) REQUEST_STATE
           = Some code
           ∧ (h', ws') ∈ clients Scenes.asked_server ∧ room ws' = Some code).
Proof.
  apply (message_touches_one_room (Game.at_time 38 "") 2 (Game.socket 2 Game.before_last)
           REQUEST_STATE Game.before_last Scenes.asked_server
           [(2%nat, ROOM_STATE Scenes.asked_state)]).
  vm_compute. reflexivity.
Defined.

(** *** Seats and boards *)








(** *** Closing a socket *)

Lemma elem_of_cdel h h' c cs : (h', c) ∈ cdel h cs ↔ (h', c) ∈ cs ∧ h' ≠ h.
Proof.
  unfold cdel. rewrite !list_elem_of_In, filter_In. cbn.
  rewrite negb_true_iff, Nat.eqb_neq. reflexivity.
Qed.

Lemma hasClient_spec cs code :
  hasClient cs code = true ↔ ∃ h ws, (h, ws) ∈ cs ∧ room ws = Some code.
Proof.
  unfold hasClient. rewrite existsb_exists. split.
  - intros ([h ws] & Hin & H). apply bool_decide_eq_true in H.
    exists h, ws. split; [by apply list_elem_of_In|exact H].
  - intros (h & ws & Hin & H). exists (h, ws). split; [by apply list_elem_of_In|].
    by apply bool_decide_eq_true.
Qed.

(** X18: closing a socket removes the rooms nobody is bound to.  After
    a socket closes, a room is still there exactly when another socket
    is bound to it, and then it is unchanged; the sockets that remain
    are the others, unchanged.  In particular a room that was created
    and not joined yet is removed when any socket closes. *)
Theorem close_removes_unbound_rooms (h : nat) (s : Server) (code : string) (rm : Room) :
  (rooms (on_close h s) !! code = Some rm ↔
   rooms s !! code = Some rm
   ∧ ∃ h' ws', (h', ws') ∈ clients s ∧ h' ≠ h ∧ room ws' = Some code)
  ∧ clients (on_close h s) = cdel h (clients s).
Proof.
  split; [|reflexivity].
  unfold on_close, cleanupRooms. cbn [rooms clients].
  rewrite map_lookup_filter_Some. cbn [fst]. rewrite hasClient_spec.
  split; intros [Hrm (h' & ws' & Hin & Hrest)]; (split; [exact Hrm|]); exists h', ws'.
  - apply elem_of_cdel in Hin as [Hin Hne]. by repeat split.
  - destruct Hrest as [Hne Hroom]. split; [by apply elem_of_cdel|exact Hroom].
Qed.

(** *** A code drawn twice *)

(** X19: CREATE_ROOM does not look whether the code it draws is taken.
    Whatever is stored under the code, the handler stores a fresh empty
    room there and leaves every other room alone; the sockets bound to
    the code stay bound, but their players are gone, so that their
    PLACE_FLEET and FIRE messages change nothing and are not answered. *)
Theorem create_room_replaces_existing (env : Env) (h : nat) (ws : Conn) (s : Server) :
  let code := code6 env in
  let s' := set_room s code (fresh_room (now env)) in
  handle env h ws CREATE_ROOM s = Some (s', [(h, ROOM_CREATED code)])
  ∧ rooms s' !! code = Some (fresh_room (now env))
  ∧ (∀ code', code' ≠ code → rooms s' !! code' = rooms s !! code')
  ∧ clients s' = clients s
  ∧ ∀ env' h' ws' payload rdy r c,
      truthy (room ws') = Some code →
      handle env' h' ws' (PLACE_FLEET payload rdy) s' = Some (s', [])
      ∧ handle env' h' ws' (FIRE r c) s' = Some (s', []).
Proof.
  intros code s'. split; [reflexivity|].
  assert (Hroom : rooms s' !! code = Some (fresh_room (now env))).
  { cbn. by rewrite lookup_insert_eq. }
  split; [exact Hroom|]. split.
  { intros code' Hne. cbn. by rewrite lookup_insert_ne. }
  split; [reflexivity|].
  intros env' h' ws' payload rdy r c Hbound.
  assert (Hget : getRoom s' ws' = Some (fresh_room (now env))).
  { unfold getRoom. rewrite Hbound. cbn [mbind option_bind]. exact Hroom. }
  split.
  - cbn [handle]. unfold handle_place. rewrite Hbound, Hget.
    cbn [fresh_room phase players]. rewrite bool_decide_true by reflexivity. cbn [negb].
    by destruct (playerId ws').
  - cbn [handle]. unfold handle_fire. rewrite Hbound, Hget.
    cbn [fresh_room phase]. by rewrite bool_decide_false.
Qed.

(** *** Bound sockets *)

(** One handler run stores at most one room and rebinds at most the
    sender, to a room that is there. *)
Lemma handle_shape env h ws msg s s' outs :
  handle env h ws msg s = Some (s', outs) →
  (rooms s' = rooms s ∨ ∃ code rm', rooms s' = <[code := rm']> (rooms s))
  ∧ (clients s' = clients s
     ∨ ∃ code pid, clients s' = cset h {| room := Some code; playerId := Some pid;
                                          okRate := okRate ws |} (clients s)
                   ∧ is_Some (rooms s' !! code)).
Proof.
  destruct msg as [|msg_code|payload rdy|msg_r msg_c| | | | |]; cbn [handle];
    [| | | | | |discriminate
     |intros H; apply handle_fire_throws_same in H as [-> _]; split; by left
     |discriminate].
  - intros [= <- _]. split; [right; by eexists _, _|by left].
  - unfold handle_join.
    destruct (rooms s !! trim msg_code) as [rm|]; [|intros [= <- _]; split; by left].
    destruct (2 <=? _)%nat; [intros [= <- _]; split; by left|].
    cbv zeta. destruct (broadcastRoom _ _) as [o|]; [|discriminate].
    cbn [mbind option_bind]. intros [= <- _]. split; [right; by eexists _, _|]. right.
    exists (trim msg_code), (randomUUID env). split; [reflexivity|].
    cbn [rooms]. rewrite lookup_insert_eq. by eexists.
  - unfold handle_place.
    destruct (truthy (room ws)) as [code0|]; [|intros [= <- _]; split; by left].
    destruct (getRoom s ws) as [rm|]; [|intros [= <- _]; split; by left].
    destruct (negb _); [intros [= <- _]; split; by left|].
    destruct (playerId ws ≫= _) as [[k p]|]; [|intros [= <- _]; split; by left].
    destruct (Sanitizer.sanitizeFleet payload) as [[cb cs]|];
      [|intros [= <- _]; split; by left].
    cbv zeta. set (rm1 := set_players rm _). set (s1 := set_room s code0 rm1).
    destruct (broadcastRoom s1 (room ws)) as [o1|]; [|discriminate].
    cbn [mbind option_bind]. destruct (all_ready rm1).
    + match goal with |- context [broadcastRoom ?a ?b] =>
        destruct (broadcastRoom a b) as [o2|] end; [|discriminate].
      cbn [mbind option_bind]. intros [= <- _]. split; [right; by eexists _, _|by left].
    + intros [= <- _]. split; [right; by eexists _, _|by left].
  - unfold handle_fire.
    destruct (truthy (room ws)) as [code0|]; [|intros [= <- _]; split; by left].
    destruct (getRoom s ws) as [rm|]; [|intros [= <- _]; split; by left].
    destruct (negb _); [intros [= <- _]; split; by left|].
    destruct (negb _); [intros [= <- _]; split; by left|].
    destruct (playerId ws ≫= _) as [[k me]|]; [|intros [= <- _]; split; by left].
    destruct (otherPlayerId rm (playerId ws)) as [oppId|];
      [|intros [= <- _]; split; by left].
    cbv zeta.
    destruct (pget oppId (players rm)) as [opp|]; [|discriminate]. cbn [mbind option_bind].
    destruct (lookup2 (marks me) _ _) as [mark|]; [|discriminate]. cbn [mbind option_bind].
    destruct ((mark =? 2) || (mark =? 3)); [intros [= <- _]; split; by left|].
    destruct (lookup2 (board opp) _ _) as [cellId|]; [|discriminate]. cbn [mbind option_bind].
    match goal with |- context [?x ≫= _] =>
      match type of x with option Room => destruct x as [rm0|] end end; [|discriminate].
    cbn [mbind option_bind].
    destruct (broadcastRoom _ _) as [o|]; [|discriminate].
    cbn [mbind option_bind]. intros [= <- _]. split; [right; by eexists _, _|by left].
  - unfold handle_request. destruct (getRoom s ws); [|intros [= <- _]; split; by left].
    destruct (roomStateFor _ _); [|discriminate]. intros [= <- _]. split; by left.
  - intros [= <- _]. split; by left.
Qed.

Lemma elem_of_cset h c cs h' c' :
  (h', c') ∈ cset h c cs → (h' = h ∧ c' = c) ∨ (h', c') ∈ cs.
Proof.
  induction cs as [|[h0 c0] cs IH]; cbn.
  - intros H. apply list_elem_of_singleton in H. inversion H. by left.
  - destruct (h0 =? h)%nat; intros H; apply elem_of_cons in H as [H|H].
    + inversion H. by left.
    + right. by right.
    + right. rewrite H. by left.
    + destruct (IH H) as [?|?]; [by left|]. right. by right.
Qed.

(** The room of every bound socket is there. *)
Lemma bound_rooms s :
  reachable s → ∀ h ws code, (h, ws) ∈ clients s → room ws = Some code →
  is_Some (rooms s !! code).
Proof.
  induction 1 as [|s ev s' _ IH Hstep]; intros h0 ws0 code Hin Hroom.
  - inversion Hin.
  - destruct Hstep as [env h s Hc|env h ws msg s s' outs Hc Hm|h ws s Hc].
    + cbn [on_connection clients rooms] in *. apply elem_of_app in Hin as [Hin|Hin].
      * by eapply IH.
      * apply list_elem_of_singleton in Hin. inversion Hin; subst. discriminate.
    + pose proof (cget_mem _ _ _ Hc) as Hsender.
      revert Hm. unfold on_message. destruct (RateLimit.ok _ _) as [lim pass].
      set (ws1 := {| room := room ws; playerId := playerId ws; okRate := lim |}).
      set (s1 := {| rooms := rooms s; clients := cset h ws1 (clients s) |}).
      assert (Hs1 : ∀ h1 w1 c, (h1, w1) ∈ clients s1 → room w1 = Some c →
                is_Some (rooms s !! c)).
      { intros h1 w1 c H1 Hr1. cbn [s1 clients] in H1.
        apply elem_of_cset in H1 as [[-> ->]|H1]; [|by eapply IH].
        by apply (IH h ws c). }
      intros Hm.
      assert (Hcases : s' = s1 ∨ ∃ m, handle env h ws1 m s1 = Some (s', outs)).
      { destruct pass; cbn [negb] in Hm; [|left; by inversion Hm].
        destruct msg as [m|]; [right; by exists m|left; by inversion Hm]. }
      destruct Hcases as [->|[m Hh]]; [by apply (Hs1 h0 ws0)|].
      destruct (handle_shape _ _ _ _ _ _ _ Hh) as [Hrooms Hclients].
      assert (Hgrow : ∀ c, is_Some (rooms s !! c) → is_Some (rooms s' !! c)).
      { intros c Hsome. destruct Hrooms as [->|(code0 & rm0 & ->)]; [exact Hsome|].
        cbn [s1 rooms]. apply lookup_insert_is_Some.
        destruct (decide (code0 = c)); [by left|by right]. }
      destruct Hclients as [Hcl|(codeJ & pid & Hcl & HJ)].
      * rewrite Hcl in Hin. apply Hgrow. by apply (Hs1 h0 ws0).
      * rewrite Hcl in Hin. apply elem_of_cset in Hin as [[-> ->]|Hin].
        -- cbn in Hroom. inversion Hroom; subst. exact HJ.
        -- apply Hgrow. by apply (Hs1 h0 ws0).
    + unfold on_close, cleanupRooms in *. cbn [rooms clients] in *.
      pose proof Hin as Hin'. apply elem_of_cdel in Hin' as [Hin' _].
      destruct (IH h0 ws0 code Hin' Hroom) as [rm Hrm]. exists rm.
      apply map_lookup_filter_Some. split; [exact Hrm|]. cbn [fst].
      apply hasClient_spec. eauto.
Qed.

(** X20: a bound socket has a room.  In every reachable state, the
    room code kept on a socket names a room that is there: rooms are
    removed only when no socket is bound to them, and a socket is bound
    only by a JOIN_ROOM that found the room. *)
Theorem bound_socket_has_room (s : Server) (h : nat) (ws : Conn) (code : string) :
  reachable s → cget h (clients s) = Some ws → room ws = Some code →
  ∃ rm, rooms s !! code = Some rm.
Proof.
  intros Hs Hc Hroom. apply (bound_rooms s Hs h ws code); [|exact Hroom].
  by apply cget_mem.
Qed.

Lemma bound_socket_has_room_witness :
  ∃ rm, rooms Game.final !! "123456"%string = Some rm.
Proof.
  apply (bound_socket_has_room Game.final 2 (Game.socket 2 Game.final)).
  - exact game_reachable.
  - vm_compute. reflexivity.
  - vm_compute. reflexivity.
Defined.

End FrameFacts.

(** * Edges of the message handler *)

Module EdgeFacts.
Import Grid GridFacts JoinFacts ServerFacts.

(** *** Room codes are trimmed *)

Lemma trim_start_unfold a s1 :
  trim_start (String a s1) =
  if is_space a then trim_start s1
  else match s1 with
       | String b s2 =>
           if is_space2 a b then trim_start s2
           else match s2 with
                | String c s3 => if is_space3 a b c then trim_start s3 else String a s1
                | EmptyString => String a s1
                end
       | EmptyString => String a s1
       end.
Proof. reflexivity. Qed.

Lemma trim_end_unfold a s :
  trim_end (String a s) =
  if all_space (String a s) then EmptyString else String a (trim_end s).
Proof. reflexivity. Qed.

(** Where the bytes of a white space character lie. *)
Lemma is_space_first a : is_space a = true → continues a = false.
Proof.
  unfold is_space, continues. cbv zeta.
  rewrite orb_true_iff, andb_true_iff, andb_false_iff, !Nat.leb_le, Nat.eqb_eq,
    !Nat.leb_gt. lia.
Qed.

Lemma is_space2_bytes a b :
  is_space2 a b = true → continues a = false ∧ continues b = true.
Proof.
  unfold is_space2, continues.
  rewrite !andb_true_iff, andb_false_iff, !Nat.eqb_eq, !Nat.leb_le, !Nat.leb_gt. lia.
Qed.

Lemma is_space3_bytes a b c :
  is_space3 a b c = true →
  continues a = false ∧ continues b = true ∧ continues c = true.
Proof.
  unfold is_space3, continues. cbv zeta.
  repeat rewrite ?orb_true_iff, ?andb_true_iff.
  rewrite andb_false_iff, !Nat.eqb_eq, !Nat.leb_le, !Nat.leb_gt. lia.
Qed.

(** A string of white space starts with the first byte of a character. *)
Lemma space_head p rest : all_space (String p rest) = true → continues p = false.
Proof.
  unfold all_space. rewrite trim_start_unfold.
  destruct (is_space p) eqn:Hp; [intros _; by apply is_space_first|].
  destruct rest as [|b s2]; [discriminate|].
  destruct (is_space2 p b) eqn:Hpb; [intros _; by apply is_space2_bytes in Hpb as [? _]|].
  destruct s2 as [|c s3]; [discriminate|].
  destruct (is_space3 p b c) eqn:Hpbc; [intros _|discriminate].
  by apply is_space3_bytes in Hpbc as (? & _).
Qed.

Lemma not_second a p : continues p = false → is_space2 a p = false.
Proof.
  intros Hp. destruct (is_space2 a p) eqn:E; [|reflexivity].
  apply is_space2_bytes in E as [_ E]. congruence.
Qed.

Lemma not_second3 a p c : continues p = false → is_space3 a p c = false.
Proof.
  intros Hp. destruct (is_space3 a p c) eqn:E; [|reflexivity].
  apply is_space3_bytes in E as (_ & E & _). congruence.
Qed.

Lemma not_third a b p : continues p = false → is_space3 a b p = false.
Proof.
  intros Hp. destruct (is_space3 a b p) eqn:E; [|reflexivity].
  apply is_space3_bytes in E as (_ & _ & E). congruence.
Qed.

(** White space in front is skipped, whatever follows. *)
Lemma trim_start_space_len x : ∀ n pre,
  (String.length pre ≤ n)%nat → all_space pre = true →
  trim_start (pre +:+ x) = trim_start x.
Proof.
  induction n as [|n IH]; intros pre Hn Hall.
  - destruct pre; [reflexivity|]. cbn in Hn. lia.
  - destruct pre as [|a s1]; [reflexivity|]. cbn [String.length] in Hn.
    unfold all_space in Hall. rewrite trim_start_unfold in Hall.
    rewrite append_cons, (trim_start_unfold a (s1 +:+ x)).
    destruct (is_space a); [apply IH; [lia|exact Hall]|].
    destruct s1 as [|b s2]; [discriminate|]. cbn [String.length] in Hn.
    rewrite append_cons. destruct (is_space2 a b); [apply IH; [lia|exact Hall]|].
    destruct s2 as [|c s3]; [discriminate|]. cbn [String.length] in Hn.
    rewrite append_cons. destruct (is_space3 a b c); [|discriminate].
    apply IH; [lia|exact Hall].
Qed.

Lemma trim_start_space pre x : all_space pre = true → trim_start (pre +:+ x) = trim_start x.
Proof. by apply (trim_start_space_len x (String.length pre)). Qed.

(** White space behind does not change where the white space in front
    ends. *)
Lemma trim_start_padded_len post :
  all_space post = true →
  ∀ n z, (String.length z ≤ n)%nat →
    trim_start (z +:+ post) =
    if all_space z then EmptyString else trim_start z +:+ post.
Proof.
  intros Hpost.
  assert (Htwo : ∀ a, match post with
                      | String p _ => is_space2 a p = false
                      | EmptyString => True
                      end).
  { intros a. destruct post as [|p r]; [exact I|]. apply not_second. by eapply space_head. }
  assert (Hmid : ∀ a c, match post with
                        | String p _ => is_space3 a p c = false
                        | EmptyString => True
                        end).
  { intros a c. destruct post as [|p r]; [exact I|]. apply not_second3.
    by eapply space_head. }
  assert (Hlast : ∀ a b, match post with
                         | String p _ => is_space3 a b p = false
                         | EmptyString => True
                         end).
  { intros a b. destruct post as [|p r]; [exact I|]. apply not_third.
    by eapply space_head. }
  induction n as [|n IH]; intros z Hn.
  - destruct z; [|cbn in Hn; lia]. rewrite append_nil. cbn.
    by apply String.eqb_eq in Hpost.
  - destruct z as [|a s1].
    { rewrite append_nil. cbn. by apply String.eqb_eq in Hpost. }
    cbn [String.length] in Hn. unfold all_space.
    rewrite append_cons, (trim_start_unfold a (s1 +:+ post)), (trim_start_unfold a s1).
    destruct (is_space a); [apply IH; lia|].
    destruct s1 as [|b s2].
    { rewrite append_nil. cbn [String.eqb]. rewrite append_cons, append_nil.
      specialize (Htwo a). destruct post as [|p r]; [reflexivity|]. rewrite Htwo.
      destruct r as [|c r']; [reflexivity|]. specialize (Hmid a c). cbv beta iota in Hmid.
      by rewrite Hmid. }
    cbn [String.length] in Hn. rewrite append_cons.
    destruct (is_space2 a b); [apply IH; lia|].
    destruct s2 as [|c s3].
    { rewrite append_nil. cbn [String.eqb]. rewrite !append_cons, append_nil.
      specialize (Hlast a b). destruct post as [|p r]; [reflexivity|]. by rewrite Hlast. }
    cbn [String.length] in Hn. rewrite append_cons.
    destruct (is_space3 a b c); [apply IH; lia|].
    cbn [String.eqb]. by rewrite !append_cons.
Qed.

Lemma trim_start_padded z post :
  all_space post = true →
  trim_start (z +:+ post) = if all_space z then EmptyString else trim_start z +:+ post.
Proof. intros Hpost. by apply (trim_start_padded_len post Hpost (String.length z)). Qed.

Lemma all_space_padded z post :
  all_space post = true → all_space (z +:+ post) = all_space z.
Proof.
  intros Hpost. unfold all_space at 1. rewrite (trim_start_padded z post Hpost).
  unfold all_space. destruct (trim_start z) as [|a t]; [reflexivity|].
  cbn [String.eqb]. by rewrite append_cons.
Qed.

Lemma trim_end_space post : all_space post = true → trim_end post = EmptyString.
Proof.
  intros H. destruct post as [|a post]; [reflexivity|]. by rewrite trim_end_unfold, H.
Qed.

Lemma trim_end_padded s post : all_space post = true → trim_end (s +:+ post) = trim_end s.
Proof.
  intros Hpost. induction s as [|a s IH].
  - rewrite append_nil. by apply trim_end_space.
  - rewrite append_cons, !trim_end_unfold, <- append_cons.
    by rewrite (all_space_padded _ post Hpost), IH.
Qed.

Lemma trim_padded pre s post :
  all_space pre = true → all_space post = true → trim (pre +:+ s +:+ post) = trim s.
Proof.
  intros Hpre Hpost. unfold trim.
  rewrite (trim_start_space pre _ Hpre), (trim_start_padded s post Hpost).
  destruct (all_space s) eqn:Hs.
  - unfold all_space in Hs. apply String.eqb_eq in Hs. by rewrite Hs.
  - by apply trim_end_padded.
Qed.

(** X21: room codes are compared after trimming.  White space before
    and after the code of a JOIN_ROOM makes no difference, be it spaces,
    tabs and line ends or the other white space of Unicode that
    [String.prototype.trim] strips (U+00A0, U+1680, U+2000 to U+200A,
    U+2028, U+2029, U+202F, U+205F, U+3000, U+FEFF): the padded code is
    handled exactly as the bare one. *)
Theorem join_ignores_padding (env : Env) (h : nat) (ws : Conn) (s : Server)
    (pre code post : string) :
  all_space pre = true → all_space post = true →
  handle env h ws (JOIN_ROOM (pre +:+ code +:+ post)) s
  = handle env h ws (JOIN_ROOM code) s.
Proof.
  intros Hpre Hpost. cbn [handle]. unfold handle_join.
  by rewrite (trim_padded pre code post Hpre Hpost).
Qed.

Lemma join_ignores_padding_witness :
  handle (Game.at_time 3 "C") 1 (Game.socket 1 Game.alone)
         (JOIN_ROOM (pad_before +:+ "123456" +:+ pad_after)) Game.alone
  = handle (Game.at_time 3 "C") 1 (Game.socket 1 Game.alone) (JOIN_ROOM "123456") Game.alone.
Proof.
  apply (join_ignores_padding (Game.at_time 3 "C") 1 (Game.socket 1 Game.alone) Game.alone
           pad_before "123456" pad_after); reflexivity.
Defined.

(** *** Shots are moved into the grid *)

Lemma clamp_fixed (x : Z) :
  clamp (toInt32 (clamp (toInt32 x) 0 (SIZE - 1))) 0 (SIZE - 1)
  = clamp (toInt32 x) 0 (SIZE - 1).
Proof.
  assert (H : 0 ≤ clamp (toInt32 x) 0 (SIZE - 1) ≤ 9) by (unfold clamp, SIZE; lia).
  set (y := clamp (toInt32 x) 0 (SIZE - 1)) in *.
  assert (Hy : toInt32 y = y).
  { unfold toInt32. rewrite Z.mod_small; lia. }
  rewrite Hy. unfold clamp, SIZE. lia.
Qed.

(** X22: a shot is never out of range.  FIRE with any two integers is
    handled exactly as FIRE at the cell they are moved to: each
    coordinate is wrapped to 32 bits and then clamped to 0..9, so that a
    shot left of or above the grid lands in column or row 0 and a shot
    right of or below it in column or row 9. *)
Theorem fire_snaps_to_grid (env : Env) (h : nat) (ws : Conn) (s : Server) (r c : Z) :
  handle env h ws (FIRE r c) s
  = handle env h ws (FIRE (clamp (toInt32 r) 0 (SIZE - 1)) (clamp (toInt32 c) 0 (SIZE - 1))) s
  ∧ 0 ≤ clamp (toInt32 r) 0 (SIZE - 1) < SIZE
  ∧ 0 ≤ clamp (toInt32 c) 0 (SIZE - 1) < SIZE.
Proof.
  split; [|unfold clamp, SIZE; lia].
  cbn [handle]. unfold handle_fire. by rewrite !clamp_fixed.
Qed.

(** *** The other player *)

(** X23: the opponent in a room of two.  In a room whose players are
    [a] and [b], in this order, with non-empty identifiers, the other
    player of [a] is [b] and the other player of anybody else, a
    socket without a player included, is [a]; so the other player of
    the other player of a player is that player. *)
Theorem other_player_of_two (rm : Room) (a b : string) (pid : option string) :
  keys (players rm) = [a; b] → a ≠ b → a ≠ ""%string → b ≠ ""%string →
  otherPlayerId rm pid = (if decide (pid = Some a) then Some b else Some a)
  ∧ otherPlayerId rm (otherPlayerId rm (Some a)) = Some a
  ∧ otherPlayerId rm (otherPlayerId rm (Some b)) = Some b.
Proof.
  intros Hkeys Hab Ha Hb.
  assert (Hspec : ∀ q, otherPlayerId rm q = if decide (q = Some a) then Some b else Some a).
  { intros q. unfold otherPlayerId. rewrite Hkeys. cbn [List.find].
    destruct q as [k|]; cbn [differs].
    - destruct (String.eqb_spec a k) as [<-|Hne]; cbn [negb].
      + rewrite decide_True by reflexivity.
        destruct (String.eqb_spec b a) as [->|_]; [congruence|]. cbn [negb truthy].
        destruct (String.eqb_spec b ""); [congruence|reflexivity].
      + rewrite decide_False by congruence. cbn [truthy].
        destruct (String.eqb_spec a ""); [congruence|reflexivity].
    - rewrite decide_False by discriminate. cbn [truthy].
      destruct (String.eqb_spec a ""); [congruence|reflexivity]. }
  split; [apply Hspec|].
  assert (Hoa : otherPlayerId rm (Some a) = Some b).
  { rewrite Hspec. by rewrite decide_True. }
  assert (Hob : otherPlayerId rm (Some b) = Some a).
  { rewrite Hspec. rewrite decide_False; [reflexivity|congruence]. }
  by rewrite Hoa, Hob, Hoa.
Qed.

Lemma other_player_of_two_witness :
  otherPlayerId (Game.the_room Game.final) (Some "B"%string)
    = (if decide (Some "B"%string = Some "A"%string) then Some "B"%string
       else Some "A"%string)
  ∧ otherPlayerId (Game.the_room Game.final)
      (otherPlayerId (Game.the_room Game.final) (Some "A"%string)) = Some "A"%string
  ∧ otherPlayerId (Game.the_room Game.final)
      (otherPlayerId (Game.the_room Game.final) (Some "B"%string)) = Some "B"%string.
Proof.
  apply (other_player_of_two (Game.the_room Game.final) "A" "B" (Some "B"%string)).
  - vm_compute. reflexivity.
  - discriminate.
  - discriminate.
  - discriminate.
Defined.

End EdgeFacts.

(** * The static file server: the traversal guard *)

Module HttpFacts.
Import Http JoinFacts.

Lemma strip_two a b rest2 :
  strip (String a (String b rest2)) =
  if is_dot a && is_dot b then
    match rest2 with
    | String c rest3 => if is_sep c then strip rest3 else strip rest2
    | EmptyString => EmptyString
    end
  else String a (strip (String b rest2)).
Proof. reflexivity. Qed.

Lemma has_dotdot_two a b rest2 :
  has_dotdot (String a (String b rest2)) =
  (is_dot a && is_dot b) || has_dotdot (String b rest2).
Proof. reflexivity. Qed.

(** A character that is no dot stays where it is. *)
Lemma strip_head b rest2 :
  is_dot b = false → ∃ x, strip (String b rest2) = String b x.
Proof.
  intros Hb. destruct rest2 as [|c rest3]; [by exists EmptyString|].
  rewrite strip_two, Hb. cbn [andb]. eauto.
Qed.

Lemma strip_clean_len n : ∀ s, (String.length s ≤ n)%nat → has_dotdot (strip s) = false.
Proof.
  induction n as [|n IH]; intros s Hn.
  - destruct s; [reflexivity|]. cbn in Hn. lia.
  - destruct s as [|a [|b rest2]]; [reflexivity|reflexivity|].
    cbn [String.length] in Hn. rewrite strip_two.
    destruct (is_dot a && is_dot b) eqn:Hab.
    + destruct rest2 as [|c rest3]; [reflexivity|].
      cbn [String.length] in Hn. destruct (is_sep c); apply IH; cbn [String.length]; lia.
    + assert (Hrest : has_dotdot (strip (String b rest2)) = false)
        by (apply IH; cbn [String.length]; lia).
      destruct (is_dot b) eqn:Hb.
      * assert (Ha : is_dot a = false) by (by destruct (is_dot a)).
        destruct (strip (String b rest2)) as [|b' x]; [reflexivity|].
        rewrite has_dotdot_two, Ha, Hrest. reflexivity.
      * destruct (strip_head b rest2 Hb) as [x Hx]. rewrite Hx in Hrest |- *.
        rewrite has_dotdot_two, Hb, andb_false_r, Hrest. reflexivity.
Qed.

Lemma strip_clean s : has_dotdot (strip s) = false.
Proof. by apply (strip_clean_len (String.length s)). Qed.

Lemma has_dotdot_found pre post : has_dotdot (pre +:+ ".." +:+ post) = true.
Proof.
  induction pre as [|a pre IH]; [reflexivity|].
  rewrite append_cons. destruct pre as [|b pre].
  - rewrite append_nil in *. change (".." +:+ post)%string with (String "." (String "." post)) in *.
    rewrite has_dotdot_two, IH. apply orb_true_r.
  - rewrite append_cons in *. rewrite has_dotdot_two, IH. apply orb_true_r.
Qed.

Lemma strip_fixed s : has_dotdot s = false → strip s = s.
Proof.
  induction s as [|a rest IH]; [reflexivity|].
  destruct rest as [|b rest2]; [reflexivity|].
  rewrite has_dotdot_two, strip_two. intros H. apply orb_false_iff in H as [-> H].
  by rewrite IH.
Qed.

(** X24: the traversal guard leaves no two dots in a row: whatever the
    requested path, the path that [safe] holds after
    [raw.replace(/\.\.(\/|\\)?/g, '')] contains no [..] anywhere, so it
    has no parent-directory segment, and applying the guard a second time
    changes nothing.  A path that had no [..] is served as it was sent. *)
Theorem guard_leaves_no_dotdot (s : string) :
  (∀ pre post, strip s ≠ pre +:+ ".." +:+ post) ∧
  strip (strip s) = strip s ∧
  ((∀ pre post, s ≠ pre +:+ ".." +:+ post) → strip s = s).
Proof.
  split; [|split].
  - intros pre post H. pose proof (strip_clean s) as Hc.
    rewrite H, has_dotdot_found in Hc. discriminate.
  - apply strip_fixed, strip_clean.
  - intros Hno. apply strip_fixed. destruct (has_dotdot s) eqn:Hd; [|reflexivity].
    exfalso. clear -Hd Hno.
    assert (∃ pre post, s = pre +:+ ".." +:+ post) as (pre & post & ->);
      [|by eapply Hno].
    clear Hno. induction s as [|a rest IH]; [discriminate|].
    destruct rest as [|b rest2]; [discriminate|].
    rewrite has_dotdot_two in Hd. apply orb_true_iff in Hd as [Hab|Hd].
    + apply andb_true_iff in Hab as [Ha Hb].
      apply Ascii.eqb_eq in Ha, Hb. subst. by exists EmptyString, rest2.
    + destruct (IH Hd) as (pre & post & Heq). exists (String a pre), post.
      rewrite append_cons. by f_equal.
Qed.

Lemma target_clean url : has_dotdot (target url) = false.
Proof.
  unfold target. destruct (String.eqb _ "/"); [reflexivity|apply strip_clean].
Qed.

(** X25: a request reads one file, named below the public directory
    without [..].  Every request but [/healthz] makes one [fs.readFile],
    of [path.join(PUBLIC, rel)] for a [rel] that contains no [..]
    anywhere: [rel] is the requested path up to the first [?] with every
    [..] and the separator after it removed, and [index.html] when that
    is [/].  The answer is 404 [Not found] when the read fails, and
    otherwise 200 with the data under the type that [MIME] gives for the
    lower-cased extension, [application/octet-stream] when it gives
    none. *)
Theorem request_reads_below_public (path_join : string → string → string)
    (path_extname to_lower : string → string) (read_file : string → option string)
    (PUBLIC : string) (url : option string) :
  url ≠ Some "/healthz"%string →
  ∃ rel, (∀ pre post, rel ≠ pre +:+ ".." +:+ post)
    ∧ rel = (let safe := strip (before_query (match url with
                                            | Some u => if String.eqb u "" then "/" else u
                                            | None => "/"
                                            end)) in
             if String.eqb safe "/" then "index.html" else safe)%string
    ∧ serve path_join path_extname to_lower read_file PUBLIC url =
      match read_file (path_join PUBLIC rel) with
      | None => {| status := 404; content_type := "text/plain"; payload := "Not found" |}
      | Some data =>
          {| status := 200;
             content_type :=
               default "application/octet-stream"%string
                 (lookup_mime (to_lower (path_extname (path_join PUBLIC rel))) MIME);
             payload := data |}
      end.
Proof.
  intros Hurl. exists (target url). split; [|split; [reflexivity|]].
  - intros pre post H. pose proof (target_clean url) as Hc.
    rewrite H, has_dotdot_found in Hc. discriminate.
  - unfold serve. by rewrite bool_decide_eq_false_2.
Qed.

Lemma request_reads_below_public_witness :
  ∃ rel, (∀ pre post, rel ≠ pre +:+ ".." +:+ post)
    ∧ rel = "img/x.PNG"%string
    ∧ serve (fun a b => a +:+ "/" +:+ b) (fun _ => ".PNG"%string) (fun _ => ".png"%string)
            (fun _ => Some "data"%string) "public" (Some "../img/..\x.PNG?v=../2"%string) =
      {| status := 200; content_type := "image/png"; payload := "data" |}.
Proof.
  exact (request_reads_below_public (fun a b => a +:+ "/" +:+ b) (fun _ => ".PNG"%string)
           (fun _ => ".png"%string) (fun _ => Some "data"%string) "public"
           (Some "../img/..\x.PNG?v=../2"%string) ltac:(discriminate)).
Defined.

End HttpFacts.

(** * The client's fleet placement *)

Module ClientFacts.
Import Grid GridFacts Placement Extraction FleetFacts SoundFacts RulesFacts Client.

(** *** Grids are determined by their cells *)

Lemma shaped_ext (a b : Board) :
  shaped a → shaped b →
  (∀ r c, 0 ≤ r < SIZE → 0 ≤ c < SIZE → lookup2 a r c = lookup2 b r c) → a = b.
Proof.
  intros [Hla Hra] [Hlb Hrb] Heq. apply list_eq. intros i.
  destruct (decide (i < Z.to_nat SIZE)%nat) as [Hi|Hi].
  2:{ rewrite !lookup_ge_None_2 by lia. reflexivity. }
  destruct (lookup_lt_is_Some_2 a i) as [ra Ha]; [lia|].
  destruct (lookup_lt_is_Some_2 b i) as [rb Hb]; [lia|].
  rewrite Ha, Hb. f_equal. apply list_eq. intros j.
  rewrite Forall_forall in Hra, Hrb.
  pose proof (Hra ra (list_elem_of_lookup_2 _ _ _ Ha)) as Hlra.
  pose proof (Hrb rb (list_elem_of_lookup_2 _ _ _ Hb)) as Hlrb.
  destruct (decide (j < Z.to_nat SIZE)%nat) as [Hj|Hj].
  2:{ rewrite !lookup_ge_None_2 by lia. reflexivity. }
  specialize (Heq (Z.of_nat i) (Z.of_nat j)). unfold lookup2, SIZE in *.
  replace (Z.of_nat i <? 0) with false in Heq by (symmetry; apply Z.ltb_ge; lia).
  replace (Z.of_nat j <? 0) with false in Heq by (symmetry; apply Z.ltb_ge; lia).
  cbn [orb] in Heq. rewrite !Nat2Z.id, Ha, Hb in Heq. cbn in Heq. apply Heq; lia.
Qed.

Lemma encodes_unique (fl : list Placed) (a b : Board) :
  encodes fl a → encodes fl b → a = b.
Proof.
  intros (Hsa & Hona & Hoffa) (Hsb & Honb & Hoffb). apply shaped_ext; try assumption.
  intros r c Hr Hc.
  destruct (decide (Exists (fun p => (r, c) ∈ cells_of p) fl)) as [Hex|Hno].
  - apply Exists_exists in Hex as (p & Hp & Hx).
    pose proof (Hona p (r, c) Hp Hx) as Ha. pose proof (Honb p (r, c) Hp Hx) as Hb.
    cbn [fst snd] in Ha, Hb. by rewrite Ha, Hb.
  - assert (Hnone : ∀ p, p ∈ fl → (r, c) ∉ cells_of p).
    { intros p Hp Hx. apply Hno, Exists_exists. eauto. }
    by rewrite (Hoffa r c Hr Hc Hnone), (Hoffb r c Hr Hc Hnone).
Qed.

(** *** Fleets numbered in the order of the list *)

Lemma ids_sorted (fl : list Placed) : ∀ k : nat,
  (∀ i p, fl !! i = Some p → p_id p = Z.of_nat (k + i) + 1) →
  StronglySorted (fun p q => p_id p ≤ p_id q) fl.
Proof.
  induction fl as [|a fl IH]; intros k Hid; constructor.
  - apply (IH (S k)). intros i p Hi. rewrite (Hid (S i) p Hi). f_equal. lia.
  - apply Forall_forall. intros q Hq. apply list_elem_of_lookup_1 in Hq as [j Hj].
    rewrite (Hid 0%nat a eq_refl), (Hid (S j) q Hj). lia.
Qed.

Lemma ids_nodup (fl : list Placed) :
  (∀ i p, fl !! i = Some p → p_id p = Z.of_nat i + 1) → NoDup (map p_id fl).
Proof.
  intros Hid. apply NoDup_alt. intros i j x Hi Hj.
  rewrite list_lookup_fmap in Hi, Hj.
  destruct (fl !! i) as [p|] eqn:Hp; [|discriminate].
  destruct (fl !! j) as [q|] eqn:Hq; [|discriminate].
  cbn in Hi, Hj. rewrite (Hid i p Hp) in Hi. rewrite (Hid j q Hq) in Hj.
  assert (Z.of_nat i + 1 = Z.of_nat j + 1) by congruence. lia.
Qed.

(** A valid fleet numbered 1, 2, ... in the order of the list comes back
    from the sanitizer as it went in. *)
Lemma numbered_fleet_fixed (fl : list Placed) (b : Board) :
  valid_fleet fl → (∀ i p, fl !! i = Some p → p_id p = Z.of_nat i + 1) →
  encodes fl b →
  Sanitizer.sanitizeFleet (Some {| Sanitizer.board := Some b |})
  = Some (b, map to_ship fl).
Proof.
  intros Hfl Hid Henc.
  destruct (placement_sanitized fl b Hfl Henc) as (sorted & Hperm & Hsorted & Hres).
  pose proof Hfl as (_ & Hnd & _ & Hin & Hdisj).
  assert (Heq : sorted = fl).
  { apply sorted_by_id_unique; try assumption.
    - by rewrite Hperm.
    - apply (ids_sorted fl 0). exact Hid. }
  subst sorted. rewrite Hres.
  assert (Hsame : imap numbered fl = map to_ship fl).
  { change (imap numbered fl = to_ship <$> fl).
    rewrite <- (imap_const to_ship). apply imap_ext. intros i p Hi.
    cbv beta. unfold numbered, to_ship, const. by rewrite <- (Hid i p Hi). }
  rewrite Hsame. f_equal. f_equal.
  apply (encodes_unique fl); [|exact Henc].
  apply paint_encodes; [exact Hin|].
  intros p q x Hp Hq Hx Hy. by rewrite (Hdisj p q x Hp Hq Hx Hy).
Qed.

(** *** [canPlace] *)

Lemma at_step_cell id r c len h (i : Z) :
  at_step r c h i = cell_at (placed_at id r c len h) i.
Proof. unfold at_step, cell_at, placed_at. cbn. destruct h; f_equal; lia. Qed.

Lemma cells_placed id r c len h :
  cells_of (placed_at id r c len h) = map (fun i => at_step r c h (Z.of_nat i)) (seq 0 len).
Proof.
  unfold cells_of. apply map_ext. intros i. symmetry. apply at_step_cell.
Qed.

Lemma all_empty_S b r c h i n :
  all_empty b r c h i (S n) =
  row ← (if (at_step r c h i).1 <? 0 then None else b !! Z.to_nat (at_step r c h i).1);
  match (if (at_step r c h i).2 <? 0 then None
         else row !! Z.to_nat (at_step r c h i).2) with
  | Some v => if v =? EMPTY then all_empty b r c h (i + 1) n else Some false
  | None => Some false
  end.
Proof. reflexivity. Qed.

(** [canPlace] answers [true] only when every cell of the ship is in the
    grid and empty. *)
Lemma all_empty_true b r c h : ∀ n i,
  all_empty b r c h i n = Some true →
  ∀ j, i ≤ j < i + Z.of_nat n →
    lookup2 b (at_step r c h j).1 (at_step r c h j).2 = Some EMPTY.
Proof.
  induction n as [|n IH]; intros i H j Hj; [lia|].
  rewrite all_empty_S in H.
  set (x := at_step r c h i) in *.
  destruct (Z.ltb_spec x.1 0) as [|Hx1]; [discriminate|].
  destruct (b !! Z.to_nat x.1) as [row|] eqn:Hrow; [|discriminate].
  cbn [mbind option_bind] in H.
  destruct (Z.ltb_spec x.2 0) as [|Hx2]; [discriminate|].
  destruct (row !! Z.to_nat x.2) as [v|] eqn:Hv; [|discriminate].
  destruct (Z.eqb_spec v EMPTY) as [->|]; [|discriminate].
  destruct (decide (j = i)) as [->|Hne].
  - fold x. unfold lookup2.
    replace (x.1 <? 0) with false by (symmetry; apply Z.ltb_ge; lia).
    replace (x.2 <? 0) with false by (symmetry; apply Z.ltb_ge; lia).
    cbn [orb]. rewrite Hrow. exact Hv.
  - apply (IH (i + 1) H). lia.
Qed.

Lemma all_empty_total b r c h : ∀ n i,
  shaped b →
  (∀ j, i ≤ j < i + Z.of_nat n → 0 ≤ (at_step r c h j).1 < SIZE) →
  is_Some (all_empty b r c h i n).
Proof.
  induction n as [|n IH]; intros i Hsh Hrows; [by eexists|].
  rewrite all_empty_S. set (x := at_step r c h i).
  assert (Hx : 0 ≤ x.1 < SIZE) by (apply Hrows; lia).
  replace (x.1 <? 0) with false by (symmetry; apply Z.ltb_ge; lia).
  destruct Hsh as [Hl Hr].
  destruct (lookup_lt_is_Some_2 b (Z.to_nat x.1)) as [row Hrow]; [unfold SIZE in *; lia|].
  rewrite Hrow. cbn [mbind option_bind].
  destruct (if x.2 <? 0 then None else row !! Z.to_nat x.2) as [v|]; [|by eexists].
  destruct (v =? EMPTY); [|by eexists].
  apply IH; [by split|]. intros j Hj. apply Hrows. lia.
Qed.

Lemma canPlace_true b r c len h :
  canPlace b r c len h = Some true →
  (if h then c + Z.of_nat len ≤ SIZE else r + Z.of_nat len ≤ SIZE)
  ∧ ∀ j, 0 ≤ j < Z.of_nat len →
      lookup2 b (at_step r c h j).1 (at_step r c h j).2 = Some EMPTY.
Proof.
  unfold canPlace. destruct h; cbn [andb negb].
  - destruct (Z.ltb_spec SIZE (c + Z.of_nat len)) as [|Hfit]; [discriminate|].
    intros Hall. split; [lia|]. intros j Hj. apply (all_empty_true _ _ _ _ _ _ Hall). lia.
  - destruct (Z.ltb_spec SIZE (r + Z.of_nat len)) as [|Hfit]; [discriminate|].
    intros Hall. split; [lia|]. intros j Hj. apply (all_empty_true _ _ _ _ _ _ Hall). lia.
Qed.

(** On a 10×10 board [canPlace] returns for every row of the grid,
    whatever the column. *)
Lemma canPlace_total b r c len h :
  shaped b → 0 ≤ r < SIZE → is_Some (canPlace b r c len h).
Proof.
  intros Hsh Hr. unfold canPlace. destruct h; cbn [andb negb].
  - destruct (SIZE <? c + Z.of_nat len); [by eexists|].
    apply all_empty_total; [exact Hsh|]. intros j _. cbn. lia.
  - destruct (Z.ltb_spec SIZE (r + Z.of_nat len)); [by eexists|].
    apply all_empty_total; [exact Hsh|]. intros j Hj. cbn. lia.
Qed.

(** *** [placeShip] *)

Lemma at_step_inj r c h i j : at_step r c h i = at_step r c h j → i = j.
Proof. unfold at_step. destruct h; intros [= H]; lia. Qed.

Lemma put_spec id r c h : ∀ n i b cells,
  (∀ j, i ≤ j < i + Z.of_nat n →
     is_Some (lookup2 b (at_step r c h j).1 (at_step r c h j).2)) →
  ∃ b', put id r c h i n b cells
        = Some (b', cells ++ map (fun k => at_step r c h (i + Z.of_nat k)) (seq 0 n))
      ∧ (shaped b → shaped b')
      ∧ (∀ j, i ≤ j < i + Z.of_nat n →
           lookup2 b' (at_step r c h j).1 (at_step r c h j).2 = Some id)
      ∧ (∀ r' c', (∀ j, i ≤ j < i + Z.of_nat n → (r', c') ≠ at_step r c h j) →
           lookup2 b' r' c' = lookup2 b r' c').
Proof.
  induction n as [|n IH]; intros i b cells Hex.
  - exists b. cbn. rewrite app_nil_r. split; [reflexivity|]. split; [done|].
    split; [intros; lia|done].
  - cbn [put]. destruct (Hex i) as [v Hv]; [lia|].
    rewrite (store2_wr _ _ _ _ _ Hv). cbn [mbind option_bind].
    set (x := at_step r c h i) in *. set (b1 := wr b x.1 x.2 id).
    assert (Hst : store2 b x.1 x.2 id = Some b1) by apply (store2_wr _ _ _ _ _ Hv).
    destruct (IH (i + 1) b1 (cells ++ [x])) as (b' & Hput & Hsh & Hon & Hoff).
    { intros j Hj. rewrite (lookup2_store2 _ _ _ _ _ _ _ Hst).
      destruct (decide _); [by eexists|]. apply Hex. lia. }
    exists b'. split.
    { rewrite Hput. f_equal. f_equal. rewrite <- app_assoc. f_equal.
      cbn [seq map app]. f_equal; [unfold x; f_equal; lia|].
      rewrite <- seq_shift, map_map. apply map_ext. intros k. f_equal. lia. }
    split; [intros H; apply Hsh; by apply shaped_wr|].
    split.
    + intros j Hj. destruct (decide (j = i)) as [->|Hne]; [|apply Hon; lia].
      rewrite Hoff.
      * rewrite (lookup2_store2 _ _ _ _ _ _ _ Hst). fold x.
        destruct (decide _) as [|Hn]; [reflexivity|]. by destruct Hn.
      * intros j Hj' Heq. fold x in Heq. rewrite <- surjective_pairing in Heq.
        apply at_step_inj in Heq. lia.
    + intros r' c' Hnot. rewrite Hoff by (intros j Hj; apply Hnot; lia).
      rewrite (lookup2_store2 _ _ _ _ _ _ _ Hst).
      destruct (decide _) as [Heq|]; [|reflexivity].
      destruct (Hnot i); [lia|]. rewrite Heq. symmetry. apply surjective_pairing.
Qed.

Lemma built_nil : built [] (emptyBoard, []).
Proof.
  exists []. split; [reflexivity|]. split; [reflexivity|].
  split; [intros i p H; inversion H|]. split; [intros p H; inversion H|].
  split; [intros p q x H; inversion H|].
  split; [apply shaped_fill|]. split; [intros p x H; inversion H|].
  intros r c Hr Hc _. by apply lookup2_fill.
Qed.

Lemma built_shaped lens st : built lens st → shaped st.1.
Proof. by intros (fl & _ & _ & _ & _ & _ & Hsh & _). Qed.

Lemma built_length lens st : built lens st → length st.2 = length lens.
Proof. intros (fl & -> & <- & _). by rewrite !length_map. Qed.

(** A ship placed where [canPlace] allows it extends the fleet. *)
Lemma place_built lens st r c len h :
  built lens st → (1 ≤ len)%nat → canPlace st.1 r c len h = Some true →
  ∃ st', placeShip st r c len h = Some st' ∧ built (lens ++ [len]) st'.
Proof.
  intros (fl & Hships & Hlens & Hid & Hin & Hdisj & Hsh & Hon & Hoff) Hlen Hcan.
  destruct st as [b ships]. cbn [fst snd] in *. subst ships.
  destruct (canPlace_true _ _ _ _ _ Hcan) as [Hfit Hfree].
  set (id := Z.of_nat (length fl) + 1).
  set (p := placed_at id r c len h).
  assert (Hcell : ∀ x, x ∈ cells_of p → lookup2 b x.1 x.2 = Some EMPTY).
  { intros x Hx. apply elem_of_cells in Hx as (i & Hi & ->).
    rewrite <- (at_step_cell id r c len h). apply Hfree. cbn in Hi. lia. }
  assert (Hpos : ∀ q, q ∈ fl → p_id q ≠ EMPTY).
  { intros q Hq. apply list_elem_of_lookup_1 in Hq as [i Hi].
    rewrite (Hid i q Hi). unfold EMPTY. lia. }
  assert (Hnew : ∀ q x, q ∈ fl → x ∈ cells_of q → x ∉ cells_of p).
  { intros q x Hq Hx Hx'. pose proof (Hon q x Hq Hx) as H1.
    rewrite (Hcell x Hx') in H1. inversion H1 as [H2]. by apply (Hpos q Hq). }
  assert (Hinside : inside p).
  { destruct (shaped_lookup2_range b _ _ _ Hsh (Hfree 0 ltac:(lia))) as [Hr Hc].
    unfold at_step in Hr, Hc. cbn [fst snd] in Hr, Hc.
    unfold inside, p, placed_at. cbn. destruct h; lia. }
  destruct (put_spec id r c h len 0 b [])
    as (b' & Hput & Hsh' & Hon' & Hoff').
  { intros j Hj. rewrite (Hfree j) by lia. by eexists. }
  unfold placeShip. cbn [fst snd]. rewrite length_map. fold id. rewrite Hput.
  cbn [mbind option_bind]. eexists. split; [reflexivity|].
  exists (fl ++ [p]). cbn [fst snd].
  assert (Hcells : cells_of p = map (fun k => at_step r c h (0 + Z.of_nat k)) (seq 0 len)).
  { unfold p. rewrite cells_placed. apply map_ext. intros k. f_equal. }
  split.
  { rewrite map_app. cbn [map app]. f_equal. unfold local. cbn. by rewrite <- Hcells. }
  split; [rewrite map_app, Hlens; reflexivity|].
  split.
  { intros i q Hi. apply lookup_app_Some in Hi as [Hi|[Hge Hi]]; [by apply Hid|].
    destruct (i - length fl)%nat as [|k] eqn:Hk; [|destruct k; discriminate].
    inversion Hi; subst q. cbn. unfold id. f_equal. lia. }
  split.
  { intros q Hq. apply elem_of_app in Hq as [Hq|Hq]; [by apply Hin|].
    apply list_elem_of_singleton in Hq as ->. split; [exact Hlen|exact Hinside]. }
  split.
  { intros q q' x Hq Hq' Hx Hx'.
    apply elem_of_app in Hq as [Hq|Hq]; apply elem_of_app in Hq' as [Hq'|Hq'];
      try apply list_elem_of_singleton in Hq as ->;
      try apply list_elem_of_singleton in Hq' as ->.
    - by apply (Hdisj q q' x).
    - by destruct (Hnew q x Hq Hx).
    - by destruct (Hnew q' x Hq' Hx').
    - reflexivity. }
  split; [by apply Hsh'|].
  assert (Hp_on : ∀ x, x ∈ cells_of p → lookup2 b' x.1 x.2 = Some id).
  { intros x Hx. apply elem_of_cells in Hx as (i & Hi & ->).
    rewrite <- (at_step_cell id r c len h). apply Hon'. cbn in Hi. lia. }
  assert (Hp_off : ∀ r' c', (r', c') ∉ cells_of p → lookup2 b' r' c' = lookup2 b r' c').
  { intros r' c' Hx. apply Hoff'. intros j Hj Heq. apply Hx. rewrite Heq.
    apply elem_of_cells. exists (Z.to_nat j). cbn. split; [lia|].
    rewrite Z2Nat.id by lia. apply at_step_cell. }
  split.
  - intros q x Hq Hx. apply elem_of_app in Hq as [Hq|Hq].
    + destruct x as [r' c']. rewrite Hp_off by (by apply (Hnew q)). by apply (Hon q (r', c')).
    + apply list_elem_of_singleton in Hq as ->. by apply Hp_on.
  - intros r' c' Hr Hc Hnone. rewrite Hp_off.
    + apply Hoff; try assumption. intros q Hq. apply Hnone, elem_of_app. by left.
    + apply Hnone, elem_of_app. right. by apply list_elem_of_singleton.
Qed.

(** *** [placeRandomShip] and [autoFleet] *)

Lemma placeRandomShip_built rnd lens st len :
  built lens st → (1 ≤ len)%nat → (∀ k, in_grid (rnd k)) →
  ∀ tries k, ∃ k' st', placeRandomShip rnd tries k st len = Some (k', st')
                      ∧ (st' = st ∨ built (lens ++ [len]) st').
Proof.
  intros Hb Hlen Hrnd. induction tries as [|t IH]; intros k.
  - eexists _, _. split; [reflexivity|by left].
  - cbn [placeRandomShip].
    destruct (canPlace_total st.1 (rnd k).1.2 (rnd k).2 len (rnd k).1.1) as [ok Hok];
      [by eapply built_shaped|apply Hrnd|].
    rewrite Hok. destruct ok; [|apply IH].
    destruct (place_built _ _ _ _ _ _ Hb Hlen Hok) as (st' & Hp & Hb').
    rewrite Hp. cbn [mbind option_bind]. eexists _, _. split; [reflexivity|by right].
Qed.

Lemma place_all_built rnd :
  (∀ k, in_grid (rnd k)) →
  ∀ todo lens st k, built lens st → Forall (fun n => (1 ≤ n)%nat) todo →
  ∃ k' st' placed, place_all rnd k st todo = Some (k', st')
                   ∧ built (lens ++ placed) st' ∧ placed `sublist_of` todo.
Proof.
  intros Hrnd. induction todo as [|len todo IH]; intros lens st k Hb Htodo.
  - exists k, st, []. rewrite app_nil_r. by repeat split.
  - apply Forall_cons in Htodo as [Hlen Htodo]. cbn [place_all].
    destruct (placeRandomShip_built rnd lens st len Hb Hlen Hrnd 2000 k)
      as (k1 & st1 & Hp & [->|Hb1]); rewrite Hp; cbn [mbind option_bind].
    + destruct (IH lens st k1 Hb Htodo) as (k' & st' & placed & H1 & H2 & H3).
      exists k', st', placed. split; [exact H1|]. split; [exact H2|].
      by apply sublist_cons.
    + destruct (IH (lens ++ [len]) st1 k1 Hb1 Htodo) as (k' & st' & placed & H1 & H2 & H3).
      exists k', st', (len :: placed). split; [exact H1|].
      split; [by rewrite <- app_assoc in H2|]. by apply sublist_skip.
Qed.

(** *** What the server makes of a fleet built by [placeShip] *)

Lemma sublist_same_length {A} (l1 l2 : list A) :
  l1 `sublist_of` l2 → length l1 = length l2 → l1 = l2.
Proof.
  induction 1 as [|x l1 l2 Hs IH|x l1 l2 Hs IH]; intros Hlen; [reflexivity| |].
  - f_equal. apply IH. cbn in Hlen. lia.
  - apply sublist_length in Hs. cbn in Hlen. lia.
Qed.

Lemma sum_perm (l l' : list nat) : l ≡ₚ l' → sum_list l = sum_list l'.
Proof. induction 1; cbn; lia. Qed.

Lemma length_cells_bind (fl : list Placed) :
  length (fl ≫= cells_of) = sum_list (map p_len fl).
Proof.
  induction fl as [|p fl IH]; [reflexivity|].
  rewrite bind_cons, length_app, length_cells, IH. reflexivity.
Qed.

Lemma sublist_sum (l1 l2 : list nat) :
  l1 `sublist_of` l2 → Forall (fun n => (2 ≤ n)%nat) l2 →
  (sum_list l1 ≤ sum_list l2)%nat ∧ (l1 ≠ l2 → (sum_list l1 + 2 ≤ sum_list l2)%nat).
Proof.
  induction 1 as [|x l1 l2 Hs IH|x l1 l2 Hs IH]; intros Hall.
  - split; [done|]. intros H. by destruct H.
  - apply Forall_cons in Hall as [Hx Hall]. destruct (IH Hall) as [Hle Hne]. cbn.
    split; [lia|]. intros H. assert (Hd : l1 ≠ l2) by congruence.
    specialize (Hne Hd). lia.
  - apply Forall_cons in Hall as [Hx Hall]. destruct (IH Hall) as [Hle _]. cbn.
    split; [lia|]. intros _. lia.
Qed.

Lemma built_valid (b : Board) (ships : list LocalShip) :
  built SHIPS (b, ships) →
  ∃ fl, ships = map local fl ∧ valid_fleet fl
        ∧ (∀ i p, fl !! i = Some p → p_id p = Z.of_nat i + 1) ∧ encodes fl b.
Proof.
  intros (fl & Hships & Hlens & Hid & Hin & Hdisj & Henc). cbn [fst snd] in *.
  exists fl. split; [exact Hships|]. split; [|by split].
  split; [by rewrite Hlens|]. split; [by apply ids_nodup|].
  split.
  { intros p Hp. apply list_elem_of_lookup_1 in Hp as [i Hi]. rewrite (Hid i p Hi). lia. }
  split; [intros p Hp; by apply Hin|exact Hdisj].
Qed.

(** The five ships, placed in the order of [SHIPS], come back from the
    sanitizer as they went in. *)
Lemma built_full (b : Board) (ships : list LocalShip) :
  built SHIPS (b, ships) →
  ∃ ss, Sanitizer.sanitizeFleet (Some {| Sanitizer.board := Some b |}) = Some (b, ss)
        ∧ ships = map local_of ss ∧ Forall (fun s => shits s = []) ss.
Proof.
  intros Hb. destruct (built_valid b ships Hb) as (fl & -> & Hvalid & Hid & Henc).
  exists (map to_ship fl). split; [by apply numbered_fleet_fixed|]. split.
  - rewrite map_map. reflexivity.
  - apply Forall_forall. intros s Hs. apply list_elem_of_fmap in Hs as (p & -> & _).
    reflexivity.
Qed.

(** Fewer than the five ships do not pass the sanitizer. *)
Lemma built_short lens (b : Board) (ships : list LocalShip) :
  built lens (b, ships) → lens `sublist_of` SHIPS → lens ≠ SHIPS →
  Sanitizer.sanitizeFleet (Some {| Sanitizer.board := Some b |}) = None.
Proof.
  intros (fl & _ & Hlens & Hid & Hin & Hdisj & Hsh & Hon & Hoff) Hsub Hne.
  cbn [fst snd] in *.
  destruct (Sanitizer.sanitizeFleet _) as [[nb ss]|] eqn:Hacc; [exfalso|reflexivity].
  destruct (accepted_runs b nb ss Hacc)
    as (ps & _ & Hshown & [Hnd Hapart] & _ & _ & Hplens & _).
  assert (Hsubset : ∀ x, x ∈ ps ≫= cells_of → x ∈ fl ≫= cells_of).
  { intros x Hx. apply list_elem_of_bind in Hx as (p & Hx & Hp).
    destruct (Hshown p Hp) as (_ & Hinp & Hnz & Hcells).
    destruct (decide (Exists (fun q => x ∈ cells_of q) fl)) as [Hex|Hno].
    - apply Exists_exists in Hex as (q & Hq & Hxq). apply list_elem_of_bind. eauto.
    - exfalso. destruct (inside_range p x Hinp Hx) as [Hr Hc].
      pose proof (Hcells x Hx) as H1. rewrite Hoff in H1; [|exact Hr|exact Hc|].
      + inversion H1 as [H2]. by apply Hnz.
      + intros q Hq Hxq. apply Hno, Exists_exists. exists q. split; [exact Hq|].
        by rewrite (surjective_pairing x). }
  assert (Hnodup : NoDup (ps ≫= cells_of)).
  { apply NoDup_bind; [|intros; apply cells_nodup|exact Hnd].
    intros p q x Hp Hq Hx Hy. by apply (Hapart p q x). }
  pose proof (submseteq_length _ _ (NoDup_submseteq _ _ Hnodup Hsubset)) as Hlen.
  rewrite !length_cells_bind, (sum_perm _ _ Hplens), Hlens in Hlen.
  destruct (sublist_sum lens SHIPS Hsub) as [_ H2]; [repeat constructor|].
  specialize (H2 Hne). cbn in Hlen, H2. lia.
Qed.

Lemma rows_first_in_grid k : in_grid (rows_first k).
Proof.
  unfold in_grid, rows_first, SIZE. cbn [fst snd].
  pose proof (Nat.mod_upper_bound k 10). lia.
Qed.

(** X26: the server takes the fleet that [autoFleet] builds exactly when
    it is complete.  Whatever the random draws, [autoFleet] returns; it
    has placed at most five ships; when it has placed all five, the
    sanitizer of the server accepts the board and returns it unchanged,
    with the ships the client recorded (same identifiers, lengths and
    cells); when the 2000 tries for some ship all failed, so that fewer
    than five are placed, the sanitizer rejects the board. *)
Theorem auto_fleet_accepted_iff_complete (rnd : nat → bool * Z * Z) :
  (∀ k, in_grid (rnd k)) →
  ∃ b ships, autoFleet rnd = Some (b, ships)
    ∧ (length ships ≤ 5)%nat
    ∧ (length ships = 5%nat →
         ∃ ss, Sanitizer.sanitizeFleet (Some {| Sanitizer.board := Some b |}) = Some (b, ss)
               ∧ ships = map local_of ss ∧ Forall (fun s => shits s = []) ss)
    ∧ (length ships ≠ 5%nat →
         Sanitizer.sanitizeFleet (Some {| Sanitizer.board := Some b |}) = None).
Proof.
  intros Hrnd.
  destruct (place_all_built rnd Hrnd SHIPS [] (emptyBoard, []) 0%nat built_nil)
    as (k & [b ships] & placed & Hrun & Hb & Hsub); [repeat constructor|].
  rewrite app_nil_l in Hb. exists b, ships.
  split; [unfold autoFleet; by rewrite Hrun|].
  pose proof (built_length _ _ Hb) as Hlen. cbn [snd] in Hlen.
  pose proof (sublist_length _ _ Hsub) as Hle. cbn [SHIPS length] in Hle.
  split; [lia|]. split.
  - intros H5. assert (placed = SHIPS) as ->.
    { apply sublist_same_length; [exact Hsub|]. cbn [SHIPS length]. lia. }
    by apply built_full.
  - intros H5. apply (built_short placed b ships Hb Hsub). intros ->.
    apply H5. by rewrite Hlen.
Qed.

Lemma auto_fleet_accepted_iff_complete_witness :
  ∃ b ships, autoFleet rows_first = Some (b, ships)
    ∧ (length ships ≤ 5)%nat
    ∧ (length ships = 5%nat →
         ∃ ss, Sanitizer.sanitizeFleet (Some {| Sanitizer.board := Some b |}) = Some (b, ss)
               ∧ ships = map local_of ss ∧ Forall (fun s => shits s = []) ss)
    ∧ (length ships ≠ 5%nat →
         Sanitizer.sanitizeFleet (Some {| Sanitizer.board := Some b |}) = None).
Proof. apply (auto_fleet_accepted_iff_complete rows_first). exact rows_first_in_grid. Defined.

(** *** The placement buttons *)




















End ClientFacts.

(** * Turns alternate *)

Module TurnFacts.
Import Grid GridFacts ServerFacts Rules RulesFacts Turns.

Lemma list_alter_middle {A} (f : A → A) (l : list A) : ∀ i x,
  l !! i = Some x → alter f i l = take i l ++ f x :: drop (S i) l.
Proof.
  induction l as [|a l IH]; intros [|i] x H; try discriminate.
  - inversion H; subst. reflexivity.
  - cbn. f_equal. by apply IH.
Qed.

Lemma count_insert (row : list Z) j v :
  row !! j = Some 0 → v ≠ 0 →
  length (filter (fun v => v ≠ 0) (<[j := v]> row))
  = S (length (filter (fun v => v ≠ 0) row)).
Proof.
  intros Hj Hv. rewrite insert_take_drop by (eapply lookup_lt_Some, Hj).
  rewrite <- (take_drop_middle row j 0 Hj) at 3.
  rewrite !filter_app, !length_app, !filter_cons.
  destruct (decide (v ≠ 0)) as [_|Hn]; [|by destruct Hn].
  destruct (decide (0 ≠ 0)) as [Hn|_]; [by destruct Hn|]. cbn. lia.
Qed.

(** A mark written on an unmarked cell is one shot more. *)
Lemma shots_store2 (m m' : Board) r c v :
  store2 m r c v = Some m' → lookup2 m r c = Some 0 → v ≠ 0 →
  shots m' = S (shots m).
Proof.
  intros Hst Hget Hv. unfold store2 in Hst. rewrite Hget in Hst.
  injection Hst as <-. unfold lookup2 in Hget.
  destruct ((r <? 0) || (c <? 0)); [discriminate|].
  destruct (m !! Z.to_nat r) as [row|] eqn:Hrow; [|discriminate].
  cbn [mbind option_bind] in Hget. unfold shots.
  rewrite (list_alter_middle _ m _ row Hrow).
  rewrite <- (take_drop_middle m (Z.to_nat r) row Hrow) at 3.
  rewrite !concat_app, !concat_cons, !filter_app, !length_app.
  rewrite (count_insert row _ v Hget Hv). lia.
Qed.

Lemma shots_empty : shots emptyBoard = 0%nat.
Proof. reflexivity. Qed.

(** The two players after a shot. *)
Lemma shot_players ps k me o opp me' opp' :
  NoDup (keys ps) → length ps = 2%nat →
  pget k ps = Some me → pget o ps = Some opp → o ≠ k →
  ∀ x px, (x, px) ∈ pset o opp' (pset k me' ps) ∨ (opp' = opp ∧ (x, px) ∈ pset k me' ps) →
    (x = k ∧ px = me') ∨ (x = o ∧ px = opp').
Proof.
  intros Hnd Hlen Hme Hopp Hne x px Hin.
  assert (Hmid : ∀ y py, (y, py) ∈ pset k me' ps → (y = k ∧ py = me') ∨ (y = o ∧ py = opp)).
  { intros y py Hy. destruct (elem_of_pset k me' ps y py Hnd Hy) as [?|[Hyk Hy']]; [by left|].
    destruct (pair_cases ps k me o opp Hnd Hlen Hme Hopp Hne y py Hy') as [[? _]|?];
      [congruence|by right]. }
  destruct Hin as [Hin|[-> Hin]]; [|by apply Hmid].
  destruct (elem_of_pset o opp' _ x px (nodup_keys_pset k me' ps Hnd) Hin) as [?|[Hxo Hx]];
    [by right|].
  destruct (Hmid x px Hx) as [?|[? _]]; [by left|congruence].
Qed.

Section Shot.
Variables (rm : Room) (k oppId : string) (me opp : Player) (r c mark : Z) (m : Board)
          (v : Z).
Hypothesis Hinv : game_inv rm.
Hypothesis Hfair : fair rm.
Hypothesis Hph : phase rm = battle.
Hypothesis Hturn : turn rm = Some k.
Hypothesis Hme : pget k (players rm) = Some me.
Hypothesis Hother : otherPlayerId rm (Some k) = Some oppId.
Hypothesis Hopp : pget oppId (players rm) = Some opp.
Hypothesis Hr : 0 ≤ r < SIZE.
Hypothesis Hc : 0 ≤ c < SIZE.
Hypothesis Hmark : lookup2 (marks me) r c = Some mark.
Hypothesis H2 : mark ≠ 2.
Hypothesis H3 : mark ≠ 3.
Hypothesis Hv : v ≠ 0.
Hypothesis Hm : store2 (marks me) r c v = Some m.

Lemma shot_two : NoDup (keys (players rm)) ∧ length (players rm) = 2%nat ∧ oppId ≠ k.
Proof.
  destruct Hinv as (_ & Hnd & _ & _ & _ & Hnp & _).
  destruct Hnp as (Hlen & _); [rewrite Hph; discriminate|].
  destruct (otherPlayerId_key rm k oppId Hother) as [_ Hne]. by repeat split.
Qed.

Lemma shot_counts :
  (shots (marks opp) ≤ shots m ≤ S (shots (marks opp)))%nat.
Proof.
  destruct shot_two as (Hnd & Hlen & Hne).
  pose proof (pget_mem _ _ _ Hme) as Hin. pose proof (pget_mem _ _ _ Hopp) as Hin'.
  assert (Hko : k ≠ oppId) by congruence.
  destruct (game_pairs rm k me oppId opp Hinv Hin Hin' Hko) as [Hon _].
  destruct (Hon r c Hr Hc) as (x & w & Hx & _ & Hcase).
  rewrite Hmark in Hx. inversion Hx; subst x.
  assert (mark = 0) as -> by lia.
  rewrite (shots_store2 _ _ _ _ _ Hm Hmark Hv).
  destruct (Hfair k me oppId opp Hin Hin' Hko) as [Hb _].
  specialize (Hb Hph Hturn). lia.
Qed.

(** After the shot the other player is to move, or the shooter has won. *)
Lemma fair_shot ps' ph' tn' wn' opp' :
  marks opp' = marks opp →
  ps' = pset oppId opp' (pset k (set_marks me m) (players rm))
  ∨ (opp' = opp ∧ ps' = pset k (set_marks me m) (players rm)) →
  (ph' = battle ∧ tn' = Some oppId) ∨ (ph' = gameover ∧ wn' = Some k) →
  fair {| createdAt := createdAt rm; phase := ph'; turn := tn'; winner := wn';
          players := ps' |}.
Proof.
  intros Hsame Hps Hout. destruct shot_two as (Hnd & Hlen & Hne).
  pose proof shot_counts as Hcount.
  assert (Hmem : ∀ x px, (x, px) ∈ ps' →
            (x = k ∧ marks px = m) ∨ (x = oppId ∧ marks px = marks opp)).
  { intros x px Hx.
    destruct (shot_players (players rm) k me oppId opp (set_marks me m) opp'
                Hnd Hlen Hme Hopp Hne x px) as [[-> ->]|[-> ->]].
    - destruct Hps as [->|[-> ->]]; [by left|by right].
    - by left.
    - right. by split. }
  intros x px y py Hx Hy Hxy. cbn [players phase turn winner] in *.
  destruct (Hmem x px Hx) as [[-> Hmx]|[-> Hmx]];
    destruct (Hmem y py Hy) as [[-> Hmy]|[-> Hmy]]; try congruence;
    rewrite Hmx, Hmy; destruct Hout as [[-> ->]|[-> ->]];
    (split; [intros Hp Ht|intros Hp Hw]); try discriminate; try congruence; try lia.
Qed.

End Shot.

Lemma fair_step rm rm' : game_inv rm → fair rm → room_step rm rm' → fair rm'.
Proof.
  intros Hinv Hfair Hstep.
  pose proof Hinv as (_ & Hnd & _ & _ & Hpl & Hnp & _).
  destruct Hstep as [rm pid Hroom|rm k p payload cb cs rdy Hph Hp Hclean|rm n Hph Hready Hn
                    |rm k me oppId opp r c mark m Hph Hturn Hme Hother Hopp Hr Hc Hmark
                       H2 H3 Hcell Hm
                    |rm k me oppId opp r c mark cellId m ss Hph Hturn Hme Hother Hopp Hr Hc
                       Hmark H2 H3 Hcell Hne Hm Hss].
  - assert (Hplacing : phase rm = placing).
    { destruct (phase rm) eqn:Hph; [reflexivity| |];
        (destruct Hnp as (Hlen & _); [discriminate|]);
        rewrite length_players in Hroom; lia. }
    intros x px y py _ _ _. cbn [set_players phase]. rewrite Hplacing.
    split; intros; discriminate.
  - intros x px y py _ _ _. cbn [set_players phase]. rewrite Hph.
    split; intros; discriminate.
  - destruct (Hpl Hph) as (_ & _ & Hun).
    intros x px y py Hx Hy _. cbn [players phase] in *.
    destruct (Hun x px Hx) as [-> _]. destruct (Hun y py Hy) as [-> _].
    rewrite shots_empty. split; [intros; lia|intros; discriminate].
  - apply (fair_shot rm k oppId me opp r c mark m 3 Hinv Hfair Hph Hturn Hme Hother Hopp
             Hr Hc Hmark H2 H3 ltac:(lia) Hm _ (phase rm) (Some oppId) (winner rm) opp
             eq_refl).
    + right. by split.
    + left. by split.
  - destruct (forallb sunk ss).
    + apply (fair_shot rm k oppId me opp r c mark m 2 Hinv Hfair Hph Hturn Hme Hother Hopp
               Hr Hc Hmark H2 H3 ltac:(lia) Hm _ gameover (turn rm) (Some k)
               (set_ships opp ss) eq_refl).
      * by left.
      * right. by split.
    + apply (fair_shot rm k oppId me opp r c mark m 2 Hinv Hfair Hph Hturn Hme Hother Hopp
               Hr Hc Hmark H2 H3 ltac:(lia) Hm _ (phase rm) (Some oppId) (winner rm)
               (set_ships opp ss) eq_refl).
      * by left.
      * left. by split.
Qed.

Lemma room_reachable_fair rm : room_reachable rm → fair rm.
Proof.
  induction 1 as [t|rm rm' Hreach IH Hstep].
  - intros k p k' p' H. inversion H.
  - apply (fair_step rm); [by apply room_reachable_inv|exact IH|exact Hstep].
Qed.

Lemma final_players :
  ("A"%string, Game.player "A" Game.final) ∈ players (Game.the_room Game.final)
  ∧ ("B"%string, Game.player "B" Game.final) ∈ players (Game.the_room Game.final).
Proof. split; apply pget_mem; vm_compute; reflexivity. Qed.

(** X28: turns alternate.  In every reachable state, of two players of a
    room neither has fired more than one shot more than the other, and in
    a battle the player whose turn it is has not fired more shots than the
    opponent: nobody moves twice in a row, hit or miss.  The shots of a
    player are the marked cells of the player's marks grid. *)
Theorem turns_alternate (s : Server) (code : string) (rm : Room)
    (k k' : string) (p p' : Player) :
  reachable s → rooms s !! code = Some rm →
  (k, p) ∈ players rm → (k', p') ∈ players rm → k ≠ k' →
  (shots (marks p) ≤ S (shots (marks p')))%nat
  ∧ (phase rm = battle → turn rm = Some k →
       (shots (marks p) ≤ shots (marks p'))%nat).
Proof.
  intros Hs Hrm Hin Hin' Hne.
  pose proof (reachable_game_inv s code rm Hs Hrm) as Hinv.
  pose proof (room_reachable_fair rm (reachable_rooms s Hs code rm Hrm)) as Hfair.
  pose proof Hinv as (_ & Hnd & _ & _ & Hpl & Hnp & _ & Hgo).
  destruct (Hfair k p k' p' Hin Hin' Hne) as [Hb Hg].
  destruct (Hfair k' p' k p Hin' Hin ltac:(congruence)) as [Hb' Hg'].
  split; [|intros Hph Ht; specialize (Hb Hph Ht); lia].
  destruct (phase rm) eqn:Hph.
  - destruct (Hpl eq_refl) as (_ & _ & Hun).
    destruct (Hun k p Hin) as [-> _]. rewrite shots_empty. lia.
  - destruct Hnp as (Hlen & _ & (kt & Ht & Hkt) & _); [discriminate|].
    destruct (decide (kt = k)) as [->|Hk]; [specialize (Hb eq_refl Ht); lia|].
    assert (kt = k') as ->.
    { apply (third_key (keys (players rm)) k k' kt); try assumption.
      - by rewrite length_players.
      - by eapply mem_keys.
      - by eapply mem_keys. }
    specialize (Hb' eq_refl Ht). lia.
  - destruct (Hgo eq_refl) as (w & l & pl & Hw & Hwk & _).
    destruct Hnp as (Hlen & _); [discriminate|].
    destruct (decide (w = k)) as [->|Hk]; [specialize (Hg eq_refl Hw); lia|].
    assert (w = k') as ->.
    { apply (third_key (keys (players rm)) k k' w); try assumption.
      - by rewrite length_players.
      - by eapply mem_keys.
      - by eapply mem_keys. }
    specialize (Hg' eq_refl Hw). lia.
Qed.

Lemma turns_alternate_witness :
  (shots (marks (Game.player "A" Game.final))
   ≤ S (shots (marks (Game.player "B" Game.final))))%nat
  ∧ (phase (Game.the_room Game.final) = battle →
     turn (Game.the_room Game.final) = Some "A"%string →
     (shots (marks (Game.player "A" Game.final))
      ≤ shots (marks (Game.player "B" Game.final)))%nat).
Proof.
  apply (turns_alternate Game.final "123456" (Game.the_room Game.final) "A" "B").
  - exact game_reachable.
  - vm_compute. reflexivity.
  - exact (proj1 final_players).
  - exact (proj2 final_players).
  - discriminate.
Defined.

(** *** A finished game *)




(** *** A shot that is allowed *)

Lemma small_coordinate (x : Z) : 0 ≤ x < SIZE → clamp (toInt32 x) 0 (SIZE - 1) = x.
Proof.
  unfold SIZE. intros Hx. assert (Hi : toInt32 x = x).
  { unfold toInt32. rewrite Z.mod_small; lia. }
  rewrite Hi. unfold clamp. lia.
Qed.

(** X30: a shot that is allowed is carried out.  In a reachable state
    let a socket be bound to a room in battle as the player whose turn it
    is, with an opponent in the room, and let its FIRE at a cell of the
    grid that it has not marked yet pass the rate limiter.  Then the
    handler returns, the cell is marked in the player's marks grid as a
    hit or a miss, no other mark changes, and either the turn passes to
    the opponent or the game is over and the player has won. *)
Theorem allowed_shot_is_carried_out (s : Server) (env : Env) (h : nat) (ws : Conn)
    (code k oppId : string) (rm : Room) (me : Player) (r c : Z) :
  reachable s →
  (RateLimit.ok (now env) (okRate ws)).2 = true →
  truthy (room ws) = Some code → rooms s !! code = Some rm →
  playerId ws = Some k → phase rm = battle → turn rm = Some k →
  pget k (players rm) = Some me → otherPlayerId rm (Some k) = Some oppId →
  0 ≤ r < SIZE → 0 ≤ c < SIZE → lookup2 (marks me) r c = Some 0 →
  ∃ s' outs rm' me',
    on_message env h ws (Some (FIRE r c)) s = Some (s', outs)
    ∧ rooms s' !! code = Some rm' ∧ pget k (players rm') = Some me'
    ∧ (lookup2 (marks me') r c = Some 2 ∨ lookup2 (marks me') r c = Some 3)
    ∧ (∀ r' c', (r', c') ≠ (r, c) →
         lookup2 (marks me') r' c' = lookup2 (marks me) r' c')
    ∧ ((phase rm' = battle ∧ turn rm' = Some oppId)
       ∨ (phase rm' = gameover ∧ winner rm' = Some k)).
Proof.
  intros Hs Hpass Hcode Hrm Hpid Hph Hturn Hme Hother Hr Hc Hmark.
  pose proof (reachable_game_inv s code rm Hs Hrm) as Hroom.
  unfold on_message. destruct (RateLimit.ok (now env) (okRate ws)) as [lim pass].
  cbn [snd] in Hpass. subst pass. cbn [negb handle].
  set (ws1 := {| room := room ws; playerId := playerId ws; okRate := lim |}).
  set (s1 := {| rooms := rooms s; clients := cset h ws1 (clients s) |}).
  unfold handle_fire. cbn [room playerId ws1]. rewrite Hcode.
  unfold getRoom. cbn [room ws1]. rewrite Hcode. cbn [mbind option_bind rooms s1].
  rewrite Hrm. rewrite (bool_decide_eq_true_2 (phase rm = battle) Hph).
  assert (Ht : turn rm = playerId ws) by congruence.
  rewrite (bool_decide_eq_true_2 _ Ht), Hpid. cbn [negb mbind option_bind].
  rewrite Hme. cbn [fmap option_fmap option_map]. rewrite Hother.
  destruct (otherPlayerId_player rm (Some k) oppId Hother) as [opp Hopp].
  rewrite Hopp. cbn [mbind option_bind]. cbv zeta.
  rewrite !small_coordinate by assumption. rewrite Hmark.
  cbn [mbind option_bind Z.eqb orb Pos.eqb].
  destruct (otherPlayerId_key rm k oppId Hother) as [_ Hne].
  pose proof Hroom as (Hwf & _ & _ & Hfleet & _).
  pose proof (pget_mem _ _ _ Hme) as Hin. pose proof (pget_mem _ _ _ Hopp) as Hin'.
  destruct (wf_room_mem rm oppId opp Hwf Hin') as [Hshb _].
  destruct (shaped_lookup2 (board opp) r c Hshb Hr Hc) as [cellId Hcell].
  rewrite Hcell. cbn [mbind option_bind].
  assert (Hfinish : ∀ rm0, game_inv rm0 →
            ∃ o, broadcastRoom (set_room s1 code rm0) (room ws) = Some o).
  { intros rm0 Hrm0.
    destruct (broadcastRoom_total (set_room s1 code rm0) (room ws)) as [o Ho];
      [|by exists o].
    intros k0 rm1 Hk0 Hrm1. apply truthy_Some in Hcode. rewrite Hcode in Hk0.
    inversion Hk0; subst k0. cbn in Hrm1. rewrite lookup_insert_eq in Hrm1.
    inversion Hrm1; subst. by destruct Hrm0. }
  assert (Hlook : ∀ rm0, rooms (set_room s1 code rm0) !! code = Some rm0).
  { intros rm0. cbn. apply lookup_insert_eq. }
  destruct (Z.eqb_spec cellId EMPTY) as [->|Hnz].
  - pose proof (store2_wr (marks me) r c 3 0 Hmark) as Hst. rewrite Hst.
    cbn [mbind option_bind].
    match goal with |- context [set_room s1 code ?x] => set (rm' := x) end.
    destruct (Hfinish rm') as [o Ho].
    { apply (game_inv_miss rm k me oppId opp r c 0); try assumption; lia. }
    rewrite Ho. cbn [mbind option_bind].
    exists (set_room s1 code rm'), o, rm', (set_marks me (wr (marks me) r c 3)).
    split; [reflexivity|]. split; [apply Hlook|].
    split; [apply pget_pset_eq|]. cbn [set_marks marks].
    split; [right; rewrite (lookup2_store2 _ _ _ _ _ r c Hst); by rewrite decide_True|].
    split; [|left; split; [exact Hph|reflexivity]].
    intros r' c' Hrc. rewrite (lookup2_store2 _ _ _ _ _ r' c' Hst). by rewrite decide_False.
  - pose proof (store2_wr (marks me) r c 2 0 Hmark) as Hst. rewrite Hst.
    cbn [mbind option_bind].
    destruct (fleet_cell opp r c cellId (Hfleet oppId opp Hin') Hr Hc Hcell Hnz)
      as (_ & Hex & _).
    destruct (hit_ship_total cellId r c (ships opp) Hex) as [ss Hss].
    rewrite Hss. cbn [mbind option_bind].
    pose proof (game_inv_hit rm k me oppId opp r c 0 cellId _ ss Hroom Hph Hturn Hme
                  Hother Hopp Hr Hc Hmark ltac:(lia) ltac:(lia) Hcell Hnz Hst Hss) as Hnext.
    assert (Hk : ∀ ps, pget k (pset oppId (set_ships opp ss)
                                 (pset k (set_marks me (wr (marks me) r c 2)) ps))
                       = Some (set_marks me (wr (marks me) r c 2))).
    { intros ps. rewrite pget_pset_ne by congruence. apply pget_pset_eq. }
    destruct (forallb sunk ss); cbn [mbind option_bind];
      match goal with |- context [set_room s1 code ?x] => set (rm' := x) end;
      (destruct (Hfinish rm' Hnext) as [o Ho]); rewrite Ho; cbn [mbind option_bind];
      exists (set_room s1 code rm'), o, rm', (set_marks me (wr (marks me) r c 2));
      (split; [reflexivity|]); (split; [apply Hlook|]); (split; [apply Hk|]);
      cbn [set_marks marks];
      (split; [left; rewrite (lookup2_store2 _ _ _ _ _ r c Hst); by rewrite decide_True|]);
      (split; [intros r' c' Hrc; rewrite (lookup2_store2 _ _ _ _ _ r' c' Hst);
               by rewrite decide_False|]).
    + right. by split.
    + left. split; [exact Hph|reflexivity].
Qed.

Lemma allowed_shot_is_carried_out_witness :
  ∃ s' outs rm' me',
    on_message (Game.at_time 38 "") 1 (Game.socket 1 Game.before_last)
               (Some (FIRE 9 9)) Game.before_last = Some (s', outs)
    ∧ rooms s' !! "123456"%string = Some rm'
    ∧ pget "A"%string (players rm') = Some me'
    ∧ (lookup2 (marks me') 9 9 = Some 2 ∨ lookup2 (marks me') 9 9 = Some 3)
    ∧ (∀ r' c', (r', c') ≠ (9, 9) →
         lookup2 (marks me') r' c'
         = lookup2 (marks (Game.player "A" Game.before_last)) r' c')
    ∧ ((phase rm' = battle ∧ turn rm' = Some "B"%string)
       ∨ (phase rm' = gameover ∧ winner rm' = Some "A"%string)).
Proof.
  apply (allowed_shot_is_carried_out Game.before_last (Game.at_time 38 "") 1
           (Game.socket 1 Game.before_last) "123456" "A" "B"
           (Game.the_room Game.before_last) (Game.player "A" Game.before_last) 9 9).
  - exact before_last_reachable.
  - vm_compute. reflexivity.
  - vm_compute. reflexivity.
  - vm_compute. reflexivity.
  - vm_compute. reflexivity.
  - vm_compute. reflexivity.
  - vm_compute. reflexivity.
  - vm_compute. reflexivity.
  - vm_compute. reflexivity.
  - unfold SIZE. lia.
  - unfold SIZE. lia.
  - vm_compute. reflexivity.
Defined.

End TurnFacts.
